(** * Smudge: a shallow embedding of the membership core

    The development follows the Go sources of the library: the failure
    detector and the datagram handlers (the file that declares [Begin],
    [receiveMessageUDP], [startTimeoutCheckLoop], [transmitVerbGenericUDP]
    and [updateStatusesFromMessage]) and the registry front-end (the file
    that declares [AddNode], [RemoveNode], [getRandomUpdatedNodes] and
    [updateNodeStatus]).

    Go's shared mutable objects are kept shared: a [*Node] is a location
    of a heap, the registries map addresses to locations, and pending
    acknowledgements and message members hold locations.  Global
    variables are the fields of [World].  Functions are written in a
    state-and-panic monad [Go]. *)

From Stdlib Require Import ZArith QArith Qround Lia.
From stdpp Require Import base option list gmap strings pretty.

Local Open Scope Z_scope.

(** ** Machine integers *)

(** [uint32] arithmetic wraps modulo 2^32. *)
Definition wrap32 (z : Z) : Z := z mod 2 ^ 32.

(** [int8] arithmetic wraps into [-128, 127]. *)
Definition wrap8 (z : Z) : Z := (z + 128) mod 256 - 128.

(** ** Node statuses, verbs, pending-ack kinds *)

Inductive NodeStatus : Set :=
| StatusUnknown
| StatusAlive
| StatusDead
| StatusForwardTo.

#[global] Instance NodeStatus_eq_dec : EqDecision NodeStatus.
Proof. solve_decision. Defined.

Inductive messageVerb : Set :=
| verbPing
| verbAck
| verbPingRequest
| verbNonForwardingPing.

#[global] Instance messageVerb_eq_dec : EqDecision messageVerb.
Proof. solve_decision. Defined.

(** [packPing], [packPingReq], [packNFP]: the [iota] constants. *)
Inductive pendingAckType : Set :=
| packPing
| packPingReq
| packNFP.

#[global] Instance pendingAckType_eq_dec : EqDecision pendingAckType.
Proof. solve_decision. Defined.

(** ** Nodes *)

(** A [*Node]: a location of the node heap. *)
Definition ptr : Set := positive.

Module Node.
(** Modelled from the spec: the [Node] struct (its declaration is not
    among the sources); fields as the data model lists them and as the
    code reads and writes them: [ip] the four bytes of the IPv4, [port]
    a u16, [heartbeat] and [timestamp] u32, [pingMillis] an int,
    [emitCounter] an int8. *)
Record t : Set := mk {
  ip : list Z;
  port : Z;
  status : NodeStatus;
  heartbeat : Z;
  timestamp : Z;
  pingMillis : Z;
  emitCounter : Z
}.

(** Modelled from the spec: [Address] is ["ip:port"], the registry key. *)
Definition Address (n : t) : string :=
  String.concat "." (pretty <$> ip n) +:+ ":" +:+ pretty (port n).

Definition with_status (s : NodeStatus) (n : t) : t :=
  mk (ip n) (port n) s (heartbeat n) (timestamp n) (pingMillis n) (emitCounter n).
Definition with_heartbeat (h : Z) (n : t) : t :=
  mk (ip n) (port n) (status n) h (timestamp n) (pingMillis n) (emitCounter n).
Definition with_timestamp (ts : Z) (n : t) : t :=
  mk (ip n) (port n) (status n) (heartbeat n) ts (pingMillis n) (emitCounter n).
Definition with_pingMillis (p : Z) (n : t) : t :=
  mk (ip n) (port n) (status n) (heartbeat n) (timestamp n) p (emitCounter n).
Definition with_emitCounter (e : Z) (n : t) : t :=
  mk (ip n) (port n) (status n) (heartbeat n) (timestamp n) (pingMillis n) e.
End Node.

(** ** Messages *)

Module Broadcast.
(** Modelled from the spec: a user broadcast carries an opaque payload
    and its own emit counter (the declaration is not among the
    sources). *)
Record t : Set := mk {
  payload : list Z;
  emitCounter : Z
}.
End Broadcast.

Module messageMember.
(** Modelled from the spec: a member record of a message, as the code
    reads it ([m.node], [m.status], [m.heartbeat]). *)
Record t : Set := mk {
  heartbeat : Z;
  node : ptr;
  status : NodeStatus
}.
End messageMember.

Module message.
(** Modelled from the spec: a decoded datagram, as the code reads it. *)
Record t : Set := mk {
  verb : messageVerb;
  sender : ptr;
  senderHeartbeat : Z;
  members : list messageMember.t;
  broadcast : option Broadcast.t
}.

(** Modelled from the spec: [newMessage] has no member and no broadcast. *)
Definition newMessage (v : messageVerb) (s : ptr) (code : Z) : t :=
  mk v s code [] None.

(** Modelled from the spec: [addMember] appends a member record; the
    member count travels in one byte, so a 256th record is refused. *)
Definition addMember (m : t) (n : ptr) (s : NodeStatus) (code : Z) : option t :=
  if decide (255 <= Z.of_nat (length (members m)))
  then None
  else Some (mk (verb m) (sender m) (senderHeartbeat m)
                (members m ++ [messageMember.mk code n s]) (broadcast m)).

Definition addBroadcast (m : t) (b : Broadcast.t) : t :=
  mk (verb m) (sender m) (senderHeartbeat m) (members m) (Some b).
End message.

(** ** Pending acknowledgements and dead-node counters *)

Module pendingAck.
Record t : Set := mk {
  startTime : Z;
  node : ptr;
  callback : option ptr;
  callbackCode : Z;
  packType : pendingAckType
}.
End pendingAck.

Module deadNodeCounter.
Record t : Set := mk {
  retry : Z;
  retryCountdown : Z
}.
End deadNodeCounter.

Definition maxDeadNodeRetries : Z := 10.

(** [timeoutToleranceSigmas = 3.0] *)
Definition timeoutToleranceSigmas : Q := 3.

(** ** What the program prints, sends and starts *)

Inductive LogLevel : Set := LTrace | LDebug | LInfo | LWarn | LError.

(** One constructor per logging call of the modelled functions, with the
    values the call formats. *)
Inductive LogLine : Set :=
| DecreasingHeartbeat (old new : Z)
| UpdatingHost (address : string) (s : NodeStatus)
| NoStatusSettingAlive (address : string)
| AddingHost (address : string)
| RemovingHost (address : string)
| RemovingFromUpdated (address : string)
| GotMessage (v : messageVerb) (address : string) (code : Z)
| MessageIsOld (known got : Z)
| HeartbeatAdvanced (old new : Z)
| ForgettingDeadNode (address : string)
| HostsRound (hb : Z)
| FailureToPing (address : string)
| CannotForward (address : string)
| RequestingIndirectPing (target via : string)
| DroppedPingReq (key : string) (timeoutMillis : Z)
| DroppedNFP (key : string) (timeoutMillis : Z)
| GotAck (elapsedMillis : Z)
| SentTo (v : messageVerb) (address : string).

(** The goroutines the modelled functions start with [go]. *)
Inductive Goroutine : Set :=
| GoDoForwardOnTimeout (pack : pendingAck.t)
| GoTransmitVerbAckUDP (node : ptr) (code : Z).

Inductive Event : Set :=
| Log (lvl : LogLevel) (line : LogLine)
| StatusUpdate (node : ptr) (s : NodeStatus)
| Datagram (dest : string) (msg : message.t)
| Spawn (g : Goroutine)
| Sleep (millis : Z).

(** Outcome of the three fallible socket calls of one transmission. *)
Record NetOutcome : Set := mkNet {
  resolveOk : bool;
  dialOk : bool;
  writeOk : bool
}.

Inductive error : Set :=
| ErrResolve
| ErrDial
| ErrWrite
| ErrMemberOverflow.

(** ** The collaborators of the core

    What the modelled functions call and the sources do not contain is
    taken abstractly: every theorem below holds for any choice of them. *)
Class Collaborators : Type := {
  (** the ping-RTT estimator ([pingdata]) *)
  pingData : Type;
  (** [pd.add(datapoint)] *)
  pingData_add : Z -> pingData -> pingData;
  (** [pd.data()], mean and standard deviation, as rationals *)
  pingData_data : pingData -> Q * Q;
  (** [pd.nSigma(sigmas)], a finite float64 taken as the rational it is *)
  pingData_nSigma : pingData -> Q -> Q;
  (** [int((lambda * math.Log(float64(n))) + 0.5)], in terms of [n] *)
  lambdaLogCount : nat -> Z;
  (** the order the [k]-th random draw, or iteration of a Go map, takes *)
  shuffle : nat -> forall A : Type, list A -> list A;
  (** what the [k]-th call of [GetNowInMillis] returns *)
  millis : nat -> Z;
  (** how the sockets behave for the [k]-th transmission *)
  network : nat -> NetOutcome;
  (** [GetHeartbeatMillis()] *)
  heartbeatMillis : Z;
  (** the sentinel [PingTimedOut] of [pingMillis] *)
  PingTimedOut : Z;
  (** the store of pending user broadcasts *)
  broadcastStore : Type;
  (** [getBroadcastToEmit()]: the chosen broadcast and its label, if any,
      and the store after its pruning *)
  getBroadcastToEmit : broadcastStore -> option (string * Broadcast.t) * broadcastStore;
  (** [broadcast.emitCounter--] on the broadcast with the given label *)
  broadcast_decrement : string -> broadcastStore -> broadcastStore;
  (** [receiveBroadcast(msg.broadcast)] *)
  receiveBroadcast : option Broadcast.t -> broadcastStore -> broadcastStore;
  (** the implementation-dependent result of converting to [uint32] a
      float64 that [uint32] cannot represent *)
  uint32_unrepresentable : Q -> Z;
  (** the same for [int(math.Pow(2.0, float64(retry)))] past 2^62 *)
  int_unrepresentable : Z -> Z
}.

Section Smudge.

Context `{C : Collaborators}.

(** ** The global state *)

Record World : Type := mkWorld {
  heap : gmap ptr Node.t;
  knownNodes : gmap string ptr;
  updatedNodes : gmap string ptr;
  deadNodeRetries : gmap string deadNodeCounter.t;
  pendingAcks : gmap string pendingAck.t;
  currentHeartbeat : Z;
  thisHost : ptr;
  knownNodesModifiedFlag : bool;
  runningFlag : bool;
  pingdata : pingData;
  broadcasts : broadcastStore;
  (** number of clock reads, random draws and transmissions so far *)
  ticks : nat;
  draws : nat;
  sends : nat;
  (** everything logged, notified, sent and spawned, latest first *)
  events : list Event
}.

Definition set_heap (f : gmap ptr Node.t -> gmap ptr Node.t) (w : World) : World :=
  mkWorld (f (heap w)) (knownNodes w) (updatedNodes w) (deadNodeRetries w)
    (pendingAcks w) (currentHeartbeat w) (thisHost w) (knownNodesModifiedFlag w)
    (runningFlag w) (pingdata w) (broadcasts w) (ticks w) (draws w) (sends w) (events w).
Definition set_knownNodes (f : gmap string ptr -> gmap string ptr) (w : World) : World :=
  mkWorld (heap w) (f (knownNodes w)) (updatedNodes w) (deadNodeRetries w)
    (pendingAcks w) (currentHeartbeat w) (thisHost w) (knownNodesModifiedFlag w)
    (runningFlag w) (pingdata w) (broadcasts w) (ticks w) (draws w) (sends w) (events w).
Definition set_updatedNodes (f : gmap string ptr -> gmap string ptr) (w : World) : World :=
  mkWorld (heap w) (knownNodes w) (f (updatedNodes w)) (deadNodeRetries w)
    (pendingAcks w) (currentHeartbeat w) (thisHost w) (knownNodesModifiedFlag w)
    (runningFlag w) (pingdata w) (broadcasts w) (ticks w) (draws w) (sends w) (events w).
Definition set_deadNodeRetries
    (f : gmap string deadNodeCounter.t -> gmap string deadNodeCounter.t) (w : World) : World :=
  mkWorld (heap w) (knownNodes w) (updatedNodes w) (f (deadNodeRetries w))
    (pendingAcks w) (currentHeartbeat w) (thisHost w) (knownNodesModifiedFlag w)
    (runningFlag w) (pingdata w) (broadcasts w) (ticks w) (draws w) (sends w) (events w).
Definition set_pendingAcks
    (f : gmap string pendingAck.t -> gmap string pendingAck.t) (w : World) : World :=
  mkWorld (heap w) (knownNodes w) (updatedNodes w) (deadNodeRetries w)
    (f (pendingAcks w)) (currentHeartbeat w) (thisHost w) (knownNodesModifiedFlag w)
    (runningFlag w) (pingdata w) (broadcasts w) (ticks w) (draws w) (sends w) (events w).
Definition set_currentHeartbeat (h : Z) (w : World) : World :=
  mkWorld (heap w) (knownNodes w) (updatedNodes w) (deadNodeRetries w)
    (pendingAcks w) h (thisHost w) (knownNodesModifiedFlag w)
    (runningFlag w) (pingdata w) (broadcasts w) (ticks w) (draws w) (sends w) (events w).
Definition set_knownNodesModifiedFlag (b : bool) (w : World) : World :=
  mkWorld (heap w) (knownNodes w) (updatedNodes w) (deadNodeRetries w)
    (pendingAcks w) (currentHeartbeat w) (thisHost w) b
    (runningFlag w) (pingdata w) (broadcasts w) (ticks w) (draws w) (sends w) (events w).
Definition set_pingdata (f : pingData -> pingData) (w : World) : World :=
  mkWorld (heap w) (knownNodes w) (updatedNodes w) (deadNodeRetries w)
    (pendingAcks w) (currentHeartbeat w) (thisHost w) (knownNodesModifiedFlag w)
    (runningFlag w) (f (pingdata w)) (broadcasts w) (ticks w) (draws w) (sends w) (events w).
Definition set_broadcasts (f : broadcastStore -> broadcastStore) (w : World) : World :=
  mkWorld (heap w) (knownNodes w) (updatedNodes w) (deadNodeRetries w)
    (pendingAcks w) (currentHeartbeat w) (thisHost w) (knownNodesModifiedFlag w)
    (runningFlag w) (pingdata w) (f (broadcasts w)) (ticks w) (draws w) (sends w) (events w).
Definition set_ticks (n : nat) (w : World) : World :=
  mkWorld (heap w) (knownNodes w) (updatedNodes w) (deadNodeRetries w)
    (pendingAcks w) (currentHeartbeat w) (thisHost w) (knownNodesModifiedFlag w)
    (runningFlag w) (pingdata w) (broadcasts w) n (draws w) (sends w) (events w).
Definition set_draws (n : nat) (w : World) : World :=
  mkWorld (heap w) (knownNodes w) (updatedNodes w) (deadNodeRetries w)
    (pendingAcks w) (currentHeartbeat w) (thisHost w) (knownNodesModifiedFlag w)
    (runningFlag w) (pingdata w) (broadcasts w) (ticks w) n (sends w) (events w).
Definition set_sends (n : nat) (w : World) : World :=
  mkWorld (heap w) (knownNodes w) (updatedNodes w) (deadNodeRetries w)
    (pendingAcks w) (currentHeartbeat w) (thisHost w) (knownNodesModifiedFlag w)
    (runningFlag w) (pingdata w) (broadcasts w) (ticks w) (draws w) n (events w).
Definition set_events (f : list Event -> list Event) (w : World) : World :=
  mkWorld (heap w) (knownNodes w) (updatedNodes w) (deadNodeRetries w)
    (pendingAcks w) (currentHeartbeat w) (thisHost w) (knownNodesModifiedFlag w)
    (runningFlag w) (pingdata w) (broadcasts w) (ticks w) (draws w) (sends w) (f (events w)).

(** ** The monad of Go code: state, and panics *)

Inductive result (A : Type) : Type :=
| Ok (a : A) (w : World)
| Panic (why : string).
Arguments Ok {A} a w.
Arguments Panic {A} why.

Definition Go (A : Type) : Type := World -> result A.

#[global] Instance Go_ret : MRet Go := fun A a w => Ok a w.
#[global] Instance Go_bind : MBind Go := fun A B f m w =>
  match m w with
  | Ok a w' => f a w'
  | Panic why => Panic why
  end.

Definition get {A : Type} (f : World -> A) : Go A := fun w => Ok (f w) w.
Definition modify (f : World -> World) : Go unit := fun w => Ok tt (f w).
Definition panic {A : Type} (why : string) : Go A := fun _ => Panic why.
Definition emit (e : Event) : Go unit := modify (set_events (cons e)).
Definition log (lvl : LogLevel) (line : LogLine) : Go unit := emit (Log lvl line).
Definition when (b : bool) (m : Go unit) : Go unit := if b then m else mret tt.

(** [for _, x := range l { body x }] *)
Fixpoint forEach {A : Type} (l : list A) (body : A -> Go unit) : Go unit :=
  match l with
  | [] => mret tt
  | x :: l' => body x ;; forEach l' body
  end.

(** ** Primitives *)

(** Reading through a [*Node]; a location outside the heap is a nil or
    dangling pointer, and reading through it panics. *)
Definition deref (p : ptr) : Go Node.t := fun w =>
  match heap w !! p with
  | Some n => Ok n w
  | None => Panic "invalid memory address or nil pointer dereference"
  end.

(** Writing through a [*Node]. *)
Definition update (p : ptr) (f : Node.t -> Node.t) : Go unit :=
  n ← deref p; modify (set_heap <[p := f n]>).

(** [GetNowInMillis()], a uint32. *)
Definition GetNowInMillis : Go Z := fun w =>
  Ok (wrap32 (millis (ticks w))) (set_ticks (S (ticks w)) w).

(** [node.Address()] *)
Definition Address (p : ptr) : Go string := n ← deref p; mret (Node.Address n).

(** Modelled from the spec: [n.Touch()] refreshes the timestamp only. *)
Definition Touch (p : ptr) : Go unit :=
  n ← deref p; now ← GetNowInMillis; modify (set_heap <[p := Node.with_timestamp now n]>).

(** *** The registry type [nodeMap]

    Modelled from the spec: a mapping from address to node, unique by
    address (the type's methods are not among the sources). *)

Definition nodeMap_contains (m : World -> gmap string ptr) (p : ptr) : Go bool :=
  a ← Address p; nodes ← get m; mret (bool_decide (is_Some (nodes !! a))).

(** The next random order of a list. *)
Definition draw {A : Type} (l : list A) : Go (list A) := fun w =>
  Ok (shuffle (draws w) A l) (set_draws (S (draws w)) w).

(** [values()]: the nodes of the map, in the order the iteration of a Go
    map happens to take. *)
Definition nodeMap_values (m : World -> gmap string ptr) : Go (list ptr) :=
  nodes ← get m; draw (snd <$> map_to_list nodes).

Definition addressIn (excluded : list string) (n : Node.t) : bool :=
  bool_decide (Node.Address n ∈ excluded).

(** Keep the nodes whose address is not excluded. *)
Fixpoint withoutExcluded (excluded : list string) (l : list ptr) : Go (list ptr) :=
  match l with
  | [] => mret []
  | p :: l' =>
      n ← deref p;
      rest ← withoutExcluded excluded l';
      mret (if addressIn excluded n then rest else p :: rest)
  end.

Fixpoint addresses (l : list ptr) : Go (list string) :=
  match l with
  | [] => mret []
  | p :: l' => a ← Address p; rest ← addresses l'; mret (a :: rest)
  end.

(** Modelled from the spec: [getRandomNodes(count, exclude...)] returns up
    to [count] (all if [count == 0]) distinct nodes of the registry, in
    random order, without the excluded addresses. *)
Definition nodeMap_getRandomNodes (m : World -> gmap string ptr)
    (size : Z) (exclude : list ptr) : Go (list ptr) :=
  allNodes ← nodeMap_values m;
  excluded ← addresses exclude;
  filtered ← withoutExcluded excluded allNodes;
  mret (if decide (size = 0) then filtered else take (Z.to_nat size) filtered).

(** [knownNodes.length()] *)
Definition knownNodes_length : Go nat := get (fun w => size (knownNodes w)).

(** [emitCount()] and [pingRequestCount()] have the same body. *)
Definition emitCount : Go Z := n ← knownNodes_length; mret (lambdaLogCount n).
Definition pingRequestCount : Go Z := n ← knownNodes_length; mret (lambdaLogCount n).

(** Modelled from the spec: [doStatusUpdate] notifies the registered
    listener of the status change. *)
Definition doStatusUpdate (node : ptr) (s : NodeStatus) : Go unit :=
  emit (StatusUpdate node s).

(** ** The registry front-end *)

Definition updateNodeStatus (node : ptr) (s : NodeStatus) (heartbeat : Z) : Go unit :=
  n ← deref node;
  if decide (Node.status n ≠ s) then
    when (bool_decide (heartbeat < Node.heartbeat n))
      (log LWarn (DecreasingHeartbeat (Node.heartbeat n) heartbeat)) ;;
    now ← GetNowInMillis;
    update node (Node.with_timestamp now) ;;
    update node (Node.with_status s) ;;
    ec ← emitCount;
    update node (Node.with_emitCounter (wrap8 ec)) ;;
    update node (Node.with_heartbeat heartbeat) ;;
    (* If this isn't in the recently updated list, add it. *)
    a ← Address node;
    known ← nodeMap_contains updatedNodes node;
    when (negb known) (modify (set_updatedNodes <[a := node]>)) ;;
    when (bool_decide (s ≠ StatusDead)) (modify (set_deadNodeRetries (delete a))) ;;
    log LInfo (UpdatingHost a s) ;;
    doStatusUpdate node s
  else mret tt.

Definition UpdateNodeStatus (node : ptr) (s : NodeStatus) : Go unit :=
  n ← deref node; updateNodeStatus node s (Node.heartbeat n).

(** [AddNode] returns the node and a nil error on both paths; the model
    returns the node. *)
Definition AddNode (node : ptr) : Go ptr :=
  known ← nodeMap_contains knownNodes node;
  if negb known then
    n ← deref node;
    (if decide (Node.status n = StatusUnknown) then
       log LWarn (NoStatusSettingAlive (Node.Address n)) ;;
       UpdateNodeStatus node StatusAlive
     else if decide (Node.status n = StatusForwardTo) then
       panic "invalid status: FORWARD_TO"
     else mret tt) ;;
    Touch node ;;
    a ← Address node;
    modify (set_knownNodes <[a := node]>) ;;
    log LInfo (AddingHost a) ;;
    modify (set_knownNodesModifiedFlag true) ;;
    mret node
  else mret node.

Definition RemoveNode (node : ptr) : Go ptr :=
  known ← nodeMap_contains knownNodes node;
  if known : bool then
    Touch node ;;
    a ← Address node;
    modify (set_knownNodes (delete a)) ;;
    log LInfo (RemovingHost a) ;;
    modify (set_knownNodesModifiedFlag true) ;;
    mret node
  else mret node.

(** [for] with an accumulator (a local variable the body assigns). *)
Fixpoint forEachAcc {A B : Type} (l : list A) (acc : B) (body : B -> A -> Go B) : Go B :=
  match l with
  | [] => mret acc
  | x :: l' => acc' ← body acc x; forEachAcc l' acc' body
  end.

(** [sort.Sort(byNodeEmitCounter(slice))]: [Less(i, j)] is
    [a[i].emitCounter > a[j].emitCounter], so the larger counters come
    first.  The slice is paired with the counters the comparison reads. *)
Fixpoint insertByEmitCounter (x : Z * ptr) (l : list (Z * ptr)) : list (Z * ptr) :=
  match l with
  | [] => [x]
  | y :: l' => if decide (fst y < fst x) then x :: y :: l' else y :: insertByEmitCounter x l'
  end.

Definition sortByEmitCounter (l : list (Z * ptr)) : list (Z * ptr) :=
  foldr insertByEmitCounter [] l.

Fixpoint withEmitCounter (l : list ptr) : Go (list (Z * ptr)) :=
  match l with
  | [] => mret []
  | p :: l' => n ← deref p; rest ← withEmitCounter l'; mret ((Node.emitCounter n, p) :: rest)
  end.

(** The body of the first loop of [getRandomUpdatedNodes]: prune nodes
    with emit counters of 0 (or less) from the map; any others are copied
    into a secondary nodemap. *)
Definition pruneOrCopy (copy : gmap string ptr) (p : ptr) : Go (gmap string ptr) :=
  n ← deref p;
  if decide (Node.emitCounter n <= 0) then
    log LDebug (RemovingFromUpdated (Node.Address n)) ;;
    modify (set_updatedNodes (delete (Node.Address n))) ;;
    mret copy
  else mret (<[Node.Address n := p]> copy).

(** The body of its second loop: exclude the exclusions. *)
Definition excludeFrom (copy : gmap string ptr) (ex : ptr) : Go (gmap string ptr) :=
  a ← Address ex; mret (delete a copy).

Definition getRandomUpdatedNodes (size : Z) (exclude : list ptr) : Go (list ptr) :=
  values ← nodeMap_values updatedNodes;
  updatedNodesCopy ← forEachAcc values (∅ : gmap string ptr) pruneOrCopy;
  updatedNodesCopy ← forEachAcc exclude updatedNodesCopy excludeFrom;
  (* Put the newest nodes on top. *)
  updatedNodesSlice ← draw (snd <$> map_to_list updatedNodesCopy);
  keyed ← withEmitCounter updatedNodesSlice;
  let sorted := snd <$> sortByEmitCounter keyed in
  (* Grab and return the top N *)
  let size := if decide (size > Z.of_nat (length sorted))
              then Z.of_nat (length sorted) else size in
  if decide (size < 0) then panic "slice bounds out of range"
  else mret (take (Z.to_nat size) sorted).

(** The key of the pending-ack table:
    [node.Address() + ":" + strconv.FormatInt(int64(code), 10)]. *)
Definition pendingAckKey (address : string) (code : Z) : string :=
  address +:+ ":" +:+ pretty code.

(** A node after [n.emitCounter--], in int8. *)
Definition decremented (n : Node.t) : Node.t :=
  Node.with_emitCounter (wrap8 (Node.emitCounter n - 1)) n.

(** [n.emitCounter--] *)
Definition decrementEmitCounter (p : ptr) : Go unit := update p decremented.

(** The loop that attaches the chosen nodes: it stops at the first member
    the message refuses and returns that error. *)
Fixpoint attachMembers (nodes : list ptr) (msg : message.t) : Go (message.t + error) :=
  match nodes with
  | [] => mret (inl msg)
  | p :: rest =>
      n ← deref p;
      match message.addMember msg p (Node.status n) (Node.heartbeat n) with
      | None => mret (inr ErrMemberOverflow)
      | Some msg' => decrementEmitCounter p ;; attachMembers rest msg'
      end
  end.

Definition transmitVerbGenericUDP (node : ptr) (forwardTo : option ptr)
    (verb : messageVerb) (code : Z) : Go (option error) :=
  dest ← Address node;
  net ← get (fun w => network (sends w));
  modify (fun w => set_sends (S (sends w)) w) ;;
  if negb (resolveOk net) then mret (Some ErrResolve) else
  if negb (dialOk net) then mret (Some ErrDial) else
  self ← get thisHost;
  let msg := message.newMessage verb self code in
  let msg := match forwardTo with
             | Some f => default msg (message.addMember msg f StatusForwardTo code)
             | None => msg
             end in
  (* Add members for update. *)
  count ← pingRequestCount;
  nodes ← getRandomUpdatedNodes count [node; self];
  (* No updates to distribute? Send out a few updates on other known nodes. *)
  nodes ← (if decide (length nodes = 0%nat)
           then count ← pingRequestCount;
                nodeMap_getRandomNodes knownNodes count [node; self]
           else mret nodes);
  attached ← attachMembers nodes msg;
  match attached with
  | inr err => mret (Some err)
  | inl msg =>
      (* Emit counters for broadcasts can be less than 0. *)
      chosen ← get (fun w => getBroadcastToEmit (broadcasts w));
      modify (set_broadcasts (fun _ => snd chosen)) ;;
      msg ← match fst chosen with
            | Some (label, b) =>
                modify (set_broadcasts (broadcast_decrement label)) ;;
                mret (if decide (Broadcast.emitCounter b > 0)
                      then message.addBroadcast msg b else msg)
            | None => mret msg
            end;
      if negb (writeOk net) then mret (Some ErrWrite) else
      emit (Datagram dest msg) ;;
      (* Decrement the update counters on those nodes *)
      forEach (message.members msg) (fun m =>
        decrementEmitCounter (messageMember.node m)) ;;
      log LTrace (SentTo verb dest) ;;
      mret None
  end.

Definition transmitVerbForwardUDP (node downstream : ptr) (code : Z) : Go (option error) :=
  a ← Address node;
  now ← GetNowInMillis;
  let pack := pendingAck.mk now node (Some downstream) 0 packPingReq in
  modify (set_pendingAcks <[pendingAckKey a code := pack]>) ;;
  transmitVerbGenericUDP node (Some downstream) verbPingRequest code.

Definition transmitVerbAckUDP (node : ptr) (code : Z) : Go (option error) :=
  transmitVerbGenericUDP node None verbAck code.

Definition transmitVerbPingUDP (node : ptr) (code : Z) : Go (option error) :=
  a ← Address node;
  now ← GetNowInMillis;
  let pack := pendingAck.mk now node None 0 packPing in
  modify (set_pendingAcks <[pendingAckKey a code := pack]>) ;;
  transmitVerbGenericUDP node None verbPing code.

Definition PingNode (node : ptr) : Go (option error) :=
  hb ← get currentHeartbeat;
  err ← transmitVerbPingUDP node hb;
  a ← Address node;
  when (bool_decide (err ≠ None)) (log LInfo (FailureToPing a)) ;;
  mret err.

(** The loop of [getTargetNodes]: stop at [count] nodes, pass over the
    dead ones. *)
Fixpoint takeLive (count : Z) (randomNodes filteredNodes : list ptr) : Go (list ptr) :=
  match randomNodes with
  | [] => mret filteredNodes
  | p :: rest =>
      if decide (Z.of_nat (length filteredNodes) >= count) then mret filteredNodes
      else
        n ← deref p;
        if decide (Node.status n = StatusDead) then takeLive count rest filteredNodes
        else takeLive count rest (filteredNodes ++ [p])
  end.

Definition getTargetNodes (count : Z) (exclude : list ptr) : Go (list ptr) :=
  randomNodes ← nodeMap_getRandomNodes knownNodes 0 exclude;
  (* [make([]*Node, 0, count)] *)
  if decide (count < 0) then panic "makeslice: cap out of range"
  else takeLive count randomNodes [].

(** The body of the loop of [doForwardOnTimeout]: ask [n] for an indirect
    ping of the node of the entry. *)
Definition requestIndirectPing (pack : pendingAck.t) (n : ptr) : Go unit :=
  target ← Address (pendingAck.node pack);
  via ← Address n;
  log LDebug (RequestingIndirectPing target via) ;;
  hb ← get currentHeartbeat;
  transmitVerbForwardUDP n (pendingAck.node pack) hb ;;
  mret tt.

Definition doForwardOnTimeout (pack : pendingAck.t) : Go unit :=
  count ← pingRequestCount;
  self ← get thisHost;
  filteredNodes ← getTargetNodes count [self; pendingAck.node pack];
  if decide (length filteredNodes = 0%nat) then
    a ← Address self;
    log LDebug (CannotForward a) ;;
    hb ← get currentHeartbeat;
    updateNodeStatus (pendingAck.node pack) StatusDead hb
  else
    forEach filteredNodes (requestIndirectPing pack).

(** ** Receiving *)

(** [a.elapsed()]: [GetNowInMillis() - a.startTime], in uint32. *)
Definition elapsed (a : pendingAck.t) : Go Z :=
  now ← GetNowInMillis; mret (wrap32 (now - pendingAck.startTime a)).

Definition notePingResponseTime (pack : pendingAck.t) : Go unit :=
  (* Note the elapsed time *)
  elapsedMillis ← elapsed pack;
  update (pendingAck.node pack) (Node.with_pingMillis elapsedMillis) ;;
  (* For the purposes of timeout tolerance, we treat all pings less than
     10 as 10. *)
  let elapsedMillis := if decide (elapsedMillis < 10) then 10 else elapsedMillis in
  modify (set_pingdata (pingData_add elapsedMillis)) ;;
  log LTrace (GotAck elapsedMillis).

Definition receiveVerbAckUDP (msg : message.t) : Go (option error) :=
  a ← Address (message.sender msg);
  let key := pendingAckKey a (message.senderHeartbeat msg) in
  acks ← get pendingAcks;
  (if decide (is_Some (acks !! key)) then
     Touch (message.sender msg) ;;
     acks ← get pendingAcks;
     match acks !! key with
     | Some pack =>
         (* If this is a response to a requested ping, respond to the
            callback node *)
         match pendingAck.callback pack with
         | Some callback =>
             emit (Spawn (GoTransmitVerbAckUDP callback (pendingAck.callbackCode pack)))
         | None =>
             (* Note the ping response time. *)
             notePingResponseTime pack
         end
     | None => mret tt
     end ;;
     modify (set_pendingAcks (delete key))
   else mret tt) ;;
  mret None.

(** [len(msg.members) >= 0 && msg.members[0].status == StatusForwardTo]:
    the left operand holds of every slice, so the right one is always
    evaluated, and indexing an empty slice panics. *)
Definition receiveVerbForwardUDP (msg : message.t) : Go (option error) :=
  if decide (Z.of_nat (length (message.members msg)) >= 0) then
    match message.members msg !! 0%nat with
    | None => panic "index out of range [0] with length 0"
    | Some member =>
        if decide (messageMember.status member = StatusForwardTo) then
          let node := messageMember.node member in
          let code := messageMember.heartbeat member in
          a ← Address node;
          let key := pendingAckKey a code in
          now ← GetNowInMillis;
          let pack := pendingAck.mk now node (Some (message.sender msg)) code packNFP in
          modify (set_pendingAcks <[key := pack]>) ;;
          transmitVerbGenericUDP node None verbNonForwardingPing code
        else mret None
    end
  else mret None.

Definition receiveVerbPingUDP (msg : message.t) : Go (option error) :=
  transmitVerbAckUDP (message.sender msg) (message.senderHeartbeat msg).

Definition receiveVerbNonForwardPingUDP (msg : message.t) : Go (option error) :=
  transmitVerbAckUDP (message.sender msg) (message.senderHeartbeat msg).

(** The body of the loop of [updateStatusesFromMessage], for one member. *)
Definition updateStatusFromMember (m : messageMember.t) : Go unit :=
  n ← deref (messageMember.node m);
  (* If the heartbeat in the message is less then the heartbeat
     associated with the last known status, then we conclude that the
     message is old and we drop it. *)
  if decide (messageMember.heartbeat m < Node.heartbeat n) then
    log LDebug (MessageIsOld (Node.heartbeat n) (messageMember.heartbeat m))
  else
    match messageMember.status m with
    | StatusForwardTo =>
        (* The FORWARD_TO status isn't useful here, so we ignore those *)
        mret tt
    | StatusDead =>
        (* Don't tell ME I'm dead. *)
        a ← Address (messageMember.node m);
        self ← get thisHost;
        me ← Address self;
        if decide (a ≠ me) then
          updateNodeStatus (messageMember.node m) (messageMember.status m)
            (messageMember.heartbeat m) ;;
          AddNode (messageMember.node m) ;;
          mret tt
        else mret tt
    | _ =>
        updateNodeStatus (messageMember.node m) (messageMember.status m)
          (messageMember.heartbeat m) ;;
        AddNode (messageMember.node m) ;;
        mret tt
    end.

Definition updateStatusesFromMessage (msg : message.t) : Go unit :=
  forEach (message.members msg) updateStatusFromMember ;;
  (* Obviously, we know the sender is alive. Report it as such. *)
  s ← deref (message.sender msg);
  when (bool_decide (message.senderHeartbeat msg > Node.heartbeat s))
    (updateNodeStatus (message.sender msg) StatusAlive (message.senderHeartbeat msg)) ;;
  (* First, if we don't know the sender, we add it. *)
  known ← nodeMap_contains knownNodes (message.sender msg);
  when (negb known) (AddNode (message.sender msg) ;; mret tt).

(** The heartbeat synchronisation of [receiveMessageUDP]; the subtraction
    is guarded by [senderHeartbeat > 0] and does not wrap. *)
Definition synchronizeHeartbeats (msg : message.t) : Go unit :=
  hb ← get currentHeartbeat;
  if decide (message.senderHeartbeat msg > 0 ∧ message.senderHeartbeat msg - 1 > hb) then
    log LTrace (HeartbeatAdvanced hb (message.senderHeartbeat msg - 1)) ;;
    modify (set_currentHeartbeat (message.senderHeartbeat msg - 1))
  else mret tt.

(** [receiveMessageUDP], from the decoded message on. *)
Definition receiveMessageUDP (msg : message.t) : Go (option error) :=
  a ← Address (message.sender msg);
  log LTrace (GotMessage (message.verb msg) a (message.senderHeartbeat msg)) ;;
  (* Synchronize heartbeats *)
  synchronizeHeartbeats msg ;;
  updateStatusesFromMessage msg ;;
  modify (set_broadcasts (receiveBroadcast (message.broadcast msg))) ;;
  (* Handle the verb. *)
  match message.verb msg with
  | verbPing => receiveVerbPingUDP msg
  | verbAck => receiveVerbAckUDP msg
  | verbPingRequest => receiveVerbForwardUDP msg
  | verbNonForwardingPing => receiveVerbNonForwardPingUDP msg
  end.

(** ** The timeout checker *)

(** Discarding the fraction of a rational (rounding towards zero). *)
Definition Qtruncate (f : Q) : Z := Z.quot (Qnum f) (Zpos (Qden f)).

(** [uint32(f)] for a float64 [f]: the fraction is discarded; what a value
    outside of uint32 converts to depends on the implementation. *)
Definition uint32_of_float64 (f : Q) : Z :=
  let z := Qtruncate f in
  if decide (0 <= z < 2 ^ 32) then z else uint32_unrepresentable f.

(** The deadline an entry of the given kind is compared against. *)
Definition timeoutMillisOf (pd : pingData) (packType : pendingAckType) : Z :=
  let timeoutMillis := uint32_of_float64 (pingData_nSigma pd timeoutToleranceSigmas) in
  (* Ping requests are expected to take quite a bit longer.
     Just call it 2x for now. *)
  if decide (packType = packPingReq) then wrap32 (timeoutMillis * 2) else timeoutMillis.

(** A nil [*Node] cannot be read through. *)
Definition nonNil (p : option ptr) : Go ptr :=
  match p with
  | Some q => mret q
  | None => panic "invalid memory address or nil pointer dereference"
  end.

(** The body of the loop of [startTimeoutCheckLoop], for one entry. *)
Definition timeoutCheckEntry (k : string) (pack : pendingAck.t) : Go unit :=
  elapsed ← elapsed pack;
  pd ← get pingdata;
  let timeoutMillis := timeoutMillisOf pd (pendingAck.packType pack) in
  (* This pending ACK has taken longer than expected. Mark it as
     timed out. *)
  if decide (elapsed > timeoutMillis) then
    match pendingAck.packType pack with
    | packPing => emit (Spawn (GoDoForwardOnTimeout pack))
    | packPingReq =>
        log LDebug (DroppedPingReq k timeoutMillis) ;;
        callback ← nonNil (pendingAck.callback pack);
        known ← nodeMap_contains knownNodes callback;
        if known : bool then
          hb ← get currentHeartbeat;
          updateNodeStatus callback StatusDead hb ;;
          update callback (Node.with_pingMillis PingTimedOut)
        else mret tt
    | packNFP =>
        log LDebug (DroppedNFP k timeoutMillis) ;;
        known ← nodeMap_contains knownNodes (pendingAck.node pack);
        if known : bool then
          hb ← get currentHeartbeat;
          updateNodeStatus (pendingAck.node pack) StatusDead hb ;;
          callback ← nonNil (pendingAck.callback pack);
          update callback (Node.with_pingMillis PingTimedOut)
        else mret tt
    end ;;
    modify (set_pendingAcks (delete k))
  else mret tt.

(** One turn of the loop of [startTimeoutCheckLoop]: the sweep over the
    table, in the order the map iteration takes, and the sleep. *)
Definition timeoutCheckSweep : Go unit :=
  acks ← get pendingAcks;
  entries ← draw (map_to_list acks);
  forEach entries (fun e => timeoutCheckEntry (fst e) (snd e)) ;;
  emit (Sleep 100).

(** ** The failure detector *)

(** [int(math.Pow(2.0, float64(retry)))]: a power of two is exact in
    float64; for a negative [retry] the fraction is discarded, which
    leaves 0, as [Z.pow] does; past 2^62 the conversion is left to the
    implementation. *)
Definition pow2 (retry : Z) : Z :=
  if decide (retry <= 62) then 2 ^ retry else int_unrepresentable retry.

(** [int] arithmetic wraps modulo 2^64. *)
Definition wrapInt (z : Z) : Z := (z + 2 ^ 63) mod 2 ^ 64 - 2 ^ 63.

(** What the body of a [for] loop does to the loop. *)
Inductive flow : Set :=
| Fallthrough
| Continue
| Break.

#[global] Instance flow_eq_dec : EqDecision flow.
Proof. solve_decision. Defined.

(** The branch of the loop of [Begin] for a node whose status is
    [StatusDead]: exponential backoff of dead nodes, until such time as
    they are removed.  The counter is an object shared with the map: the
    writes through [dnc] are writes to the entry. *)
Definition backoffDeadNode (node : ptr) : Go flow :=
  a ← Address node;
  retries ← get deadNodeRetries;
  dnc ← match retries !! a with
        | Some dnc => mret dnc
        | None =>
            let dnc := deadNodeCounter.mk 1 2 in
            modify (set_deadNodeRetries <[a := dnc]>) ;;
            mret dnc
        end;
  let dnc := deadNodeCounter.mk (deadNodeCounter.retry dnc)
               (wrapInt (deadNodeCounter.retryCountdown dnc - 1)) in
  modify (set_deadNodeRetries <[a := dnc]>) ;;
  if decide (deadNodeCounter.retryCountdown dnc <= 0) then
    let retry := wrapInt (deadNodeCounter.retry dnc + 1) in
    let dnc := deadNodeCounter.mk retry (pow2 retry) in
    modify (set_deadNodeRetries <[a := dnc]>) ;;
    if decide (deadNodeCounter.retry dnc > maxDeadNodeRetries) then
      log LDebug (ForgettingDeadNode a) ;;
      modify (set_deadNodeRetries (delete a)) ;;
      RemoveNode node ;;
      mret Continue
    else mret Fallthrough
  else mret Continue.

Definition sleepHeartbeat : Go unit := emit (Sleep heartbeatMillis).

(** The body of the inner loop of [Begin] for one node; it also tells
    whether the node was pinged ([pingCounter++]). *)
Definition visitNode (node : ptr) : Go (flow * bool) :=
  running ← get runningFlag;
  if negb running then mret (Break, false) else
  n ← deref node;
  (* Exponential backoff of dead nodes, until such time as they are removed. *)
  f ← (if decide (Node.status n = StatusDead) then backoffDeadNode node
       else mret Fallthrough);
  if decide (f = Continue) then mret (Continue, false) else
  modify (fun w => set_currentHeartbeat (wrap32 (currentHeartbeat w + 1)) w) ;;
  hb ← get currentHeartbeat;
  log LDebug (HostsRound hb) ;;
  PingNode node ;;
  sleepHeartbeat ;;
  modified ← get knownNodesModifiedFlag;
  if modified : bool then
    modify (set_knownNodesModifiedFlag false) ;;
    mret (Break, true)
  else mret (Fallthrough, true).

(** The inner loop of [Begin]; the result is [pingCounter]. *)
Fixpoint visitNodes (nodes : list ptr) (pingCounter : Z) : Go Z :=
  match nodes with
  | [] => mret pingCounter
  | node :: rest =>
      '(f, pinged) ← visitNode node;
      let pingCounter := if pinged : bool then wrapInt (pingCounter + 1) else pingCounter in
      if decide (f = Break) then mret pingCounter
      else visitNodes rest pingCounter
  end.

(** One turn of the outer loop of [Begin]; [false] when the loop is left. *)
Definition beginRound : Go bool :=
  self ← get thisHost;
  randomAllNodes ← nodeMap_getRandomNodes knownNodes 0 [self];
  pingCounter ← visitNodes randomAllNodes 0;
  running ← get runningFlag;
  if negb running then mret false else
  when (bool_decide (pingCounter = 0)) sleepHeartbeat ;;
  mret true.

(** ** Listing the registry *)

(** [AllNodes()] *)
Definition AllNodes : Go (list ptr) := nodeMap_values knownNodes.

(** The loop of [HealthyNodes]: the values whose status is Alive are
    appended to [filtered], in their order. *)
Fixpoint keepAlive (values filtered : list ptr) : Go (list ptr) :=
  match values with
  | [] => mret filtered
  | v :: rest =>
      n ← deref v;
      if decide (Node.status n = StatusAlive) then keepAlive rest (filtered ++ [v])
      else keepAlive rest filtered
  end.

Definition HealthyNodes : Go (list ptr) :=
  values ← nodeMap_values knownNodes;
  keepAlive values [].

(** ** Frames *)

(** The computation [m], when it returns, leaves the component [f] of the
    state as it found it. *)
Definition keeps {A B : Type} (f : World -> B) (m : Go A) : Prop :=
  forall (w : World) (a : A) (w' : World), m w = Ok a w' -> f w' = f w.

(** The computation [m], when it returns, re-establishes [I]. *)
Definition preserves {A : Type} (I : World -> Prop) (m : Go A) : Prop :=
  forall (w : World) (a : A) (w' : World), I w -> m w = Ok a w' -> I w'.

(** The heap after the emit counters of the nodes of a list were
    decremented, one after the other. *)
Definition decrementAll (l : list ptr) (h : gmap ptr Node.t) : gmap ptr Node.t :=
  foldl (fun h p => alter decremented p h) h l.

(** How many times a node occurs in a list. *)
Fixpoint occurrences (p : ptr) (l : list ptr) : nat :=
  match l with
  | [] => 0
  | x :: l' => (if decide (x = p) then 1 else 0) + occurrences p l'
  end.

(** An indirect ping of [target] is awaited under [key]. *)
Definition indirectPingPending (target : ptr) (key : string) (w : World) : Prop :=
  exists e : pendingAck.t,
    pendingAcks w !! key = Some e /\
    pendingAck.packType e = packPingReq /\
    pendingAck.callback e = Some target.

(** Every [*Node] the registries and [thisHost] hold points to a node. *)
Definition wellFormed (w : World) : Prop :=
  is_Some (heap w !! thisHost w) /\
  (forall a p, knownNodes w !! a = Some p -> is_Some (heap w !! p)) /\
  (forall a p, updatedNodes w !! a = Some p -> is_Some (heap w !! p)).

(** A random order of a list lists nothing but the elements of the list. *)
Definition shuffleWithin : Prop :=
  forall (k : nat) (A : Type) (l : list A) (x : A), x ∈ shuffle k A l -> x ∈ l.

(** This host is a node of the heap and is not Dead. *)
Definition selfNotDead (w : World) : Prop :=
  exists n : Node.t, heap w !! thisHost w = Some n /\ Node.status n ≠ StatusDead.

(** A random order of a list is a permutation of the list. *)
Definition shufflePermutes : Prop :=
  forall (k : nat) (A : Type) (l : list A), shuffle k A l ≡ₚ l.

(** Every key of a registry is the address of the node it leads to. *)
Definition keyedByAddress (m : gmap string ptr) (h : gmap ptr Node.t) : Prop :=
  forall a p, m !! a = Some p -> exists n : Node.t, h !! p = Some n /\ Node.Address n = a.

(** A list of counters in non-increasing order. *)
Fixpoint descending (l : list Z) : Prop :=
  match l with
  | [] => True
  | x :: l' => Forall (fun y => y <= x) l' /\ descending l'
  end.

(** The datagrams among the events, latest first. *)
Definition sentDatagrams (es : list Event) : list (string * message.t) :=
  omap (fun e => match e with Datagram dest msg => Some (dest, msg) | _ => None end) es.

(** What the merge of a message keeps true of the state [w], from the
    state [w0] it started in, for the nodes [Q] the message names: this
    host and the addresses of the nodes are the same, the registry has
    lost no entry, the registries hold nodes of the heap, and no node of
    the message is the wire marker. *)
Definition mergeInvariant (w0 : World) (Q : list ptr) (w : World) : Prop :=
  thisHost w = thisHost w0 /\
  (forall q, Node.Address <$> heap w !! q = Node.Address <$> heap w0 !! q) /\
  (forall a r, knownNodes w0 !! a = Some r -> knownNodes w !! a = Some r) /\
  (forall a r, knownNodes w !! a = Some r -> is_Some (heap w0 !! r)) /\
  (forall a r, updatedNodes w !! a = Some r -> is_Some (heap w0 !! r)) /\
  (forall q, q ∈ Q ->
     is_Some (heap w0 !! q) /\ Node.status <$> heap w !! q ≠ Some StatusForwardTo).


(** Both registries are keyed by the addresses of their nodes. *)
Definition registriesKeyed (w : World) : Prop :=
  keyedByAddress (knownNodes w) (heap w) /\ keyedByAddress (updatedNodes w) (heap w).
End Smudge.

Arguments Ok {C A} a w.
Arguments Panic {C A} why.

(** ** Start-up: local address, node addresses, new nodes

    The functions of the registry front-end that make nodes
    ([GetLocalIP], [parseNodeAddress], [CreateNodeByIP],
    [CreateNodeByAddress]) and the part of [Begin] that precedes its
    loop.  The functions of Go's standard library they call are written
    out for the arguments the code passes. *)

(** [uint16] arithmetic wraps modulo 2^16. *)
Definition wrap16 (z : Z) : Z := z mod 2 ^ 16.

(** The separator [":"] of a host and its port. *)
Definition colon : Ascii.ascii := Ascii.ascii_of_nat 58.

(** [strings.Contains(s, ":")], for a separator of one character. *)
Fixpoint strings_Contains (s : string) (sep : Ascii.ascii) : bool :=
  match s with
  | EmptyString => false
  | String c rest => Ascii.eqb c sep || strings_Contains rest sep
  end.

(** [strings.Split(s, ":")], for a separator of one character: the
    pieces between the separators, one more than there are separators. *)
Fixpoint strings_Split (s : string) (sep : Ascii.ascii) : list string :=
  match s with
  | EmptyString => [EmptyString]
  | String c rest =>
      if Ascii.eqb c sep then EmptyString :: strings_Split rest sep
      else match strings_Split rest sep with
           | piece :: pieces => String c piece :: pieces
           | [] => [String c EmptyString]
           end
  end.

(** [strings.HasPrefix(s, prefix)] *)
Fixpoint strings_HasPrefix (s prefix : string) : bool :=
  match prefix, s with
  | EmptyString, _ => true
  | String _ _, EmptyString => false
  | String p prefix', String c s' => Ascii.eqb c p && strings_HasPrefix s' prefix'
  end.

Module strconv.

(** The two errors of [strconv.ParseUint]'s [NumError]. *)
Inductive NumError : Set :=
| ErrSyntax
| ErrRange.

(** The value of a decimal digit. *)
Definition digit (c : Ascii.ascii) : option Z :=
  let n := Z.of_N (Ascii.N_of_ascii c) in
  if decide (48 <= n <= 57) then Some (n - 48) else None.

(** The loop of [ParseUint] for base 10 and 16 bits: a byte that is not
    a decimal digit is a syntax error, with value 0; a value above
    65535 is a range error, with the largest value, which the
    conversion to [uint16] leaves at 65535. *)
Fixpoint parseDigits (s : string) (n : Z) : Z * option NumError :=
  match s with
  | EmptyString => (n, None)
  | String c rest =>
      match digit c with
      | None => (0, Some ErrSyntax)
      | Some d =>
          let n1 := n * 10 + d in
          if decide (n1 > 65535) then (65535, Some ErrRange) else parseDigits rest n1
      end
  end.

(** [strconv.ParseUint(s, 10, 16)] *)
Definition ParseUint16 (s : string) : Z * option NumError :=
  match s with
  | EmptyString => (0, Some ErrSyntax)
  | _ => parseDigits s 0
  end.

End strconv.

Module net.

(** [net.IP]: a slice of bytes; the nil slice is the empty list. *)
Definition IP : Set := list Z.

Definition IPv6loopback : IP := [0; 0; 0; 0; 0; 0; 0; 0; 0; 0; 0; 0; 0; 0; 0; 1].

(** [ip.To4()]: a 4-byte address is itself, a 16-byte address with the
    IPv4-in-IPv6 prefix is its last four bytes, anything else is nil. *)
Definition To4 (ip : IP) : IP :=
  if decide (length ip = 4%nat) then ip
  else if decide (length ip = 16%nat ∧ take 10 ip = replicate 10 0 ∧
                  ip !! 10%nat = Some 255 ∧ ip !! 11%nat = Some 255)
       then drop 12 ip
       else [].

(** [ip.IsLoopback()] *)
Definition IsLoopback (ip : IP) : bool :=
  match To4 ip with
  | b :: _ => bool_decide (b = 127)
  | [] => bool_decide (ip = IPv6loopback)
  end.

(** The [net.Addr] values of an interface, by their dynamic type. *)
Inductive Addr : Set :=
| IPNet (ip : IP)
| IPAddr (ip : IP)
| OtherAddr.

(** [net.FlagUp] and [net.FlagLoopback] *)
Definition FlagUp : Z := Z.shiftl 1 0.
Definition FlagLoopback : Z := Z.shiftl 1 2.

(** A [net.Interface], with what [iface.Addrs()] returns for it: the
    addresses, or an error. *)
Record Interface : Set := mkInterface {
  Flags : Z;
  Name : string;
  Addrs : list Addr + string
}.

End net.

(** The errors the start-up functions make or pass on. *)
Inductive startupError : Set :=
| netError (what : string)
| tooManyColons (argument : string)
| numError (e : strconv.NumError).

(** What the start-up prints and starts. *)
Inductive StartupLine : Set :=
| CouldNotGetLocalIP (err : startupError)
| CouldNotResolveHostIP
| MyHostAddress (address : string)
| CouldNotCreateNode (address : string) (err : startupError)
| GoListenUDP (port : Z)
| GoStartTimeoutCheckLoop.

(** The host the library runs on, and its configuration. *)
Class Host : Type := {
  (** the sentinel [PingNoData] of [pingMillis] *)
  PingNoData : Z;
  (** [GetListenPort()], an int *)
  GetListenPort : Z;
  (** [GetInitialHosts()] *)
  GetInitialHosts : list string;
  (** [net.Interfaces()]: the interfaces, or an error *)
  Interfaces : list net.Interface + string;
  (** [net.LookupIP(host)]: the addresses, or an error *)
  LookupIP : string -> list net.IP + string
}.

Section Startup.

Context `{C : Collaborators} `{H : Host}.

(** The inner loop of [GetLocalIP], over the addresses of one interface;
    [ip] is the variable of the function, which the loop assigns; the
    result says whether the function returns from inside the loop. *)
Fixpoint scanAddrs (addrs : list net.Addr) (ip : net.IP) : net.IP * bool :=
  match addrs with
  | [] => (ip, false)
  | addr :: rest =>
      let ip := match addr with
                | net.IPNet v => v
                | net.IPAddr v => v
                | net.OtherAddr => ip
                end in
      let ip := net.To4 ip in
      if decide (ip = []) then scanAddrs rest ip (* not an ipv4 address *)
      else if bool_decide (ip = []) || net.IsLoopback ip then scanAddrs rest ip
      else (ip, true)
  end.

(** The outer loop of [GetLocalIP]. *)
Fixpoint scanInterfaces (ifaces : list net.Interface) (ip : net.IP)
    : net.IP * option startupError :=
  match ifaces with
  | [] => (ip, None)
  | iface :: rest =>
      if decide (Z.land (net.Flags iface) net.FlagUp = 0)
      then scanInterfaces rest ip (* interface down *)
      else if decide (Z.land (net.Flags iface) net.FlagLoopback ≠ 0)
      then scanInterfaces rest ip (* loopback interface *)
      else if strings_HasPrefix (net.Name iface) "docker" ||
              strings_HasPrefix (net.Name iface) "w-"
      then scanInterfaces rest ip (* ignore docker and warden bridge *)
      else
        match net.Addrs iface with
        | inr err => (ip, Some (netError err))
        | inl addrs =>
            let '(ip, found) := scanAddrs addrs ip in
            if found : bool then (ip, None) else scanInterfaces rest ip
        end
  end.

Definition GetLocalIP : net.IP * option startupError :=
  match Interfaces with
  | inr err => ([], Some (netError err))
  | inl ifaces => scanInterfaces ifaces []
  end.

(** The loop of [parseNodeAddress] over the addresses of the host: the
    last IPv4 address is kept. *)
Fixpoint lastIPv4 (ips : list net.IP) (ip : net.IP) : net.IP :=
  match ips with
  | [] => ip
  | i :: rest => lastIPv4 rest (if decide (net.To4 i ≠ []) then net.To4 i else ip)
  end.

(** What [parseNodeAddress] returns, and what it has logged. *)
Record parsedAddress : Set := mkParsed {
  parsedIP : net.IP;
  parsedPort : Z;
  parsedErr : option startupError;
  parsedLog : list StartupLine
}.

(** [parseNodeAddress]: the variable [err] is assigned in the first
    [if] and assigned again by [ips, err := net.LookupIP(host)], which
    declares [ips] only. *)
Definition parseNodeAddress (hostAndMaybePort : string) : parsedAddress :=
  let '(host, port, err) :=
    if strings_Contains hostAndMaybePort colon then
      let splode := strings_Split hostAndMaybePort colon in
      if decide (length splode = 2%nat) then
        let '(p, e) := strconv.ParseUint16 (default "" (splode !! 1%nat)) in
        (default "" (splode !! 0%nat), wrap16 p, numError <$> e)
      else
        ("", 0, Some (tooManyColons hostAndMaybePort))
    else
      (hostAndMaybePort, wrap16 GetListenPort, None) in
  let '(ips, err) := match LookupIP host with
                     | inl ips => (ips, None)
                     | inr e => ([], Some (netError e))
                     end in
  match err with
  | Some e => mkParsed [] port (Some e) []
  | None =>
      let ip := lastIPv4 ips [] in
      if net.IsLoopback ip then
        let '(ip, err) := GetLocalIP in
        if decide (ip = [])
        then mkParsed [127; 0; 0; 1] port err [CouldNotResolveHostIP]
        else mkParsed ip port err []
      else mkParsed ip port None []
  end.

(** [&node] for a new [Node]: a location that is not in the heap. *)
Definition alloc (n : Node.t) : Go ptr := fun w =>
  let p := fresh (dom (heap w)) in Ok p (set_heap <[p := n]> w).

(** [CreateNodeByIP]; the fields the literal leaves out have their zero
    values (Modelled from the spec: [StatusUnknown] is the zero status). *)
Definition CreateNodeByIP (ip : net.IP) (port : Z) : Go ptr :=
  now ← GetNowInMillis;
  alloc (Node.mk ip port StatusUnknown 0 now PingNoData 0).

(** [CreateNodeByAddress]: the node or the error, and what was logged. *)
Definition CreateNodeByAddress (address : string)
    : Go ((ptr + startupError) * list StartupLine) :=
  let parsed := parseNodeAddress address in
  match parsedErr parsed with
  | None =>
      node ← CreateNodeByIP (parsedIP parsed) (parsedPort parsed);
      mret (inl node, parsedLog parsed)
  | Some err => mret (inr err, parsedLog parsed)
  end.

Definition set_thisHost (p : ptr) (w : World) : World :=
  mkWorld (heap w) (knownNodes w) (updatedNodes w) (deadNodeRetries w)
    (pendingAcks w) (currentHeartbeat w) p (knownNodesModifiedFlag w)
    (runningFlag w) (pingdata w) (broadcasts w) (ticks w) (draws w) (sends w) (events w).
Definition set_runningFlag (b : bool) (w : World) : World :=
  mkWorld (heap w) (knownNodes w) (updatedNodes w) (deadNodeRetries w)
    (pendingAcks w) (currentHeartbeat w) (thisHost w) (knownNodesModifiedFlag w)
    b (pingdata w) (broadcasts w) (ticks w) (draws w) (sends w) (events w).

(** The body of the loop of [Begin] over the initial hosts; [lines] is
    what the start-up has printed and started so far. *)
Definition addInitialHost (lines : list StartupLine) (address : string)
    : Go (list StartupLine) :=
  created ← CreateNodeByAddress address;
  match created with
  | (inr err, logged) => mret (lines ++ logged ++ [CouldNotCreateNode address err])
  | (inl n, logged) => AddNode n ;; mret (lines ++ logged)
  end.

(** [Begin], up to its loop: what it has printed and started, and
    whether it goes on to the loop ([false] when it returns at once). *)
Definition beginPrologue : Go (list StartupLine * bool) :=
  (* Add this host. *)
  let '(ip, err) := GetLocalIP in
  match err with
  | Some e => mret ([CouldNotGetLocalIP e], false)
  | None =>
      let '(ip, lines) := if decide (ip = [])
                          then ([127; 0; 0; 1], [CouldNotResolveHostIP])
                          else (ip, []) in
      now ← GetNowInMillis;
      me ← alloc (Node.mk ip (wrap16 GetListenPort) StatusUnknown 0 now PingNoData 0);
      thisHostAddress ← Address me;
      modify (set_thisHost me) ;;
      let lines := lines ++ [MyHostAddress thisHostAddress; GoListenUDP GetListenPort] in
      (* Add this node's status. *)
      updateNodeStatus me StatusAlive 0 ;;
      AddNode me ;;
      modify (set_runningFlag true) ;;
      (* Add initial hosts as specified by the SMUDGE_INITIAL_HOSTS property *)
      lines ← forEachAcc GetInitialHosts lines addInitialHost;
      mret (lines ++ [GoStartTimeoutCheckLoop], true)
  end.

End Startup.

(** ** What the start-up properties speak of *)

(** The interfaces [GetLocalIP] examines: up, not a loopback interface,
    not a docker or warden bridge. *)
Definition eligible (iface : net.Interface) : Prop :=
  Z.land (net.Flags iface) net.FlagUp ≠ 0 /\
  Z.land (net.Flags iface) net.FlagLoopback = 0 /\
  strings_HasPrefix (net.Name iface) "docker" = false /\
  strings_HasPrefix (net.Name iface) "w-" = false.

(** [ip] is the four-byte form of an address among [addrs]. *)
Definition amongAddrs (addrs : list net.Addr) (ip : net.IP) : Prop :=
  exists v : net.IP, (net.IPNet v ∈ addrs \/ net.IPAddr v ∈ addrs) /\ ip = net.To4 v.

(** [ip] is the four-byte form of an address of the interface. *)
Definition offers (iface : net.Interface) (ip : net.IP) : Prop :=
  exists addrs : list net.Addr, net.Addrs iface = inl addrs /\ amongAddrs addrs ip.

(** ** A concrete cluster, to run the code on *)

Module Demo.

(** An estimator that reports [nSigma = 50.5], a registry-size function
    that is the formula's values on small sizes, a network that delivers,
    a clock that stands at 10 s, and no broadcasts. *)
#[local] Instance collaborators : Collaborators := {|
  pingData := list Z;
  pingData_add := cons;
  pingData_data := fun _ => (50 # 1, 1 # 6)%Q;
  pingData_nSigma := fun _ _ => (101 # 2)%Q;
  lambdaLogCount := fun n =>
    match n with
    | 0%nat | 1%nat => 0
    | 2%nat => 2
    | 3%nat | 4%nat => 3
    | _ => 4
    end;
  shuffle := fun _ _ l => l;
  millis := fun _ => 10000;
  network := fun _ => mkNet true true true;
  heartbeatMillis := 500;
  PingTimedOut := -2;
  broadcastStore := unit;
  getBroadcastToEmit := fun s => (None, s);
  broadcast_decrement := fun _ s => s;
  receiveBroadcast := fun _ s => s;
  uint32_unrepresentable := fun _ => 0;
  int_unrepresentable := fun _ => 0
|}.

Definition nodeAt (last : Z) (s : NodeStatus) (hb : Z) (emit : Z) : Node.t :=
  Node.mk [10; 0; 0; last] 9999 s hb 0 (-1) emit.

(** Three nodes: this host (location 1) and two peers, all alive and
    registered; the second peer has news to emit. *)
Definition cluster : World := {|
  heap := {[ 1%positive := nodeAt 1 StatusAlive 0 0;
             2%positive := nodeAt 2 StatusAlive 100 0;
             3%positive := nodeAt 3 StatusAlive 100 3 ]};
  knownNodes := {[ "10.0.0.1:9999" := 1%positive;
                   "10.0.0.2:9999" := 2%positive;
                   "10.0.0.3:9999" := 3%positive ]};
  updatedNodes := {[ "10.0.0.3:9999" := 3%positive ]};
  deadNodeRetries := ∅;
  pendingAcks := ∅;
  currentHeartbeat := 50;
  thisHost := 1%positive;
  knownNodesModifiedFlag := false;
  runningFlag := true;
  pingdata := [];
  broadcasts := tt;
  ticks := 0;
  draws := 0;
  sends := 0;
  events := []
|}.

(** The cluster with a fourth node that was pinged by hand and never
    registered: its direct ping timed out, and the indirect ping asked
    of the second peer is still pending (node: the relay, callback: the
    node being probed). *)
Definition pingReqEntry : pendingAck.t :=
  pendingAck.mk 0 3%positive (Some 4%positive) 0 packPingReq.

Definition clusterWithStranger : World := {|
  heap := <[ 4%positive := nodeAt 4 StatusAlive 10 0 ]> (heap cluster);
  knownNodes := knownNodes cluster;
  updatedNodes := updatedNodes cluster;
  deadNodeRetries := ∅;
  pendingAcks := {[ "10.0.0.3:9999:50" := pingReqEntry ]};
  currentHeartbeat := 50;
  thisHost := 1%positive;
  knownNodesModifiedFlag := false;
  runningFlag := true;
  pingdata := [];
  broadcasts := tt;
  ticks := 0;
  draws := 0;
  sends := 0;
  events := []
|}.

(** This host and one peer, whose direct ping of heartbeat 50 is pending
    since time 0. *)
Definition pingEntry : pendingAck.t := pendingAck.mk 0 2%positive None 0 packPing.

Definition pair : World := {|
  heap := {[ 1%positive := nodeAt 1 StatusAlive 0 0;
             2%positive := nodeAt 2 StatusAlive 40 0 ]};
  knownNodes := {[ "10.0.0.1:9999" := 1%positive; "10.0.0.2:9999" := 2%positive ]};
  updatedNodes := ∅;
  deadNodeRetries := ∅;
  pendingAcks := {[ "10.0.0.2:9999:50" := pingEntry ]};
  currentHeartbeat := 50;
  thisHost := 1%positive;
  knownNodesModifiedFlag := false;
  runningFlag := true;
  pingdata := [];
  broadcasts := tt;
  ticks := 0;
  draws := 0;
  sends := 0;
  events := []
|}.

(** The cluster with the second peer Dead and at its last retry. *)
Definition clusterWithDead : World := {|
  heap := <[ 3%positive := nodeAt 3 StatusDead 100 0 ]> (heap cluster);
  knownNodes := knownNodes cluster;
  updatedNodes := ∅;
  deadNodeRetries := {[ "10.0.0.3:9999" := deadNodeCounter.mk 10 1 ]};
  pendingAcks := ∅;
  currentHeartbeat := 50;
  thisHost := 1%positive;
  knownNodesModifiedFlag := false;
  runningFlag := true;
  pingdata := [];
  broadcasts := tt;
  ticks := 0;
  draws := 0;
  sends := 0;
  events := []
|}.

(** An Ack and an empty PingRequest from the first peer. *)
Definition ackFromPeer : message.t := message.mk verbAck 2%positive 5 [] None.
Definition emptyPingRequest : message.t := message.mk verbPingRequest 2%positive 5 [] None.

(** A record that says this host is Dead. *)
Definition deadSelfRecord : messageMember.t := messageMember.mk 101 1%positive StatusDead.

(** What remains of a result when only a node's field is looked at. *)
Definition nodeAfter {A B : Type} (r : result A) (p : ptr) (f : Node.t -> B) : option B :=
  match r with
  | Ok _ w => f <$> heap w !! p
  | Panic _ => None
  end.

(** The datagrams a run has sent: destination and attached nodes. *)
Definition datagramsOf {A : Type} (r : result A) : list (string * list ptr) :=
  match r with
  | Ok _ w =>
      omap (fun e => match e with
                     | Datagram dest msg =>
                         Some (dest, messageMember.node <$> message.members msg)
                     | _ => None
                     end) (events w)
  | Panic _ => []
  end.


(** A loopback interface, a docker bridge and one network interface
    that has an IPv6 and an IPv4 address. *)
Definition interfaces : list net.Interface :=
  [ net.mkInterface 5 "lo" (inl [net.IPNet [127; 0; 0; 1]]);
    net.mkInterface 1 "docker0" (inl [net.IPNet [172; 17; 0; 1]]);
    net.mkInterface 19 "eth0"
      (inl [ net.IPNet [254; 128; 0; 0; 0; 0; 0; 0; 0; 0; 0; 0; 0; 0; 0; 7];
             net.IPNet [10; 0; 0; 1] ]) ].

(** A host with these interfaces, and a resolver that knows two names. *)
#[local] Instance host : Host := {|
  PingNoData := -1;
  GetListenPort := 9999;
  GetInitialHosts := ["peer:9999"; "nowhere"];
  Interfaces := inl interfaces;
  LookupIP := fun name =>
    if decide (name = "peer") then inl [[10; 0; 0; 2]]
    else if decide (name = "localhost") then inl [[127; 0; 0; 1]]
    else inr "no such host"
|}.

(** The library before [Begin]: nothing registered, nothing running. *)
Definition unstarted : World := {|
  heap := ∅;
  knownNodes := ∅;
  updatedNodes := ∅;
  deadNodeRetries := ∅;
  pendingAcks := ∅;
  currentHeartbeat := 0;
  thisHost := 1%positive;
  knownNodesModifiedFlag := false;
  runningFlag := false;
  pingdata := [];
  broadcasts := tt;
  ticks := 0;
  draws := 0;
  sends := 0;
  events := []
|}.

(** This host and one peer, whose direct ping of heartbeat 50 was sent
    at the time the clock shows. *)
Definition freshEntry : pendingAck.t := pendingAck.mk 10000 2%positive None 0 packPing.

Definition pairJustPinged : World := {|
  heap := heap pair;
  knownNodes := knownNodes pair;
  updatedNodes := ∅;
  deadNodeRetries := ∅;
  pendingAcks := {[ "10.0.0.2:9999:50" := freshEntry ]};
  currentHeartbeat := 50;
  thisHost := 1%positive;
  knownNodesModifiedFlag := false;
  runningFlag := true;
  pingdata := [];
  broadcasts := tt;
  ticks := 0;
  draws := 0;
  sends := 0;
  events := []
|}.

(** The Ack of the first peer to the ping of heartbeat 50, a request of
    the first peer to ping the second on its behalf, and a Ping of the
    first peer that reports the second Alive. *)
Definition ackOfPing : message.t := message.mk verbAck 2%positive 50 [] None.
Definition forwardMarker : messageMember.t := messageMember.mk 77 3%positive StatusForwardTo.
Definition pingRequest : message.t :=
  message.mk verbPingRequest 2%positive 5 [forwardMarker] None.
Definition gossipRecord : messageMember.t := messageMember.mk 100 3%positive StatusAlive.
Definition pingWithGossip : message.t :=
  message.mk verbPing 2%positive 5 [gossipRecord] None.

(** The cluster with news about all three nodes: this host's has been
    emitted to the end, the first peer's has one emission left and the
    second peer's three. *)
Definition clusterWithNews : World := {|
  heap := {[ 1%positive := nodeAt 1 StatusAlive 0 0;
             2%positive := nodeAt 2 StatusAlive 100 1;
             3%positive := nodeAt 3 StatusAlive 100 3 ]};
  knownNodes := knownNodes cluster;
  updatedNodes := knownNodes cluster;
  deadNodeRetries := ∅;
  pendingAcks := ∅;
  currentHeartbeat := 50;
  thisHost := 1%positive;
  knownNodesModifiedFlag := false;
  runningFlag := true;
  pingdata := [];
  broadcasts := tt;
  ticks := 0;
  draws := 0;
  sends := 0;
  events := []
|}.
End Demo.

Module Ticking.

(** The collaborators of the demonstration with a clock that advances:
    every reading is 10 ms after the one before. *)
#[local] Instance collaborators : Collaborators := {|
  pingData := list Z;
  pingData_add := cons;
  pingData_data := fun _ => (50 # 1, 1 # 6)%Q;
  pingData_nSigma := fun _ _ => (101 # 2)%Q;
  lambdaLogCount := fun n =>
    match n with
    | 0%nat | 1%nat => 0
    | 2%nat => 2
    | 3%nat | 4%nat => 3
    | _ => 4
    end;
  shuffle := fun _ _ l => l;
  millis := fun t => 10 * Z.of_nat t;
  network := fun _ => mkNet true true true;
  heartbeatMillis := 500;
  PingTimedOut := -2;
  broadcastStore := unit;
  getBroadcastToEmit := fun s => (None, s);
  broadcast_decrement := fun _ s => s;
  receiveBroadcast := fun _ s => s;
  uint32_unrepresentable := fun _ => 0;
  int_unrepresentable := fun _ => 0
|}.

Definition nodeAt (last : Z) (s : NodeStatus) (hb : Z) : Node.t :=
  Node.mk [10; 0; 0; last] 9999 s hb 0 (-1) 0.

(** This host (location 1) and two peers, all alive and registered,
    after three readings of the clock; [acks] is the pending-ack table. *)
Definition clusterWith (acks : gmap string pendingAck.t) : World := {|
  heap := {[ 1%positive := nodeAt 1 StatusAlive 0;
             2%positive := nodeAt 2 StatusAlive 100;
             3%positive := nodeAt 3 StatusAlive 100 ]};
  knownNodes := {[ "10.0.0.1:9999" := 1%positive;
                   "10.0.0.2:9999" := 2%positive;
                   "10.0.0.3:9999" := 3%positive ]};
  updatedNodes := ∅;
  deadNodeRetries := ∅;
  pendingAcks := acks;
  currentHeartbeat := 50;
  thisHost := 1%positive;
  knownNodesModifiedFlag := false;
  runningFlag := true;
  pingdata := [];
  broadcasts := tt;
  ticks := 3;
  draws := 0;
  sends := 0;
  events := []
|}.

Definition cluster : World := clusterWith ∅.

(** The direct pings of the two peers, sent at the first and the second
    reading of the clock, are pending. *)
Definition justPinged : World :=
  clusterWith {[ "10.0.0.2:9999:49" := pendingAck.mk 10 2%positive None 0 packPing;
                 "10.0.0.3:9999:50" := pendingAck.mk 20 3%positive None 0 packPing ]}.

(** A request of the first peer to ping this host on its behalf. *)
Definition pingRequestForSelf : message.t :=
  message.mk verbPingRequest 2%positive 5
    [messageMember.mk 77 1%positive StatusForwardTo] None.

(** [n] turns of the loop of [startTimeoutCheckLoop]. *)
Fixpoint sweeps (n : nat) : Go unit :=
  match n with
  | O => mret tt
  | S n' => timeoutCheckSweep ;; sweeps n'
  end.

End Ticking.

(** * Properties *)

Section Properties.

Context `{C : Collaborators}.

(** ** Running the monad symbolically *)

Lemma bind_Ok {A B : Type} (m : Go A) (f : A -> Go B) (w w' : World) (a : A) :
  m w = Ok a w' -> (m ≫= f) w = f a w'.
Proof. intros H. unfold mbind, Go_bind. rewrite H. reflexivity. Qed.

Lemma bind_Panic {A B : Type} (m : Go A) (f : A -> Go B) (w : World) (why : string) :
  m w = Panic why -> (m ≫= f) w = Panic why.
Proof. intros H. unfold mbind, Go_bind. rewrite H. reflexivity. Qed.

Lemma bind_assoc {A B D : Type} (m : Go A) (g : A -> Go B) (f : B -> Go D) (w : World) :
  ((m ≫= g) ≫= f) w = (m ≫= (fun a => g a ≫= f)) w.
Proof. unfold mbind, Go_bind. destruct (m w); reflexivity. Qed.

(** Two worlds with the same fields are the same. *)
Lemma World_ext (w1 w2 : World) :
  heap w1 = heap w2 -> knownNodes w1 = knownNodes w2 ->
  updatedNodes w1 = updatedNodes w2 -> deadNodeRetries w1 = deadNodeRetries w2 ->
  pendingAcks w1 = pendingAcks w2 -> currentHeartbeat w1 = currentHeartbeat w2 ->
  thisHost w1 = thisHost w2 -> knownNodesModifiedFlag w1 = knownNodesModifiedFlag w2 ->
  runningFlag w1 = runningFlag w2 -> pingdata w1 = pingdata w2 ->
  broadcasts w1 = broadcasts w2 -> ticks w1 = ticks w2 -> draws w1 = draws w2 ->
  sends w1 = sends w2 -> events w1 = events w2 -> w1 = w2.
Proof. destruct w1, w2; cbn; intros; subst; reflexivity. Qed.

Lemma deref_Ok (w : World) (p : ptr) (n : Node.t) :
  heap w !! p = Some n -> deref p w = Ok n w.
Proof. intros H. unfold deref. rewrite H. reflexivity. Qed.

Lemma update_Ok (w : World) (p : ptr) (n : Node.t) (f : Node.t -> Node.t) :
  heap w !! p = Some n -> update p f w = Ok tt (set_heap <[p := f n]> w).
Proof. intros H. unfold update. rewrite (bind_Ok _ _ _ _ _ (deref_Ok _ _ _ H)). reflexivity. Qed.

Lemma Address_Ok (w : World) (p : ptr) (n : Node.t) :
  heap w !! p = Some n -> Address p w = Ok (Node.Address n) w.
Proof. intros H. unfold Address. rewrite (bind_Ok _ _ _ _ _ (deref_Ok _ _ _ H)). reflexivity. Qed.

Lemma Touch_Ok (w : World) (p : ptr) (n : Node.t) :
  heap w !! p = Some n ->
  Touch p w =
    Ok tt (set_heap <[p := Node.with_timestamp (wrap32 (millis (ticks w))) n]>
             (set_ticks (S (ticks w)) w)).
Proof. intros H. unfold Touch. rewrite (bind_Ok _ _ _ _ _ (deref_Ok _ _ _ H)). reflexivity. Qed.

Lemma nodeMap_contains_Ok (m : World -> gmap string ptr) (w : World) (p : ptr) (n : Node.t) :
  heap w !! p = Some n ->
  nodeMap_contains m p w = Ok (bool_decide (is_Some (m w !! Node.Address n))) w.
Proof.
  intros H. unfold nodeMap_contains.
  rewrite (bind_Ok _ _ _ _ _ (Address_Ok _ _ _ H)). reflexivity.
Qed.

Lemma Address_with_status s n : Node.Address (Node.with_status s n) = Node.Address n.
Proof. reflexivity. Qed.
Lemma Address_with_heartbeat h n : Node.Address (Node.with_heartbeat h n) = Node.Address n.
Proof. reflexivity. Qed.
Lemma Address_with_timestamp ts n : Node.Address (Node.with_timestamp ts n) = Node.Address n.
Proof. reflexivity. Qed.
Lemma Address_with_pingMillis x n : Node.Address (Node.with_pingMillis x n) = Node.Address n.
Proof. reflexivity. Qed.
Lemma Address_with_emitCounter e n : Node.Address (Node.with_emitCounter e n) = Node.Address n.
Proof. reflexivity. Qed.

Ltac world_simpl :=
  cbn [heap knownNodes updatedNodes deadNodeRetries pendingAcks currentHeartbeat
       thisHost knownNodesModifiedFlag runningFlag pingdata broadcasts ticks draws
       sends events set_heap set_knownNodes set_updatedNodes set_deadNodeRetries
       set_pendingAcks set_currentHeartbeat set_knownNodesModifiedFlag set_pingdata
       set_broadcasts set_ticks set_draws set_sends set_events negb]
;
  repeat first [ rewrite Address_with_status | rewrite Address_with_heartbeat
               | rewrite Address_with_timestamp | rewrite Address_with_pingMillis
               | rewrite Address_with_emitCounter ].

(** Solve [heap w !! p = Some ?n] for a world built by the setters. *)
Ltac go_heap :=
  world_simpl;
  first [ eassumption
        | apply lookup_insert_eq
        | rewrite lookup_insert_ne by congruence; eassumption ].

(** One step of execution at the head of [(m ≫= f) w]. *)
Ltac go_step :=
  match goal with
  | |- context [(mbind ?f (mbind ?g ?m)) ?w] => rewrite (bind_assoc m g f w)
  | |- context [(mbind ?f (mret ?a)) ?w] => change ((mbind f (mret a)) w) with (f a w)
  | |- context [(mbind ?f (get ?g)) ?w] => change ((mbind f (get g)) w) with (f (g w) w)
  | |- context [(mbind ?f (modify ?g)) ?w] => change ((mbind f (modify g)) w) with (f tt (g w))
  | |- context [(mbind ?f (emit ?e)) ?w] =>
      change ((mbind f (emit e)) w) with (f tt (set_events (cons e) w))
  | |- context [(mbind ?f (log ?l ?x)) ?w] =>
      change ((mbind f (log l x)) w) with (f tt (set_events (cons (Log l x)) w))
  | |- context [(mbind ?f GetNowInMillis) ?w] =>
      change ((mbind f GetNowInMillis) w)
        with (f (wrap32 (millis (ticks w))) (set_ticks (S (ticks w)) w))
  | |- context [(mbind ?f (deref ?p)) ?w] =>
      erewrite (bind_Ok (deref p) f w) by (apply deref_Ok; go_heap)
  | |- context [(mbind ?f (update ?p ?g)) ?w] =>
      erewrite (bind_Ok (update p g) f w) by (apply update_Ok; go_heap)
  | |- context [(mbind ?f (Address ?p)) ?w] =>
      erewrite (bind_Ok (Address p) f w) by (apply Address_Ok; go_heap)
  | |- context [(mbind ?f (Touch ?p)) ?w] =>
      erewrite (bind_Ok (Touch p) f w) by (apply Touch_Ok; go_heap)
  | |- context [(mbind ?f (nodeMap_contains ?m ?p)) ?w] =>
      erewrite (bind_Ok (nodeMap_contains m p) f w) by (apply nodeMap_contains_Ok; go_heap)
  | |- context [(mbind ?f (elapsed ?a)) ?w] =>
      change ((mbind f (elapsed a)) w)
        with (f (wrap32 (wrap32 (millis (ticks w)) - pendingAck.startTime a))
                (set_ticks (S (ticks w)) w))
  | |- context [(mbind ?f (draw ?l)) ?w] =>
      change ((mbind f (draw l)) w)
        with (f (shuffle (draws w) _ l) (set_draws (S (draws w)) w))
  | |- context [(mbind ?f emitCount) ?w] =>
      change ((mbind f emitCount) w) with (f (lambdaLogCount (size (knownNodes w))) w)
  | |- context [(mbind ?f pingRequestCount) ?w] =>
      change ((mbind f pingRequestCount) w) with (f (lambdaLogCount (size (knownNodes w))) w)
  | |- context [mret ?a ?w] => change (mret a w) with (Ok a w)
  | |- context [get ?g ?w] => change (get g w) with (Ok (g w) w)
  | |- context [modify ?g ?w] => change (modify g w) with (Ok tt (g w))
  | |- context [emit ?e ?w] => change (emit e w) with (Ok tt (set_events (cons e) w))
  | |- context [log ?l ?x ?w] => change (log l x w) with (Ok tt (set_events (cons (Log l x)) w))
  | |- context [doStatusUpdate ?p ?s ?w] =>
      change (doStatusUpdate p s w) with (Ok tt (set_events (cons (StatusUpdate p s)) w))
  | |- context [update ?p ?g ?w] => erewrite (update_Ok w p _ g) by go_heap
  | |- context [Touch ?p ?w] => erewrite (Touch_Ok w p) by go_heap
  end; cbv beta; world_simpl.

Ltac go_run := repeat first [ go_step | progress world_simpl ].

(** ** [updateNodeStatus] *)

(** An update that keeps the status changes nothing at all. *)
Lemma updateNodeStatus_same (w : World) (p : ptr) (n : Node.t) (h : Z) :
  heap w !! p = Some n ->
  updateNodeStatus p (Node.status n) h w = Ok tt w.
Proof.
  intros Hp. unfold updateNodeStatus. go_step.
  destruct (decide (Node.status n ≠ Node.status n)); [congruence | reflexivity].
Qed.

(** An update that changes the status: the world it leaves. *)
Lemma updateNodeStatus_changed (w : World) (p : ptr) (n : Node.t) (s : NodeStatus) (h : Z) :
  heap w !! p = Some n ->
  Node.status n ≠ s ->
  updateNodeStatus p s h w =
    Ok tt
      {| heap := <[p := Node.mk (Node.ip n) (Node.port n) s h (wrap32 (millis (ticks w)))
                          (Node.pingMillis n)
                          (wrap8 (lambdaLogCount (size (knownNodes w))))]> (heap w);
         knownNodes := knownNodes w;
         updatedNodes :=
           if bool_decide (is_Some (updatedNodes w !! Node.Address n))
           then updatedNodes w
           else <[Node.Address n := p]> (updatedNodes w);
         deadNodeRetries :=
           if bool_decide (s ≠ StatusDead)
           then delete (Node.Address n) (deadNodeRetries w)
           else deadNodeRetries w;
         pendingAcks := pendingAcks w;
         currentHeartbeat := currentHeartbeat w;
         thisHost := thisHost w;
         knownNodesModifiedFlag := knownNodesModifiedFlag w;
         runningFlag := runningFlag w;
         pingdata := pingdata w;
         broadcasts := broadcasts w;
         ticks := S (ticks w);
         draws := draws w;
         sends := sends w;
         events :=
           StatusUpdate p s :: Log LInfo (UpdatingHost (Node.Address n) s) ::
           (if bool_decide (h < Node.heartbeat n)
            then [Log LWarn (DecreasingHeartbeat (Node.heartbeat n) h)] else [])
           ++ events w |}.
Proof.
  intros Hp Hs. unfold updateNodeStatus. go_step.
  destruct (decide (Node.status n ≠ s)); [| contradiction].
  unfold when.
  destruct (bool_decide (h < Node.heartbeat n)); go_run;
    (destruct (bool_decide (is_Some (updatedNodes w !! Node.Address n))); go_run;
     (destruct (bool_decide (s ≠ StatusDead)); go_run));
    f_equal; apply World_ext; world_simpl; rewrite ?insert_insert_eq; reflexivity.
Qed.

(** C9: for every node [n] and status [s] with [n.status == s], the call
    [updateNodeStatus(n, s, h)] is a no-op: the whole state is left as it
    was, so no listener notification fires (the event list is the same),
    the emit counter of [n] is not refreshed, and its timestamp, status
    and heartbeat are unchanged. *)
Theorem updateNodeStatus_same_status_noop
    (w : World) (p : ptr) (n : Node.t) (s : NodeStatus) (h : Z) :
  heap w !! p = Some n ->
  Node.status n = s ->
  updateNodeStatus p s h w = Ok tt w.
Proof. intros Hp <-. apply updateNodeStatus_same, Hp. Qed.

(** ** The status merge *)

(** A member record older than what is known is logged and dropped. *)
Lemma updateStatusFromMember_old (w : World) (m : messageMember.t) (n : Node.t) :
  heap w !! messageMember.node m = Some n ->
  messageMember.heartbeat m < Node.heartbeat n ->
  updateStatusFromMember m w =
    Ok tt (set_events
             (cons (Log LDebug (MessageIsOld (Node.heartbeat n) (messageMember.heartbeat m))))
             w).
Proof.
  intros Hn Hold. unfold updateStatusFromMember. go_step.
  destruct (decide (messageMember.heartbeat m < Node.heartbeat n)); [| contradiction].
  reflexivity.
Qed.

(** A record that says [StatusDead] of the address of this host and is
    not older than what is known changes nothing. *)
Lemma updateStatusFromMember_dead_self (w : World) (m : messageMember.t) (n self : Node.t) :
  heap w !! messageMember.node m = Some n ->
  heap w !! thisHost w = Some self ->
  Node.Address n = Node.Address self ->
  messageMember.status m = StatusDead ->
  ¬ messageMember.heartbeat m < Node.heartbeat n ->
  updateStatusFromMember m w = Ok tt w.
Proof.
  intros Hn Hself Haddr Hdead Hnew. unfold updateStatusFromMember. go_step.
  destruct (decide (messageMember.heartbeat m < Node.heartbeat n)); [contradiction |].
  rewrite Hdead. go_run.
  destruct (decide (Node.Address n ≠ Node.Address self)); [contradiction | reflexivity].
Qed.

(** C1 (as the code has it): the heartbeat of a node is protected in the
    status merge, not in [updateNodeStatus].  For a node whose heartbeat
    is above [h]: a member record carrying [h] is logged and dropped, and
    the state is otherwise left as it was; [updateNodeStatus] with the
    node's own status does nothing; [updateNodeStatus] with another status
    (the timeout checker's Dead-marking with [currentHeartbeat] among the
    callers) logs the decrease as a warning and stores [h]. *)
Theorem heartbeat_decrease_dropped_by_merge_only
    (w : World) (p : ptr) (n : Node.t) (h : Z) :
  heap w !! p = Some n ->
  h < Node.heartbeat n ->
  (forall s : NodeStatus,
     updateStatusFromMember (messageMember.mk h p s) w =
       Ok tt (set_events (cons (Log LDebug (MessageIsOld (Node.heartbeat n) h))) w)) /\
  updateNodeStatus p (Node.status n) h w = Ok tt w /\
  (forall s : NodeStatus, s ≠ Node.status n ->
     exists (w' : World) (n' : Node.t),
       updateNodeStatus p s h w = Ok tt w' /\
       heap w' !! p = Some n' /\
       Node.heartbeat n' = h /\
       Node.status n' = s /\
       Log LWarn (DecreasingHeartbeat (Node.heartbeat n) h) ∈ events w').
Proof.
  intros Hp Hlow. split; [| split].
  - intros s. apply (updateStatusFromMember_old w (messageMember.mk h p s) n); assumption.
  - apply updateNodeStatus_same, Hp.
  - intros s Hs. eexists _, _. split.
    + apply updateNodeStatus_changed; [exact Hp | congruence].
    + cbn [heap events]. rewrite lookup_insert_eq. repeat split.
      rewrite bool_decide_true by assumption. set_solver.
Qed.

(** A member record that asserts [StatusDead] about the address of this
    host: the state it leaves. *)
Lemma updateStatusFromMember_dead_self_spec
    (w : World) (m : messageMember.t) (n self : Node.t) :
  heap w !! messageMember.node m = Some n ->
  heap w !! thisHost w = Some self ->
  Node.Address n = Node.Address self ->
  messageMember.status m = StatusDead ->
  exists w' : World,
    updateStatusFromMember m w = Ok tt w' /\
    heap w' = heap w /\
    heap w' !! thisHost w' = Some self /\
    knownNodes w' = knownNodes w /\
    updatedNodes w' = updatedNodes w /\
    deadNodeRetries w' = deadNodeRetries w /\
    (w' = w \/
     w' = set_events
            (cons (Log LDebug (MessageIsOld (Node.heartbeat n) (messageMember.heartbeat m))))
            w).
Proof.
  intros Hn Hself Haddr Hdead.
  destruct (decide (messageMember.heartbeat m < Node.heartbeat n)) as [Hold | Hnew].
  - eexists. split; [apply updateStatusFromMember_old; eassumption |].
    cbn. repeat split; try assumption. right; reflexivity.
  - exists w. split; [eapply updateStatusFromMember_dead_self; eassumption |].
    repeat split; try assumption. left; reflexivity.
Qed.

(** ** Acknowledgements *)

(** C10: an Ack whose key (sender address, heartbeat) has no entry in
    the pending-ack table is ignored: the call returns no error and the
    state is as before, so the table, the RTT estimator and every node's
    [pingMillis] are unchanged, and nothing is relayed (no goroutine is
    started, no datagram is sent). *)
Theorem receiveVerbAckUDP_without_entry_ignored
    (w : World) (msg : message.t) (n : Node.t) :
  heap w !! message.sender msg = Some n ->
  pendingAcks w !! pendingAckKey (Node.Address n) (message.senderHeartbeat msg) = None ->
  receiveVerbAckUDP msg w = Ok None w.
Proof.
  intros Hn Hkey. unfold receiveVerbAckUDP. go_run. rewrite Hkey.
  destruct (decide (is_Some None)) as [[? Habs] |]; [discriminate Habs |].
  go_run. reflexivity.
Qed.

(** C8: the guard [len(msg.members) >= 0] of [receiveVerbForwardUDP]
    holds of every message, so it does not protect [msg.members[0]]: on a
    message whose member list is empty the handler panics with an index
    out of range. *)
Theorem receiveVerbForwardUDP_empty_members_panics (w : World) (msg : message.t) :
  message.members msg = [] ->
  (forall msg' : message.t, Z.of_nat (length (message.members msg')) >= 0) /\
  receiveVerbForwardUDP msg w = Panic "index out of range [0] with length 0".
Proof.
  intros Hempty. split; [intros; lia |].
  unfold receiveVerbForwardUDP. rewrite Hempty. cbn [length lookup].
  destruct (decide (Z.of_nat 0 >= 0)); [reflexivity | lia].
Qed.

(** The synchronisation step always returns; it writes the current
    heartbeat exactly when the sender is more than one beat ahead, and
    otherwise leaves the state as it was. *)
Lemma synchronizeHeartbeats_spec (w : World) (msg : message.t) :
  exists w' : World,
    synchronizeHeartbeats msg w = Ok tt w' /\
    (currentHeartbeat w' = message.senderHeartbeat msg - 1 /\
     currentHeartbeat w' > currentHeartbeat w
     <-> message.senderHeartbeat msg > 0 /\
         message.senderHeartbeat msg - 1 > currentHeartbeat w) /\
    (¬ (message.senderHeartbeat msg > 0 /\
        message.senderHeartbeat msg - 1 > currentHeartbeat w) -> w' = w) /\
    (message.senderHeartbeat msg = 0 -> currentHeartbeat w' = currentHeartbeat w) /\
    currentHeartbeat w <= currentHeartbeat w'.
Proof.
  unfold synchronizeHeartbeats. go_step.
  destruct (decide (message.senderHeartbeat msg > 0 ∧
                    message.senderHeartbeat msg - 1 > currentHeartbeat w)) as [Hadv | Hno].
  - go_run. eexists. split; [reflexivity |]. world_simpl.
    repeat split; try tauto; lia.
  - exists w. split; [reflexivity |].
    repeat split; try tauto; try lia.
Qed.

(** ** The deadline of the timeout checker *)

Lemma Qtruncate_nonneg (f : Q) : (0 <= f)%Q -> Qtruncate f = Qfloor f.
Proof.
  destruct f as [n d]. unfold Qle, Qtruncate, Qfloor. cbn [Qnum Qden]. intros Hn.
  apply Z.quot_div_nonneg; lia.
Qed.

Lemma Qfloor_below (f : Q) (z : Z) : (f < inject_Z z)%Q -> Qfloor f < z.
Proof.
  intros Hlt.
  destruct (Z_lt_le_dec (Qfloor f) z) as [| Hge]; [assumption | exfalso].
  apply (Qlt_irrefl f). eapply Qlt_le_trans; [exact Hlt |].
  eapply Qle_trans; [| apply Qfloor_le]. rewrite <- Zle_Qle. exact Hge.
Qed.

Lemma Qfloor_nonneg (f : Q) : (0 <= f)%Q -> 0 <= Qfloor f.
Proof. intros Hle. change 0 with (Qfloor (inject_Z 0)). apply Qfloor_resp_le, Hle. Qed.

Lemma uint32_of_float64_in_range (f : Q) :
  (0 <= f)%Q -> (f < inject_Z (2 ^ 32))%Q -> uint32_of_float64 f = Qfloor f.
Proof.
  intros Hlo Hhi. unfold uint32_of_float64. rewrite (Qtruncate_nonneg f Hlo).
  pose proof (Qfloor_nonneg f Hlo). pose proof (Qfloor_below f _ Hhi).
  destruct (decide (0 <= Qfloor f < 2 ^ 32)); [reflexivity | lia].
Qed.

Lemma Qfloor_eq_Qceiling_iff (f : Q) : Qfloor f = Qceiling f <-> (f == inject_Z (Qfloor f))%Q.
Proof.
  split.
  - intros Heq. apply Qle_antisym; [| apply Qfloor_le].
    rewrite Heq. apply Qle_ceiling.
  - intros Heq. rewrite Heq at 2. rewrite Qceiling_Z. reflexivity.
Qed.

(** C7 (as the code has it): when [nSigma(3.0)] is a value [f] that
    uint32 can represent, the deadline of a Ping or NFP entry is [f] with
    its fraction discarded, that is [floor f] and not [ceil f] (the two
    agree only when [f] is an integer), and the deadline of a PingReq
    entry is twice that in uint32 arithmetic: exactly twice when the
    double fits 32 bits. *)
Theorem timeoutMillisOf_floor_and_double (pd : pingData) :
  (0 <= pingData_nSigma pd timeoutToleranceSigmas)%Q ->
  (pingData_nSigma pd timeoutToleranceSigmas < inject_Z (2 ^ 32))%Q ->
  timeoutMillisOf pd packPing = Qfloor (pingData_nSigma pd timeoutToleranceSigmas) /\
  timeoutMillisOf pd packNFP = Qfloor (pingData_nSigma pd timeoutToleranceSigmas) /\
  timeoutMillisOf pd packPingReq = wrap32 (2 * timeoutMillisOf pd packPing) /\
  (2 * timeoutMillisOf pd packPing < 2 ^ 32 ->
   timeoutMillisOf pd packPingReq = 2 * timeoutMillisOf pd packPing) /\
  (timeoutMillisOf pd packPing = Qceiling (pingData_nSigma pd timeoutToleranceSigmas) <->
   (pingData_nSigma pd timeoutToleranceSigmas ==
    inject_Z (Qfloor (pingData_nSigma pd timeoutToleranceSigmas)))%Q).
Proof.
  intros Hlo Hhi.
  set (f := pingData_nSigma pd timeoutToleranceSigmas) in *.
  assert (Hping : timeoutMillisOf pd packPing = Qfloor f).
  { unfold timeoutMillisOf. fold f. rewrite (uint32_of_float64_in_range f Hlo Hhi).
    destruct (decide (packPing = packPingReq)); [discriminate | reflexivity]. }
  assert (Hnfp : timeoutMillisOf pd packNFP = Qfloor f).
  { unfold timeoutMillisOf. fold f. rewrite (uint32_of_float64_in_range f Hlo Hhi).
    destruct (decide (packNFP = packPingReq)); [discriminate | reflexivity]. }
  assert (Hreq : timeoutMillisOf pd packPingReq = wrap32 (2 * Qfloor f)).
  { unfold timeoutMillisOf. fold f. rewrite (uint32_of_float64_in_range f Hlo Hhi).
    destruct (decide (packPingReq = packPingReq)); [| congruence].
    f_equal. lia. }
  rewrite Hping, Hnfp, Hreq. repeat split.
  - intros Hfits. unfold wrap32. apply Z.mod_small.
    pose proof (Qfloor_nonneg f Hlo). lia.
  - apply Qfloor_eq_Qceiling_iff.
  - apply Qfloor_eq_Qceiling_iff.
Qed.

(** ** The sweep of the timeout checker *)

(** Whatever the status was, after [updateNodeStatus] the node has the
    status asked for; the other nodes, the registry and the pending-ack
    table are as before. *)
Lemma updateNodeStatus_marks (w : World) (p : ptr) (n : Node.t) (s : NodeStatus) (h : Z) :
  heap w !! p = Some n ->
  exists (w' : World) (n' : Node.t),
    updateNodeStatus p s h w = Ok tt w' /\
    heap w' !! p = Some n' /\
    Node.status n' = s /\
    Node.Address n' = Node.Address n /\
    (forall q : ptr, q ≠ p -> heap w' !! q = heap w !! q) /\
    knownNodes w' = knownNodes w /\
    pendingAcks w' = pendingAcks w.
Proof.
  intros Hp. destruct (decide (Node.status n = s)) as [<- | Hs].
  - exists w, n. split; [apply updateNodeStatus_same, Hp |]. repeat split; assumption.
  - eexists _, _. split; [apply updateNodeStatus_changed; eassumption |].
    cbn [heap knownNodes pendingAcks]. rewrite lookup_insert_eq. repeat split.
    intros q Hq. apply lookup_insert_ne. congruence.
Qed.

(** What the check of one entry does with an expired entry, by kind. *)
Lemma timeoutCheckEntry_expired
    (w : World) (k : string) (pack : pendingAck.t) :
  wrap32 (wrap32 (millis (ticks w)) - pendingAck.startTime pack)
    > timeoutMillisOf (pingdata w) (pendingAck.packType pack) ->
  (pendingAck.packType pack = packPingReq ->
   exists cb : ptr, pendingAck.callback pack = Some cb /\ is_Some (heap w !! cb)) ->
  (pendingAck.packType pack = packNFP ->
   is_Some (heap w !! pendingAck.node pack) /\
   exists cb : ptr, pendingAck.callback pack = Some cb /\ is_Some (heap w !! cb)) ->
  exists w' : World,
    timeoutCheckEntry k pack w = Ok tt w' /\
    pendingAcks w' = delete k (pendingAcks w) /\
    match pendingAck.packType pack with
    | packPing =>
        events w' = Spawn (GoDoForwardOnTimeout pack) :: events w /\
        heap w' = heap w
    | packPingReq =>
        forall (cb : ptr) (n : Node.t),
          pendingAck.callback pack = Some cb -> heap w !! cb = Some n ->
          if bool_decide (is_Some (knownNodes w !! Node.Address n))
          then exists n' : Node.t,
                 heap w' !! cb = Some n' /\
                 Node.status n' = StatusDead /\
                 Node.pingMillis n' = PingTimedOut
          else heap w' = heap w
    | packNFP =>
        forall n : Node.t,
          heap w !! pendingAck.node pack = Some n ->
          if bool_decide (is_Some (knownNodes w !! Node.Address n))
          then exists n' : Node.t,
                 heap w' !! pendingAck.node pack = Some n' /\
                 Node.status n' = StatusDead
          else heap w' = heap w
    end.
Proof.
  intros Hexp Hreq Hnfp. unfold timeoutCheckEntry. go_run.
  destruct (decide (_ > _)) as [_ | Hno]; [| contradiction].
  destruct (pendingAck.packType pack) eqn:Hty.
  - (* Ping *)
    go_run. eexists. split; [reflexivity |]. world_simpl. repeat split.
  - (* PingReq *)
    destruct (Hreq eq_refl) as (cb & Hcb & ncb & Hncb).
    go_run. rewrite Hcb. cbn [nonNil]. go_run.
    destruct (bool_decide (is_Some (knownNodes w !! Node.Address ncb))) eqn:Hknown.
    + go_run.
      match goal with
      | |- context [(mbind _ (updateNodeStatus cb StatusDead ?h)) ?w0] =>
          destruct (updateNodeStatus_marks w0 cb ncb StatusDead h)
            as (w1 & n1 & Hrun & Hn1 & Hs1 & Ha1 & Hothers & Hk1 & Hp1);
            [go_heap |]
      end.
      rewrite (bind_Ok _ _ _ _ _ Hrun). cbv beta.
      go_run. eexists. split; [reflexivity |]. world_simpl.
      split; [rewrite Hp1; reflexivity |].
      intros cb' n' Hcb' Hn'. assert (cb' = cb) by congruence. subst cb'.
      assert (n' = ncb) by congruence. subst n'. rewrite Hknown.
      eexists. rewrite lookup_insert_eq. split; [reflexivity |]. split; [exact Hs1 | reflexivity].
    + go_run. eexists. split; [reflexivity |]. world_simpl. split; [reflexivity |].
      intros cb' n' Hcb' Hn'. assert (cb' = cb) by congruence. subst cb'.
      assert (n' = ncb) by congruence. subst n'. rewrite Hknown. reflexivity.
  - (* NFP *)
    destruct (Hnfp eq_refl) as ((n & Hn) & cb & Hcb & ncb & Hncb).
    go_run.
    destruct (bool_decide (is_Some (knownNodes w !! Node.Address n))) eqn:Hknown.
    + go_run.
      match goal with
      | |- context [(mbind _ (updateNodeStatus (pendingAck.node pack) StatusDead ?h)) ?w0] =>
          destruct (updateNodeStatus_marks w0 (pendingAck.node pack) n StatusDead h)
            as (w1 & n1 & Hrun & Hn1 & Hs1 & Ha1 & Hothers & Hk1 & Hp1);
            [go_heap |]
      end.
      rewrite (bind_Ok _ _ _ _ _ Hrun). cbv beta.
      rewrite Hcb. cbn [nonNil]. go_run.
      assert (Hcb1 : exists m, heap w1 !! cb = Some m /\ Node.status m = Node.status (if decide (cb = pendingAck.node pack) then n1 else ncb)).
      { destruct (decide (cb = pendingAck.node pack)) as [-> | Hne].
        - exists n1. split; [exact Hn1 | reflexivity].
        - exists ncb. rewrite (Hothers cb Hne). world_simpl. split; [exact Hncb | reflexivity]. }
      destruct Hcb1 as (m & Hm & Hsm).
      go_run. eexists. split; [reflexivity |]. world_simpl.
      split; [rewrite Hp1; reflexivity |].
      intros n' Hn'. assert (n' = n) by congruence. subst n'. rewrite Hknown.
      destruct (decide (cb = pendingAck.node pack)) as [-> | Hne].
      * eexists. rewrite lookup_insert_eq. split; [reflexivity |].
        cbn. rewrite Hsm. exact Hs1.
      * exists n1. rewrite lookup_insert_ne by congruence. split; assumption.
    + go_run. eexists. split; [reflexivity |]. world_simpl. split; [reflexivity |].
      intros n' Hn'. assert (n' = n) by congruence. subst n'. rewrite Hknown. reflexivity.
Qed.

(** ** Exponential backoff of dead nodes *)

Lemma wrapInt_small (z : Z) : - 2 ^ 63 <= z < 2 ^ 63 -> wrapInt z = z.
Proof. intros Hz. unfold wrapInt. rewrite Z.mod_small; lia. Qed.

Lemma RemoveNode_forgets (w : World) (p : ptr) (n : Node.t) :
  heap w !! p = Some n ->
  exists w' : World,
    RemoveNode p w = Ok p w' /\
    knownNodes w' !! Node.Address n = None /\
    deadNodeRetries w' = deadNodeRetries w.
Proof.
  intros Hp. unfold RemoveNode. go_run.
  destruct (bool_decide (is_Some (knownNodes w !! Node.Address n))) eqn:Hknown.
  - go_run. eexists. split; [reflexivity |]. world_simpl.
    split; [apply lookup_delete_eq | reflexivity].
  - go_run. eexists. split; [reflexivity |]. split; [| reflexivity].
    apply bool_decide_eq_false in Hknown.
    destruct (knownNodes w !! Node.Address n) eqn:E; [| reflexivity].
    exfalso. apply Hknown. eauto.
Qed.

(** C4: the visit of a Dead node by the failure detector, for the
    counter [(retry, countdown)] of the node (a fresh one is [(1, 2)]):
    the countdown is decremented; if it is still positive the node is
    skipped, nothing else changing; otherwise [retry] is incremented and
    the countdown becomes [2^retry], and the node goes on to be pinged,
    unless [retry] now exceeds [maxDeadNodeRetries] (10), in which case
    the counter is deleted, the node is removed from the registry and the
    node is skipped. *)
Theorem dead_node_backoff
    (w : World) (node : ptr) (n : Node.t) (dnc : deadNodeCounter.t) :
  heap w !! node = Some n ->
  Node.status n = StatusDead ->
  runningFlag w = true ->
  dnc = default (deadNodeCounter.mk 1 2) (deadNodeRetries w !! Node.Address n) ->
  0 <= deadNodeCounter.retry dnc <= 61 ->
  - 2 ^ 62 <= deadNodeCounter.retryCountdown dnc <= 2 ^ 62 ->
  exists (f : flow) (w' : World),
    backoffDeadNode node w = Ok f w' /\
    (f = Continue -> visitNode node w = Ok (Continue, false) w') /\
    (deadNodeCounter.retryCountdown dnc - 1 > 0 ->
     f = Continue /\
     w' = set_deadNodeRetries
            <[Node.Address n :=
                deadNodeCounter.mk (deadNodeCounter.retry dnc)
                  (deadNodeCounter.retryCountdown dnc - 1)]> w) /\
    (deadNodeCounter.retryCountdown dnc - 1 <= 0 ->
     deadNodeCounter.retry dnc + 1 <= maxDeadNodeRetries ->
     f = Fallthrough /\
     w' = set_deadNodeRetries
            <[Node.Address n :=
                deadNodeCounter.mk (deadNodeCounter.retry dnc + 1)
                  (2 ^ (deadNodeCounter.retry dnc + 1))]> w) /\
    (deadNodeCounter.retryCountdown dnc - 1 <= 0 ->
     deadNodeCounter.retry dnc + 1 > maxDeadNodeRetries ->
     f = Continue /\
     deadNodeRetries w' !! Node.Address n = None /\
     knownNodes w' !! Node.Address n = None).
Proof.
  intros Hn Hdead Hrun Hdnc Hretry Hcount.
  assert (Hskip : forall f w', backoffDeadNode node w = Ok f w' -> f = Continue ->
                    visitNode node w = Ok (Continue, false) w').
  { intros f w' Hb ->. unfold visitNode. go_run. rewrite Hrun. go_run.
    destruct (decide (Node.status n = StatusDead)); [| contradiction].
    rewrite (bind_Ok _ _ _ _ _ Hb). reflexivity. }
  assert (Hbody : exists f w', backoffDeadNode node w = Ok f w' /\
    (deadNodeCounter.retryCountdown dnc - 1 > 0 ->
     f = Continue /\
     w' = set_deadNodeRetries
            <[Node.Address n :=
                deadNodeCounter.mk (deadNodeCounter.retry dnc)
                  (deadNodeCounter.retryCountdown dnc - 1)]> w) /\
    (deadNodeCounter.retryCountdown dnc - 1 <= 0 ->
     deadNodeCounter.retry dnc + 1 <= maxDeadNodeRetries ->
     f = Fallthrough /\
     w' = set_deadNodeRetries
            <[Node.Address n :=
                deadNodeCounter.mk (deadNodeCounter.retry dnc + 1)
                  (2 ^ (deadNodeCounter.retry dnc + 1))]> w) /\
    (deadNodeCounter.retryCountdown dnc - 1 <= 0 ->
     deadNodeCounter.retry dnc + 1 > maxDeadNodeRetries ->
     f = Continue /\
     deadNodeRetries w' !! Node.Address n = None /\
     knownNodes w' !! Node.Address n = None)).
  { unfold backoffDeadNode. go_run.
    (* the counter read, and the world after the lookup *)
    set (w0 := match deadNodeRetries w !! Node.Address n with
               | Some _ => w
               | None => set_deadNodeRetries <[Node.Address n := deadNodeCounter.mk 1 2]> w
               end).
    assert (Hread :
      (match deadNodeRetries w !! Node.Address n with
       | Some d => mret d
       | None =>
           modify (set_deadNodeRetries <[Node.Address n := deadNodeCounter.mk 1 2]>) ;;
           mret (deadNodeCounter.mk 1 2)
       end) w = Ok dnc w0).
    { subst dnc w0. destruct (deadNodeRetries w !! Node.Address n); reflexivity. }
    rewrite (bind_Ok _ _ _ _ _ Hread). cbv beta.
    assert (Hw0 : forall d, set_deadNodeRetries <[Node.Address n := d]> w0
                            = set_deadNodeRetries <[Node.Address n := d]> w).
    { intros d. subst w0. destruct (deadNodeRetries w !! Node.Address n); [reflexivity |].
      apply World_ext; world_simpl; try reflexivity. apply insert_insert_eq. }
    assert (Hheap0 : heap w0 !! node = Some n).
    { subst w0. destruct (deadNodeRetries w !! Node.Address n); exact Hn. }
    clearbody w0.
    rewrite (wrapInt_small (deadNodeCounter.retryCountdown dnc - 1)) by lia.
    go_run. cbn [deadNodeCounter.retry deadNodeCounter.retryCountdown].
    destruct (decide (deadNodeCounter.retryCountdown dnc - 1 <= 0)) as [Hzero | Hpos].
    - rewrite (wrapInt_small (deadNodeCounter.retry dnc + 1)) by lia.
      go_run. cbn [deadNodeCounter.retry].
      destruct (decide (deadNodeCounter.retry dnc + 1 > maxDeadNodeRetries)) as [Hmax | Hmore].
      + go_run.
        match goal with
        | |- context [(mbind _ (RemoveNode node)) ?w1] =>
            destruct (RemoveNode_forgets w1 node n) as (w2 & Hrm & Hk2 & Hd2); [go_heap |]
        end.
        rewrite (bind_Ok _ _ _ _ _ Hrm). cbv beta. go_run.
        eexists _, _. split; [reflexivity |].
        split; [intros; lia |]. split; [intros; lia |].
        intros _ _. split; [reflexivity |]. split; [| exact Hk2].
        rewrite Hd2. world_simpl. apply lookup_delete_eq.
      + eexists _, _. split; [reflexivity |].
        split; [intros; lia |]. split; [| intros; lia].
        intros _ _. split; [reflexivity |].
        unfold pow2. destruct (decide (deadNodeCounter.retry dnc + 1 <= 62)); [| lia].
        rewrite <- (Hw0 (deadNodeCounter.mk _ _)).
        apply World_ext; world_simpl; try reflexivity.
        rewrite !insert_insert_eq. reflexivity.
    - eexists _, _. split; [reflexivity |].
      split; [| split; intros; lia].
      intros _. split; [reflexivity |]. apply Hw0. }
  destruct Hbody as (f & w' & Hb & H1 & H2 & H3).
  exists f, w'. split; [exact Hb |]. split; [apply Hskip, Hb |]. auto.
Qed.

(** ** What the handlers leave alone *)

Lemma keeps_ret {A B : Type} (f : World -> B) (a : A) : keeps f (mret a).
Proof. intros w a' w' H. injection H as _ <-. reflexivity. Qed.

Lemma keeps_bind {A A' B : Type} (f : World -> B) (m : Go A) (k : A -> Go A') :
  keeps f m -> (forall a, keeps f (k a)) -> keeps f (m ≫= k).
Proof.
  intros Hm Hk w a' w' H. unfold mbind, Go_bind in H.
  destruct (m w) as [a w1 |] eqn:E; [| discriminate].
  rewrite (Hk a w1 a' w' H). exact (Hm w a w1 E).
Qed.

Lemma keeps_get {A B : Type} (f : World -> B) (g : World -> A) : keeps f (get g).
Proof. intros w a w' H. injection H as _ <-. reflexivity. Qed.

Lemma keeps_modify {B : Type} (f : World -> B) (g : World -> World) :
  (forall w, f (g w) = f w) -> keeps f (modify g).
Proof. intros Hg w a w' H. injection H as H. subst w'. apply Hg. Qed.

Lemma keeps_panic {A B : Type} (f : World -> B) (why : string) : keeps f (panic why : Go A).
Proof. intros w a w' H. discriminate H. Qed.

Lemma keeps_deref {B : Type} (f : World -> B) (p : ptr) : keeps f (deref p).
Proof.
  intros w a w' H. unfold deref in H.
  destruct (heap w !! p); [| discriminate]. injection H as _ <-. reflexivity.
Qed.

Lemma keeps_when {B : Type} (f : World -> B) (b : bool) (m : Go unit) :
  keeps f m -> keeps f (when b m).
Proof. intros Hm. destruct b; [exact Hm | apply keeps_ret]. Qed.

Lemma keeps_forEach {A B : Type} (f : World -> B) (l : list A) (body : A -> Go unit) :
  (forall x, keeps f (body x)) -> keeps f (forEach l body).
Proof.
  intros Hbody. induction l as [| x l IH]; cbn [forEach].
  - apply keeps_ret.
  - apply keeps_bind; [apply Hbody | intros _; exact IH].
Qed.

Lemma keeps_forEachAcc {A B D : Type} (f : World -> B) (l : list A) (acc : D)
    (body : D -> A -> Go D) :
  (forall acc x, keeps f (body acc x)) -> keeps f (forEachAcc l acc body).
Proof.
  intros Hbody. revert acc. induction l as [| x l IH]; intros acc; cbn [forEachAcc].
  - apply keeps_ret.
  - apply keeps_bind; [apply Hbody | intros acc'; apply IH].
Qed.

Create HintDb keeps discriminated.

(** *** Frames of the functions, for any component the writes spare

    [f] is a component of the state; the hypotheses say which writes of
    the program leave it alone.  Each lemma depends on the hypotheses its
    function needs, and on no other. *)
Section Frames.

Variables (B : Type) (f : World -> B).

Hypothesis f_events : forall g w, f (set_events g w) = f w.
Hypothesis f_ticks : forall n w, f (set_ticks n w) = f w.
Hypothesis f_draws : forall n w, f (set_draws n w) = f w.
Hypothesis f_sends : forall n w, f (set_sends n w) = f w.
Hypothesis f_knownNodes : forall g w, f (set_knownNodes g w) = f w.
Hypothesis f_updatedNodes : forall g w, f (set_updatedNodes g w) = f w.
Hypothesis f_deadNodeRetries : forall g w, f (set_deadNodeRetries g w) = f w.
Hypothesis f_pendingAcks : forall g w, f (set_pendingAcks g w) = f w.
Hypothesis f_flag : forall b w, f (set_knownNodesModifiedFlag b w) = f w.
Hypothesis f_pingdata : forall g w, f (set_pingdata g w) = f w.
Hypothesis f_broadcasts : forall g w, f (set_broadcasts g w) = f w.
Hypothesis f_timestamp : forall p ts w n,
  heap w !! p = Some n -> f (set_heap <[p := Node.with_timestamp ts n]> w) = f w.
Hypothesis f_status : forall p s w n,
  heap w !! p = Some n -> f (set_heap <[p := Node.with_status s n]> w) = f w.
Hypothesis f_heartbeat : forall p h w n,
  heap w !! p = Some n -> f (set_heap <[p := Node.with_heartbeat h n]> w) = f w.
Hypothesis f_pingMillis : forall p x w n,
  heap w !! p = Some n -> f (set_heap <[p := Node.with_pingMillis x n]> w) = f w.
Hypothesis f_emitCounter : forall p e w n,
  heap w !! p = Some n -> f (set_heap <[p := Node.with_emitCounter e n]> w) = f w.

(** The writes that are not through a node. *)
Ltac frame_write :=
  intros ?; cbv beta;
  first [ apply f_events | apply f_ticks | apply f_draws | apply f_sends
        | apply f_knownNodes | apply f_updatedNodes | apply f_deadNodeRetries
        | apply f_pendingAcks | apply f_flag | apply f_pingdata | apply f_broadcasts ].

(** Decompose a computation along its syntax. *)
Ltac keeps_step :=
  lazymatch goal with
  | |- keeps _ (mbind _ _) => apply keeps_bind; [| intros ?]
  | |- keeps _ (mret _) => apply keeps_ret
  | |- keeps _ (get _) => apply keeps_get
  | |- keeps _ (panic _) => apply keeps_panic
  | |- keeps _ (deref _) => apply keeps_deref
  | |- keeps _ (when _ _) => apply keeps_when
  | |- keeps _ (forEach _ _) => apply keeps_forEach; intros ?
  | |- keeps _ (forEachAcc _ _ _) => apply keeps_forEachAcc; intros ? ?
  | |- keeps _ (modify _) => apply keeps_modify; frame_write
  | |- keeps _ (emit _) => apply keeps_modify; frame_write
  | |- keeps _ (log _ _) => apply keeps_modify; frame_write
  | |- keeps _ (if ?b then _ else _) => destruct b
  | |- keeps _ (match ?x with _ => _ end) => destruct x
  | |- _ => solve [eauto with keeps]
  end.

Ltac keeps_tac := repeat keeps_step.

(** A write through a node. *)
Lemma keeps_update (p : ptr) (g : Node.t -> Node.t) :
  (forall w n, heap w !! p = Some n -> f (set_heap <[p := g n]> w) = f w) ->
  keeps f (update p g).
Proof.
  intros Hg w a w' H. unfold update, mbind, Go_bind, deref in H.
  destruct (heap w !! p) as [n |] eqn:Hn; [| discriminate].
  injection H as _ H. subst w'. apply Hg, Hn.
Qed.

Lemma keeps_GetNowInMillis : keeps f GetNowInMillis.
Proof. intros w a w' H. injection H as _ H. subst w'. apply f_ticks. Qed.
Hint Resolve keeps_GetNowInMillis : keeps.

Lemma keeps_draw {A : Type} (l : list A) : keeps f (draw l).
Proof. intros w a w' H. injection H as _ H. subst w'. apply f_draws. Qed.
Hint Resolve keeps_draw : keeps.

Lemma keeps_Address (p : ptr) : keeps f (Address p).
Proof. unfold Address. keeps_tac. Qed.
Hint Resolve keeps_Address : keeps.

Lemma keeps_Touch (p : ptr) : keeps f (Touch p).
Proof.
  intros w a w' H. unfold Touch, mbind, Go_bind, deref in H.
  destruct (heap w !! p) as [n |] eqn:Hn; [| discriminate].
  cbn in H. injection H as _ H. subst w'.
  rewrite f_timestamp by exact Hn. apply f_ticks.
Qed.
Hint Resolve keeps_Touch : keeps.

Lemma keeps_nodeMap_contains (m : World -> gmap string ptr) (p : ptr) :
  keeps f (nodeMap_contains m p).
Proof. unfold nodeMap_contains. keeps_tac. Qed.
Hint Resolve keeps_nodeMap_contains : keeps.

Lemma keeps_emitCount : keeps f emitCount.
Proof. unfold emitCount, knownNodes_length. keeps_tac. Qed.
Hint Resolve keeps_emitCount : keeps.

Lemma keeps_pingRequestCount : keeps f pingRequestCount.
Proof. unfold pingRequestCount, knownNodes_length. keeps_tac. Qed.
Hint Resolve keeps_pingRequestCount : keeps.

Lemma keeps_updateNodeStatus (p : ptr) (s : NodeStatus) (h : Z) :
  keeps f (updateNodeStatus p s h).
Proof.
  unfold updateNodeStatus, doStatusUpdate.
  pose proof (fun ts => keeps_update p (Node.with_timestamp ts) (f_timestamp p ts)).
  pose proof (fun s => keeps_update p (Node.with_status s) (f_status p s)).
  pose proof (fun e => keeps_update p (Node.with_emitCounter e) (f_emitCounter p e)).
  pose proof (fun h => keeps_update p (Node.with_heartbeat h) (f_heartbeat p h)).
  keeps_tac.
Qed.
Hint Resolve keeps_updateNodeStatus : keeps.

Lemma keeps_AddNode (p : ptr) : keeps f (AddNode p).
Proof. unfold AddNode, UpdateNodeStatus. keeps_tac. Qed.
Hint Resolve keeps_AddNode : keeps.

Lemma keeps_updateStatusesFromMessage (msg : message.t) :
  keeps f (updateStatusesFromMessage msg).
Proof. unfold updateStatusesFromMessage, updateStatusFromMember. keeps_tac. Qed.
Hint Resolve keeps_updateStatusesFromMessage : keeps.

Lemma keeps_nodeMap_values (m : World -> gmap string ptr) : keeps f (nodeMap_values m).
Proof. unfold nodeMap_values. keeps_tac. Qed.
Hint Resolve keeps_nodeMap_values : keeps.

Lemma keeps_addresses (l : list ptr) : keeps f (addresses l).
Proof. induction l; cbn [addresses]; keeps_tac. Qed.
Hint Resolve keeps_addresses : keeps.

Lemma keeps_withoutExcluded (excluded : list string) (l : list ptr) :
  keeps f (withoutExcluded excluded l).
Proof. induction l; cbn [withoutExcluded]; keeps_tac. Qed.
Hint Resolve keeps_withoutExcluded : keeps.

Lemma keeps_withEmitCounter (l : list ptr) : keeps f (withEmitCounter l).
Proof. induction l; cbn [withEmitCounter]; keeps_tac. Qed.
Hint Resolve keeps_withEmitCounter : keeps.

Lemma keeps_nodeMap_getRandomNodes (m : World -> gmap string ptr) (size : Z)
    (exclude : list ptr) :
  keeps f (nodeMap_getRandomNodes m size exclude).
Proof. unfold nodeMap_getRandomNodes. keeps_tac. Qed.
Hint Resolve keeps_nodeMap_getRandomNodes : keeps.

Lemma keeps_getRandomUpdatedNodes (size : Z) (exclude : list ptr) :
  keeps f (getRandomUpdatedNodes size exclude).
Proof. unfold getRandomUpdatedNodes, pruneOrCopy, excludeFrom. keeps_tac. Qed.
Hint Resolve keeps_getRandomUpdatedNodes : keeps.

Lemma keeps_decrementEmitCounter (p : ptr) : keeps f (decrementEmitCounter p).
Proof.
  unfold decrementEmitCounter. apply keeps_update. intros w n Hn.
  apply f_emitCounter, Hn.
Qed.
Hint Resolve keeps_decrementEmitCounter : keeps.

Lemma keeps_attachMembers (nodes : list ptr) (msg : message.t) :
  keeps f (attachMembers nodes msg).
Proof. revert msg. induction nodes; intros msg; cbn [attachMembers]; keeps_tac. Qed.
Hint Resolve keeps_attachMembers : keeps.

Lemma keeps_transmitVerbGenericUDP (node : ptr) (forwardTo : option ptr)
    (verb : messageVerb) (code : Z) :
  keeps f (transmitVerbGenericUDP node forwardTo verb code).
Proof. unfold transmitVerbGenericUDP. keeps_tac. Qed.
Hint Resolve keeps_transmitVerbGenericUDP : keeps.

Lemma keeps_notePingResponseTime (pack : pendingAck.t) :
  keeps f (notePingResponseTime pack).
Proof.
  unfold notePingResponseTime, elapsed.
  pose proof (fun x => keeps_update (pendingAck.node pack) (Node.with_pingMillis x)
                         (f_pingMillis (pendingAck.node pack) x)).
  keeps_tac.
Qed.
Hint Resolve keeps_notePingResponseTime : keeps.

Lemma keeps_receiveVerbAckUDP (msg : message.t) : keeps f (receiveVerbAckUDP msg).
Proof. unfold receiveVerbAckUDP. keeps_tac. Qed.
Hint Resolve keeps_receiveVerbAckUDP : keeps.

Lemma keeps_receiveVerbForwardUDP (msg : message.t) : keeps f (receiveVerbForwardUDP msg).
Proof. unfold receiveVerbForwardUDP. keeps_tac. Qed.
Hint Resolve keeps_receiveVerbForwardUDP : keeps.

Lemma keeps_receiveVerbPingUDP (msg : message.t) : keeps f (receiveVerbPingUDP msg).
Proof. unfold receiveVerbPingUDP, transmitVerbAckUDP. keeps_tac. Qed.
Hint Resolve keeps_receiveVerbPingUDP : keeps.

Lemma keeps_receiveVerbNonForwardPingUDP (msg : message.t) :
  keeps f (receiveVerbNonForwardPingUDP msg).
Proof. unfold receiveVerbNonForwardPingUDP, transmitVerbAckUDP. keeps_tac. Qed.
Hint Resolve keeps_receiveVerbNonForwardPingUDP : keeps.

Lemma keeps_transmitVerbForwardUDP (node downstream : ptr) (code : Z) :
  keeps f (transmitVerbForwardUDP node downstream code).
Proof. unfold transmitVerbForwardUDP. keeps_tac. Qed.
Hint Resolve keeps_transmitVerbForwardUDP : keeps.

Lemma keeps_requestIndirectPing (pack : pendingAck.t) (n : ptr) :
  keeps f (requestIndirectPing pack n).
Proof. unfold requestIndirectPing. keeps_tac. Qed.
Hint Resolve keeps_requestIndirectPing : keeps.

Lemma keeps_takeLive (count : Z) (randomNodes filteredNodes : list ptr) :
  keeps f (takeLive count randomNodes filteredNodes).
Proof.
  revert filteredNodes. induction randomNodes; intros filteredNodes; cbn [takeLive]; keeps_tac.
Qed.
Hint Resolve keeps_takeLive : keeps.

Lemma keeps_getTargetNodes (count : Z) (exclude : list ptr) :
  keeps f (getTargetNodes count exclude).
Proof. unfold getTargetNodes. keeps_tac. Qed.
Hint Resolve keeps_getTargetNodes : keeps.

(** What [receiveMessageUDP] does after the synchronisation. *)
Lemma keeps_receive_after_synchronisation (msg : message.t) :
  keeps f
    (updateStatusesFromMessage msg ;;
     modify (set_broadcasts (receiveBroadcast (message.broadcast msg))) ;;
     match message.verb msg with
     | verbPing => receiveVerbPingUDP msg
     | verbAck => receiveVerbAckUDP msg
     | verbPingRequest => receiveVerbForwardUDP msg
     | verbNonForwardingPing => receiveVerbNonForwardPingUDP msg
     end).
Proof. keeps_tac. Qed.

End Frames.

(** After its first two steps (the trace line and the synchronisation),
    [receiveMessageUDP] does not write the current heartbeat. *)
Lemma receiveMessageUDP_heartbeat (msg : message.t) (w w' : World) (r : option error) :
  receiveMessageUDP msg w = Ok r w' ->
  exists (w0 w1 : World),
    synchronizeHeartbeats msg w0 = Ok tt w1 /\
    currentHeartbeat w0 = currentHeartbeat w /\
    currentHeartbeat w' = currentHeartbeat w1.
Proof.
  unfold receiveMessageUDP. intros H.
  unfold mbind at 1, Go_bind at 1 in H.
  destruct (Address (message.sender msg) w) as [a wa |] eqn:Ea; [| discriminate].
  assert (Hwa : currentHeartbeat wa = currentHeartbeat w).
  { unfold Address, mbind, Go_bind, deref in Ea.
    destruct (heap w !! message.sender msg); [| discriminate].
    injection Ea as _ <-. reflexivity. }
  unfold mbind at 1, Go_bind at 1 in H. cbn [log emit modify] in H.
  unfold mbind at 1, Go_bind at 1 in H.
  destruct (synchronizeHeartbeats msg _) as [[] w1 |] eqn:Es; [| discriminate].
  eexists _, w1. split; [exact Es |]. split; [exact Hwa |].
  refine (keeps_receive_after_synchronisation _ currentHeartbeat
            _ _ _ _ _ _ _ _ _ _ _ _ _ _ _ _ msg w1 r w' H);
    intros; reflexivity.
Qed.

(** C5: for every received datagram, [currentHeartbeat] is advanced to
    [senderHeartbeat - 1] if and only if [senderHeartbeat > 0] and
    [senderHeartbeat - 1 > currentHeartbeat]; a sender heartbeat of 0
    never advances it, and it is never lowered.  When the condition
    holds the current heartbeat is [senderHeartbeat - 1] afterwards, and
    when it does not the current heartbeat is what it was (the
    synchronisation step then leaves the whole state as it was).  This
    holds of the synchronisation step, which always returns, and of the
    whole of [receiveMessageUDP] whenever the handler returns: nothing
    after the synchronisation writes the current heartbeat. *)
Theorem received_datagram_advances_heartbeat_iff (w : World) (msg : message.t) :
  (exists w' : World,
     synchronizeHeartbeats msg w = Ok tt w' /\
     currentHeartbeat w' =
       (if decide (message.senderHeartbeat msg > 0 /\
                   message.senderHeartbeat msg - 1 > currentHeartbeat w)
        then message.senderHeartbeat msg - 1 else currentHeartbeat w) /\
     (¬ (message.senderHeartbeat msg > 0 /\
         message.senderHeartbeat msg - 1 > currentHeartbeat w) -> w' = w) /\
     (currentHeartbeat w' ≠ currentHeartbeat w
      <-> message.senderHeartbeat msg > 0 /\
          message.senderHeartbeat msg - 1 > currentHeartbeat w) /\
     (currentHeartbeat w' = message.senderHeartbeat msg - 1 /\
      currentHeartbeat w' > currentHeartbeat w
      <-> message.senderHeartbeat msg > 0 /\
          message.senderHeartbeat msg - 1 > currentHeartbeat w) /\
     (message.senderHeartbeat msg = 0 -> currentHeartbeat w' = currentHeartbeat w) /\
     currentHeartbeat w <= currentHeartbeat w') /\
  (forall (r : option error) (w' : World),
     receiveMessageUDP msg w = Ok r w' ->
     currentHeartbeat w' =
       (if decide (message.senderHeartbeat msg > 0 /\
                   message.senderHeartbeat msg - 1 > currentHeartbeat w)
        then message.senderHeartbeat msg - 1 else currentHeartbeat w) /\
     (currentHeartbeat w' ≠ currentHeartbeat w
      <-> message.senderHeartbeat msg > 0 /\
          message.senderHeartbeat msg - 1 > currentHeartbeat w) /\
     (currentHeartbeat w' = message.senderHeartbeat msg - 1 /\
      currentHeartbeat w' > currentHeartbeat w
      <-> message.senderHeartbeat msg > 0 /\
          message.senderHeartbeat msg - 1 > currentHeartbeat w) /\
     (message.senderHeartbeat msg = 0 -> currentHeartbeat w' = currentHeartbeat w) /\
     currentHeartbeat w <= currentHeartbeat w').
Proof.
  assert (Hvalue : forall v v' : World,
            synchronizeHeartbeats msg v = Ok tt v' ->
            currentHeartbeat v' =
              (if decide (message.senderHeartbeat msg > 0 /\
                          message.senderHeartbeat msg - 1 > currentHeartbeat v)
               then message.senderHeartbeat msg - 1 else currentHeartbeat v)).
  { intros v v' Hrun.
    destruct (synchronizeHeartbeats_spec v msg) as (v1 & Hrun1 & Hiff & Hsame & _).
    rewrite Hrun in Hrun1. injection Hrun1 as <-.
    destruct (decide (message.senderHeartbeat msg > 0 /\
                      message.senderHeartbeat msg - 1 > currentHeartbeat v)) as [Hadv | Hno].
    - apply Hiff in Hadv. tauto.
    - rewrite (Hsame Hno). reflexivity. }
  split.
  - destruct (synchronizeHeartbeats_spec w msg)
      as (w' & Hrun & Hiff & Hsame & Hzero & Hle).
    exists w'. split; [exact Hrun |]. split; [exact (Hvalue w w' Hrun) |].
    split; [exact Hsame |]. split; [| auto].
    pose proof (Hvalue w w' Hrun) as Hv.
    destruct (decide (message.senderHeartbeat msg > 0 /\
                      message.senderHeartbeat msg - 1 > currentHeartbeat w));
      split; intros; try tauto; lia.
  - intros r w' Hrecv.
    destruct (receiveMessageUDP_heartbeat msg w w' r Hrecv) as (w0 & w1 & Hsync & Hw0 & Hw1).
    destruct (synchronizeHeartbeats_spec w0 msg) as (w1' & Hrun & Hiff & _ & Hzero & Hle).
    rewrite Hsync in Hrun. injection Hrun as <-.
    pose proof (Hvalue w0 w1 Hsync) as Hv.
    rewrite Hw1. rewrite <- Hw0. split; [exact Hv |]. split; [| auto].
    destruct (decide (message.senderHeartbeat msg > 0 /\
                      message.senderHeartbeat msg - 1 > currentHeartbeat w0));
      split; intros; try tauto; lia.
Qed.

(** ** The status merge never makes this host Dead *)

Lemma preserves_ret {A : Type} (I : World -> Prop) (a : A) : preserves I (mret a).
Proof. intros w a' w' HI H. injection H as _ <-. exact HI. Qed.

Lemma preserves_bind {A A' : Type} (I : World -> Prop) (m : Go A) (k : A -> Go A') :
  preserves I m -> (forall a, preserves I (k a)) -> preserves I (m ≫= k).
Proof.
  intros Hm Hk w a' w' HI H. unfold mbind, Go_bind in H.
  destruct (m w) as [a w1 |] eqn:E; [| discriminate].
  exact (Hk a w1 a' w' (Hm w a w1 HI E) H).
Qed.

Lemma preserves_forEach {A : Type} (I : World -> Prop) (l : list A) (body : A -> Go unit) :
  (forall x, preserves I (body x)) -> preserves I (forEach l body).
Proof.
  intros Hbody. induction l as [| x l IH]; cbn [forEach].
  - apply preserves_ret.
  - apply preserves_bind; [apply Hbody | intros _; exact IH].
Qed.

Lemma selfNotDead_ext (w w' : World) :
  heap w' = heap w -> thisHost w' = thisHost w -> selfNotDead w -> selfNotDead w'.
Proof. intros Hh Ht (n & Hn & Hs). exists n. rewrite Hh, Ht. split; assumption. Qed.

Lemma selfNotDead_write (w w' : World) (p : ptr) (n' : Node.t) :
  heap w' = <[p := n']> (heap w) -> thisHost w' = thisHost w ->
  (p = thisHost w -> Node.status n' ≠ StatusDead) ->
  selfNotDead w -> selfNotDead w'.
Proof.
  intros Hh Ht Hp (n & Hn & Hs). unfold selfNotDead. rewrite Hh, Ht.
  destruct (decide (p = thisHost w)) as [-> | Hne].
  - exists n'. rewrite lookup_insert_eq. split; [reflexivity | apply Hp; reflexivity].
  - exists n. rewrite lookup_insert_ne by assumption. split; assumption.
Qed.

Lemma deref_None_bind {A : Type} (w w' : World) (p : ptr) (k : Node.t -> Go A) (a : A) :
  heap w !! p = None -> (deref p ≫= k) w = Ok a w' -> False.
Proof. intros H. unfold mbind, Go_bind, deref. rewrite H. discriminate. Qed.

Lemma updateNodeStatus_selfNotDead (p : ptr) (s : NodeStatus) (h : Z) (w w' : World)
    (a : unit) :
  (p = thisHost w -> s ≠ StatusDead) ->
  selfNotDead w -> updateNodeStatus p s h w = Ok a w' -> selfNotDead w'.
Proof.
  intros Hp HI H. destruct a. destruct (heap w !! p) as [n |] eqn:Hn.
  - destruct (decide (Node.status n = s)) as [<- | Hs].
    + rewrite (updateNodeStatus_same w p n h Hn) in H. injection H as <-. exact HI.
    + rewrite (updateNodeStatus_changed w p n s h Hn Hs) in H. injection H as <-.
      eapply selfNotDead_write; [reflexivity | reflexivity | | exact HI]. exact Hp.
  - unfold updateNodeStatus in H. exfalso. exact (deref_None_bind _ _ _ _ _ Hn H).
Qed.

Lemma Touch_selfNotDead (p : ptr) : preserves selfNotDead (Touch p).
Proof.
  intros w a w' HI H. destruct (heap w !! p) as [n |] eqn:Hn.
  - rewrite (Touch_Ok w p n Hn) in H. injection H as H; subst w'.
    eapply selfNotDead_write; [reflexivity | reflexivity | | exact HI].
    intros Hp. cbn in Hp. destruct HI as (ns & Hns & Hs). rewrite <- Hp, Hn in Hns.
           injection Hns as <-. exact Hs.
  - unfold Touch in H. exfalso. exact (deref_None_bind _ _ _ _ _ Hn H).
Qed.

Lemma AddNode_selfNotDead (p : ptr) : preserves selfNotDead (AddNode p).
Proof.
  intros w q w' HI H. destruct (heap w !! p) as [n |] eqn:Hn.
  - revert H. unfold AddNode. go_run.
    destruct (bool_decide (is_Some (knownNodes w !! Node.Address n))).
    + go_run. intros H. injection H as _ H; subst w'. exact HI.
    + go_run. destruct (decide (Node.status n = StatusUnknown)) as [Hu | Hu].
      * go_run. unfold UpdateNodeStatus. go_run.
        match goal with
        | |- context [(mbind ?k (updateNodeStatus p StatusAlive ?h)) ?w0] =>
            destruct (updateNodeStatus p StatusAlive h w0) as [[] w1 |] eqn:Hup;
              [rewrite (bind_Ok _ k _ _ _ Hup) | rewrite (bind_Panic _ k _ _ Hup); discriminate]
        end.
        cbv beta.
        assert (HI1 : selfNotDead w1).
        { eapply updateNodeStatus_selfNotDead; [| | exact Hup]; [discriminate |].
          eapply selfNotDead_ext; [| | exact HI]; reflexivity. }
        destruct (Touch p w1) as [[] w2 |] eqn:Ht;
          [| intros H; rewrite (bind_Panic _ _ _ _ Ht) in H; discriminate].
        rewrite (bind_Ok _ _ _ _ _ Ht). cbv beta.
        pose proof (Touch_selfNotDead p w1 tt w2 HI1 Ht) as HI2.
        destruct (heap w2 !! p) as [n2 |] eqn:Hn2.
        -- go_run. intros H. injection H as _ H; subst w'.
           eapply selfNotDead_ext; [| | exact HI2]; reflexivity.
        -- intros H. exfalso. unfold Address in H. rewrite bind_assoc in H.
           exact (deref_None_bind _ _ _ _ _ Hn2 H).
      * destruct (decide (Node.status n = StatusForwardTo)).
        -- go_run. unfold panic. unfold mbind, Go_bind. discriminate.
        -- go_run. intros H. injection H as _ H; subst w'.
           eapply selfNotDead_write; [reflexivity | reflexivity | | exact HI].
           intros Hp. cbn in Hp. destruct HI as (ns & Hns & Hs). rewrite <- Hp, Hn in Hns.
           injection Hns as <-. exact Hs.
  - unfold AddNode, nodeMap_contains, Address in H. rewrite !bind_assoc in H.
    exfalso. exact (deref_None_bind _ _ _ _ _ Hn H).
Qed.

(** Run the call at the head of the computation and keep the case where
    it returns. *)
Ltac go_call E :=
  match goal with
  | |- context [(mbind ?k ?m) ?w0] =>
      destruct (m w0) as [? ? |] eqn:E;
        [rewrite (bind_Ok m k w0 _ _ E) | rewrite (bind_Panic m k w0 _ E); discriminate]
  end; cbv beta.

Lemma updateStatusFromMember_selfNotDead (m : messageMember.t) :
  preserves selfNotDead (updateStatusFromMember m).
Proof.
  intros w a w' HI H. destruct (heap w !! messageMember.node m) as [n |] eqn:Hn.
  - revert H. unfold updateStatusFromMember. go_step.
    destruct (decide (messageMember.heartbeat m < Node.heartbeat n)).
    { go_run. intros H. injection H as _ H; subst w'.
      eapply selfNotDead_ext; [| | exact HI]; reflexivity. }
    destruct (messageMember.status m) eqn:Hs.
    + (* Unknown *)
      go_call Hup. go_call Hadd. go_run. intros H. injection H as _ H; subst w'.
      eapply AddNode_selfNotDead; [| exact Hadd].
      eapply updateNodeStatus_selfNotDead; [| exact HI | exact Hup]. discriminate.
    + (* Alive *)
      go_call Hup. go_call Hadd. go_run. intros H. injection H as _ H; subst w'.
      eapply AddNode_selfNotDead; [| exact Hadd].
      eapply updateNodeStatus_selfNotDead; [| exact HI | exact Hup]. discriminate.
    + (* Dead *)
      destruct HI as (ns & Hns & Hsn). go_run.
      destruct (decide (Node.Address n ≠ Node.Address ns)) as [Hother | Hself].
      * go_call Hup. go_call Hadd. go_run. intros H. injection H as _ H; subst w'.
        eapply AddNode_selfNotDead; [| exact Hadd].
        eapply updateNodeStatus_selfNotDead; [| | exact Hup].
        -- intros Hp. exfalso. apply Hother. rewrite Hp, Hns in Hn. congruence.
        -- exists ns. split; assumption.
      * go_run. intros H. injection H as _ H; subst w'. exists ns. split; assumption.
    + (* ForwardTo *)
      go_run. intros H. injection H as _ H; subst w'. exact HI.
  - unfold updateStatusFromMember in H. exfalso. exact (deref_None_bind _ _ _ _ _ Hn H).
Qed.

(** The whole merge of a message: whatever the member records and the
    sender are, this host is not Dead after it if it was not before. *)
Lemma updateStatusesFromMessage_selfNotDead (msg : message.t) :
  preserves selfNotDead (updateStatusesFromMessage msg).
Proof.
  unfold updateStatusesFromMessage.
  apply preserves_bind; [apply preserves_forEach, updateStatusFromMember_selfNotDead |].
  intros _ w a w' HI H.
  destruct (heap w !! message.sender msg) as [s |] eqn:Hs.
  - revert H. go_step.
    go_call Hw.
    assert (HI1 : selfNotDead w0).
    { revert Hw. unfold when. destruct (bool_decide _); intros Hw.
      - eapply updateNodeStatus_selfNotDead; [| exact HI | exact Hw]. discriminate.
      - injection Hw as _ Hw; subst w0. exact HI. }
    go_call Hknown.
    assert (HI2 : selfNotDead w1).
    { revert Hknown. unfold nodeMap_contains, Address.
      destruct (heap w0 !! message.sender msg) as [s0 |] eqn:Hs0.
      - go_run. intros Hk. injection Hk as _ Hk; subst w1. exact HI1.
      - intros Hk. exfalso. rewrite !bind_assoc in Hk.
        exact (deref_None_bind _ _ _ _ _ Hs0 Hk). }
    unfold when. destruct (negb _).
    + go_call Hadd. go_run. intros H. injection H as _ H; subst w'.
      eapply AddNode_selfNotDead; [exact HI2 | exact Hadd].
    + go_run. intros H. injection H as _ H; subst w'. exact HI2.
  - exfalso. exact (deref_None_bind _ _ _ _ _ Hs H).
Qed.

(** The status merge and this host (the part of the claim on the self
    node that the code keeps): a member record that asserts [StatusDead]
    about the address of the local host is ignored by the status merge: the heap of nodes (so
    the status and heartbeat of this host), the registry, the updated set
    and the dead-node counters are as before, and at most the debug line
    of an old message is logged; no listener notification is issued.
    And whatever a message carries, the merge of it never makes this host
    Dead: if this host is not Dead before [updateStatusesFromMessage], it
    is not Dead after it. *)
Theorem dead_record_about_self_ignored
    (w : World) (m : messageMember.t) (n self : Node.t) :
  heap w !! messageMember.node m = Some n ->
  heap w !! thisHost w = Some self ->
  Node.Address n = Node.Address self ->
  messageMember.status m = StatusDead ->
  (exists w' : World,
     updateStatusFromMember m w = Ok tt w' /\
     heap w' = heap w /\
     heap w' !! thisHost w' = Some self /\
     knownNodes w' = knownNodes w /\
     updatedNodes w' = updatedNodes w /\
     deadNodeRetries w' = deadNodeRetries w /\
     (w' = w \/
      w' = set_events
             (cons (Log LDebug (MessageIsOld (Node.heartbeat n) (messageMember.heartbeat m))))
             w)) /\
  (forall (msg : message.t) (w1 w2 : World),
     selfNotDead w1 -> updateStatusesFromMessage msg w1 = Ok tt w2 -> selfNotDead w2).
Proof.
  intros Hn Hself Haddr Hdead. split.
  - exact (updateStatusFromMember_dead_self_spec w m n self Hn Hself Haddr Hdead).
  - intros msg w1 w2 HI Hrun. exact (updateStatusesFromMessage_selfNotDead msg w1 tt w2 HI Hrun).
Qed.

(** ** The fan-out of [doForwardOnTimeout] *)

(** A field of a node that the emit counter is not. *)
Lemma field_spared_by_emitCounter {X : Type} (phi : Node.t -> X) (q : ptr) :
  (forall e n, phi (Node.with_emitCounter e n) = phi n) ->
  forall p e w n,
    heap w !! p = Some n ->
    phi <$> heap (set_heap <[p := Node.with_emitCounter e n]> w) !! q = phi <$> heap w !! q.
Proof.
  intros Hphi p e w n Hn. cbn [heap set_heap].
  destruct (decide (p = q)) as [-> | Hne].
  - rewrite lookup_insert_eq, Hn. cbn. f_equal. apply Hphi.
  - rewrite lookup_insert_ne by assumption. reflexivity.
Qed.

Lemma transmitVerbForwardUDP_pending (r t : ptr) (hb : Z) (w w1 : World) (e : option error) :
  transmitVerbForwardUDP r t hb w = Ok e w1 ->
  exists nr : Node.t,
    heap w !! r = Some nr /\
    pendingAcks w1 =
      <[pendingAckKey (Node.Address nr) hb :=
          pendingAck.mk (wrap32 (millis (ticks w))) r (Some t) 0 packPingReq]> (pendingAcks w).
Proof.
  intros H. destruct (heap w !! r) as [nr |] eqn:Hr.
  - exists nr. split; [reflexivity |]. revert H. unfold transmitVerbForwardUDP. go_run.
    intros H.
    apply (keeps_transmitVerbGenericUDP _ pendingAcks) in H; try (intros; reflexivity).
    exact H.
  - exfalso. unfold transmitVerbForwardUDP, Address in H. rewrite bind_assoc in H.
    exact (deref_None_bind _ _ _ _ _ Hr H).
Qed.

Lemma requestIndirectPing_pending (pack : pendingAck.t) (r : ptr) (w w1 : World) (u : unit) :
  requestIndirectPing pack r w = Ok u w1 ->
  exists (nr : Node.t) (e : pendingAck.t),
    heap w !! r = Some nr /\
    pendingAck.packType e = packPingReq /\
    pendingAck.callback e = Some (pendingAck.node pack) /\
    pendingAcks w1 = <[pendingAckKey (Node.Address nr) (currentHeartbeat w) := e]> (pendingAcks w).
Proof.
  intros H. destruct (heap w !! pendingAck.node pack) as [nt |] eqn:Ht.
  - destruct (heap w !! r) as [nr |] eqn:Hr.
    + revert H. unfold requestIndirectPing. go_run. go_call Htx. go_run.
      intros H. injection H as _ H. subst w1.
      destruct (transmitVerbForwardUDP_pending _ _ _ _ _ _ Htx) as (nr' & Hr' & Hacks).
      revert Hr' Hacks. world_simpl. rewrite Hr. intros Heq Hacks. injection Heq as <-.
      eexists nr, _. split; [reflexivity |]. split; [| split; [| exact Hacks]]; reflexivity.
    + exfalso. revert H. unfold requestIndirectPing. go_run. unfold Address.
      rewrite bind_assoc. intros H. exact (deref_None_bind _ _ _ _ _ Hr H).
  - exfalso. unfold requestIndirectPing, Address in H. rewrite bind_assoc in H.
    exact (deref_None_bind _ _ _ _ _ Ht H).
Qed.

(** *** The choice of the relays *)

Lemma addresses_returns (l : list ptr) (w : World) :
  (forall p, p ∈ l -> is_Some (heap w !! p)) ->
  exists ads : list string,
    addresses l w = Ok ads w /\
    forall p n, p ∈ l -> heap w !! p = Some n -> Node.Address n ∈ ads.
Proof.
  induction l as [| p l IH]; intros Hl; cbn [addresses].
  - exists []. split; [reflexivity |]. intros p n Hp. inversion Hp.
  - destruct (Hl p) as [n Hn]; [left |].
    destruct IH as (ads & Hrun & Hads); [intros q Hq; apply Hl; right; exact Hq |].
    go_run. rewrite (bind_Ok _ _ _ _ _ Hrun). cbv beta. go_run.
    eexists. split; [reflexivity |].
    intros q nq Hq Hnq. apply elem_of_cons in Hq as [-> | Hq].
    + rewrite Hn in Hnq. injection Hnq as <-. left.
    + right. eapply Hads; eassumption.
Qed.

Lemma withoutExcluded_returns (excluded : list string) (l : list ptr) (w : World) :
  (forall p, p ∈ l -> is_Some (heap w !! p)) ->
  exists l' : list ptr,
    withoutExcluded excluded l w = Ok l' w /\
    forall r, r ∈ l' ->
      r ∈ l /\ exists nr, heap w !! r = Some nr /\ Node.Address nr ∉ excluded.
Proof.
  induction l as [| p l IH]; intros Hl; cbn [withoutExcluded].
  - exists []. split; [reflexivity |]. intros r Hr. inversion Hr.
  - destruct (Hl p) as [n Hn]; [left |].
    destruct IH as (l' & Hrun & Hspec); [intros q Hq; apply Hl; right; exact Hq |].
    go_run. rewrite (bind_Ok _ _ _ _ _ Hrun). cbv beta. go_run.
    eexists. split; [reflexivity |].
    intros r Hr. unfold addressIn in Hr.
    destruct (bool_decide (Node.Address n ∈ excluded)) eqn:Hex.
    + destruct (Hspec r Hr) as (Hin & Hrest). split; [right; exact Hin | exact Hrest].
    + apply elem_of_cons in Hr as [-> | Hr].
      * split; [left |]. exists n. split; [exact Hn |].
        apply bool_decide_eq_false in Hex. exact Hex.
      * destruct (Hspec r Hr) as (Hin & Hrest). split; [right; exact Hin | exact Hrest].
Qed.

Lemma takeLive_returns (count : Z) (l acc : list ptr) (w : World) :
  (forall p, p ∈ l -> is_Some (heap w !! p)) ->
  exists res : list ptr,
    takeLive count l acc w = Ok res w /\
    (forall r, r ∈ res ->
       r ∈ acc \/ (r ∈ l /\ exists nr, heap w !! r = Some nr /\ Node.status nr ≠ StatusDead)) /\
    (Z.of_nat (length acc) <= count -> Z.of_nat (length res) <= count).
Proof.
  revert acc. induction l as [| p l IH]; intros acc Hl; cbn [takeLive].
  - exists acc. split; [reflexivity |]. split; [intros r Hr; left; exact Hr | trivial].
  - destruct (decide (Z.of_nat (length acc) >= count)) as [Hfull | Hroom].
    + exists acc. split; [reflexivity |]. split; [intros r Hr; left; exact Hr | trivial].
    + destruct (Hl p) as [n Hn]; [left |]. go_run.
      assert (Hl' : forall q, q ∈ l -> is_Some (heap w !! q))
        by (intros q Hq; apply Hl; right; exact Hq).
      destruct (decide (Node.status n = StatusDead)) as [Hdead | Hlive].
      * destruct (IH acc Hl') as (res & Hrun & Hres & Hlen).
        exists res. split; [exact Hrun |]. split; [| exact Hlen].
        intros r Hr. destruct (Hres r Hr) as [Hacc | (Hin & Hrest)];
          [left; exact Hacc | right; split; [right; exact Hin | exact Hrest]].
      * destruct (IH (acc ++ [p]) Hl') as (res & Hrun & Hres & Hlen).
        exists res. split; [exact Hrun |]. split.
        -- intros r Hr. destruct (Hres r Hr) as [Hacc | (Hin & Hrest)].
           ++ apply elem_of_app in Hacc as [Hacc | Hp]; [left; exact Hacc |].
              apply list_elem_of_singleton in Hp as ->. right. split; [left |].
              exists n. split; assumption.
           ++ right. split; [right; exact Hin | exact Hrest].
        -- intros _. apply Hlen. rewrite length_app. cbn [length]. lia.
Qed.

Lemma nodeMap_values_returns (m : World -> gmap string ptr) (w : World) :
  shuffleWithin ->
  exists l : list ptr,
    nodeMap_values m w = Ok l (set_draws (S (draws w)) w) /\
    forall p, p ∈ l -> exists a, m w !! a = Some p.
Proof.
  intros Hshuffle. unfold nodeMap_values. go_run. eexists. split; [reflexivity |].
  intros p Hp. apply Hshuffle in Hp. apply list_elem_of_fmap in Hp as ([a q] & -> & Hin).
  exists a. apply elem_of_map_to_list in Hin. exact Hin.
Qed.

Lemma knownNodes_getRandomNodes_returns (size : Z) (exclude : list ptr) (w : World) :
  shuffleWithin ->
  (forall a p, knownNodes w !! a = Some p -> is_Some (heap w !! p)) ->
  (forall x, x ∈ exclude -> is_Some (heap w !! x)) ->
  exists l : list ptr,
    nodeMap_getRandomNodes knownNodes size exclude w = Ok l (set_draws (S (draws w)) w) /\
    forall r, r ∈ l ->
      (exists a, knownNodes w !! a = Some r) /\
      exists nr, heap w !! r = Some nr /\
        forall x nx, x ∈ exclude -> heap w !! x = Some nx -> Node.Address nr ≠ Node.Address nx.
Proof.
  intros Hshuffle Hknown Hexclude. unfold nodeMap_getRandomNodes.
  destruct (nodeMap_values_returns knownNodes w Hshuffle) as (allNodes & Hvalues & Hall).
  rewrite (bind_Ok _ _ _ _ _ Hvalues). cbv beta.
  destruct (addresses_returns exclude (set_draws (S (draws w)) w)) as (ads & Hads & Hin);
    [exact Hexclude |].
  rewrite (bind_Ok _ _ _ _ _ Hads). cbv beta.
  destruct (withoutExcluded_returns ads allNodes (set_draws (S (draws w)) w))
    as (filtered & Hfiltered & Hspec).
  { intros p Hp. destruct (Hall p Hp) as [a Ha]. exact (Hknown a p Ha). }
  rewrite (bind_Ok _ _ _ _ _ Hfiltered). cbv beta. go_run.
  eexists. split; [reflexivity |].
  intros r Hr.
  assert (Hr' : r ∈ filtered).
  { destruct (decide (size = 0)); [exact Hr |]. eapply subseteq_take; exact Hr. }
  destruct (Hspec r Hr') as (Hrall & nr & Hnr & Hnot).
  split; [apply Hall, Hrall |]. exists nr. split; [exact Hnr |].
  intros x nx Hx Hnx Heq. apply Hnot. rewrite Heq. eapply Hin; eassumption.
Qed.

(** [getTargetNodes] returns at most [count] registered nodes, none of
    them Dead, none at the address of an excluded node. *)
Lemma getTargetNodes_returns (count : Z) (exclude : list ptr) (w : World) :
  shuffleWithin ->
  0 <= count ->
  (forall a p, knownNodes w !! a = Some p -> is_Some (heap w !! p)) ->
  (forall x, x ∈ exclude -> is_Some (heap w !! x)) ->
  exists l : list ptr,
    getTargetNodes count exclude w = Ok l (set_draws (S (draws w)) w) /\
    Z.of_nat (length l) <= count /\
    forall r, r ∈ l ->
      (exists a, knownNodes w !! a = Some r) /\
      exists nr, heap w !! r = Some nr /\ Node.status nr ≠ StatusDead /\
        forall x nx, x ∈ exclude -> heap w !! x = Some nx -> Node.Address nr ≠ Node.Address nx.
Proof.
  intros Hshuffle Hcount Hknown Hexclude. unfold getTargetNodes.
  destruct (knownNodes_getRandomNodes_returns 0 exclude w Hshuffle Hknown Hexclude)
    as (randomNodes & Hrandom & Hspec).
  rewrite (bind_Ok _ _ _ _ _ Hrandom). cbv beta.
  destruct (decide (count < 0)); [lia |].
  destruct (takeLive_returns count randomNodes [] (set_draws (S (draws w)) w))
    as (res & Hrun & Hres & Hlen).
  { intros p Hp. destruct (Hspec p Hp) as (_ & nr & Hnr & _). eexists. exact Hnr. }
  exists res. split; [exact Hrun |]. split; [apply Hlen; cbn; lia |].
  intros r Hr. destruct (Hres r Hr) as [Hnil | (Hin & nr & Hnr & Hlive)]; [inversion Hnil |].
  destruct (Hspec r Hin) as (Hreg & nr' & Hnr' & Hnot).
  split; [exact Hreg |]. exists nr. revert Hnr. world_simpl. intros Hnr.
  split; [exact Hnr |]. split; [exact Hlive |].
  rewrite Hnr in Hnr'. injection Hnr' as <-. exact Hnot.
Qed.

(** *** [getTargetNodes] passes over no eligible node *)

Lemma shufflePermutes_within : shufflePermutes -> shuffleWithin.
Proof. intros Hperm k A l x Hx. rewrite (Hperm k A l) in Hx. exact Hx. Qed.

Lemma nodeMap_values_complete (m : World -> gmap string ptr) (w w' : World) (l : list ptr) :
  shufflePermutes ->
  nodeMap_values m w = Ok l w' ->
  forall a p, m w !! a = Some p -> p ∈ l.
Proof.
  intros Hperm H a p Hp. revert H. unfold nodeMap_values. go_run. intros H.
  injection H as <- _. rewrite (Hperm _ _ _).
  apply list_elem_of_fmap. exists (a, p). split; [reflexivity |].
  apply elem_of_map_to_list. exact Hp.
Qed.

Lemma addresses_exact (l : list ptr) (w : World) :
  (forall p, p ∈ l -> is_Some (heap w !! p)) ->
  forall (ads : list string) (w' : World),
    addresses l w = Ok ads w' ->
    forall a, a ∈ ads -> exists p n, p ∈ l /\ heap w !! p = Some n /\ Node.Address n = a.
Proof.
  induction l as [| p l IH]; intros Hl ads w' H; cbn [addresses] in H.
  - injection H as <- _. intros a Ha. inversion Ha.
  - destruct (Hl p) as [n Hn]; [left |].
    destruct (addresses_returns l w) as (rest & Hrest & _);
      [intros q Hq; apply Hl; right; exact Hq |].
    revert H. go_run. rewrite (bind_Ok _ _ _ _ _ Hrest). cbv beta. go_run. intros H.
    injection H as <- _. intros a Ha. apply elem_of_cons in Ha as [-> | Ha].
    + exists p, n. split; [left | split; [exact Hn | reflexivity]].
    + destruct (IH (fun q Hq => Hl q (list_elem_of_further _ _ _ Hq)) rest w Hrest a Ha)
        as (q & nq & Hq & Hnq & Haq).
      exists q, nq. split; [right; exact Hq | split; assumption].
Qed.

Lemma withoutExcluded_complete (excluded : list string) (l : list ptr) (w : World) :
  (forall p, p ∈ l -> is_Some (heap w !! p)) ->
  forall (l' : list ptr) (w' : World),
    withoutExcluded excluded l w = Ok l' w' ->
    forall p n, p ∈ l -> heap w !! p = Some n -> Node.Address n ∉ excluded -> p ∈ l'.
Proof.
  induction l as [| q l IH]; intros Hl l' w' H; cbn [withoutExcluded] in H.
  - intros p n Hp. inversion Hp.
  - destruct (Hl q) as [nq Hnq]; [left |].
    assert (Hl' : forall x, x ∈ l -> is_Some (heap w !! x))
      by (intros x Hx; apply Hl; right; exact Hx).
    destruct (withoutExcluded_returns excluded l w Hl') as (rest & Hrest & _).
    revert H. go_run. rewrite (bind_Ok _ _ _ _ _ Hrest). cbv beta. go_run. intros H.
    injection H as <- _. intros p n Hp Hn Hnot.
    apply elem_of_cons in Hp as [-> | Hp].
    + rewrite Hnq in Hn. injection Hn as ->. unfold addressIn.
      rewrite bool_decide_eq_false_2 by exact Hnot. left.
    + pose proof (IH Hl' rest w Hrest p n Hp Hn Hnot) as Hin.
      destruct (addressIn excluded nq); [exact Hin | right; exact Hin].
Qed.

Lemma takeLive_complete (count : Z) (l : list ptr) (w : World) :
  (forall p, p ∈ l -> is_Some (heap w !! p)) ->
  forall (acc res : list ptr) (w' : World),
    takeLive count l acc w = Ok res w' ->
    (forall p, p ∈ acc -> p ∈ res) /\
    (Z.of_nat (length res) < count ->
     forall p n, p ∈ l -> heap w !! p = Some n -> Node.status n ≠ StatusDead -> p ∈ res).
Proof.
  induction l as [| q l IH]; intros Hl acc res w' H; cbn [takeLive] in H.
  - injection H as <- _. split; [auto |]. intros _ p n Hp. inversion Hp.
  - destruct (decide (Z.of_nat (length acc) >= count)) as [Hfull | Hroom].
    + injection H as <- _. split; [auto |]. intros Hlt. lia.
    + destruct (Hl q) as [nq Hnq]; [left |].
      assert (Hl' : forall x, x ∈ l -> is_Some (heap w !! x))
        by (intros x Hx; apply Hl; right; exact Hx).
      revert H. go_run. intros H.
      destruct (decide (Node.status nq = StatusDead)) as [Hdead | Hlive].
      * destruct (IH Hl' acc res w' H) as [Hacc Hall]. split; [exact Hacc |].
        intros Hlt p n Hp Hn Hs. apply elem_of_cons in Hp as [-> | Hp].
        -- rewrite Hnq in Hn. injection Hn as ->. contradiction.
        -- exact (Hall Hlt p n Hp Hn Hs).
      * destruct (IH Hl' (acc ++ [q]) res w' H) as [Hacc Hall]. split.
        -- intros p Hp. apply Hacc, elem_of_app. left. exact Hp.
        -- intros Hlt p n Hp Hn Hs. apply elem_of_cons in Hp as [-> | Hp].
           ++ apply Hacc, elem_of_app. right. left.
           ++ exact (Hall Hlt p n Hp Hn Hs).
Qed.

(** When [getTargetNodes] returns fewer than [count] nodes, it has
    returned every registered node that is not Dead and is at another
    address than the excluded nodes. *)
Lemma getTargetNodes_complete (count : Z) (exclude : list ptr) (w w' : World) (l : list ptr) :
  shufflePermutes ->
  (forall a p, knownNodes w !! a = Some p -> is_Some (heap w !! p)) ->
  (forall x, x ∈ exclude -> is_Some (heap w !! x)) ->
  getTargetNodes count exclude w = Ok l w' ->
  Z.of_nat (length l) < count ->
  forall a r nr,
    knownNodes w !! a = Some r -> heap w !! r = Some nr ->
    Node.status nr ≠ StatusDead ->
    (forall x nx, x ∈ exclude -> heap w !! x = Some nx -> Node.Address nr ≠ Node.Address nx) ->
    r ∈ l.
Proof.
  intros Hperm Hknown Hexclude H Hlt a r nr Hr Hnr Hlive Hnot.
  pose proof (shufflePermutes_within Hperm) as Hshuffle.
  unfold getTargetNodes, nodeMap_getRandomNodes in H. rewrite !bind_assoc in H.
  destruct (nodeMap_values_returns knownNodes w Hshuffle) as (allNodes & Hvalues & Hall).
  rewrite (bind_Ok _ _ _ _ _ Hvalues) in H. cbv beta in H. rewrite !bind_assoc in H.
  set (w1 := set_draws (S (draws w)) w) in *.
  assert (Hvalid : forall p, p ∈ allNodes -> is_Some (heap w1 !! p)).
  { intros p Hp. destruct (Hall p Hp) as [a' Ha']. exact (Hknown a' p Ha'). }
  destruct (addresses_returns exclude w1 Hexclude) as (ads & Hads & _).
  rewrite (bind_Ok _ _ _ _ _ Hads) in H. cbv beta in H. rewrite !bind_assoc in H.
  destruct (withoutExcluded_returns ads allNodes w1 Hvalid) as (filtered & Hfiltered & Hsound).
  rewrite (bind_Ok _ _ _ _ _ Hfiltered) in H. cbv beta in H.
  revert H. go_run. destruct (decide (0 = 0)) as [_ | ?]; [| congruence].
  destruct (decide (count < 0)); [discriminate |]. intros H.
  assert (Hin : r ∈ filtered).
  { apply (withoutExcluded_complete ads allNodes w1 Hvalid filtered w1 Hfiltered r nr).
    - exact (nodeMap_values_complete knownNodes w w1 allNodes Hperm Hvalues a r Hr).
    - exact Hnr.
    - intros Hex.
      destruct (addresses_exact exclude w1 Hexclude ads w1 Hads _ Hex)
        as (x & nx & Hx & Hnx & Haddr).
      exact (Hnot x nx Hx Hnx (eq_sym Haddr)). }
  assert (Hvalid' : forall p, p ∈ filtered -> is_Some (heap w1 !! p)).
  { intros p Hp. destruct (Hsound p Hp) as (_ & np & Hnp & _). eauto. }
  destruct (takeLive_complete count filtered w1 Hvalid' [] l w' H) as [_ Hall'].
  exact (Hall' Hlt r nr Hin Hnr Hlive).
Qed.

(** *** The transmission returns *)

Lemma insertByEmitCounter_elem (x y : Z * ptr) (l : list (Z * ptr)) :
  y ∈ insertByEmitCounter x l -> y = x \/ y ∈ l.
Proof.
  induction l as [| z l IH]; cbn [insertByEmitCounter]; intros Hy.
  - apply list_elem_of_singleton in Hy. left; exact Hy.
  - destruct (decide (fst z < fst x)).
    + apply elem_of_cons in Hy as [-> | Hy]; [left; reflexivity | right; exact Hy].
    + apply elem_of_cons in Hy as [-> | Hy]; [right; left |].
      destruct (IH Hy) as [-> | Hin]; [left; reflexivity | right; right; exact Hin].
Qed.

Lemma sortByEmitCounter_elem (y : Z * ptr) (l : list (Z * ptr)) :
  y ∈ sortByEmitCounter l -> y ∈ l.
Proof.
  induction l as [| x l IH]; cbn [sortByEmitCounter foldr]; intros Hy; [exact Hy |].
  destruct (insertByEmitCounter_elem _ _ _ Hy) as [-> | Hin]; [left | right; apply IH, Hin].
Qed.

Lemma withEmitCounter_returns (l : list ptr) (w : World) :
  (forall p, p ∈ l -> is_Some (heap w !! p)) ->
  exists keyed : list (Z * ptr), withEmitCounter l w = Ok keyed w /\ snd <$> keyed = l.
Proof.
  induction l as [| p l IH]; intros Hl; cbn [withEmitCounter].
  - exists []. split; reflexivity.
  - destruct (Hl p) as [n Hn]; [left |].
    destruct IH as (keyed & Hrun & Hsnd); [intros q Hq; apply Hl; right; exact Hq |].
    go_run. rewrite (bind_Ok _ _ _ _ _ Hrun). cbv beta. go_run.
    eexists. split; [reflexivity |]. cbn. rewrite Hsnd. reflexivity.
Qed.

Lemma pruneOrCopy_returns (copy : gmap string ptr) (p : ptr) (w : World) (n : Node.t) :
  heap w !! p = Some n ->
  pruneOrCopy copy p w =
    if decide (Node.emitCounter n <= 0)
    then Ok copy (set_updatedNodes (delete (Node.Address n))
                    (set_events (cons (Log LDebug (RemovingFromUpdated (Node.Address n)))) w))
    else Ok (<[Node.Address n := p]> copy) w.
Proof.
  intros Hn. unfold pruneOrCopy. go_run.
  destruct (decide (Node.emitCounter n <= 0)); go_run; reflexivity.
Qed.

Lemma pruneOrCopy_loop_returns (values : list ptr) (copy : gmap string ptr) (w : World) :
  (forall p, p ∈ values -> is_Some (heap w !! p)) ->
  (forall a p, copy !! a = Some p -> is_Some (heap w !! p)) ->
  exists (copy' : gmap string ptr) (w' : World),
    forEachAcc values copy pruneOrCopy w = Ok copy' w' /\
    heap w' = heap w /\
    (forall a p, updatedNodes w' !! a = Some p -> updatedNodes w !! a = Some p) /\
    (forall a p, copy' !! a = Some p -> is_Some (heap w !! p)).
Proof.
  revert copy w. induction values as [| p values IH]; intros copy w Hvalues Hcopy;
    cbn [forEachAcc].
  - exists copy, w. split; [reflexivity |]. repeat split; auto.
  - destruct (Hvalues p) as [n Hn]; [left |].
    assert (Hrest : forall q, q ∈ values -> is_Some (heap w !! q))
      by (intros q Hq; apply Hvalues; right; exact Hq).
    pose proof (pruneOrCopy_returns copy p w n Hn) as Hbody.
    destruct (decide (Node.emitCounter n <= 0)).
    + rewrite (bind_Ok _ _ _ _ _ Hbody). cbv beta.
      match goal with
      | |- context [forEachAcc values copy pruneOrCopy ?w0] =>
          destruct (IH copy w0) as (copy' & w' & Hrun & Hheap & Hupd & Hcopy');
            [exact Hrest | exact Hcopy |]
      end.
      exists copy', w'. split; [exact Hrun |]. split; [exact Hheap |]. split; [| exact Hcopy'].
      intros a q Hq. apply Hupd in Hq. revert Hq. world_simpl.
      intros Hq. apply lookup_delete_Some in Hq. apply Hq.
    + rewrite (bind_Ok _ _ _ _ _ Hbody). cbv beta.
      destruct (IH (<[Node.Address n := p]> copy) w)
        as (copy' & w' & Hrun & Hheap & Hupd & Hcopy'); [exact Hrest | |].
      { intros a q Hq. apply lookup_insert_Some in Hq as [[_ <-] | [_ Hq]];
          [eexists; exact Hn | exact (Hcopy a q Hq)]. }
      exists copy', w'. split; [exact Hrun |]. auto.
Qed.

Lemma excludeFrom_loop_returns (exclude : list ptr) (copy : gmap string ptr) (w : World) :
  (forall p, p ∈ exclude -> is_Some (heap w !! p)) ->
  exists copy' : gmap string ptr,
    forEachAcc exclude copy excludeFrom w = Ok copy' w /\
    forall a p, copy' !! a = Some p -> copy !! a = Some p.
Proof.
  revert copy. induction exclude as [| x exclude IH]; intros copy Hex; cbn [forEachAcc].
  - exists copy. split; [reflexivity | auto].
  - destruct (Hex x) as [n Hn]; [left |].
    assert (Hbody : excludeFrom copy x w = Ok (delete (Node.Address n) copy) w).
    { unfold excludeFrom. go_run. reflexivity. }
    rewrite (bind_Ok _ _ _ _ _ Hbody). cbv beta.
    destruct (IH (delete (Node.Address n) copy)) as (copy' & Hrun & Hsub);
      [intros q Hq; apply Hex; right; exact Hq |].
    exists copy'. split; [exact Hrun |].
    intros a p Hp. apply Hsub in Hp. apply lookup_delete_Some in Hp. apply Hp.
Qed.

(** [getRandomUpdatedNodes] returns nodes of the heap; it prunes the
    updated set and writes nothing else but the log and the draw count. *)
Lemma getRandomUpdatedNodes_returns (size : Z) (exclude : list ptr) (w : World) :
  shuffleWithin ->
  0 <= size ->
  (forall a p, updatedNodes w !! a = Some p -> is_Some (heap w !! p)) ->
  (forall x, x ∈ exclude -> is_Some (heap w !! x)) ->
  exists (l : list ptr) (w' : World),
    getRandomUpdatedNodes size exclude w = Ok l w' /\
    heap w' = heap w /\
    (forall a p, updatedNodes w' !! a = Some p -> updatedNodes w !! a = Some p) /\
    (forall p, p ∈ l -> is_Some (heap w !! p)).
Proof.
  intros Hshuffle Hsize Hupdated Hexclude. unfold getRandomUpdatedNodes.
  destruct (nodeMap_values_returns updatedNodes w Hshuffle) as (values & Hvalues & Hall).
  rewrite (bind_Ok _ _ _ _ _ Hvalues). cbv beta.
  destruct (pruneOrCopy_loop_returns values ∅ (set_draws (S (draws w)) w))
    as (copy & w1 & Hprune & Hheap1 & Hupd1 & Hcopy).
  { intros p Hp. destruct (Hall p Hp) as [a Ha]. exact (Hupdated a p Ha). }
  { intros a p Hp. rewrite lookup_empty in Hp. discriminate Hp. }
  rewrite (bind_Ok _ _ _ _ _ Hprune). cbv beta.
  revert Hheap1 Hcopy. world_simpl. intros Hheap1 Hcopy.
  destruct (excludeFrom_loop_returns exclude copy w1) as (copy2 & Hexcl & Hsub).
  { intros p Hp. rewrite Hheap1. exact (Hexclude p Hp). }
  rewrite (bind_Ok _ _ _ _ _ Hexcl). cbv beta. go_run.
  set (slice := shuffle (draws w1) ptr (snd <$> map_to_list copy2)).
  assert (Hslice : forall p, p ∈ slice -> is_Some (heap w !! p)).
  { intros p Hp. apply Hshuffle in Hp. apply list_elem_of_fmap in Hp as ([a q] & -> & Hin).
    apply elem_of_map_to_list in Hin. exact (Hcopy a q (Hsub a q Hin)). }
  destruct (withEmitCounter_returns slice (set_draws (S (draws w1)) w1)) as (keyed & Hkeyed & Hsnd).
  { intros p Hp. world_simpl. rewrite Hheap1. exact (Hslice p Hp). }
  rewrite (bind_Ok _ _ _ _ _ Hkeyed). cbv beta.
  set (sorted := snd <$> sortByEmitCounter keyed).
  assert (Hsorted : forall p, p ∈ sorted -> is_Some (heap w !! p)).
  { intros p Hp. apply Hslice. rewrite <- Hsnd. subst sorted.
    apply list_elem_of_fmap in Hp as (y & -> & Hy). apply list_elem_of_fmap.
    exists y. split; [reflexivity | apply sortByEmitCounter_elem, Hy]. }
  destruct (decide (size > Z.of_nat (length sorted))).
  - destruct (decide (Z.of_nat (length sorted) < 0)); [lia |]. go_run.
    eexists _, _. split; [reflexivity |]. world_simpl. split; [exact Hheap1 |].
    split; [intros a p Hp; apply Hupd1 in Hp; exact Hp |].
    intros p Hp. apply Hsorted. eapply subseteq_take; exact Hp.
  - destruct (decide (size < 0)); [lia |]. go_run.
    eexists _, _. split; [reflexivity |]. world_simpl. split; [exact Hheap1 |].
    split; [intros a p Hp; apply Hupd1 in Hp; exact Hp |].
    intros p Hp. apply Hsorted. eapply subseteq_take; exact Hp.
Qed.

(** *** The transmission keeps the state well formed *)

Lemma preserves_get {A : Type} (I : World -> Prop) (g : World -> A) : preserves I (get g).
Proof. intros w a w' HI H. injection H as _ H. subst w'. exact HI. Qed.

Lemma preserves_modify (I : World -> Prop) (g : World -> World) :
  (forall w, I w -> I (g w)) -> preserves I (modify g).
Proof. intros Hg w a w' HI H. injection H as H. subst w'. apply Hg, HI. Qed.

Lemma preserves_panic {A : Type} (I : World -> Prop) (why : string) :
  preserves I (panic why : Go A).
Proof. intros w a w' HI H. discriminate H. Qed.

Lemma preserves_deref (I : World -> Prop) (p : ptr) : preserves I (deref p).
Proof.
  intros w a w' HI H. unfold deref in H.
  destruct (heap w !! p); [| discriminate]. injection H as _ H. subst w'. exact HI.
Qed.

Lemma preserves_when (I : World -> Prop) (b : bool) (m : Go unit) :
  preserves I m -> preserves I (when b m).
Proof. intros Hm. destruct b; [exact Hm | apply preserves_ret]. Qed.

Lemma preserves_forEachAcc {A D : Type} (I : World -> Prop) (l : list A) (acc : D)
    (body : D -> A -> Go D) :
  (forall acc x, preserves I (body acc x)) -> preserves I (forEachAcc l acc body).
Proof.
  intros Hbody. revert acc. induction l as [| x l IH]; intros acc; cbn [forEachAcc].
  - apply preserves_ret.
  - apply preserves_bind; [apply Hbody | intros acc'; apply IH].
Qed.

Lemma wellFormed_ext (w w' : World) :
  (forall q, is_Some (heap w !! q) -> is_Some (heap w' !! q)) ->
  thisHost w' = thisHost w ->
  knownNodes w' = knownNodes w ->
  (forall a p, updatedNodes w' !! a = Some p -> updatedNodes w !! a = Some p) ->
  wellFormed w -> wellFormed w'.
Proof.
  intros Hheap Hself Hknown Hupd (H1 & H2 & H3). repeat split.
  - rewrite Hself. apply Hheap, H1.
  - intros a p Hp. rewrite Hknown in Hp. eapply Hheap, H2, Hp.
  - intros a p Hp. eapply Hheap, H3, Hupd, Hp.
Qed.

Lemma wellFormed_update (p : ptr) (g : Node.t -> Node.t) : preserves wellFormed (update p g).
Proof.
  intros w a w' HI H. unfold update, mbind, Go_bind, deref in H.
  destruct (heap w !! p) as [n |] eqn:Hn; [| discriminate].
  injection H as _ H. subst w'. eapply wellFormed_ext; [| | | | exact HI]; try reflexivity.
  - intros q Hq. cbn [heap set_heap]. destruct (decide (p = q)) as [-> | Hne].
    + rewrite lookup_insert_eq. eauto.
    + rewrite lookup_insert_ne by assumption. exact Hq.
  - auto.
Qed.

Create HintDb wf discriminated.

(** A write that is not through a node and does not add to a registry. *)
Ltac wf_write :=
  intros ? ?; cbv beta;
  (eapply wellFormed_ext; [| | | | eassumption]);
  [ intros ? ?; assumption | reflexivity | reflexivity
  | first [ intros ? ? ?; assumption
          | cbn [updatedNodes set_updatedNodes];
            let H := fresh in intros ? ? H; apply lookup_delete_Some in H; apply H ] ].

Ltac wf_step :=
  lazymatch goal with
  | |- preserves _ (mbind _ _) => apply preserves_bind; [| intros ?]
  | |- preserves _ (mret _) => apply preserves_ret
  | |- preserves _ (get _) => apply preserves_get
  | |- preserves _ (panic _) => apply preserves_panic
  | |- preserves _ (deref _) => apply preserves_deref
  | |- preserves _ (update _ _) => apply wellFormed_update
  | |- preserves _ (when _ _) => apply preserves_when
  | |- preserves _ (forEach _ _) => apply preserves_forEach; intros ?
  | |- preserves _ (forEachAcc _ _ _) => apply preserves_forEachAcc; intros ? ?
  | |- preserves _ (modify _) => apply preserves_modify; wf_write
  | |- preserves _ (emit _) => apply preserves_modify; wf_write
  | |- preserves _ (log _ _) => apply preserves_modify; wf_write
  | |- preserves _ (if ?b then _ else _) => destruct b
  | |- preserves _ (match ?x with _ => _ end) => destruct x
  | |- _ => solve [eauto with wf]
  end.

Ltac wf_tac := repeat wf_step.

Lemma wellFormed_GetNowInMillis : preserves wellFormed GetNowInMillis.
Proof.
  intros w a w' HI H. injection H as _ H. subst w'.
  eapply wellFormed_ext; [| | | | exact HI]; auto.
Qed.
Hint Resolve wellFormed_GetNowInMillis : wf.

Lemma wellFormed_draw {A : Type} (l : list A) : preserves wellFormed (draw l).
Proof.
  intros w a w' HI H. injection H as _ H. subst w'.
  eapply wellFormed_ext; [| | | | exact HI]; auto.
Qed.
Hint Resolve wellFormed_draw : wf.

Lemma wellFormed_Address (p : ptr) : preserves wellFormed (Address p).
Proof. unfold Address. wf_tac. Qed.
Hint Resolve wellFormed_Address : wf.

Lemma wellFormed_pingRequestCount : preserves wellFormed pingRequestCount.
Proof. unfold pingRequestCount, knownNodes_length. wf_tac. Qed.
Hint Resolve wellFormed_pingRequestCount : wf.

Lemma wellFormed_nodeMap_values (m : World -> gmap string ptr) :
  preserves wellFormed (nodeMap_values m).
Proof. unfold nodeMap_values. wf_tac. Qed.
Hint Resolve wellFormed_nodeMap_values : wf.

Lemma wellFormed_addresses (l : list ptr) : preserves wellFormed (addresses l).
Proof. induction l; cbn [addresses]; wf_tac. Qed.
Hint Resolve wellFormed_addresses : wf.

Lemma wellFormed_withoutExcluded (excluded : list string) (l : list ptr) :
  preserves wellFormed (withoutExcluded excluded l).
Proof. induction l; cbn [withoutExcluded]; wf_tac. Qed.
Hint Resolve wellFormed_withoutExcluded : wf.

Lemma wellFormed_withEmitCounter (l : list ptr) : preserves wellFormed (withEmitCounter l).
Proof. induction l; cbn [withEmitCounter]; wf_tac. Qed.
Hint Resolve wellFormed_withEmitCounter : wf.

Lemma wellFormed_nodeMap_getRandomNodes (m : World -> gmap string ptr) (size : Z)
    (exclude : list ptr) :
  preserves wellFormed (nodeMap_getRandomNodes m size exclude).
Proof. unfold nodeMap_getRandomNodes. wf_tac. Qed.
Hint Resolve wellFormed_nodeMap_getRandomNodes : wf.

Lemma wellFormed_getRandomUpdatedNodes (size : Z) (exclude : list ptr) :
  preserves wellFormed (getRandomUpdatedNodes size exclude).
Proof. unfold getRandomUpdatedNodes, pruneOrCopy, excludeFrom. wf_tac. Qed.
Hint Resolve wellFormed_getRandomUpdatedNodes : wf.

Lemma wellFormed_decrementEmitCounter (p : ptr) :
  preserves wellFormed (decrementEmitCounter p).
Proof. unfold decrementEmitCounter. wf_tac. Qed.
Hint Resolve wellFormed_decrementEmitCounter : wf.

Lemma wellFormed_attachMembers (nodes : list ptr) (msg : message.t) :
  preserves wellFormed (attachMembers nodes msg).
Proof. revert msg. induction nodes; intros msg; cbn [attachMembers]; wf_tac. Qed.
Hint Resolve wellFormed_attachMembers : wf.

Lemma wellFormed_transmitVerbGenericUDP (node : ptr) (forwardTo : option ptr)
    (verb : messageVerb) (code : Z) :
  preserves wellFormed (transmitVerbGenericUDP node forwardTo verb code).
Proof. unfold transmitVerbGenericUDP. wf_tac. Qed.
Hint Resolve wellFormed_transmitVerbGenericUDP : wf.

Lemma wellFormed_transmitVerbForwardUDP (node downstream : ptr) (code : Z) :
  preserves wellFormed (transmitVerbForwardUDP node downstream code).
Proof. unfold transmitVerbForwardUDP. wf_tac. Qed.
Hint Resolve wellFormed_transmitVerbForwardUDP : wf.

Lemma wellFormed_requestIndirectPing (pack : pendingAck.t) (n : ptr) :
  preserves wellFormed (requestIndirectPing pack n).
Proof. unfold requestIndirectPing. wf_tac. Qed.
Hint Resolve wellFormed_requestIndirectPing : wf.

(** *** The transmission returns, continued *)

Lemma decrementEmitCounter_returns (p : ptr) (w : World) :
  is_Some (heap w !! p) ->
  exists w' : World,
    decrementEmitCounter p w = Ok tt w' /\
    forall q, is_Some (heap w !! q) -> is_Some (heap w' !! q).
Proof.
  intros [n Hn]. unfold decrementEmitCounter. rewrite (update_Ok w p n _ Hn).
  eexists. split; [reflexivity |]. intros q Hq. cbn [heap set_heap].
  destruct (decide (p = q)) as [-> | Hne].
  - rewrite lookup_insert_eq. eauto.
  - rewrite lookup_insert_ne by assumption. exact Hq.
Qed.

Lemma attachMembers_returns (nodes : list ptr) (msg : message.t) (w : World) :
  (forall p, p ∈ nodes -> is_Some (heap w !! p)) ->
  exists (r : message.t + error) (w' : World),
    attachMembers nodes msg w = Ok r w' /\
    (forall q, is_Some (heap w !! q) -> is_Some (heap w' !! q)) /\
    (forall msg', r = inl msg' ->
       forall m, m ∈ message.members msg' ->
         m ∈ message.members msg \/ messageMember.node m ∈ nodes).
Proof.
  revert msg w. induction nodes as [| p nodes IH]; intros msg w Hnodes; cbn [attachMembers].
  - eexists _, _. split; [reflexivity |]. split; [auto |].
    intros msg' Heq m Hm. injection Heq as <-. left; exact Hm.
  - destruct (Hnodes p) as [n Hn]; [left |]. go_run.
    destruct (message.addMember msg p (Node.status n) (Node.heartbeat n)) as [msg1 |] eqn:Hadd.
    + destruct (decrementEmitCounter_returns p w) as (w1 & Hdec & Hvalid); [eauto |].
      rewrite (bind_Ok _ _ _ _ _ Hdec). cbv beta.
      destruct (IH msg1 w1) as (r & w' & Hrun & Hvalid' & Hmembers).
      { intros q Hq. apply Hvalid, Hnodes. right; exact Hq. }
      exists r, w'. split; [exact Hrun |]. split; [auto |].
      intros msg' Heq m Hm. destruct (Hmembers msg' Heq m Hm) as [Hin | Hin].
      * unfold message.addMember in Hadd.
        destruct (decide (255 <= Z.of_nat (length (message.members msg)))); [discriminate |].
        injection Hadd as <-. cbn [message.members] in Hin.
        apply elem_of_app in Hin as [Hin | Hin]; [left; exact Hin |].
        apply list_elem_of_singleton in Hin as ->. right. left.
      * right. right. exact Hin.
    + go_run. eexists _, _. split; [reflexivity |]. split; [auto |].
      intros msg' Heq. discriminate Heq.
Qed.

Lemma decrementMembers_returns (ms : list messageMember.t) (w : World) :
  (forall m, m ∈ ms -> is_Some (heap w !! messageMember.node m)) ->
  exists w' : World,
    forEach ms (fun m => decrementEmitCounter (messageMember.node m)) w = Ok tt w'.
Proof.
  revert w. induction ms as [| m ms IH]; intros w Hms; cbn [forEach].
  - exists w. reflexivity.
  - destruct (decrementEmitCounter_returns (messageMember.node m) w) as (w1 & Hdec & Hvalid);
      [apply Hms; left |].
    rewrite (bind_Ok _ _ _ _ _ Hdec). cbv beta.
    apply IH. intros m' Hm'. apply Hvalid, Hms. right; exact Hm'.
Qed.

(** In a well-formed state, a transmission to a node of the heap returns
    (with an error or without one): it does not panic. *)
Lemma transmitVerbGenericUDP_returns (node : ptr) (forwardTo : option ptr)
    (verb : messageVerb) (code : Z) (w : World) :
  shuffleWithin ->
  wellFormed w ->
  0 <= lambdaLogCount (size (knownNodes w)) ->
  is_Some (heap w !! node) ->
  (forall t, forwardTo = Some t -> is_Some (heap w !! t)) ->
  exists (e : option error) (w' : World),
    transmitVerbGenericUDP node forwardTo verb code w = Ok e w'.
Proof.
  intros Hshuffle (Hself & Hknown & Hupdated) Hcount [n Hn] Hfwd.
  destruct Hself as [self Hselfn].
  unfold transmitVerbGenericUDP. go_run.
  destruct (resolveOk (network (sends w))); cbn [negb]; [| eexists _, _; reflexivity].
  destruct (dialOk (network (sends w))); cbn [negb]; [| eexists _, _; reflexivity].
  go_run.
  set (msg0 := match forwardTo with
               | Some t => default _ (message.addMember _ t StatusForwardTo code)
               | None => message.newMessage verb (thisHost w) code
               end).
  assert (Hmsg0 : forall m, m ∈ message.members msg0 ->
                    is_Some (heap w !! messageMember.node m)).
  { subst msg0. destruct forwardTo as [t |]; cbn; [| intros m Hm; inversion Hm].
    intros m Hm. apply list_elem_of_singleton in Hm as ->. cbn. apply Hfwd. reflexivity. }
  clearbody msg0.
  set (w0 := set_sends (S (sends w)) w).
  assert (Hexcl : forall x, x ∈ [node; thisHost w] -> is_Some (heap w0 !! x)).
  { intros x Hx. apply elem_of_cons in Hx as [-> | Hx]; [eexists; exact Hn |].
    apply list_elem_of_singleton in Hx as ->. eexists; exact Hselfn. }
  destruct (getRandomUpdatedNodes_returns (lambdaLogCount (size (knownNodes w)))
              [node; thisHost w] w0 Hshuffle Hcount Hupdated Hexcl)
    as (nodes & w1 & Hrun1 & Hheap1 & Hupd1 & Hnodes).
  rewrite (bind_Ok _ _ _ _ _ Hrun1). cbv beta.
  assert (Hknown1 : knownNodes w1 = knownNodes w).
  { apply (keeps_getRandomUpdatedNodes _ knownNodes) in Hrun1; try (intros; reflexivity).
    exact Hrun1. }
  (* the nodes to attach, after the fallback *)
  assert (Hchosen : exists (nodes' : list ptr) (w2 : World),
    (if decide (length nodes = 0%nat)
     then count ← pingRequestCount;
          nodeMap_getRandomNodes knownNodes count [node; thisHost w]
     else mret nodes) w1 = Ok nodes' w2 /\
    heap w2 = heap w /\
    forall p, p ∈ nodes' -> is_Some (heap w !! p)).
  { destruct (decide (length nodes = 0%nat)).
    - go_run.
      destruct (knownNodes_getRandomNodes_returns (lambdaLogCount (size (knownNodes w1)))
                  [node; thisHost w] w1 Hshuffle) as (l & Hl & Hspec).
      { intros a p Hp. rewrite Hknown1 in Hp. rewrite Hheap1. exact (Hknown a p Hp). }
      { intros x Hx. rewrite Hheap1. exact (Hexcl x Hx). }
      eexists _, _. split; [exact Hl |]. world_simpl. split; [exact Hheap1 |].
      intros p Hp. destruct (Hspec p Hp) as (_ & nr & Hnr & _).
      rewrite Hheap1 in Hnr. eexists; exact Hnr.
    - go_run. eexists _, _. split; [reflexivity |]. split; [exact Hheap1 | exact Hnodes]. }
  destruct Hchosen as (nodes' & w2 & Hrun2 & Hheap2 & Hnodes').
  rewrite (bind_Ok _ _ _ _ _ Hrun2). cbv beta.
  destruct (attachMembers_returns nodes' msg0 w2) as (r & w3 & Hrun3 & Hvalid3 & Hmembers).
  { intros p Hp. rewrite Hheap2. exact (Hnodes' p Hp). }
  rewrite (bind_Ok _ _ _ _ _ Hrun3). cbv beta.
  destruct r as [msg |]; [| go_run; eexists _, _; reflexivity].
  go_run.
  destruct (getBroadcastToEmit (broadcasts w3)) as [[[label b] |] store].
  - cbn [fst snd]. go_run.
    destruct (writeOk (network (sends w))); cbn [negb]; [| eexists _, _; reflexivity].
    go_run.
    match goal with
    | |- context [(mbind ?k (forEach ?ms ?body)) ?w4] =>
        destruct (decrementMembers_returns ms w4) as (w5 & Hrun5)
    end.
    { intros m Hm. world_simpl. apply Hvalid3. rewrite Hheap2.
      assert (Hm' : m ∈ message.members msg).
      { destruct (decide (Broadcast.emitCounter b > 0)); exact Hm. }
      destruct (Hmembers msg eq_refl m Hm') as [Hin | Hin]; [apply Hmsg0, Hin | apply Hnodes', Hin]. }
    rewrite (bind_Ok _ _ _ _ _ Hrun5). cbv beta. go_run. eexists _, _; reflexivity.
  - cbn [fst snd]. go_run.
    destruct (writeOk (network (sends w))); cbn [negb]; [| eexists _, _; reflexivity].
    go_run.
    match goal with
    | |- context [(mbind ?k (forEach ?ms ?body)) ?w4] =>
        destruct (decrementMembers_returns ms w4) as (w5 & Hrun5)
    end.
    { intros m Hm. world_simpl. apply Hvalid3. rewrite Hheap2.
      destruct (Hmembers msg eq_refl m Hm) as [Hin | Hin]; [apply Hmsg0, Hin | apply Hnodes', Hin]. }
    rewrite (bind_Ok _ _ _ _ _ Hrun5). cbv beta. go_run. eexists _, _; reflexivity.
Qed.

(** *** The fan-out returns *)

Lemma transmitVerbForwardUDP_returns (r t : ptr) (hb : Z) (w : World) :
  shuffleWithin ->
  wellFormed w ->
  0 <= lambdaLogCount (size (knownNodes w)) ->
  is_Some (heap w !! r) ->
  is_Some (heap w !! t) ->
  exists (e : option error) (w' : World), transmitVerbForwardUDP r t hb w = Ok e w'.
Proof.
  intros Hshuffle Hwf Hcount [nr Hr] Ht. unfold transmitVerbForwardUDP. go_run.
  apply transmitVerbGenericUDP_returns; try assumption.
  - eexists; exact Hr.
  - intros t' Heq. injection Heq as <-. exact Ht.
Qed.

Lemma requestIndirectPing_returns (pack : pendingAck.t) (r : ptr) (w : World) :
  shuffleWithin ->
  wellFormed w ->
  0 <= lambdaLogCount (size (knownNodes w)) ->
  is_Some (heap w !! r) ->
  is_Some (heap w !! pendingAck.node pack) ->
  exists w' : World, requestIndirectPing pack r w = Ok tt w'.
Proof.
  intros Hshuffle Hwf Hcount [nr Hr] [nt Ht]. unfold requestIndirectPing. go_run.
  match goal with
  | |- context [(mbind ?k (transmitVerbForwardUDP r ?t ?hb)) ?w0] =>
      destruct (transmitVerbForwardUDP_returns r t hb w0 Hshuffle) as (e & w1 & Hrun)
  end.
  - apply (wellFormed_ext w); auto.
  - exact Hcount.
  - eexists; exact Hr.
  - eexists; exact Ht.
  - rewrite (bind_Ok _ _ _ _ _ Hrun). cbv beta. go_run. eexists; reflexivity.
Qed.

(** The fields of the nodes that a transmission does not write. *)
Lemma requestIndirectPing_fields {X : Type} (phi : Node.t -> X) (pack : pendingAck.t)
    (r q : ptr) (w w' : World) (u : unit) :
  (forall e n, phi (Node.with_emitCounter e n) = phi n) ->
  requestIndirectPing pack r w = Ok u w' ->
  phi <$> heap w' !! q = phi <$> heap w !! q.
Proof.
  intros Hphi H.
  apply (keeps_requestIndirectPing _ (fun w => phi <$> heap w !! q)) in H;
    try (intros; reflexivity); [exact H |].
  intros p e w0 n Hn. apply field_spared_by_emitCounter; assumption.
Qed.

Lemma is_Some_field {X : Type} (phi : Node.t -> X) (h h' : gmap ptr Node.t) (q : ptr) :
  phi <$> h' !! q = phi <$> h !! q -> is_Some (h !! q) -> is_Some (h' !! q).
Proof.
  intros Heq [n Hn]. rewrite Hn in Heq. destruct (h' !! q); [eauto | discriminate].
Qed.

(** The loop of [doForwardOnTimeout] returns; it leaves the current
    heartbeat, the registry and the addresses and statuses of the nodes
    as they were, and an indirect ping of the target is awaited from each
    node of the list. *)
Lemma requestIndirectPings_return (pack : pendingAck.t) (l : list ptr) (w : World) :
  shuffleWithin ->
  wellFormed w ->
  0 <= lambdaLogCount (size (knownNodes w)) ->
  is_Some (heap w !! pendingAck.node pack) ->
  (forall r, r ∈ l -> is_Some (heap w !! r)) ->
  exists w' : World,
    forEach l (requestIndirectPing pack) w = Ok tt w' /\
    currentHeartbeat w' = currentHeartbeat w /\
    knownNodes w' = knownNodes w /\
    (forall q, Node.Address <$> heap w' !! q = Node.Address <$> heap w !! q) /\
    (forall q, Node.status <$> heap w' !! q = Node.status <$> heap w !! q) /\
    (forall k, indirectPingPending (pendingAck.node pack) k w ->
               indirectPingPending (pendingAck.node pack) k w') /\
    (forall r nr, r ∈ l -> heap w !! r = Some nr ->
       indirectPingPending (pendingAck.node pack)
         (pendingAckKey (Node.Address nr) (currentHeartbeat w)) w').
Proof.
  intros Hshuffle. revert w. induction l as [| r l IH]; intros w Hwf Hcount Ht Hl;
    cbn [forEach].
  - exists w. split; [reflexivity |]. repeat split; auto. intros r nr Hr. inversion Hr.
  - destruct (requestIndirectPing_returns pack r w Hshuffle Hwf Hcount) as (w1 & Hrun);
      [apply Hl; left | exact Ht |].
    rewrite (bind_Ok _ _ _ _ _ Hrun). cbv beta.
    pose proof (wellFormed_requestIndirectPing pack r w tt w1 Hwf Hrun) as Hwf1.
    assert (Hhb1 : currentHeartbeat w1 = currentHeartbeat w).
    { apply (keeps_requestIndirectPing _ currentHeartbeat) in Hrun;
        try (intros; reflexivity). exact Hrun. }
    assert (Hknown1 : knownNodes w1 = knownNodes w).
    { apply (keeps_requestIndirectPing _ knownNodes) in Hrun;
        try (intros; reflexivity). exact Hrun. }
    assert (Haddr1 : forall q, Node.Address <$> heap w1 !! q = Node.Address <$> heap w !! q).
    { intros q. eapply requestIndirectPing_fields; [| exact Hrun]. reflexivity. }
    assert (Hstat1 : forall q, Node.status <$> heap w1 !! q = Node.status <$> heap w !! q).
    { intros q. eapply requestIndirectPing_fields; [| exact Hrun]. reflexivity. }
    destruct (requestIndirectPing_pending pack r w w1 tt Hrun)
      as (nr & e & Hnr & Hty & Hcb & Hacks).
    destruct (IH w1) as (w' & Hloop & Hhb & Hknown & Haddr & Hstat & Hstable & Hpending).
    { exact Hwf1. }
    { rewrite Hknown1. exact Hcount. }
    { eapply is_Some_field; [apply Haddr1 | exact Ht]. }
    { intros q Hq. eapply is_Some_field; [apply Haddr1 |]. apply Hl. right; exact Hq. }
    assert (Hstable1 : forall k, indirectPingPending (pendingAck.node pack) k w ->
                                 indirectPingPending (pendingAck.node pack) k w1).
    { intros k (e0 & He0 & Hty0 & Hcb0). unfold indirectPingPending. rewrite Hacks.
      destruct (decide (pendingAckKey (Node.Address nr) (currentHeartbeat w) = k)) as [<- | Hne].
      - exists e. rewrite lookup_insert_eq. auto.
      - exists e0. rewrite lookup_insert_ne by assumption. auto. }
    exists w'. split; [exact Hloop |].
    split; [congruence |]. split; [congruence |].
    split; [intros q; rewrite Haddr; apply Haddr1 |].
    split; [intros q; rewrite Hstat; apply Hstat1 |].
    split; [intros k Hk; apply Hstable, Hstable1, Hk |].
    intros x nx Hx Hnx. apply elem_of_cons in Hx as [-> | Hx].
    + apply Hstable. rewrite Hnr in Hnx. injection Hnx as <-.
      exists e. rewrite Hacks, lookup_insert_eq. auto.
    + pose proof (Haddr1 x) as Hax. rewrite Hnx in Hax.
      destruct (heap w1 !! x) as [nx1 |] eqn:Hnx1; [| discriminate].
      cbn in Hax. injection Hax as Hax.
      rewrite <- Hax, <- Hhb1. eapply Hpending; eassumption.
Qed.

(** [doForwardOnTimeout] returns.  It chooses at most
    [pingRequestCount()] registered nodes that are not Dead and are not
    at the address of this host or of the target; it asks each of them
    for an indirect ping (a PingReq entry whose callback is the target is
    then pending under the key of that node and the current heartbeat),
    the status of the target being left as it was; when it finds none, it
    marks the target Dead. *)
Lemma doForwardOnTimeout_returns (pack : pendingAck.t) (w : World) :
  shuffleWithin ->
  wellFormed w ->
  0 <= lambdaLogCount (size (knownNodes w)) ->
  is_Some (heap w !! pendingAck.node pack) ->
  exists (relays : list ptr) (w' : World),
    doForwardOnTimeout pack w = Ok tt w' /\
    Z.of_nat (length relays) <= lambdaLogCount (size (knownNodes w)) /\
    (forall r, r ∈ relays ->
       (exists a, knownNodes w !! a = Some r) /\
       exists nr, heap w !! r = Some nr /\
         Node.status nr ≠ StatusDead /\
         (forall x nx, x ∈ [thisHost w; pendingAck.node pack] ->
            heap w !! x = Some nx -> Node.Address nr ≠ Node.Address nx) /\
         indirectPingPending (pendingAck.node pack)
           (pendingAckKey (Node.Address nr) (currentHeartbeat w)) w') /\
    (relays ≠ [] ->
     Node.status <$> heap w' !! pendingAck.node pack
       = Node.status <$> heap w !! pendingAck.node pack) /\
    (relays = [] ->
     Node.status <$> heap w' !! pendingAck.node pack = Some StatusDead) /\
    (shufflePermutes ->
     Z.of_nat (length relays) < lambdaLogCount (size (knownNodes w)) ->
     forall a r nr,
       knownNodes w !! a = Some r -> heap w !! r = Some nr ->
       Node.status nr ≠ StatusDead ->
       (forall x nx, x ∈ [thisHost w; pendingAck.node pack] ->
          heap w !! x = Some nx -> Node.Address nr ≠ Node.Address nx) ->
       r ∈ relays).
Proof.
  intros Hshuffle Hwf Hcount Ht. pose proof Hwf as (Hself & Hknown & Hupdated).
  unfold doForwardOnTimeout. go_run.
  destruct (getTargetNodes_returns (lambdaLogCount (size (knownNodes w)))
              [thisHost w; pendingAck.node pack] w Hshuffle Hcount Hknown)
    as (relays & Hrun & Hlen & Hrelays).
  { intros x Hx. apply elem_of_cons in Hx as [-> | Hx]; [exact Hself |].
    apply list_elem_of_singleton in Hx as ->. exact Ht. }
  assert (Hcomplete : shufflePermutes ->
            Z.of_nat (length relays) < lambdaLogCount (size (knownNodes w)) ->
            forall a r nr,
              knownNodes w !! a = Some r -> heap w !! r = Some nr ->
              Node.status nr ≠ StatusDead ->
              (forall x nx, x ∈ [thisHost w; pendingAck.node pack] ->
                 heap w !! x = Some nx -> Node.Address nr ≠ Node.Address nx) ->
              r ∈ relays).
  { intros Hperm.
    apply (getTargetNodes_complete _ _ w (set_draws (S (draws w)) w) relays Hperm Hknown);
      [| exact Hrun].
    intros x Hx. apply elem_of_cons in Hx as [-> | Hx]; [exact Hself |].
    apply list_elem_of_singleton in Hx as ->. exact Ht. }
  rewrite (bind_Ok _ _ _ _ _ Hrun). cbv beta.
  exists relays. destruct (decide (length relays = 0%nat)) as [Hnone | Hsome].
  - destruct relays; [| discriminate Hnone]. destruct Hself as [self Hselfn].
    destruct Ht as [nt Hnt]. go_run.
    match goal with
    | |- context [updateNodeStatus ?p StatusDead ?h ?w0] =>
        destruct (updateNodeStatus_marks w0 p nt StatusDead h)
          as (w' & n' & Hmark & Hn' & Hs' & _); [exact Hnt |]
    end.
    exists w'. split; [exact Hmark |]. split; [exact Hlen |].
    split; [intros r Hr; inversion Hr |]. split; [congruence |].
    split; [| exact Hcomplete].
    intros _. rewrite Hn'. cbn. rewrite Hs'. reflexivity.
  - destruct (requestIndirectPings_return pack relays (set_draws (S (draws w)) w) Hshuffle)
      as (w' & Hloop & Hhb & _ & Haddr & Hstat & _ & Hpending).
    + apply (wellFormed_ext w); auto.
    + exact Hcount.
    + exact Ht.
    + intros r Hr. destruct (Hrelays r Hr) as (_ & nr & Hnr & _). eexists; exact Hnr.
    + exists w'. split; [exact Hloop |]. split; [exact Hlen |].
      split; [| split; [intros _; apply Hstat
                        | split; [intros ->; contradiction | exact Hcomplete]]].
      intros r Hr. destruct (Hrelays r Hr) as (Hreg & nr & Hnr & Hlive & Hnot).
      split; [exact Hreg |]. exists nr. split; [exact Hnr |]. split; [exact Hlive |].
      split; [exact Hnot |]. exact (Hpending r nr Hr Hnr).
Qed.


(** ** The emit counters of the members of a datagram *)

Lemma decrementEmitCounter_heap (p : ptr) (w w' : World) (u : unit) :
  decrementEmitCounter p w = Ok u w' -> heap w' = alter decremented p (heap w).
Proof.
  intros H. destruct (heap w !! p) as [n |] eqn:Hn.
  - unfold decrementEmitCounter in H. rewrite (update_Ok w p n _ Hn) in H.
    injection H as _ H. subst w'. cbn [heap set_heap].
    rewrite <- (insert_id (heap w) p n Hn) at 2. rewrite alter_insert_eq. reflexivity.
  - exfalso. unfold decrementEmitCounter, update in H. exact (deref_None_bind _ _ _ _ _ Hn H).
Qed.

Lemma attachMembers_heap (nodes : list ptr) (msg msg' : message.t) (w w' : World) :
  attachMembers nodes msg w = Ok (inl msg') w' ->
  heap w' = decrementAll nodes (heap w) /\
  messageMember.node <$> message.members msg'
    = (messageMember.node <$> message.members msg) ++ nodes /\
  events w' = events w.
Proof.
  revert msg w. induction nodes as [| p nodes IH]; intros msg w; cbn [attachMembers].
  - intros H. injection H as <- <-. rewrite app_nil_r. repeat split.
  - destruct (heap w !! p) as [n |] eqn:Hn.
    + go_run.
      destruct (message.addMember msg p (Node.status n) (Node.heartbeat n)) as [msg1 |] eqn:Hadd;
        [| discriminate].
      go_call Hdec. intros H. destruct (IH _ _ H) as (Hheap & Hmembers & Hevents).
      pose proof (decrementEmitCounter_heap _ _ _ _ Hdec) as Hheap1.
      assert (Hevents1 : events w0 = events w).
      { apply (keeps_decrementEmitCounter _ events) in Hdec; [exact Hdec |].
        intros; reflexivity. }
      split; [rewrite Hheap, Hheap1; reflexivity |]. split; [| congruence].
      rewrite Hmembers. unfold message.addMember in Hadd.
      destruct (decide (255 <= Z.of_nat (length (message.members msg)))); [discriminate |].
      injection Hadd as <-. cbn [message.members]. rewrite fmap_app. cbn.
      rewrite <- app_assoc. reflexivity.
    + intros H. exfalso. exact (deref_None_bind _ _ _ _ _ Hn H).
Qed.

Lemma decrementMembers_heap (ms : list messageMember.t) (w w' : World) (u : unit) :
  forEach ms (fun m => decrementEmitCounter (messageMember.node m)) w = Ok u w' ->
  heap w' = decrementAll (messageMember.node <$> ms) (heap w) /\ events w' = events w.
Proof.
  revert w. induction ms as [| m ms IH]; intros w; cbn [forEach].
  - intros H. injection H as _ <-. split; reflexivity.
  - go_call Hdec. intros H. destruct (IH _ H) as (Hheap & Hevents).
    rewrite Hheap, (decrementEmitCounter_heap _ _ _ _ Hdec).
    split; [reflexivity |]. rewrite Hevents.
    apply (keeps_decrementEmitCounter _ events) in Hdec; [exact Hdec |].
    intros; reflexivity.
Qed.

Lemma decrementAll_lookup (l : list ptr) (h : gmap ptr Node.t) (p : ptr) :
  decrementAll l h !! p = Nat.iter (occurrences p l) decremented <$> h !! p.
Proof.
  revert h. induction l as [| x l IH]; intros h; cbn [decrementAll foldl occurrences].
  - destruct (h !! p); reflexivity.
  - fold (decrementAll l (alter decremented x h)). rewrite IH.
    destruct (decide (x = p)) as [-> | Hne].
    + rewrite lookup_alter_eq.
      change (1 + occurrences p l)%nat with (S (occurrences p l)).
      destruct (h !! p) as [n |]; [| reflexivity].
      cbn [fmap option_fmap option_map]. rewrite Nat.iter_succ_r. reflexivity.
    + rewrite lookup_alter_ne by assumption. reflexivity.
Qed.

Lemma occurrences_app (p : ptr) (l k : list ptr) :
  occurrences p (l ++ k) = (occurrences p l + occurrences p k)%nat.
Proof. induction l as [| x l IH]; cbn; [reflexivity | rewrite IH; lia]. Qed.

Lemma occurrences_absent (p : ptr) (l : list ptr) : p ∉ l -> occurrences p l = 0%nat.
Proof.
  induction l as [| x l IH]; cbn; intros Hp; [reflexivity |].
  apply not_elem_of_cons in Hp as [Hne Hp].
  destruct (decide (x = p)); [congruence |]. rewrite (IH Hp). reflexivity.
Qed.

Lemma occurrences_NoDup (p : ptr) (l : list ptr) :
  NoDup l -> p ∈ l -> occurrences p l = 1%nat.
Proof.
  induction 1 as [| x l Hx Hnd IH]; intros Hp; [inversion Hp |]. cbn.
  apply elem_of_cons in Hp as [-> | Hp].
  - destruct (decide (x = x)); [| congruence]. rewrite (occurrences_absent x l Hx). reflexivity.
  - destruct (decide (x = p)) as [-> | _]; [contradiction |]. rewrite (IH Hp). reflexivity.
Qed.

(** A transmission that succeeds has decremented the emit counter of
    every node it attached in its first loop, and then of every member
    of the datagram in its second loop.  [attached] are the nodes the
    first loop attached; the members of the datagram are the forward
    marker, if any, and these. *)
Lemma transmitVerbGenericUDP_decrements (node : ptr) (forwardTo : option ptr)
    (verb : messageVerb) (code : Z) (w w' : World) :
  transmitVerbGenericUDP node forwardTo verb code w = Ok None w' ->
  exists (dest : string) (msg : message.t) (attached : list ptr) (before : list Event),
    events w' = Log LTrace (SentTo verb dest) :: Datagram dest msg :: before /\
    messageMember.node <$> message.members msg
      = match forwardTo with Some t => [t] | None => [] end ++ attached /\
    heap w' = decrementAll (attached ++ (messageMember.node <$> message.members msg)) (heap w).
Proof.
  destruct (heap w !! node) as [n |] eqn:Hn.
  2: { intros H. exfalso. unfold transmitVerbGenericUDP, Address in H.
       rewrite bind_assoc in H. exact (deref_None_bind _ _ _ _ _ Hn H). }
  unfold transmitVerbGenericUDP. go_run.
  destruct (resolveOk (network (sends w))); cbn [negb]; [| discriminate].
  destruct (dialOk (network (sends w))); cbn [negb]; [| discriminate].
  go_run.
  set (msg0 := match forwardTo with
               | Some t => default _ (message.addMember _ t StatusForwardTo code)
               | None => message.newMessage verb (thisHost w) code
               end).
  assert (Hmsg0 : messageMember.node <$> message.members msg0
                  = match forwardTo with Some t => [t] | None => [] end).
  { subst msg0. destruct forwardTo; reflexivity. }
  clearbody msg0.
  go_call Hrun1.
  assert (Hheap1 : heap w0 = heap w).
  { apply (keeps_getRandomUpdatedNodes _ heap) in Hrun1; try (intros; reflexivity).
    exact Hrun1. }
  go_call Hrun2.
  assert (Hheap2 : heap w1 = heap w).
  { revert Hrun2. destruct (decide (length a = 0%nat)).
    - go_run. intros H.
      apply (keeps_nodeMap_getRandomNodes _ heap) in H; try (intros; reflexivity).
      rewrite H. exact Hheap1.
    - intros H. injection H as _ <-. exact Hheap1. }
  go_call Hrun3. destruct a1 as [msg1 | err]; [| discriminate].
  destruct (attachMembers_heap _ _ _ _ _ Hrun3) as (Hheap3 & Hmembers3 & _).
  go_run.
  assert (Hsent : forall (msg : message.t) (w4 : World),
    message.members msg = message.members msg1 -> heap w4 = heap w2 ->
    (if negb (writeOk (network (sends w))) then mret (Some ErrWrite)
     else emit (Datagram (Node.Address n) msg) ;;
          forEach (message.members msg)
            (fun m => decrementEmitCounter (messageMember.node m)) ;;
          log LTrace (SentTo verb (Node.Address n)) ;;
          mret None) w4 = Ok None w' ->
    exists (dest : string) (msg : message.t) (attached : list ptr) (before : list Event),
      events w' = Log LTrace (SentTo verb dest) :: Datagram dest msg :: before /\
      messageMember.node <$> message.members msg
        = match forwardTo with Some t => [t] | None => [] end ++ attached /\
      heap w' = decrementAll (attached ++ (messageMember.node <$> message.members msg)) (heap w)).
  { intros msg w4 Hsame Hheap4.
    destruct (writeOk (network (sends w))); cbn [negb]; [| discriminate].
    go_run. go_call Hrun5. go_run. intros H. injection H as H. subst w'.
    destruct (decrementMembers_heap _ _ _ _ Hrun5) as (Hheap5 & Hevents5).
    exists (Node.Address n), msg, a0, (events w4). world_simpl.
    split; [rewrite Hevents5; reflexivity |].
    split; [rewrite Hsame, Hmembers3, Hmsg0; reflexivity |].
    rewrite Hheap5. world_simpl. rewrite Hheap4, Hheap3, Hheap2, Hsame.
    unfold decrementAll. rewrite foldl_app. reflexivity. }
  destruct (getBroadcastToEmit (broadcasts w2)) as [[[label b] |] store]; cbn [fst snd].
  - go_run. apply Hsent; [| reflexivity].
    destruct (decide (Broadcast.emitCounter b > 0)); reflexivity.
  - go_run. apply Hsent; reflexivity.
Qed.

(** So a node that the first loop attached once, and that is not the
    forward marker, has its emit counter decremented twice by a
    transmission that succeeds. *)
Lemma transmitVerbGenericUDP_decrements_twice (node : ptr) (forwardTo : option ptr)
    (verb : messageVerb) (code : Z) (w w' : World) :
  transmitVerbGenericUDP node forwardTo verb code w = Ok None w' ->
  exists (dest : string) (msg : message.t) (attached : list ptr),
    Datagram dest msg ∈ events w' /\
    messageMember.node <$> message.members msg
      = match forwardTo with Some t => [t] | None => [] end ++ attached /\
    forall (p : ptr) (n : Node.t),
      NoDup attached -> p ∈ attached -> forwardTo ≠ Some p -> heap w !! p = Some n ->
      Node.emitCounter <$> heap w' !! p
        = Some (wrap8 (wrap8 (Node.emitCounter n - 1) - 1)).
Proof.
  intros H. destruct (transmitVerbGenericUDP_decrements _ _ _ _ _ _ H)
    as (dest & msg & attached & before & Hevents & Hmembers & Hheap).
  exists dest, msg, attached. split; [rewrite Hevents; set_solver |].
  split; [exact Hmembers |].
  intros p n Hnd Hp Hfwd Hn. rewrite Hheap, decrementAll_lookup, Hn, Hmembers.
  rewrite !occurrences_app, (occurrences_NoDup p attached Hnd Hp).
  assert (Hmarker : occurrences p (match forwardTo with Some t => [t] | None => [] end) = 0%nat).
  { destruct forwardTo as [t |]; [| reflexivity]. cbn.
    destruct (decide (t = p)); [congruence | reflexivity]. }
  rewrite Hmarker. reflexivity.
Qed.

(** ** The registry front-end, continued *)

(** Project the fields out of a world built by the setters; for goals in
    which every world stands under a projection. *)
Ltac world_proj :=
  lazy beta iota delta
    [heap knownNodes updatedNodes deadNodeRetries pendingAcks currentHeartbeat
     thisHost knownNodesModifiedFlag runningFlag pingdata broadcasts ticks draws
     sends events set_heap set_knownNodes set_updatedNodes set_deadNodeRetries
     set_pendingAcks set_currentHeartbeat set_knownNodesModifiedFlag set_pingdata
     set_broadcasts set_ticks set_draws set_sends set_events];
  repeat match goal with
  | |- context [match ?w with mkWorld _ _ _ _ _ _ _ _ _ _ _ _ _ _ _ => _ end] =>
      progress (fold (heap w); fold (knownNodes w); fold (updatedNodes w);
                fold (deadNodeRetries w); fold (pendingAcks w);
                fold (currentHeartbeat w); fold (thisHost w);
                fold (knownNodesModifiedFlag w); fold (runningFlag w);
                fold (pingdata w); fold (broadcasts w); fold (ticks w);
                fold (draws w); fold (sends w); fold (events w))
  end.

(** Adding a node whose address is registered changes nothing. *)
Lemma AddNode_known (w : World) (p : ptr) (n : Node.t) :
  heap w !! p = Some n ->
  is_Some (knownNodes w !! Node.Address n) ->
  AddNode p w = Ok p w.
Proof.
  intros Hp Hk. unfold AddNode. go_run. rewrite bool_decide_true by exact Hk. reflexivity.
Qed.

(** Adding a node whose address is not registered. *)
Lemma AddNode_adds (w : World) (p : ptr) (n : Node.t) :
  heap w !! p = Some n ->
  knownNodes w !! Node.Address n = None ->
  Node.status n ≠ StatusForwardTo ->
  exists (w' : World) (n' : Node.t),
    AddNode p w = Ok p w' /\
    heap w' !! p = Some n' /\
    Node.Address n' = Node.Address n /\
    Node.status n' = (if decide (Node.status n = StatusUnknown) then StatusAlive
                      else Node.status n) /\
    Node.heartbeat n' = Node.heartbeat n /\
    knownNodes w' = <[Node.Address n := p]> (knownNodes w) /\
    knownNodesModifiedFlag w' = true /\
    (forall q : ptr, q ≠ p -> heap w' !! q = heap w !! q) /\
    pendingAcks w' = pendingAcks w /\
    currentHeartbeat w' = currentHeartbeat w /\
    thisHost w' = thisHost w /\
    runningFlag w' = runningFlag w /\
    (forall a r, updatedNodes w' !! a = Some r -> updatedNodes w !! a = Some r \/ r = p).
Proof.
  intros Hp Hk Hfwd. unfold AddNode. go_run.
  rewrite bool_decide_false by (rewrite Hk; intros [? ?]; discriminate).
  go_run. destruct (decide (Node.status n = StatusUnknown)) as [Hu | Hu].
  - go_run. unfold UpdateNodeStatus. go_run.
    erewrite (bind_Ok (updateNodeStatus _ _ _))
      by (apply updateNodeStatus_changed; [go_heap | congruence]).
    cbv beta. go_run.
    eexists _, _. split; [reflexivity |]. world_proj.
    rewrite lookup_insert_eq. split; [reflexivity |].
    repeat split.
    + intros q Hq. rewrite !lookup_insert_ne by congruence. reflexivity.
    + intros a r. destruct (bool_decide (is_Some (updatedNodes w !! Node.Address n)));
        [auto |].
      intros Hr. apply lookup_insert_Some in Hr as [[_ <-] | [_ Hr]]; auto.
  - destruct (decide (Node.status n = StatusForwardTo)); [contradiction |].
    go_run. eexists _, _. split; [reflexivity |]. world_proj.
    rewrite lookup_insert_eq. split; [reflexivity |].
    repeat split.
    + intros q Hq. rewrite !lookup_insert_ne by congruence. reflexivity.
    + auto.
Qed.


(** A call of [AddNode] through a dangling pointer does not return. *)
Lemma AddNode_dangling (w w' : World) (p q : ptr) :
  heap w !! p = None -> AddNode p w = Ok q w' -> False.
Proof.
  intros Hp H. unfold AddNode, nodeMap_contains, Address in H. rewrite !bind_assoc in H.
  exact (deref_None_bind _ _ _ _ _ Hp H).
Qed.

Lemma AddNode_marker_panics (w : World) (p : ptr) (n : Node.t) :
  heap w !! p = Some n ->
  knownNodes w !! Node.Address n = None ->
  Node.status n = StatusForwardTo ->
  AddNode p w = Panic "invalid status: FORWARD_TO".
Proof.
  intros Hp Hk Hfwd. unfold AddNode. go_run.
  rewrite bool_decide_false by (rewrite Hk; intros [? ?]; discriminate).
  go_run. destruct (decide (Node.status n = StatusUnknown)); [congruence |].
  destruct (decide (Node.status n = StatusForwardTo)); [| contradiction].
  reflexivity.
Qed.

(** X1: [AddNode(n); AddNode(n)] does what [AddNode(n)] does: whenever a
    call of [AddNode] returns, it returns its argument, and a second call
    on the same node returns it again and leaves the whole state as the
    first call left it (no second registration, no second notification,
    no refreshed timestamp or emit counter). *)
Theorem AddNode_idempotent (w w1 : World) (p q : ptr) :
  AddNode p w = Ok q w1 ->
  q = p /\ AddNode p w1 = Ok p w1.
Proof.
  intros H. destruct (heap w !! p) as [n |] eqn:Hp;
    [| exfalso; exact (AddNode_dangling _ _ _ _ Hp H)].
  destruct (knownNodes w !! Node.Address n) as [r |] eqn:Hk.
  - rewrite (AddNode_known w p n Hp) in H by eauto.
    injection H as <- <-. split; [reflexivity |]. apply (AddNode_known w p n Hp). eauto.
  - destruct (decide (Node.status n = StatusForwardTo)) as [Hfwd | Hfwd].
    + rewrite (AddNode_marker_panics w p n Hp Hk Hfwd) in H. discriminate H.
    + destruct (AddNode_adds w p n Hp Hk Hfwd)
        as (w' & n' & Hrun & Hn' & Ha' & _ & _ & Hk' & _).
      rewrite Hrun in H. injection H as <- <-. split; [reflexivity |].
      apply (AddNode_known w' p n' Hn'). rewrite Hk', Ha', lookup_insert_eq. eauto.
Qed.

(** X2: what [AddNode] admits into the registry.  For a node whose
    address is not registered: if its status is the wire marker
    [StatusForwardTo] the call panics and nothing is registered; otherwise
    the call returns the node, the registry gains exactly the entry
    (address, node), the modified flag is set, the timestamp of the node
    is refreshed, a node without a status ([StatusUnknown]) is made Alive
    and any other status is kept, and no other node is written.  So a
    node registered by [AddNode] is never [StatusUnknown] or
    [StatusForwardTo]. *)
Theorem AddNode_registers_no_marker (w : World) (p : ptr) (n : Node.t) :
  heap w !! p = Some n ->
  knownNodes w !! Node.Address n = None ->
  (Node.status n = StatusForwardTo ->
   AddNode p w = Panic "invalid status: FORWARD_TO") /\
  (Node.status n ≠ StatusForwardTo ->
   exists (w' : World) (n' : Node.t),
     AddNode p w = Ok p w' /\
     knownNodes w' = <[Node.Address n := p]> (knownNodes w) /\
     knownNodesModifiedFlag w' = true /\
     heap w' !! p = Some n' /\
     Node.Address n' = Node.Address n /\
     Node.status n' = (if decide (Node.status n = StatusUnknown) then StatusAlive
                       else Node.status n) /\
     Node.status n' ≠ StatusUnknown /\
     Node.status n' ≠ StatusForwardTo /\
     (forall q : ptr, q ≠ p -> heap w' !! q = heap w !! q)).
Proof.
  intros Hp Hk. split.
  - apply AddNode_marker_panics; assumption.
  - intros Hfwd. destruct (AddNode_adds w p n Hp Hk Hfwd)
      as (w' & n' & Hrun & Hn' & Ha' & Hs' & _ & Hk' & Hflag & Hothers & _).
    exists w', n'. repeat split; try assumption.
    + rewrite Hs'. destruct (decide (Node.status n = StatusUnknown)); [discriminate | assumption].
    + rewrite Hs'. destruct (decide (Node.status n = StatusUnknown)); [discriminate | assumption].
Qed.

(** [RemoveNode]: the world it leaves. *)
Lemma RemoveNode_Ok (w : World) (p : ptr) (n : Node.t) :
  heap w !! p = Some n ->
  RemoveNode p w =
    Ok p (if bool_decide (is_Some (knownNodes w !! Node.Address n))
          then set_knownNodesModifiedFlag true
                 (set_events (cons (Log LInfo (RemovingHost (Node.Address n))))
                    (set_knownNodes (delete (Node.Address n))
                       (set_heap <[p := Node.with_timestamp (wrap32 (millis (ticks w))) n]>
                          (set_ticks (S (ticks w)) w))))
          else w).
Proof.
  intros Hp. unfold RemoveNode. go_run.
  destruct (bool_decide (is_Some (knownNodes w !! Node.Address n))); go_run; reflexivity.
Qed.

(** X3: [RemoveNode] removes the registration of the node's address and
    nothing else.  The call returns the node; the registry is the
    registry without the address; the updated set, the dead-node
    counters and the pending-ack table are as before (a removed node is
    still gossiped about and its pending acknowledgements still time
    out); no node changes its status, heartbeat or emit counter.  When
    the address was not registered the state is left exactly as it was;
    when it was, the modified flag is set and the timestamp of the node
    is refreshed. *)
Theorem RemoveNode_unregisters_only (w : World) (p : ptr) (n : Node.t) :
  heap w !! p = Some n ->
  exists w' : World,
    RemoveNode p w = Ok p w' /\
    knownNodes w' = delete (Node.Address n) (knownNodes w) /\
    updatedNodes w' = updatedNodes w /\
    deadNodeRetries w' = deadNodeRetries w /\
    pendingAcks w' = pendingAcks w /\
    (forall q : ptr,
       Node.status <$> heap w' !! q = Node.status <$> heap w !! q /\
       Node.heartbeat <$> heap w' !! q = Node.heartbeat <$> heap w !! q /\
       Node.emitCounter <$> heap w' !! q = Node.emitCounter <$> heap w !! q) /\
    (knownNodes w !! Node.Address n = None -> w' = w) /\
    (is_Some (knownNodes w !! Node.Address n) ->
     knownNodesModifiedFlag w' = true /\
     Node.timestamp <$> heap w' !! p = Some (wrap32 (millis (ticks w)))).
Proof.
  intros Hp. eexists. split; [apply RemoveNode_Ok, Hp |].
  destruct (bool_decide (is_Some (knownNodes w !! Node.Address n))) eqn:Hk.
  - world_proj. repeat split.
    + destruct (decide (q = p)) as [-> | Hne];
        [rewrite lookup_insert_eq, Hp | rewrite lookup_insert_ne by congruence]; reflexivity.
    + destruct (decide (q = p)) as [-> | Hne];
        [rewrite lookup_insert_eq, Hp | rewrite lookup_insert_ne by congruence]; reflexivity.
    + destruct (decide (q = p)) as [-> | Hne];
        [rewrite lookup_insert_eq, Hp | rewrite lookup_insert_ne by congruence]; reflexivity.
    + intros Hnone. apply bool_decide_eq_true in Hk. rewrite Hnone in Hk.
      destruct Hk as [? Habs]. discriminate Habs.
    + rewrite lookup_insert_eq. reflexivity.
  - apply bool_decide_eq_false in Hk.
    assert (Hnone : knownNodes w !! Node.Address n = None).
    { destruct (knownNodes w !! Node.Address n); [exfalso; apply Hk; eauto | reflexivity]. }
    repeat split; try reflexivity.
    + rewrite delete_id by exact Hnone. reflexivity.
    + exfalso. apply Hk. assumption.
    + exfalso. apply Hk. assumption.
Qed.

(** X4: [AddNode] and then [RemoveNode] of a node whose address was not
    registered (and that is not the wire marker) both return, and leave
    the registry as it was before the two calls, with the modified flag
    set. *)
Theorem AddNode_then_RemoveNode (w : World) (p : ptr) (n : Node.t) :
  heap w !! p = Some n ->
  knownNodes w !! Node.Address n = None ->
  Node.status n ≠ StatusForwardTo ->
  exists w1 w2 : World,
    AddNode p w = Ok p w1 /\
    is_Some (knownNodes w1 !! Node.Address n) /\
    RemoveNode p w1 = Ok p w2 /\
    knownNodes w2 = knownNodes w /\
    knownNodesModifiedFlag w2 = true.
Proof.
  intros Hp Hk Hfwd.
  destruct (AddNode_adds w p n Hp Hk Hfwd)
    as (w1 & n1 & Hadd & Hn1 & Ha1 & _ & _ & Hk1 & _).
  exists w1. eexists. split; [exact Hadd |].
  split; [rewrite Hk1, lookup_insert_eq; eauto |].
  split; [apply RemoveNode_Ok, Hn1 |].
  rewrite bool_decide_true by (rewrite Hk1, Ha1, lookup_insert_eq; eauto).
  world_proj. split; [| reflexivity].
  rewrite Hk1, Ha1, delete_insert_eq. apply delete_id, Hk.
Qed.

(** X5: a status transition re-arms the node.  When [updateNodeStatus]
    is called with a status other than the node's, it returns and the
    node has the new status, the heartbeat given, the timestamp of the
    clock, and the emit counter [int8(emitCount())] (the value of
    [emitCount()] itself when that fits an int8); its address and ping
    time are as before; the node is in the updated set; the dead-node
    counter of its address is deleted when the new status is not Dead and
    the counters are left alone when it is; the registry and the pending
    acknowledgements are untouched; and the listener is notified exactly
    once, of this node and status. *)
Theorem updateNodeStatus_transition_rearms
    (w : World) (p : ptr) (n : Node.t) (s : NodeStatus) (h : Z) :
  heap w !! p = Some n ->
  Node.status n ≠ s ->
  exists (w' : World) (n' : Node.t),
    updateNodeStatus p s h w = Ok tt w' /\
    heap w' !! p = Some n' /\
    Node.status n' = s /\
    Node.heartbeat n' = h /\
    Node.timestamp n' = wrap32 (millis (ticks w)) /\
    Node.emitCounter n' = wrap8 (lambdaLogCount (size (knownNodes w))) /\
    (-128 <= lambdaLogCount (size (knownNodes w)) <= 127 ->
     Node.emitCounter n' = lambdaLogCount (size (knownNodes w))) /\
    Node.Address n' = Node.Address n /\
    Node.pingMillis n' = Node.pingMillis n /\
    is_Some (updatedNodes w' !! Node.Address n) /\
    (forall a, a ≠ Node.Address n -> updatedNodes w' !! a = updatedNodes w !! a) /\
    (s ≠ StatusDead -> deadNodeRetries w' = delete (Node.Address n) (deadNodeRetries w)) /\
    (s = StatusDead -> deadNodeRetries w' = deadNodeRetries w) /\
    knownNodes w' = knownNodes w /\
    pendingAcks w' = pendingAcks w /\
    (exists logged : list Event,
       events w' = StatusUpdate p s :: logged ++ events w /\
       forall q t, StatusUpdate q t ∉ logged).
Proof.
  intros Hp Hs. eexists _, _.
  split; [apply updateNodeStatus_changed; eassumption |]. world_proj.
  split; [apply lookup_insert_eq |]. repeat split.
  - intros Hrange. cbn [Node.emitCounter]. unfold wrap8. rewrite Z.mod_small by lia. lia.
  - destruct (bool_decide (is_Some (updatedNodes w !! Node.Address n))) eqn:E.
    + apply bool_decide_eq_true in E. exact E.
    + rewrite lookup_insert_eq. eauto.
  - intros a Ha. destruct (bool_decide (is_Some (updatedNodes w !! Node.Address n)));
      [reflexivity | rewrite lookup_insert_ne by congruence; reflexivity].
  - intros Hd. rewrite bool_decide_true by exact Hd. reflexivity.
  - intros ->. rewrite bool_decide_false by (intros Hd; apply Hd; reflexivity). reflexivity.
  - eexists (_ :: _). split; [reflexivity |].
    intros q t Hin. apply elem_of_cons in Hin as [Hin | Hin]; [discriminate Hin |].
    destruct (bool_decide (h < Node.heartbeat n)).
    + apply list_elem_of_singleton in Hin. discriminate Hin.
    + inversion Hin.
Qed.

(** ** The choice of the nodes to gossip about *)

Lemma insertByEmitCounter_perm (x : Z * ptr) (l : list (Z * ptr)) :
  insertByEmitCounter x l ≡ₚ x :: l.
Proof.
  induction l as [| y l IH]; cbn [insertByEmitCounter]; [reflexivity |].
  destruct (decide (fst y < fst x)); [reflexivity |].
  rewrite IH. apply Permutation_swap.
Qed.

Lemma sortByEmitCounter_perm (l : list (Z * ptr)) : sortByEmitCounter l ≡ₚ l.
Proof.
  induction l as [| x l IH]; cbn [sortByEmitCounter foldr]; [reflexivity |].
  rewrite insertByEmitCounter_perm. f_equiv. exact IH.
Qed.

Lemma insertByEmitCounter_descending (x : Z * ptr) (l : list (Z * ptr)) :
  descending (fst <$> l) -> descending (fst <$> insertByEmitCounter x l).
Proof.
  induction l as [| y l IH]; cbn [insertByEmitCounter]; intros Hd.
  - cbn. split; [constructor | exact I].
  - cbn in Hd. destruct Hd as [Hall Hd]. destruct (decide (fst y < fst x)).
    + cbn. split; [| split; assumption].
      constructor; [lia |]. eapply Forall_impl; [exact Hall |]. cbn. intros; lia.
    + cbn. split; [| apply IH, Hd].
      apply Forall_forall. intros c Hc. apply list_elem_of_fmap in Hc as (z & -> & Hz).
      destruct (insertByEmitCounter_elem _ _ _ Hz) as [-> | Hin]; [lia |].
      rewrite Forall_forall in Hall. apply Hall. apply list_elem_of_fmap. eauto.
Qed.

Lemma sortByEmitCounter_descending (l : list (Z * ptr)) :
  descending (fst <$> sortByEmitCounter l).
Proof.
  induction l as [| x l IH]; cbn [sortByEmitCounter foldr]; [exact I |].
  apply insertByEmitCounter_descending, IH.
Qed.

Lemma descending_take (n : nat) (l : list Z) : descending l -> descending (take n l).
Proof.
  revert n. induction l as [| x l IH]; intros [| n] Hd; cbn; try exact I.
  destruct Hd as [Hall Hd]. split; [apply Forall_take, Hall | apply IH, Hd].
Qed.

(** The counters the sort compares are those of the nodes. *)
Lemma withEmitCounter_counters (l : list ptr) (w : World) :
  (forall p, p ∈ l -> is_Some (heap w !! p)) ->
  exists keyed : list (Z * ptr),
    withEmitCounter l w = Ok keyed w /\
    snd <$> keyed = l /\
    Forall (fun kp => Node.emitCounter <$> heap w !! snd kp = Some (fst kp)) keyed.
Proof.
  induction l as [| p l IH]; intros Hl; cbn [withEmitCounter].
  - exists []. repeat split. constructor.
  - destruct (Hl p) as [n Hn]; [left |].
    destruct IH as (keyed & Hrun & Hsnd & Hfst); [intros q Hq; apply Hl; right; exact Hq |].
    go_run. rewrite (bind_Ok _ _ _ _ _ Hrun). cbv beta. go_run.
    eexists. split; [reflexivity |]. split; [cbn; rewrite Hsnd; reflexivity |].
    constructor; [cbn; rewrite Hn; reflexivity | exact Hfst].
Qed.

(** The first loop of [getRandomUpdatedNodes], with what it copies. *)
Lemma pruneOrCopy_loop_copies (values : list ptr) (copy : gmap string ptr) (w : World) :
  (forall p, p ∈ values -> is_Some (heap w !! p)) ->
  exists (copy' : gmap string ptr) (w' : World),
    forEachAcc values copy pruneOrCopy w = Ok copy' w' /\
    heap w' = heap w /\
    knownNodes w' = knownNodes w /\
    draws w' = draws w /\
    sentDatagrams (events w') = sentDatagrams (events w) /\
    (forall a p, copy' !! a = Some p ->
       copy !! a = Some p \/
       (p ∈ values /\
        exists n, heap w !! p = Some n /\ Node.Address n = a /\ 0 < Node.emitCounter n)).
Proof.
  revert copy w. induction values as [| p values IH]; intros copy w Hvalues;
    cbn [forEachAcc].
  - exists copy, w. split; [reflexivity |]. repeat split. auto.
  - destruct (Hvalues p) as [n Hn]; [left |].
    assert (Hrest : forall q, q ∈ values -> is_Some (heap w !! q))
      by (intros q Hq; apply Hvalues; right; exact Hq).
    pose proof (pruneOrCopy_returns copy p w n Hn) as Hbody.
    destruct (decide (Node.emitCounter n <= 0)).
    + rewrite (bind_Ok _ _ _ _ _ Hbody). cbv beta.
      match goal with
      | |- context [forEachAcc values copy pruneOrCopy ?w0] =>
          destruct (IH copy w0)
            as (copy' & w' & Hrun & Hheap & Hknown & Hdraws & Hsent & Hcopy');
            [exact Hrest |]
      end.
      exists copy', w'. split; [exact Hrun |].
      split; [exact Hheap |]. split; [exact Hknown |]. split; [exact Hdraws |].
      split; [exact Hsent |].
      intros a q Hq. destruct (Hcopy' a q Hq) as [Hold | (Hin & Hrestq)];
        [left; exact Hold | right; split; [right; exact Hin | exact Hrestq]].
    + rewrite (bind_Ok _ _ _ _ _ Hbody). cbv beta.
      destruct (IH (<[Node.Address n := p]> copy) w)
        as (copy' & w' & Hrun & Hheap & Hknown & Hdraws & Hsent & Hcopy'); [exact Hrest |].
      exists copy', w'. split; [exact Hrun |].
      split; [exact Hheap |]. split; [exact Hknown |]. split; [exact Hdraws |].
      split; [exact Hsent |].
      intros a q Hq. destruct (Hcopy' a q Hq) as [Hold | (Hin & Hrestq)].
      * apply lookup_insert_Some in Hold as [[<- <-] | [_ Hold]]; [| left; exact Hold].
        right. split; [left |]. exists n. repeat split; [exact Hn | lia].
      * right. split; [right; exact Hin | exact Hrestq].
Qed.

(** Its second loop, with what it leaves out. *)
Lemma excludeFrom_loop_excludes (exclude : list ptr) (copy : gmap string ptr) (w : World) :
  (forall p, p ∈ exclude -> is_Some (heap w !! p)) ->
  exists copy' : gmap string ptr,
    forEachAcc exclude copy excludeFrom w = Ok copy' w /\
    forall a p, copy' !! a = Some p ->
      copy !! a = Some p /\
      forall x nx, x ∈ exclude -> heap w !! x = Some nx -> a ≠ Node.Address nx.
Proof.
  revert copy. induction exclude as [| x exclude IH]; intros copy Hex; cbn [forEachAcc].
  - exists copy. split; [reflexivity |]. intros a p Hp. split; [exact Hp |].
    intros y ny Hy. inversion Hy.
  - destruct (Hex x) as [n Hn]; [left |].
    assert (Hbody : excludeFrom copy x w = Ok (delete (Node.Address n) copy) w).
    { unfold excludeFrom. go_run. reflexivity. }
    rewrite (bind_Ok _ _ _ _ _ Hbody). cbv beta.
    destruct (IH (delete (Node.Address n) copy)) as (copy' & Hrun & Hsub);
      [intros q Hq; apply Hex; right; exact Hq |].
    exists copy'. split; [exact Hrun |].
    intros a p Hp. destruct (Hsub a p Hp) as (Hdel & Hnot).
    apply lookup_delete_Some in Hdel as [Hne Hcopy]. split; [exact Hcopy |].
    intros y ny Hy Hny. apply elem_of_cons in Hy as [-> | Hy].
    + rewrite Hn in Hny. injection Hny as <-. congruence.
    + eapply Hnot; eassumption.
Qed.

(** What [getRandomUpdatedNodes] returns. *)
Lemma getRandomUpdatedNodes_selects (size : Z) (exclude : list ptr) (w : World) :
  shuffleWithin ->
  0 <= size ->
  (forall a p, updatedNodes w !! a = Some p -> is_Some (heap w !! p)) ->
  (forall x, x ∈ exclude -> is_Some (heap w !! x)) ->
  exists (l : list ptr) (w' : World) (counters : list Z),
    getRandomUpdatedNodes size exclude w = Ok l w' /\
    heap w' = heap w /\
    knownNodes w' = knownNodes w /\
    draws w' = S (S (draws w)) /\
    sentDatagrams (events w') = sentDatagrams (events w) /\
    Z.of_nat (length l) <= size /\
    (forall p, p ∈ l ->
       (exists a, updatedNodes w !! a = Some p) /\
       exists n, heap w !! p = Some n /\ 0 < Node.emitCounter n /\
         forall x nx, x ∈ exclude -> heap w !! x = Some nx ->
           Node.Address n ≠ Node.Address nx) /\
    Forall2 (fun p c => Node.emitCounter <$> heap w !! p = Some c) l counters /\
    descending counters.
Proof.
  intros Hshuffle Hsize Hupdated Hexclude. unfold getRandomUpdatedNodes.
  destruct (nodeMap_values_returns updatedNodes w Hshuffle) as (values & Hvalues & Hall).
  rewrite (bind_Ok _ _ _ _ _ Hvalues). cbv beta.
  destruct (pruneOrCopy_loop_copies values ∅ (set_draws (S (draws w)) w))
    as (copy & w1 & Hprune & Hheap1 & Hknown1 & Hdraws1 & Hsent1 & Hcopy).
  { intros p Hp. destruct (Hall p Hp) as [a Ha]. exact (Hupdated a p Ha). }
  rewrite (bind_Ok _ _ _ _ _ Hprune). cbv beta.
  revert Hheap1 Hknown1 Hdraws1 Hsent1 Hcopy. world_simpl.
  intros Hheap1 Hknown1 Hdraws1 Hsent1 Hcopy.
  destruct (excludeFrom_loop_excludes exclude copy w1) as (copy2 & Hexcl & Hsub).
  { intros p Hp. rewrite Hheap1. exact (Hexclude p Hp). }
  rewrite (bind_Ok _ _ _ _ _ Hexcl). cbv beta. go_run.
  set (slice := shuffle (draws w1) ptr (snd <$> map_to_list copy2)).
  assert (Hslice : forall p, p ∈ slice ->
            (exists a, updatedNodes w !! a = Some p) /\
            exists n, heap w !! p = Some n /\ 0 < Node.emitCounter n /\
              forall x nx, x ∈ exclude -> heap w !! x = Some nx ->
                Node.Address n ≠ Node.Address nx).
  { intros p Hp. apply Hshuffle in Hp. apply list_elem_of_fmap in Hp as ([a q] & -> & Hin).
    apply elem_of_map_to_list in Hin. destruct (Hsub a q Hin) as (Hc & Hnot).
    destruct (Hcopy a q Hc) as [Habs | (Hval & n & Hn & Ha & Hpos)];
      [rewrite lookup_empty in Habs; discriminate Habs |].
    split; [apply Hall, Hval |]. exists n. split; [exact Hn |]. split; [exact Hpos |].
    intros x nx Hx Hnx. rewrite Ha. apply (Hnot x nx Hx). rewrite Hheap1. exact Hnx. }
  destruct (withEmitCounter_counters slice (set_draws (S (draws w1)) w1))
    as (keyed & Hkeyed & Hsnd & Hfst).
  { intros p Hp. world_simpl. rewrite Hheap1.
    destruct (Hslice p Hp) as (_ & n & Hn & _). eexists; exact Hn. }
  rewrite (bind_Ok _ _ _ _ _ Hkeyed). cbv beta.
  revert Hfst. world_simpl. rewrite Hheap1. intros Hfst.
  set (sorted := sortByEmitCounter keyed).
  assert (Hperm : sorted ≡ₚ keyed) by apply sortByEmitCounter_perm.
  assert (Hsorted : forall p, p ∈ snd <$> sorted -> p ∈ slice).
  { intros p Hp. rewrite <- Hsnd. rewrite Hperm in Hp. exact Hp. }
  assert (Hfst' : Forall (fun kp => Node.emitCounter <$> heap w !! snd kp = Some (fst kp)) sorted).
  { rewrite Hperm. exact Hfst. }
  assert (Hdesc : descending (fst <$> sorted)) by apply sortByEmitCounter_descending.
  assert (Hres : forall k : nat,
    Z.of_nat (length (take k (snd <$> sorted))) <= Z.of_nat k /\
    (forall p, p ∈ take k (snd <$> sorted) ->
       (exists a, updatedNodes w !! a = Some p) /\
       exists n, heap w !! p = Some n /\ 0 < Node.emitCounter n /\
         forall x nx, x ∈ exclude -> heap w !! x = Some nx ->
           Node.Address n ≠ Node.Address nx) /\
    Forall2 (fun p c => Node.emitCounter <$> heap w !! p = Some c)
      (take k (snd <$> sorted)) (take k (fst <$> sorted)) /\
    descending (take k (fst <$> sorted))).
  { intros k. split; [rewrite length_take; lia |].
    split; [intros p Hp; apply Hslice, Hsorted; eapply subseteq_take; exact Hp |].
    split; [| apply descending_take, Hdesc].
    apply Forall2_take. apply Forall2_fmap. apply Forall_Forall2_diag.
    eapply Forall_impl; [exact Hfst' |]. cbn. auto. }
  destruct (decide (size > Z.of_nat (length (snd <$> sorted)))).
  - destruct (decide (Z.of_nat (length (snd <$> sorted)) < 0)); [lia |]. go_run.
    destruct (Hres (Z.to_nat (Z.of_nat (length (snd <$> sorted))))) as (Hlen & Hin & Hcnt & Hd).
    eexists _, _, _. split; [reflexivity |]. world_simpl.
    split; [exact Hheap1 |]. split; [exact Hknown1 |]. split; [rewrite Hdraws1; reflexivity |].
    split; [exact Hsent1 |].
    split; [lia |]. split; [exact Hin |]. split; [exact Hcnt | exact Hd].
  - destruct (decide (size < 0)); [lia |]. go_run.
    destruct (Hres (Z.to_nat size)) as (Hlen & Hin & Hcnt & Hd).
    eexists _, _, _. split; [reflexivity |]. world_simpl.
    split; [exact Hheap1 |]. split; [exact Hknown1 |]. split; [rewrite Hdraws1; reflexivity |].
    split; [exact Hsent1 |].
    split; [lia |]. split; [exact Hin |]. split; [exact Hcnt | exact Hd].
Qed.

(** With a negative size the slice expression of [getRandomUpdatedNodes]
    is out of range. *)
Lemma getRandomUpdatedNodes_negative (size : Z) (exclude : list ptr) (w : World) :
  shuffleWithin ->
  size < 0 ->
  (forall a p, updatedNodes w !! a = Some p -> is_Some (heap w !! p)) ->
  (forall x, x ∈ exclude -> is_Some (heap w !! x)) ->
  getRandomUpdatedNodes size exclude w = Panic "slice bounds out of range".
Proof.
  intros Hshuffle Hsize Hupdated Hexclude. unfold getRandomUpdatedNodes.
  destruct (nodeMap_values_returns updatedNodes w Hshuffle) as (values & Hvalues & Hall).
  rewrite (bind_Ok _ _ _ _ _ Hvalues). cbv beta.
  destruct (pruneOrCopy_loop_copies values ∅ (set_draws (S (draws w)) w))
    as (copy & w1 & Hprune & Hheap1 & _ & _ & _ & Hcopy).
  { intros p Hp. destruct (Hall p Hp) as [a Ha]. exact (Hupdated a p Ha). }
  rewrite (bind_Ok _ _ _ _ _ Hprune). cbv beta.
  revert Hheap1 Hcopy. world_simpl. intros Hheap1 Hcopy.
  destruct (excludeFrom_loop_excludes exclude copy w1) as (copy2 & Hexcl & Hsub).
  { intros p Hp. rewrite Hheap1. exact (Hexclude p Hp). }
  rewrite (bind_Ok _ _ _ _ _ Hexcl). cbv beta. go_run.
  set (slice := shuffle (draws w1) ptr (snd <$> map_to_list copy2)).
  destruct (withEmitCounter_counters slice (set_draws (S (draws w1)) w1))
    as (keyed & Hkeyed & _ & _).
  { intros p Hp. world_simpl. rewrite Hheap1.
    apply Hshuffle in Hp. apply list_elem_of_fmap in Hp as ([a q] & -> & Hin).
    apply elem_of_map_to_list in Hin. destruct (Hsub a q Hin) as (Hc & _).
    destruct (Hcopy a q Hc) as [Habs | (_ & n & Hn & _)];
      [rewrite lookup_empty in Habs; discriminate Habs | eexists; exact Hn]. }
  rewrite (bind_Ok _ _ _ _ _ Hkeyed). cbv beta.
  destruct (decide (size > Z.of_nat (length (snd <$> sortByEmitCounter keyed)))); [lia |].
  destruct (decide (size < 0)); [reflexivity | lia].
Qed.

(** X6: the nodes [getRandomUpdatedNodes] selects.  In a state whose
    node pointers are valid, for a non-negative [size] the call returns
    at most [size] nodes; each of them is a node of the updated set whose
    emit counter is positive and whose address is not that of an excluded
    node; and they are in non-increasing order of emit counter (the
    newest news first).  The nodes and the registry are not written.
    For a negative [size] the slice expression is out of range and the
    call panics. *)
Theorem getRandomUpdatedNodes_newest_first (size : Z) (exclude : list ptr) (w : World) :
  shuffleWithin ->
  (forall a p, updatedNodes w !! a = Some p -> is_Some (heap w !! p)) ->
  (forall x, x ∈ exclude -> is_Some (heap w !! x)) ->
  (0 <= size ->
   exists (l : list ptr) (w' : World) (counters : list Z),
     getRandomUpdatedNodes size exclude w = Ok l w' /\
     heap w' = heap w /\
     knownNodes w' = knownNodes w /\
     Z.of_nat (length l) <= size /\
     (forall p, p ∈ l ->
        (exists a, updatedNodes w !! a = Some p) /\
        exists n, heap w !! p = Some n /\ 0 < Node.emitCounter n /\
          forall x nx, x ∈ exclude -> heap w !! x = Some nx ->
            Node.Address n ≠ Node.Address nx) /\
     Forall2 (fun p c => Node.emitCounter <$> heap w !! p = Some c) l counters /\
     descending counters) /\
  (size < 0 -> getRandomUpdatedNodes size exclude w = Panic "slice bounds out of range").
Proof.
  intros Hshuffle Hupdated Hexclude. split.
  - intros Hsize.
    destruct (getRandomUpdatedNodes_selects size exclude w Hshuffle Hsize Hupdated Hexclude)
      as (l & w' & counters & Hrun & Hheap & Hknown & _ & _ & Hlen & Hin & Hcnt & Hd).
    exists l, w', counters. auto 10.
  - intros Hsize. apply getRandomUpdatedNodes_negative; assumption.
Qed.

(** What the first loop of [getRandomUpdatedNodes] leaves of the updated
    set: an entry stays exactly when no visited node with a counter of 0
    or less has its address. *)
Lemma pruneOrCopy_loop_prunes (values : list ptr) (copy copy' : gmap string ptr)
    (w w' : World) :
  forEachAcc values copy pruneOrCopy w = Ok copy' w' ->
  forall (a : string) (p : ptr),
    updatedNodes w' !! a = Some p <->
    updatedNodes w !! a = Some p /\
    forall q n, q ∈ values -> heap w !! q = Some n -> Node.Address n = a ->
      0 < Node.emitCounter n.
Proof.
  revert copy w. induction values as [| v values IH]; intros copy w; cbn [forEachAcc].
  - intros H. injection H as _ <-. intros a p. split; [| tauto].
    intros Hp. split; [exact Hp |]. intros q n Hq. inversion Hq.
  - destruct (heap w !! v) as [nv |] eqn:Hv.
    2: { intros H. exfalso. unfold pruneOrCopy in H. rewrite bind_assoc in H.
         exact (deref_None_bind _ _ _ _ _ Hv H). }
    pose proof (pruneOrCopy_returns copy v w nv Hv) as Hbody.
    destruct (decide (Node.emitCounter nv <= 0)) as [Hle | Hgt];
      rewrite (bind_Ok _ _ _ _ _ Hbody); cbv beta.
    + intros H a p. rewrite (IH _ _ H a p). world_simpl. rewrite lookup_delete_Some.
      split.
      * intros ((Hne & Hp) & Hrest). split; [exact Hp |].
        intros q n Hq Hn Ha. apply elem_of_cons in Hq as [-> | Hq].
        -- rewrite Hv in Hn. injection Hn as <-. congruence.
        -- eapply Hrest; eassumption.
      * intros (Hp & Hrest). split; [split; [| exact Hp] |].
        -- intros Heq. specialize (Hrest v nv ltac:(left) Hv Heq). lia.
        -- intros q n Hq. apply Hrest. right. exact Hq.
    + intros H a p. rewrite (IH _ _ H a p). split.
      * intros (Hp & Hrest). split; [exact Hp |].
        intros q n Hq Hn Ha. apply elem_of_cons in Hq as [-> | Hq].
        -- rewrite Hv in Hn. injection Hn as <-. lia.
        -- eapply Hrest; eassumption.
      * intros (Hp & Hrest). split; [exact Hp |].
        intros q n Hq. apply Hrest. right. exact Hq.
Qed.

Lemma getRandomUpdatedNodes_prunes_loop (size : Z) (exclude : list ptr) (w w' : World)
    (l : list ptr) :
  getRandomUpdatedNodes size exclude w = Ok l w' ->
  exists (copy copy' : gmap string ptr) (w1 : World),
    forEachAcc (shuffle (draws w) ptr (snd <$> map_to_list (updatedNodes w))) copy
      pruneOrCopy (set_draws (S (draws w)) w) = Ok copy' w1 /\
    updatedNodes w' = updatedNodes w1.
Proof.
  unfold getRandomUpdatedNodes, nodeMap_values. go_run. go_call Hprune.
  exists ∅, a, w0. split; [exact Hprune |].
  revert H. go_call Hexcl.
  assert (Hu1 : updatedNodes w1 = updatedNodes w0).
  { refine (keeps_forEachAcc updatedNodes _ _ _ _ _ _ _ Hexcl).
    intros acc x. unfold excludeFrom. apply keeps_bind; [| intros; apply keeps_ret].
    unfold Address. apply keeps_bind; [apply keeps_deref | intros; apply keeps_ret]. }
  go_run. go_call Hkeyed.
  assert (Hu2 : updatedNodes w2 = updatedNodes w0).
  { apply (keeps_withEmitCounter _ updatedNodes) in Hkeyed; try (intros; reflexivity).
    rewrite Hkeyed. world_simpl. exact Hu1. }
  match goal with
  | |- context [decide (?x < 0)] => destruct (decide (x < 0)); [discriminate |]
  end.
  intros H. injection H as _ <-. exact Hu2.
Qed.

(** X7: [getRandomUpdatedNodes] prunes the updated set.  When the
    updated set is keyed by the addresses of its nodes and a random order
    is a permutation, after the call the updated set holds exactly the
    entries it held whose node has a positive emit counter: every node
    with a counter of 0 or less is removed, and no other (an excluded
    node with a positive counter stays).  The call returns for every
    non-negative size. *)
Theorem getRandomUpdatedNodes_prunes_spent (size : Z) (exclude : list ptr) (w : World) :
  shufflePermutes ->
  keyedByAddress (updatedNodes w) (heap w) ->
  (forall x, x ∈ exclude -> is_Some (heap w !! x)) ->
  0 <= size ->
  exists (l : list ptr) (w' : World),
    getRandomUpdatedNodes size exclude w = Ok l w' /\
    forall (a : string) (p : ptr),
      updatedNodes w' !! a = Some p <->
      updatedNodes w !! a = Some p /\
      exists n, heap w !! p = Some n /\ 0 < Node.emitCounter n.
Proof.
  intros Hperm Hkeyed Hexclude Hsize.
  assert (Hshuffle : shuffleWithin).
  { intros k A l x Hx. rewrite (Hperm k A l) in Hx. exact Hx. }
  destruct (getRandomUpdatedNodes_selects size exclude w Hshuffle Hsize)
    as (l & w' & counters & Hrun & _); [| exact Hexclude |].
  { intros a p Hp. destruct (Hkeyed a p Hp) as (n & Hn & _). eexists; exact Hn. }
  exists l, w'. split; [exact Hrun |].
  destruct (getRandomUpdatedNodes_prunes_loop _ _ _ _ _ Hrun)
    as (copy & copy' & w1 & Hloop & Hupd).
  intros a p. rewrite Hupd, (pruneOrCopy_loop_prunes _ _ _ _ _ Hloop a p). world_simpl.
  split.
  - intros (Hp & Hrest). split; [exact Hp |].
    destruct (Hkeyed a p Hp) as (n & Hn & Ha). exists n. split; [exact Hn |].
    apply (Hrest p n); [| exact Hn | exact Ha].
    rewrite (Hperm _ _ _). apply list_elem_of_fmap. exists (a, p).
    split; [reflexivity |]. apply elem_of_map_to_list. exact Hp.
  - intros (Hp & n & Hn & Hpos). split; [exact Hp |].
    intros q nq Hq Hnq Haq. rewrite (Hperm _ _ _) in Hq.
    apply list_elem_of_fmap in Hq as ([a' q'] & -> & Hin).
    apply elem_of_map_to_list in Hin. cbn in Hnq.
    destruct (Hkeyed a' q' Hin) as (n' & Hn' & Ha').
    rewrite Hn' in Hnq. injection Hnq as <-.
    assert (Heq : a' = a) by congruence. rewrite Heq in Hin.
    rewrite Hin in Hp. injection Hp as ->. rewrite Hn in Hn'. injection Hn' as <-. exact Hpos.
Qed.

(** ** Listing the registry *)

Lemma keepAlive_filters (values filtered : list ptr) (w : World) :
  (forall p, p ∈ values -> is_Some (heap w !! p)) ->
  keepAlive values filtered w =
    Ok (filtered ++ filter (fun p => Node.status <$> heap w !! p = Some StatusAlive) values) w.
Proof.
  revert filtered. induction values as [| v values IH]; intros filtered Hvalues;
    cbn [keepAlive].
  - rewrite filter_nil, app_nil_r. reflexivity.
  - destruct (Hvalues v) as [n Hn]; [left |]. go_run.
    assert (Hrest : forall q, q ∈ values -> is_Some (heap w !! q))
      by (intros q Hq; apply Hvalues; right; exact Hq).
    rewrite filter_cons. rewrite Hn. cbn [fmap option_fmap option_map].
    destruct (decide (Node.status n = StatusAlive)) as [Ha | Ha].
    + rewrite decide_True by congruence. rewrite (IH _ Hrest), <- app_assoc. reflexivity.
    + rewrite decide_False by congruence. apply IH, Hrest.
Qed.

(** X8: [HealthyNodes] lists the registered nodes whose status is Alive.
    In a state whose registry holds valid pointers, [AllNodes] and
    [HealthyNodes] return; what [HealthyNodes] returns is what
    [AllNodes] returns with the nodes that are not Alive left out, in
    the same order; a node is listed by [HealthyNodes] exactly when it is
    registered and Alive (a Dead node, or one without a status, is never
    listed); and neither call writes anything but the count of random
    draws. *)
Theorem HealthyNodes_lists_the_alive (w : World) :
  shufflePermutes ->
  (forall a p, knownNodes w !! a = Some p -> is_Some (heap w !! p)) ->
  exists allNodes healthy : list ptr,
    AllNodes w = Ok allNodes (set_draws (S (draws w)) w) /\
    HealthyNodes w = Ok healthy (set_draws (S (draws w)) w) /\
    healthy = filter (fun p => Node.status <$> heap w !! p = Some StatusAlive) allNodes /\
    (forall p, p ∈ allNodes <-> exists a, knownNodes w !! a = Some p) /\
    (forall p, p ∈ healthy <->
       (exists a, knownNodes w !! a = Some p) /\
       Node.status <$> heap w !! p = Some StatusAlive).
Proof.
  intros Hperm Hknown.
  set (allNodes := shuffle (draws w) ptr (snd <$> map_to_list (knownNodes w))).
  assert (Hall : forall p, p ∈ allNodes <-> exists a, knownNodes w !! a = Some p).
  { intros p. subst allNodes. rewrite (Hperm _ _ _), list_elem_of_fmap. split.
    - intros ([a q] & -> & Hin). exists a. apply elem_of_map_to_list. exact Hin.
    - intros [a Ha]. exists (a, p). split; [reflexivity |].
      apply elem_of_map_to_list. exact Ha. }
  exists allNodes, (filter (fun p => Node.status <$> heap w !! p = Some StatusAlive) allNodes).
  split; [reflexivity |]. split.
  - unfold HealthyNodes, nodeMap_values. go_run. fold allNodes.
    rewrite keepAlive_filters; [reflexivity |].
    intros p Hp. world_simpl. apply Hall in Hp as [a Ha]. exact (Hknown a p Ha).
  - split; [reflexivity |]. split; [exact Hall |].
    intros p. rewrite list_elem_of_filter, Hall. tauto.
Qed.

(** ** The datagram a transmission sends *)

Lemma alter_decremented_field {X : Type} (phi : Node.t -> X) (h : gmap ptr Node.t) (p q : ptr) :
  (forall n, phi (decremented n) = phi n) ->
  phi <$> alter decremented p h !! q = phi <$> h !! q.
Proof.
  intros Hphi. destruct (decide (p = q)) as [-> | Hne].
  - rewrite lookup_alter_eq. destruct (h !! q); cbn; [rewrite Hphi |]; reflexivity.
  - rewrite lookup_alter_ne by assumption. reflexivity.
Qed.

(** The records the attaching loop appends: for each node its status and
    heartbeat; the loop fails only at a 256th record. *)
Lemma attachMembers_records (nodes : list ptr) (msg : message.t) (w : World) :
  (forall p, p ∈ nodes -> is_Some (heap w !! p)) ->
  exists (r : message.t + error) (w' : World),
    attachMembers nodes msg w = Ok r w' /\
    events w' = events w /\
    (forall q, is_Some (heap w !! q) -> is_Some (heap w' !! q)) /\
    (Z.of_nat (length (message.members msg) + length nodes) <= 255 ->
     exists msg', r = inl msg') /\
    (forall msg', r = inl msg' ->
       message.verb msg' = message.verb msg /\
       message.sender msg' = message.sender msg /\
       message.senderHeartbeat msg' = message.senderHeartbeat msg /\
       exists recs : list messageMember.t,
         message.members msg' = message.members msg ++ recs /\
         Forall2 (fun p m =>
                    messageMember.node m = p /\
                    Node.status <$> heap w !! p = Some (messageMember.status m) /\
                    Node.heartbeat <$> heap w !! p = Some (messageMember.heartbeat m))
           nodes recs).
Proof.
  revert msg w. induction nodes as [| p nodes IH]; intros msg w Hnodes; cbn [attachMembers].
  - eexists _, _. split; [reflexivity |]. split; [reflexivity |]. split; [auto |].
    split; [intros _; eexists; reflexivity |].
    intros msg' Heq. injection Heq as <-. repeat split.
    exists []. rewrite app_nil_r. split; [reflexivity | constructor].
  - destruct (Hnodes p) as [n Hn]; [left |]. go_run.
    destruct (message.addMember msg p (Node.status n) (Node.heartbeat n)) as [msg1 |] eqn:Hadd.
    + unfold message.addMember in Hadd.
      destruct (decide (255 <= Z.of_nat (length (message.members msg)))) as [| Hroom];
        [discriminate |].
      injection Hadd as <-.
      destruct (decrementEmitCounter_returns p w) as (w1 & Hdec & Hvalid); [eauto |].
      rewrite (bind_Ok _ _ _ _ _ Hdec). cbv beta.
      pose proof (decrementEmitCounter_heap _ _ _ _ Hdec) as Hheap1.
      assert (Hevents1 : events w1 = events w).
      { apply (keeps_decrementEmitCounter _ events) in Hdec; [exact Hdec |].
        intros; reflexivity. }
      match goal with
      | |- context [attachMembers nodes ?m1 w1] =>
          destruct (IH m1 w1) as (r & w' & Hrun & Hevents & Hvalid' & Hfits & Hrecs)
      end.
      { intros q Hq. apply Hvalid, Hnodes. right; exact Hq. }
      exists r, w'. split; [exact Hrun |]. split; [congruence |]. split; [auto |].
      split.
      * intros Hlen. apply Hfits. cbn [message.members]. rewrite length_app. cbn [length] in *. lia.
      * intros msg' Heq. destruct (Hrecs msg' Heq) as (Hv & Hs & Hh & recs & Hmem & Hall).
        cbn [message.verb message.sender message.senderHeartbeat message.members] in *.
        split; [exact Hv |]. split; [exact Hs |]. split; [exact Hh |].
        exists (messageMember.mk (Node.heartbeat n) p (Node.status n) :: recs).
        split; [rewrite Hmem, <- app_assoc; reflexivity |].
        constructor.
        -- cbn. rewrite Hn. repeat split.
        -- eapply Forall2_impl; [exact Hall |]. cbn. intros q m (Hq & Hst & Hhb).
           rewrite Hheap1 in Hst, Hhb.
           rewrite (alter_decremented_field Node.status) in Hst by reflexivity.
           rewrite (alter_decremented_field Node.heartbeat) in Hhb by reflexivity.
           auto.
    + go_run. eexists _, _. split; [reflexivity |]. split; [reflexivity |]. split; [auto |].
      split; [| intros msg' Heq; discriminate Heq].
      intros Hlen. exfalso. unfold message.addMember in Hadd.
      destruct (decide (255 <= Z.of_nat (length (message.members msg)))); [| discriminate].
      cbn [length] in Hlen. lia.
Qed.

(** The fallback choice: random registered nodes. *)
Lemma knownNodes_getRandomNodes_bounded (size : Z) (exclude : list ptr) (w : World) :
  shuffleWithin ->
  (forall a p, knownNodes w !! a = Some p -> is_Some (heap w !! p)) ->
  (forall x, x ∈ exclude -> is_Some (heap w !! x)) ->
  exists l : list ptr,
    nodeMap_getRandomNodes knownNodes size exclude w = Ok l (set_draws (S (draws w)) w) /\
    (0 < size -> Z.of_nat (length l) <= size) /\
    forall r, r ∈ l ->
      (exists a, knownNodes w !! a = Some r) /\
      exists nr, heap w !! r = Some nr /\
        forall x nx, x ∈ exclude -> heap w !! x = Some nx -> Node.Address nr ≠ Node.Address nx.
Proof.
  intros Hshuffle Hknown Hexclude. unfold nodeMap_getRandomNodes.
  destruct (nodeMap_values_returns knownNodes w Hshuffle) as (allNodes & Hvalues & Hall).
  rewrite (bind_Ok _ _ _ _ _ Hvalues). cbv beta.
  destruct (addresses_returns exclude (set_draws (S (draws w)) w)) as (ads & Hads & Hin);
    [exact Hexclude |].
  rewrite (bind_Ok _ _ _ _ _ Hads). cbv beta.
  destruct (withoutExcluded_returns ads allNodes (set_draws (S (draws w)) w))
    as (filtered & Hfiltered & Hspec).
  { intros p Hp. destruct (Hall p Hp) as [a Ha]. exact (Hknown a p Ha). }
  rewrite (bind_Ok _ _ _ _ _ Hfiltered). cbv beta. go_run.
  eexists. split; [reflexivity |]. split.
  - intros Hsize. destruct (decide (size = 0)); [lia |]. rewrite length_take. lia.
  - intros r Hr.
    assert (Hr' : r ∈ filtered).
    { destruct (decide (size = 0)); [exact Hr |]. eapply subseteq_take; exact Hr. }
    destruct (Hspec r Hr') as (Hrall & nr & Hnr & Hnot).
    split; [apply Hall, Hrall |]. exists nr. split; [exact Hnr |].
    intros x nx Hx Hnx Heq. apply Hnot. rewrite Heq. eapply Hin; eassumption.
Qed.

Lemma sentDatagrams_Log (lvl : LogLevel) (line : LogLine) (es : list Event) :
  sentDatagrams (Log lvl line :: es) = sentDatagrams es.
Proof. reflexivity. Qed.

Lemma sentDatagrams_Datagram (dest : string) (msg : message.t) (es : list Event) :
  sentDatagrams (Datagram dest msg :: es) = (dest, msg) :: sentDatagrams es.
Proof. reflexivity. Qed.

(** A transmission in a well-formed state, with what it sends. *)
Lemma transmitVerbGenericUDP_sends (node : ptr) (forwardTo : option ptr)
    (verb : messageVerb) (code : Z) (w : World) (n : Node.t) :
  shuffleWithin ->
  wellFormed w ->
  0 <= lambdaLogCount (size (knownNodes w)) ->
  heap w !! node = Some n ->
  (forall t, forwardTo = Some t -> is_Some (heap w !! t)) ->
  exists (e : option error) (w' : World),
    transmitVerbGenericUDP node forwardTo verb code w = Ok e w' /\
    (e ≠ None -> sentDatagrams (events w') = sentDatagrams (events w)) /\
    (network (sends w) = mkNet true true true ->
     0 < lambdaLogCount (size (knownNodes w)) <= 254 -> e = None) /\
    (e = None ->
     exists (msg : message.t) (gossip : list messageMember.t),
       sentDatagrams (events w') = (Node.Address n, msg) :: sentDatagrams (events w) /\
       message.verb msg = verb /\
       message.sender msg = thisHost w /\
       message.senderHeartbeat msg = code /\
       message.members msg =
         match forwardTo with
         | Some t => [messageMember.mk code t StatusForwardTo]
         | None => []
         end ++ gossip /\
       (0 < lambdaLogCount (size (knownNodes w)) ->
        Z.of_nat (length gossip) <= lambdaLogCount (size (knownNodes w))) /\
       forall m, m ∈ gossip ->
         exists nm, heap w !! messageMember.node m = Some nm /\
           messageMember.status m = Node.status nm /\
           messageMember.heartbeat m = Node.heartbeat nm /\
           Node.Address nm ≠ Node.Address n /\
           forall self, heap w !! thisHost w = Some self ->
             Node.Address nm ≠ Node.Address self).
Proof.
  intros Hshuffle (Hself & Hknown & Hupdated) Hcount Hn Hfwd.
  destruct Hself as [self Hselfn].
  unfold transmitVerbGenericUDP. go_run.
  destruct (resolveOk (network (sends w))) eqn:Hres; cbn [negb].
  2: { eexists _, _. split; [reflexivity |]. split; [reflexivity |].
       split; [| discriminate]. intros Hnet. rewrite Hnet in Hres. discriminate Hres. }
  destruct (dialOk (network (sends w))) eqn:Hdial; cbn [negb].
  2: { eexists _, _. split; [reflexivity |]. split; [reflexivity |].
       split; [| discriminate]. intros Hnet. rewrite Hnet in Hdial. discriminate Hdial. }
  go_run.
  set (marker := match forwardTo with
                 | Some t => [messageMember.mk code t StatusForwardTo]
                 | None => []
                 end).
  set (msg0 := match forwardTo with
               | Some t => default _ (message.addMember _ t StatusForwardTo code)
               | None => message.newMessage verb (thisHost w) code
               end).
  assert (Hmsg0 : message.verb msg0 = verb /\ message.sender msg0 = thisHost w /\
                  message.senderHeartbeat msg0 = code /\ message.members msg0 = marker).
  { subst msg0 marker. destruct forwardTo; repeat split. }
  assert (Hmarker : (length marker <= 1)%nat).
  { subst marker. destruct forwardTo; cbn; lia. }
  assert (Hmarkerv : forall m, m ∈ marker -> is_Some (heap w !! messageMember.node m)).
  { subst marker. destruct forwardTo as [t |]; [| intros m Hm; inversion Hm].
    intros m Hm. apply list_elem_of_singleton in Hm as ->. cbn. apply Hfwd. reflexivity. }
  clearbody msg0 marker. destruct Hmsg0 as (Hverb0 & Hsender0 & Hcode0 & Hmembers0).
  set (k := lambdaLogCount (size (knownNodes w))) in *.
  set (w0 := set_sends (S (sends w)) w).
  assert (Hexcl : forall x, x ∈ [node; thisHost w] -> is_Some (heap w0 !! x)).
  { intros x Hx. apply elem_of_cons in Hx as [-> | Hx]; [eexists; exact Hn |].
    apply list_elem_of_singleton in Hx as ->. eexists; exact Hselfn. }
  destruct (getRandomUpdatedNodes_selects k [node; thisHost w] w0 Hshuffle Hcount Hupdated Hexcl)
    as (nodes & w1 & counters & Hrun1 & Hheap1 & Hknown1 & _ & Hsent1 & Hlen1 & Hnodes & _).
  rewrite (bind_Ok _ _ _ _ _ Hrun1). cbv beta.
  revert Hheap1 Hknown1 Hsent1 Hnodes. subst w0. world_simpl.
  intros Hheap1 Hknown1 Hsent1 Hnodes.
  (* the nodes to attach, after the fallback *)
  assert (Hchosen : exists (nodes' : list ptr) (w2 : World),
    (if decide (length nodes = 0%nat)
     then count ← pingRequestCount;
          nodeMap_getRandomNodes knownNodes count [node; thisHost w]
     else mret nodes) w1 = Ok nodes' w2 /\
    heap w2 = heap w /\
    events w2 = events w1 /\
    (0 < k -> Z.of_nat (length nodes') <= k) /\
    forall p, p ∈ nodes' ->
      exists np, heap w !! p = Some np /\
        forall x nx, x ∈ [node; thisHost w] -> heap w !! x = Some nx ->
          Node.Address np ≠ Node.Address nx).
  { destruct (decide (length nodes = 0%nat)).
    - go_run. rewrite Hknown1. fold k.
      destruct (knownNodes_getRandomNodes_bounded k [node; thisHost w] w1 Hshuffle)
        as (l & Hl & Hbound & Hspec).
      { intros a p Hp. rewrite Hknown1 in Hp. rewrite Hheap1. exact (Hknown a p Hp). }
      { intros x Hx. rewrite Hheap1. exact (Hexcl x Hx). }
      eexists _, _. split; [exact Hl |]. world_simpl. split; [exact Hheap1 |].
      split; [reflexivity |]. split; [exact Hbound |].
      intros p Hp. destruct (Hspec p Hp) as (_ & nr & Hnr & Hnot).
      rewrite Hheap1 in Hnr, Hnot. exists nr. split; [exact Hnr | exact Hnot].
    - go_run. eexists _, _. split; [reflexivity |]. split; [exact Hheap1 |].
      split; [reflexivity |]. split; [intros _; exact Hlen1 |].
      intros p Hp. destruct (Hnodes p Hp) as (_ & np & Hnp & _ & Hnot).
      exists np. split; [exact Hnp | exact Hnot]. }
  destruct Hchosen as (nodes' & w2 & Hrun2 & Hheap2 & Hevents2 & Hlen2 & Hnodes').
  rewrite (bind_Ok _ _ _ _ _ Hrun2). cbv beta.
  destruct (attachMembers_records nodes' msg0 w2)
    as (r & w3 & Hrun3 & Hevents3 & Hvalid3 & Hfits & Hrecs).
  { intros p Hp. rewrite Hheap2. destruct (Hnodes' p Hp) as (np & Hnp & _). eexists; exact Hnp. }
  rewrite (bind_Ok _ _ _ _ _ Hrun3). cbv beta.
  assert (Hsent3 : sentDatagrams (events w3) = sentDatagrams (events w)).
  { rewrite Hevents3, Hevents2. exact Hsent1. }
  destruct r as [msg |].
  2: { go_run. eexists _, _. split; [reflexivity |]. split; [intros _; exact Hsent3 |].
       split; [| discriminate]. intros _ Hk. exfalso.
       destruct Hfits as [msg' Habs]; [| discriminate Habs].
       rewrite Hmembers0. specialize (Hlen2 ltac:(lia)). lia. }
  destruct (Hrecs msg eq_refl) as (Hverb & Hsender & Hcode & gossip & Hmembers & Hgossip).
  assert (Hgossip' : forall m, m ∈ gossip ->
    exists nm, heap w !! messageMember.node m = Some nm /\
      messageMember.status m = Node.status nm /\
      messageMember.heartbeat m = Node.heartbeat nm /\
      Node.Address nm ≠ Node.Address n /\
      forall self, heap w !! thisHost w = Some self -> Node.Address nm ≠ Node.Address self).
  { intros m Hm. apply list_elem_of_lookup in Hm as [i Hi].
    destruct (Forall2_lookup_r _ _ _ _ _ Hgossip Hi) as (p & Hp & Hnode & Hst & Hhb).
    assert (Hin : p ∈ nodes') by (eapply list_elem_of_lookup_2; exact Hp).
    destruct (Hnodes' p Hin) as (np & Hnp & Hnot).
    rewrite Hheap2, Hnp in Hst, Hhb. cbn in Hst, Hhb.
    exists np. rewrite Hnode. split; [exact Hnp |].
    split; [congruence |]. split; [congruence |].
    split; [apply (Hnot node n); [left | exact Hn] |].
    intros self' Hself'. apply (Hnot (thisHost w) self'); [right; left | exact Hself']. }
  assert (Hlen : 0 < k -> Z.of_nat (length gossip) <= k).
  { intros Hk. rewrite <- (Forall2_length _ _ _ Hgossip). apply Hlen2, Hk. }
  assert (Hvalid : forall m, m ∈ message.members msg ->
            is_Some (heap w3 !! messageMember.node m)).
  { intros m Hm. apply Hvalid3. rewrite Hheap2. rewrite Hmembers, Hmembers0 in Hm.
    apply elem_of_app in Hm as [Hm | Hm]; [apply Hmarkerv, Hm |].
    destruct (Hgossip' m Hm) as (nm & Hnm & _). eexists; exact Hnm. }
  assert (Hfinal : forall (msgB : message.t) (w4 : World),
    message.members msgB = message.members msg ->
    message.verb msgB = message.verb msg ->
    message.sender msgB = message.sender msg ->
    message.senderHeartbeat msgB = message.senderHeartbeat msg ->
    heap w4 = heap w3 -> events w4 = events w3 ->
    exists (e : option error) (w' : World),
      (if negb (writeOk (network (sends w))) then mret (Some ErrWrite)
       else emit (Datagram (Node.Address n) msgB) ;;
            forEach (message.members msgB)
              (fun m => decrementEmitCounter (messageMember.node m)) ;;
            log LTrace (SentTo verb (Node.Address n)) ;;
            mret None) w4 = Ok e w' /\
      (e ≠ None -> sentDatagrams (events w') = sentDatagrams (events w)) /\
      (network (sends w) = mkNet true true true -> 0 < k <= 254 -> e = None) /\
      (e = None ->
       exists (msg : message.t) (gossip : list messageMember.t),
         sentDatagrams (events w') = (Node.Address n, msg) :: sentDatagrams (events w) /\
         message.verb msg = verb /\
         message.sender msg = thisHost w /\
         message.senderHeartbeat msg = code /\
         message.members msg = marker ++ gossip /\
         (0 < k -> Z.of_nat (length gossip) <= k) /\
         forall m, m ∈ gossip ->
           exists nm, heap w !! messageMember.node m = Some nm /\
             messageMember.status m = Node.status nm /\
             messageMember.heartbeat m = Node.heartbeat nm /\
             Node.Address nm ≠ Node.Address n /\
             forall self, heap w !! thisHost w = Some self ->
               Node.Address nm ≠ Node.Address self)).
  { intros msgB w4 HmB HvB HsB HcB Hheap4 Hevents4.
    destruct (writeOk (network (sends w))) eqn:Hwrite; cbn [negb].
    2: { eexists _, _. split; [reflexivity |].
         split; [intros _; rewrite Hevents4; exact Hsent3 |].
         split; [| discriminate]. intros Hnet. rewrite Hnet in Hwrite. discriminate Hwrite. }
    go_run.
    match goal with
    | |- context [(mbind ?kk (forEach ?ms ?body)) ?w5] =>
        destruct (decrementMembers_returns ms w5) as (w6 & Hrun6)
    end.
    { intros m Hm. world_simpl. rewrite Hheap4. apply Hvalid. rewrite <- HmB. exact Hm. }
    rewrite (bind_Ok _ _ _ _ _ Hrun6). cbv beta. go_run.
    destruct (decrementMembers_heap _ _ _ _ Hrun6) as (_ & Hevents6).
    revert Hevents6. world_simpl. intros Hevents6.
    eexists _, _. split; [reflexivity |]. split; [intros Habs; contradiction |].
    split; [reflexivity |]. intros _.
    exists msgB, gossip. world_simpl.
    rewrite sentDatagrams_Log, Hevents6, sentDatagrams_Datagram, Hevents4, Hsent3.
    split; [reflexivity |].
    split; [congruence |]. split; [congruence |]. split; [congruence |].
    split; [congruence |]. split; [exact Hlen | exact Hgossip']. }
  go_run.
  destruct (getBroadcastToEmit (broadcasts w3)) as [[[label b] |] store]; cbn [fst snd].
  - go_run. apply Hfinal; try reflexivity.
    all: destruct (decide (Broadcast.emitCounter b > 0)); reflexivity.
  - go_run. apply Hfinal; reflexivity.
Qed.

(** X9: the datagram of a transmission.  In a well-formed state, a
    transmission to a node returns (it does not panic).  When it returns
    an error no datagram was sent.  When the three socket calls succeed
    and [pingRequestCount()] is between 1 and 254 it returns no error.
    When it returns no error, exactly one datagram was sent, to the
    address of the node; it has the verb and the code asked for and this
    host as its sender; its members are the [StatusForwardTo] marker
    with the code, if a node to forward to was given, followed by the
    gossip; the gossip has at most [pingRequestCount()] records when that
    count is positive; and each record carries the status and the
    heartbeat of its node, which is at another address than the
    destination and than this host. *)
Theorem transmitted_datagram_shape (node : ptr) (forwardTo : option ptr)
    (verb : messageVerb) (code : Z) (w : World) (n : Node.t) :
  shuffleWithin ->
  wellFormed w ->
  0 <= lambdaLogCount (size (knownNodes w)) ->
  heap w !! node = Some n ->
  (forall t, forwardTo = Some t -> is_Some (heap w !! t)) ->
  exists (e : option error) (w' : World),
    transmitVerbGenericUDP node forwardTo verb code w = Ok e w' /\
    (e ≠ None -> sentDatagrams (events w') = sentDatagrams (events w)) /\
    (network (sends w) = mkNet true true true ->
     0 < lambdaLogCount (size (knownNodes w)) <= 254 -> e = None) /\
    (e = None ->
     exists (msg : message.t) (gossip : list messageMember.t),
       sentDatagrams (events w') = (Node.Address n, msg) :: sentDatagrams (events w) /\
       message.verb msg = verb /\
       message.sender msg = thisHost w /\
       message.senderHeartbeat msg = code /\
       message.members msg =
         match forwardTo with
         | Some t => [messageMember.mk code t StatusForwardTo]
         | None => []
         end ++ gossip /\
       (0 < lambdaLogCount (size (knownNodes w)) ->
        Z.of_nat (length gossip) <= lambdaLogCount (size (knownNodes w))) /\
       forall m, m ∈ gossip ->
         exists nm, heap w !! messageMember.node m = Some nm /\
           messageMember.status m = Node.status nm /\
           messageMember.heartbeat m = Node.heartbeat nm /\
           Node.Address nm ≠ Node.Address n /\
           forall self, heap w !! thisHost w = Some self ->
             Node.Address nm ≠ Node.Address self).
Proof. apply transmitVerbGenericUDP_sends. Qed.

(** What a transmission leaves alone: everything but the emit counters,
    the updated set, the broadcasts, the counts of draws and sends, and
    the events. *)
Lemma transmitVerbGenericUDP_frame (node : ptr) (forwardTo : option ptr)
    (verb : messageVerb) (code : Z) (w w' : World) (e : option error) :
  transmitVerbGenericUDP node forwardTo verb code w = Ok e w' ->
  pendingAcks w' = pendingAcks w /\
  currentHeartbeat w' = currentHeartbeat w /\
  knownNodes w' = knownNodes w /\
  thisHost w' = thisHost w /\
  deadNodeRetries w' = deadNodeRetries w /\
  pingdata w' = pingdata w /\
  ticks w' = ticks w /\
  knownNodesModifiedFlag w' = knownNodesModifiedFlag w /\
  runningFlag w' = runningFlag w /\
  (forall q, Node.Address <$> heap w' !! q = Node.Address <$> heap w !! q) /\
  (forall q, Node.status <$> heap w' !! q = Node.status <$> heap w !! q) /\
  (forall q, Node.heartbeat <$> heap w' !! q = Node.heartbeat <$> heap w !! q) /\
  (forall q, Node.pingMillis <$> heap w' !! q = Node.pingMillis <$> heap w !! q) /\
  (forall q, Node.timestamp <$> heap w' !! q = Node.timestamp <$> heap w !! q).
Proof.
  intros H.
  repeat match goal with
  | |- _ /\ _ => split
  | |- forall q : ptr, ?phi <$> _ = _ =>
      intros q;
      apply (keeps_transmitVerbGenericUDP _ (fun w => phi <$> heap w !! q)) in H;
      try (intros; reflexivity);
      [exact H | intros; apply field_spared_by_emitCounter; [reflexivity | assumption]]
  | |- ?f w' = ?f w =>
      apply (keeps_transmitVerbGenericUDP _ f) in H; try (intros; reflexivity); exact H
  end.
Qed.

(** ** Pings and acknowledgements *)

(** [transmitVerbPingUDP]: the entry is registered before anything is
    sent. *)
Lemma transmitVerbPingUDP_registers (node : ptr) (code : Z) (w w' : World)
    (e : option error) (n : Node.t) :
  heap w !! node = Some n ->
  transmitVerbPingUDP node code w = Ok e w' ->
  pendingAcks w' =
    <[pendingAckKey (Node.Address n) code :=
        pendingAck.mk (wrap32 (millis (ticks w))) node None 0 packPing]> (pendingAcks w) /\
  ticks w' = S (ticks w) /\
  currentHeartbeat w' = currentHeartbeat w /\
  pingdata w' = pingdata w /\
  Node.Address <$> heap w' !! node = Some (Node.Address n) /\
  knownNodes w' = knownNodes w /\
  knownNodesModifiedFlag w' = knownNodesModifiedFlag w /\
  runningFlag w' = runningFlag w.
Proof.
  intros Hn. unfold transmitVerbPingUDP. go_run. intros H.
  destruct (transmitVerbGenericUDP_frame _ _ _ _ _ _ _ H)
    as (Hacks & Hhb & Hknown & _ & _ & Hpd & Hticks & Hflag & Hrunning & Haddr & _).
  revert Hacks Hhb Hpd Hticks Hknown Hflag Hrunning. world_simpl.
  intros Hacks Hhb Hpd Hticks Hknown Hflag Hrunning.
  repeat split; try assumption.
  rewrite Haddr. world_simpl. rewrite Hn. reflexivity.
Qed.

(** [PingNode] in a well-formed state. *)
Lemma PingNode_sends (node : ptr) (w : World) (n : Node.t) :
  shuffleWithin ->
  wellFormed w ->
  0 <= lambdaLogCount (size (knownNodes w)) ->
  heap w !! node = Some n ->
  exists (e : option error) (w' : World),
    PingNode node w = Ok e w' /\
    pendingAcks w' =
      <[pendingAckKey (Node.Address n) (currentHeartbeat w) :=
          pendingAck.mk (wrap32 (millis (ticks w))) node None 0 packPing]> (pendingAcks w) /\
    currentHeartbeat w' = currentHeartbeat w /\
    (e ≠ None ->
     sentDatagrams (events w') = sentDatagrams (events w) /\
     head (events w') = Some (Log LInfo (FailureToPing (Node.Address n)))) /\
    (e = None ->
     exists msg : message.t,
       sentDatagrams (events w') = (Node.Address n, msg) :: sentDatagrams (events w) /\
       message.verb msg = verbPing /\
       message.sender msg = thisHost w /\
       message.senderHeartbeat msg = currentHeartbeat w).
Proof.
  intros Hshuffle Hwf Hcount Hn. unfold PingNode. go_run.
  assert (Hping : exists (e : option error) (w1 : World),
    transmitVerbPingUDP node (currentHeartbeat w) w = Ok e w1 /\
    (e ≠ None -> sentDatagrams (events w1) = sentDatagrams (events w)) /\
    (e = None ->
     exists msg : message.t,
       sentDatagrams (events w1) = (Node.Address n, msg) :: sentDatagrams (events w) /\
       message.verb msg = verbPing /\
       message.sender msg = thisHost w /\
       message.senderHeartbeat msg = currentHeartbeat w)).
  { unfold transmitVerbPingUDP. go_run.
    match goal with
    | |- context [transmitVerbGenericUDP node None verbPing ?c ?w0] =>
        destruct (transmitVerbGenericUDP_sends node None verbPing c w0 n Hshuffle)
          as (e & w1 & Hrun & Hfail & _ & Hsent)
    end.
    - apply (wellFormed_ext w); auto.
    - exact Hcount.
    - exact Hn.
    - discriminate.
    - exists e, w1. split; [exact Hrun |]. split; [exact Hfail |].
      intros He. destruct (Hsent He) as (msg & gossip & Hd & Hv & Hs & Hc & _).
      exists msg. auto. }
  destruct Hping as (e & w1 & Hrun & Hfail & Hsent).
  destruct (transmitVerbPingUDP_registers _ _ _ _ _ _ Hn Hrun)
    as (Hacks & _ & Hhb & _ & Haddr & _).
  rewrite (bind_Ok _ _ _ _ _ Hrun). cbv beta.
  destruct (heap w1 !! node) as [n1 |] eqn:Hn1; [| discriminate Haddr].
  injection Haddr as Haddr. go_run. rewrite Haddr.
  destruct e as [err |].
  - rewrite bool_decide_true by discriminate. cbn [when]. go_run.
    eexists _, _. split; [reflexivity |]. world_simpl.
    split; [exact Hacks |]. split; [exact Hhb |]. split; [| discriminate].
    intros _. split; [| reflexivity]. rewrite sentDatagrams_Log. apply Hfail. discriminate.
  - rewrite bool_decide_false by (intros Habs; apply Habs; reflexivity). cbn [when]. go_run.
    eexists _, _. split; [reflexivity |].
    split; [exact Hacks |]. split; [exact Hhb |]. split; [intros Habs; contradiction |].
    intros _. apply Hsent. reflexivity.
Qed.

(** X10: [PingNode] registers the pending acknowledgement before it
    sends, and keeps it when the sending fails.  In a well-formed state
    the call returns; whatever it returns, the pending-ack table has
    gained (or had overwritten) the entry of kind Ping for the node
    under the key (address, current heartbeat), with the time of the
    clock as its start and no callback.  If it returns an error, no
    datagram was sent and the failure is logged; if it returns none,
    exactly one datagram was sent, a Ping to the address of the node
    whose code is the current heartbeat. *)
Theorem PingNode_registers_then_sends (node : ptr) (w : World) (n : Node.t) :
  shuffleWithin ->
  wellFormed w ->
  0 <= lambdaLogCount (size (knownNodes w)) ->
  heap w !! node = Some n ->
  exists (e : option error) (w' : World),
    PingNode node w = Ok e w' /\
    pendingAcks w' =
      <[pendingAckKey (Node.Address n) (currentHeartbeat w) :=
          pendingAck.mk (wrap32 (millis (ticks w))) node None 0 packPing]> (pendingAcks w) /\
    currentHeartbeat w' = currentHeartbeat w /\
    (e ≠ None ->
     sentDatagrams (events w') = sentDatagrams (events w) /\
     head (events w') = Some (Log LInfo (FailureToPing (Node.Address n)))) /\
    (e = None ->
     exists msg : message.t,
       sentDatagrams (events w') = (Node.Address n, msg) :: sentDatagrams (events w) /\
       message.verb msg = verbPing /\
       message.sender msg = thisHost w /\
       message.senderHeartbeat msg = currentHeartbeat w).
Proof. apply PingNode_sends. Qed.

(** An acknowledgement whose entry is pending: the entry is removed; a
    direct ping has its response time noted, a relayed one is answered
    to the node that asked. *)
Lemma receiveVerbAckUDP_pending (w : World) (msg : message.t) (n : Node.t)
    (pack : pendingAck.t) :
  heap w !! message.sender msg = Some n ->
  pendingAcks w !! pendingAckKey (Node.Address n) (message.senderHeartbeat msg) = Some pack ->
  (pendingAck.callback pack = None -> is_Some (heap w !! pendingAck.node pack)) ->
  exists w' : World,
    receiveVerbAckUDP msg w = Ok None w' /\
    pendingAcks w' =
      delete (pendingAckKey (Node.Address n) (message.senderHeartbeat msg)) (pendingAcks w) /\
    Node.timestamp <$> heap w' !! message.sender msg = Some (wrap32 (millis (ticks w))) /\
    (forall q, Node.status <$> heap w' !! q = Node.status <$> heap w !! q) /\
    sentDatagrams (events w') = sentDatagrams (events w) /\
    match pendingAck.callback pack with
    | Some callback =>
        events w' = Spawn (GoTransmitVerbAckUDP callback (pendingAck.callbackCode pack))
                      :: events w /\
        pingdata w' = pingdata w /\
        (forall q, Node.pingMillis <$> heap w' !! q = Node.pingMillis <$> heap w !! q)
    | None =>
        let rtt := wrap32 (wrap32 (millis (S (ticks w))) - pendingAck.startTime pack) in
        Node.pingMillis <$> heap w' !! pendingAck.node pack = Some rtt /\
        pingdata w' = pingData_add (Z.max 10 rtt) (pingdata w) /\
        forall g : Goroutine, Spawn g ∈ events w' -> Spawn g ∈ events w
    end.
Proof.
  intros Hn Hkey Hnode. unfold receiveVerbAckUDP. go_run. rewrite Hkey.
  destruct (decide (is_Some (Some pack))) as [_ | Habs]; [| exfalso; apply Habs; eauto].
  go_run. rewrite Hkey. destruct (pendingAck.callback pack) as [callback |] eqn:Hcb.
  - go_run. eexists. split; [reflexivity |]. world_proj.
    rewrite lookup_insert_eq. repeat split.
    + intros q. destruct (decide (q = message.sender msg)) as [-> | Hne];
        [rewrite lookup_insert_eq, Hn | rewrite lookup_insert_ne by congruence]; reflexivity.
    + intros q. destruct (decide (q = message.sender msg)) as [-> | Hne];
        [rewrite lookup_insert_eq, Hn | rewrite lookup_insert_ne by congruence]; reflexivity.
  - destruct (Hnode eq_refl) as [nt Hnt]. unfold notePingResponseTime. go_run.
    set (touched := Node.with_timestamp (wrap32 (millis (ticks w))) n).
    set (nt' := if decide (pendingAck.node pack = message.sender msg) then touched else nt).
    assert (Hnt' : <[message.sender msg := touched]> (heap w) !! pendingAck.node pack
                   = Some nt').
    { subst nt'. destruct (decide (pendingAck.node pack = message.sender msg)) as [Heq | Hne].
      - rewrite Heq, lookup_insert_eq. reflexivity.
      - rewrite lookup_insert_ne by congruence. exact Hnt. }
    assert (Hst' : Node.status nt' = Node.status nt).
    { subst nt'. destruct (decide (pendingAck.node pack = message.sender msg)) as [Heq | Hne];
        [| reflexivity].
      rewrite Heq, Hn in Hnt. injection Hnt as <-. reflexivity. }
    assert (Hts' : pendingAck.node pack = message.sender msg ->
                   Node.timestamp nt' = wrap32 (millis (ticks w))).
    { intros Heq. subst nt'. rewrite decide_True by exact Heq. reflexivity. }
    clearbody nt'.
    go_run. eexists. split; [reflexivity |]. world_proj.
    split; [reflexivity |]. split.
    { destruct (decide (pendingAck.node pack = message.sender msg)) as [Heq | Hne].
      - rewrite <- Heq, lookup_insert_eq. cbn. rewrite (Hts' Heq). reflexivity.
      - rewrite lookup_insert_ne by congruence. rewrite lookup_insert_eq. reflexivity. }
    split.
    { intros q. destruct (decide (q = pendingAck.node pack)) as [-> | Hne1].
      - rewrite lookup_insert_eq. cbn. rewrite Hst', Hnt. reflexivity.
      - rewrite lookup_insert_ne by congruence.
        destruct (decide (q = message.sender msg)) as [-> | Hne2];
          [rewrite lookup_insert_eq, Hn | rewrite lookup_insert_ne by congruence]; reflexivity. }
    split; [reflexivity |].
    split; [rewrite lookup_insert_eq; reflexivity |].
    split.
    { f_equal. destruct (decide (_ < 10)); lia. }
    intros g Hg. apply elem_of_cons in Hg as [Hg | Hg]; [discriminate Hg | exact Hg].
Qed.

(** X11: an Ack whose entry is pending resolves it.  The sender's
    timestamp is refreshed, the entry is removed from the pending-ack
    table, no status changes and no datagram is sent by the handler
    itself.  If the entry has a callback (the ping was made on behalf of
    another node), the only other effect is that a goroutine is started
    that transmits an Ack with the callback code to the callback node;
    the RTT estimator and the ping times are left alone.  If it has none
    (a direct ping), the elapsed time since the entry's start is stored
    as the ping time of the entry's node, the estimator is fed that time
    raised to 10 ms when it is below, and nothing is started. *)
Theorem receiveVerbAckUDP_resolves_entry (w : World) (msg : message.t) (n : Node.t)
    (pack : pendingAck.t) :
  heap w !! message.sender msg = Some n ->
  pendingAcks w !! pendingAckKey (Node.Address n) (message.senderHeartbeat msg) = Some pack ->
  (pendingAck.callback pack = None -> is_Some (heap w !! pendingAck.node pack)) ->
  exists w' : World,
    receiveVerbAckUDP msg w = Ok None w' /\
    pendingAcks w' =
      delete (pendingAckKey (Node.Address n) (message.senderHeartbeat msg)) (pendingAcks w) /\
    Node.timestamp <$> heap w' !! message.sender msg = Some (wrap32 (millis (ticks w))) /\
    (forall q, Node.status <$> heap w' !! q = Node.status <$> heap w !! q) /\
    sentDatagrams (events w') = sentDatagrams (events w) /\
    match pendingAck.callback pack with
    | Some callback =>
        events w' = Spawn (GoTransmitVerbAckUDP callback (pendingAck.callbackCode pack))
                      :: events w /\
        pingdata w' = pingdata w /\
        (forall q, Node.pingMillis <$> heap w' !! q = Node.pingMillis <$> heap w !! q)
    | None =>
        let rtt := wrap32 (wrap32 (millis (S (ticks w))) - pendingAck.startTime pack) in
        Node.pingMillis <$> heap w' !! pendingAck.node pack = Some rtt /\
        pingdata w' = pingData_add (Z.max 10 rtt) (pingdata w) /\
        forall g : Goroutine, Spawn g ∈ events w' -> Spawn g ∈ events w
    end.
Proof. apply receiveVerbAckUDP_pending. Qed.

Lemma PingNode_registers (node : ptr) (w w1 : World) (e : option error) (n : Node.t) :
  heap w !! node = Some n ->
  PingNode node w = Ok e w1 ->
  pendingAcks w1 =
    <[pendingAckKey (Node.Address n) (currentHeartbeat w) :=
        pendingAck.mk (wrap32 (millis (ticks w))) node None 0 packPing]> (pendingAcks w) /\
  ticks w1 = S (ticks w) /\
  currentHeartbeat w1 = currentHeartbeat w /\
  pingdata w1 = pingdata w /\
  Node.Address <$> heap w1 !! node = Some (Node.Address n) /\
  knownNodes w1 = knownNodes w /\
  knownNodesModifiedFlag w1 = knownNodesModifiedFlag w /\
  runningFlag w1 = runningFlag w.
Proof.
  intros Hn. unfold PingNode. go_run. go_call Hping.
  destruct (transmitVerbPingUDP_registers _ _ _ _ _ _ Hn Hping)
    as (Hacks & Hticks & Hhb & Hpd & Haddr & Hknown & Hflag & Hrunning).
  destruct (heap w0 !! node) as [n1 |] eqn:Hn1; [| discriminate Haddr].
  go_run. unfold when. destruct (bool_decide (a ≠ None)); go_run;
    intros H; injection H as _ <-; world_simpl; rewrite ?Hn1; auto 10.
Qed.

(** X12: a ping and its acknowledgement.  After [PingNode] of a node at
    the current heartbeat [h], whether or not the datagram could be
    sent, an Ack from that node with sender heartbeat [h] is accepted:
    the handler returns no error, the pending-ack table is then what it
    was before the ping, without the key (address, [h]); the ping time
    of the node is the time elapsed between the clock reading of the
    ping and that of the handler, in uint32 arithmetic; and the RTT
    estimator has been fed that time, or 10 when it is less. *)
Theorem ping_then_ack_round_trip
    (node : ptr) (w w1 : World) (e : option error) (n : Node.t) (msg : message.t) :
  heap w !! node = Some n ->
  PingNode node w = Ok e w1 ->
  message.sender msg = node ->
  message.senderHeartbeat msg = currentHeartbeat w ->
  exists w2 : World,
    receiveVerbAckUDP msg w1 = Ok None w2 /\
    pendingAcks w2 =
      delete (pendingAckKey (Node.Address n) (currentHeartbeat w)) (pendingAcks w) /\
    let rtt := wrap32 (wrap32 (millis (S (S (ticks w)))) - wrap32 (millis (ticks w))) in
    Node.pingMillis <$> heap w2 !! node = Some rtt /\
    pingdata w2 = pingData_add (Z.max 10 rtt) (pingdata w).
Proof.
  intros Hn Hping Hsender Hcode.
  destruct (PingNode_registers _ _ _ _ _ Hn Hping) as (Hacks & Hticks & _ & Hpd & Haddr & _).
  destruct (heap w1 !! node) as [n1 |] eqn:Hn1; [| discriminate Haddr].
  injection Haddr as Haddr.
  destruct (receiveVerbAckUDP_pending w1 msg n1
              (pendingAck.mk (wrap32 (millis (ticks w))) node None 0 packPing))
    as (w2 & Hrun & Hacks2 & _ & _ & _ & Hrtt & Hpd2 & _).
  - rewrite Hsender. exact Hn1.
  - rewrite Hacks, Haddr, Hcode. apply lookup_insert_eq.
  - intros _. cbn. rewrite Hn1. eauto.
  - exists w2. split; [exact Hrun |]. cbn in Hrtt, Hpd2.
    rewrite Hticks in Hrtt, Hpd2. rewrite Hpd in Hpd2.
    split; [| split; assumption].
    rewrite Hacks2, Hacks, Haddr, Hcode. apply delete_insert_eq.
Qed.

(** A PingRequest whose first member is the forward marker. *)
Lemma receiveVerbForwardUDP_marker (w : World) (msg : message.t) (m : messageMember.t)
    (rest : list messageMember.t) (nt : Node.t) :
  shuffleWithin ->
  wellFormed w ->
  0 <= lambdaLogCount (size (knownNodes w)) ->
  message.members msg = m :: rest ->
  messageMember.status m = StatusForwardTo ->
  heap w !! messageMember.node m = Some nt ->
  exists (e : option error) (w' : World),
    receiveVerbForwardUDP msg w = Ok e w' /\
    pendingAcks w' =
      <[pendingAckKey (Node.Address nt) (messageMember.heartbeat m) :=
          pendingAck.mk (wrap32 (millis (ticks w))) (messageMember.node m)
            (Some (message.sender msg)) (messageMember.heartbeat m) packNFP]>
        (pendingAcks w) /\
    ticks w' = S (ticks w) /\
    (forall q, Node.Address <$> heap w' !! q = Node.Address <$> heap w !! q) /\
    (e ≠ None -> sentDatagrams (events w') = sentDatagrams (events w)) /\
    (e = None ->
     exists pingMsg : message.t,
       sentDatagrams (events w') = (Node.Address nt, pingMsg) :: sentDatagrams (events w) /\
       message.verb pingMsg = verbNonForwardingPing /\
       message.sender pingMsg = thisHost w /\
       message.senderHeartbeat pingMsg = messageMember.heartbeat m).
Proof.
  intros Hshuffle Hwf Hcount Hmembers Hmarker Hnt. unfold receiveVerbForwardUDP.
  destruct (decide (Z.of_nat (length (message.members msg)) >= 0)) as [_ | ?]; [| lia].
  rewrite Hmembers. cbn [lookup list_lookup].
  destruct (decide (messageMember.status m = StatusForwardTo)) as [_ | ?]; [| contradiction].
  go_run.
  match goal with
  | |- context [transmitVerbGenericUDP ?t None verbNonForwardingPing ?c ?w0] =>
      destruct (transmitVerbGenericUDP_sends t None verbNonForwardingPing c w0 nt Hshuffle)
        as (e & w1 & Hrun & Hfail & _ & Hsent)
  end.
  - apply (wellFormed_ext w); auto.
  - exact Hcount.
  - exact Hnt.
  - discriminate.
  - exists e, w1. split; [exact Hrun |].
    destruct (transmitVerbGenericUDP_frame _ _ _ _ _ _ _ Hrun)
      as (Hacks & _ & _ & _ & _ & _ & Hticks & _ & _ & Haddr & _).
    split; [exact Hacks |]. split; [exact Hticks |]. split; [exact Haddr |].
    split; [exact Hfail |].
    intros He. destruct (Hsent He) as (pingMsg & gossip & Hd & Hv & Hs & Hc & _).
    exists pingMsg. auto.
Qed.

(** X13: relaying an indirect ping.  A PingRequest whose first member
    is not the forward marker is ignored: the handler returns no error
    and leaves the state as it was.  For a PingRequest whose first
    member is the marker of a target node with code [c], in a
    well-formed state: the handler returns; an entry of kind NFP is
    pending under the key (address of the target, [c]) with the
    requester as its callback and [c] as its callback code; unless the
    sending failed, exactly one datagram was sent, a NonForwardingPing
    to the address of the target with code [c].  And when the target
    then acknowledges with sender heartbeat [c], the Ack handler starts
    the transmission of an Ack with code [c] to the requester and
    removes the entry. *)
Theorem PingRequest_relayed (w : World) (msg : message.t) (m : messageMember.t)
    (rest : list messageMember.t) (nt : Node.t) :
  shuffleWithin ->
  wellFormed w ->
  0 <= lambdaLogCount (size (knownNodes w)) ->
  message.members msg = m :: rest ->
  heap w !! messageMember.node m = Some nt ->
  (messageMember.status m ≠ StatusForwardTo -> receiveVerbForwardUDP msg w = Ok None w) /\
  (messageMember.status m = StatusForwardTo ->
   exists (e : option error) (w' : World),
     receiveVerbForwardUDP msg w = Ok e w' /\
     pendingAcks w' =
       <[pendingAckKey (Node.Address nt) (messageMember.heartbeat m) :=
           pendingAck.mk (wrap32 (millis (ticks w))) (messageMember.node m)
             (Some (message.sender msg)) (messageMember.heartbeat m) packNFP]>
         (pendingAcks w) /\
     (e ≠ None -> sentDatagrams (events w') = sentDatagrams (events w)) /\
     (e = None ->
      exists pingMsg : message.t,
        sentDatagrams (events w') = (Node.Address nt, pingMsg) :: sentDatagrams (events w) /\
        message.verb pingMsg = verbNonForwardingPing /\
        message.sender pingMsg = thisHost w /\
        message.senderHeartbeat pingMsg = messageMember.heartbeat m) /\
     forall ack : message.t,
       message.sender ack = messageMember.node m ->
       message.senderHeartbeat ack = messageMember.heartbeat m ->
       exists w'' : World,
         receiveVerbAckUDP ack w' = Ok None w'' /\
         events w'' =
           Spawn (GoTransmitVerbAckUDP (message.sender msg) (messageMember.heartbeat m))
             :: events w' /\
         pendingAcks w'' =
           delete (pendingAckKey (Node.Address nt) (messageMember.heartbeat m))
             (pendingAcks w)).
Proof.
  intros Hshuffle Hwf Hcount Hmembers Hnt. split.
  - intros Hother. unfold receiveVerbForwardUDP.
    destruct (decide (Z.of_nat (length (message.members msg)) >= 0)) as [_ | ?]; [| lia].
    rewrite Hmembers. cbn [lookup list_lookup].
    destruct (decide (messageMember.status m = StatusForwardTo)); [contradiction | reflexivity].
  - intros Hmarker.
    destruct (receiveVerbForwardUDP_marker w msg m rest nt Hshuffle Hwf Hcount Hmembers
                Hmarker Hnt)
      as (e & w' & Hrun & Hacks & _ & Haddr & Hfail & Hsent).
    exists e, w'. split; [exact Hrun |]. split; [exact Hacks |].
    split; [exact Hfail |]. split; [exact Hsent |].
    intros ack Hsender Hcode.
    pose proof (Haddr (messageMember.node m)) as Ha. rewrite Hnt in Ha.
    destruct (heap w' !! messageMember.node m) as [nt' |] eqn:Hnt'; [| discriminate Ha].
    injection Ha as Ha.
    destruct (receiveVerbAckUDP_pending w' ack nt'
                (pendingAck.mk (wrap32 (millis (ticks w))) (messageMember.node m)
                   (Some (message.sender msg)) (messageMember.heartbeat m) packNFP))
      as (w'' & Hrun2 & Hacks2 & _ & _ & _ & Hspawn & _).
    + rewrite Hsender. exact Hnt'.
    + rewrite Hacks, Ha, Hcode. apply lookup_insert_eq.
    + discriminate.
    + exists w''. split; [exact Hrun2 |]. split; [exact Hspawn |].
      rewrite Hacks2, Hacks, Ha, Hcode. apply delete_insert_eq.
Qed.

(** ** The rounds of the failure detector *)

(** X14: the probe of a live node.  With the running flag set, in a
    well-formed state, the visit of a node that is not Dead returns and
    counts as a ping: the current heartbeat is advanced by one (in
    uint32 arithmetic, so it wraps to 0 after 2^32 - 1), a Ping entry
    for the node is pending under the key (address, new heartbeat), the
    detector then sleeps one heartbeat period, and the registry is as
    before.  If the modified flag was set the flag is cleared and the
    round is left ([break]); otherwise the round goes on. *)
Theorem visitNode_probes_live_node (node : ptr) (w : World) (n : Node.t) :
  shuffleWithin ->
  wellFormed w ->
  0 <= lambdaLogCount (size (knownNodes w)) ->
  heap w !! node = Some n ->
  runningFlag w = true ->
  Node.status n ≠ StatusDead ->
  exists (f : flow) (w' : World),
    visitNode node w = Ok (f, true) w' /\
    currentHeartbeat w' = wrap32 (currentHeartbeat w + 1) /\
    pendingAcks w' =
      <[pendingAckKey (Node.Address n) (wrap32 (currentHeartbeat w + 1)) :=
          pendingAck.mk (wrap32 (millis (ticks w))) node None 0 packPing]> (pendingAcks w) /\
    head (events w') = Some (Sleep heartbeatMillis) /\
    knownNodes w' = knownNodes w /\
    knownNodesModifiedFlag w' = false /\
    f = (if knownNodesModifiedFlag w then Break else Fallthrough).
Proof.
  intros Hshuffle Hwf Hcount Hn Hrunning Hlive. unfold visitNode. go_run.
  rewrite Hrunning. cbn [negb]. go_run.
  destruct (decide (Node.status n = StatusDead)); [contradiction |]. go_run.
  destruct (decide (Fallthrough = Continue)); [discriminate |]. go_run.
  match goal with
  | |- context [(mbind ?k (PingNode node)) ?w0] =>
      destruct (PingNode_sends node w0 n Hshuffle) as (e & w1 & Hping & _);
        [apply (wellFormed_ext w); auto | exact Hcount | exact Hn |];
      destruct (PingNode_registers node w0 w1 e n Hn Hping)
        as (Hacks & _ & Hhb & _ & _ & Hknown & Hflag & _);
      rewrite (bind_Ok _ k w0 _ _ Hping)
  end.
  cbv beta. revert Hacks Hhb Hknown Hflag. world_simpl. intros Hacks Hhb Hknown Hflag.
  unfold sleepHeartbeat. go_run. rewrite Hflag.
  destruct (knownNodesModifiedFlag w); go_run; eexists _, _; (split; [reflexivity |]);
    world_simpl; rewrite ?Hflag; auto 10.
Qed.

(** With the running flag unset the inner loop of [Begin] leaves at
    once. *)
Lemma visitNodes_stopped (nodes : list ptr) (pingCounter : Z) (w : World) :
  runningFlag w = false -> visitNodes nodes pingCounter w = Ok pingCounter w.
Proof.
  intros Hstop. destruct nodes as [| node rest]; cbn [visitNodes]; [reflexivity |].
  unfold visitNode. go_run. rewrite Hstop. cbn [negb]. go_run.
  destruct (decide (Break = Break)); [reflexivity | contradiction].
Qed.

(** X15: the rounds in which the failure detector pings nobody.  In a
    well-formed state, a round that finds the running flag unset (after
    [Stop]) draws its random list and leaves the loop of [Begin]: it
    pings no node, advances no heartbeat, sleeps not at all, and writes
    nothing but the count of random draws.  And a round with the flag
    set in which every registered node is at the address of this host
    pings nobody either, sleeps one heartbeat period and goes on to the
    next round. *)
Theorem beginRound_without_probe (w : World) :
  shuffleWithin ->
  wellFormed w ->
  (runningFlag w = false -> beginRound w = Ok false (set_draws (S (draws w)) w)) /\
  (runningFlag w = true ->
   (forall a p self ns, knownNodes w !! a = Some p -> heap w !! thisHost w = Some self ->
      heap w !! p = Some ns -> Node.Address ns = Node.Address self) ->
   beginRound w =
     Ok true (set_events (cons (Sleep heartbeatMillis)) (set_draws (S (draws w)) w))).
Proof.
  intros Hshuffle (Hself & Hknown & _).
  destruct (knownNodes_getRandomNodes_returns 0 [thisHost w] w Hshuffle Hknown)
    as (l & Hl & Hspec).
  { intros x Hx. apply list_elem_of_singleton in Hx as ->. exact Hself. }
  split.
  - intros Hstop. unfold beginRound. go_run. rewrite (bind_Ok _ _ _ _ _ Hl). cbv beta.
    rewrite (bind_Ok _ _ _ _ _
               (visitNodes_stopped l 0 (set_draws (S (draws w)) w) Hstop)). cbv beta.
    go_run. rewrite Hstop. reflexivity.
  - intros Hrunning Halone. destruct Hself as [self Hselfn].
    assert (l = []) as ->.
    { destruct l as [| r l]; [reflexivity |]. exfalso.
      destruct (Hspec r) as ((a & Ha) & nr & Hnr & Hnot); [left |].
      apply (Hnot (thisHost w) self); [left | exact Hselfn |].
      eapply Halone; eassumption. }
    unfold beginRound. go_run. rewrite (bind_Ok _ _ _ _ _ Hl). cbv beta.
    cbn [visitNodes]. go_run. rewrite Hrunning. reflexivity.
Qed.

(** ** The sweep of the timeout checker *)

(** An entry that has not timed out costs a reading of the clock. *)
Lemma timeoutCheckEntry_fresh (w : World) (k : string) (pack : pendingAck.t) :
  ¬ wrap32 (wrap32 (millis (ticks w)) - pendingAck.startTime pack)
      > timeoutMillisOf (pingdata w) (pendingAck.packType pack) ->
  timeoutCheckEntry k pack w = Ok tt (set_ticks (S (ticks w)) w).
Proof.
  intros Hfresh. unfold timeoutCheckEntry. go_run.
  destruct (decide (_ > _)); [contradiction | reflexivity].
Qed.

Lemma timeoutCheck_fresh_entries (entries : list (string * pendingAck.t)) (w : World) :
  (forall (i : nat) e, entries !! i = Some e ->
     ¬ wrap32 (wrap32 (millis (ticks w + i)) - pendingAck.startTime (snd e))
         > timeoutMillisOf (pingdata w) (pendingAck.packType (snd e))) ->
  forEach entries (fun e => timeoutCheckEntry (fst e) (snd e)) w
    = Ok tt (set_ticks (ticks w + length entries) w).
Proof.
  revert w. induction entries as [| e entries IH]; intros w Hfresh; cbn [forEach].
  - cbn [length]. rewrite Nat.add_0_r. destruct w; reflexivity.
  - assert (Hhead : ¬ wrap32 (wrap32 (millis (ticks w)) - pendingAck.startTime (snd e))
                      > timeoutMillisOf (pingdata w) (pendingAck.packType (snd e))).
    { pose proof (Hfresh 0%nat e eq_refl) as H0. rewrite Nat.add_0_r in H0. exact H0. }
    rewrite (bind_Ok _ _ _ _ _ (timeoutCheckEntry_fresh w (fst e) (snd e) Hhead)).
    cbv beta. rewrite IH.
    + f_equal. apply World_ext; world_simpl; try reflexivity. cbn [length]. lia.
    + intros i e' He'. world_simpl.
      replace (S (ticks w) + i)%nat with (ticks w + S i)%nat by lia.
      apply Hfresh. exact He'.
Qed.

(** X16: a sweep of the timeout checker in which nothing has timed out.
    The sweep reads the clock once for each entry, in the order the
    iteration of the table takes.  If no entry exceeds its deadline at
    the reading taken for it (the entry visited at position [i] is read
    at the reading [ticks w + i]), the sweep returns having changed
    nothing but the number of clock readings, which has grown by the
    number of entries: the table, the nodes, the registry and the
    updated set are as before, no goroutine was started and nothing was
    logged; the checker then sleeps 100 ms. *)
Theorem timeoutCheckSweep_spares_fresh_entries (w : World) :
  (forall (i : nat) (k : string) (pack : pendingAck.t),
     shuffle (draws w) _ (map_to_list (pendingAcks w)) !! i = Some (k, pack) ->
     ¬ wrap32 (wrap32 (millis (ticks w + i)) - pendingAck.startTime pack)
         > timeoutMillisOf (pingdata w) (pendingAck.packType pack)) ->
  exists w' : World,
    timeoutCheckSweep w = Ok tt w' /\
    pendingAcks w' = pendingAcks w /\
    heap w' = heap w /\
    knownNodes w' = knownNodes w /\
    updatedNodes w' = updatedNodes w /\
    ticks w' =
      (ticks w + length (shuffle (draws w) _ (map_to_list (pendingAcks w))))%nat /\
    events w' = Sleep 100 :: events w.
Proof.
  intros Hfresh. unfold timeoutCheckSweep. go_run.
  erewrite (bind_Ok (forEach _ _)).
  2: { apply timeoutCheck_fresh_entries.
       intros i [k pack] He. world_simpl. cbn [fst snd]. exact (Hfresh i k pack He). }
  cbv beta. go_run. eexists. split; [reflexivity |]. repeat split.
Qed.

(** ** The merge of a message returns *)

Lemma updateNodeStatus_step (w : World) (p : ptr) (n : Node.t) (s : NodeStatus) (h : Z) :
  heap w !! p = Some n ->
  exists w' : World,
    updateNodeStatus p s h w = Ok tt w' /\
    Node.status <$> heap w' !! p = Some s /\
    (forall q, q ≠ p -> heap w' !! q = heap w !! q) /\
    (forall q, Node.Address <$> heap w' !! q = Node.Address <$> heap w !! q) /\
    knownNodes w' = knownNodes w /\
    thisHost w' = thisHost w /\
    (forall a r, updatedNodes w' !! a = Some r -> updatedNodes w !! a = Some r \/ r = p).
Proof.
  intros Hp. destruct (decide (Node.status n = s)) as [<- | Hs].
  - exists w. split; [apply updateNodeStatus_same, Hp |]. rewrite Hp. repeat split; auto.
  - eexists. split; [apply updateNodeStatus_changed; eassumption |]. world_proj.
    rewrite lookup_insert_eq. repeat split.
    + intros q Hq. apply lookup_insert_ne. congruence.
    + intros q. destruct (decide (q = p)) as [-> | Hne];
        [rewrite lookup_insert_eq, Hp | rewrite lookup_insert_ne by congruence]; reflexivity.
    + intros a r. destruct (bool_decide (is_Some (updatedNodes w !! Node.Address n)));
        [auto |].
      intros Hr. apply lookup_insert_Some in Hr as [[_ <-] | [_ Hr]]; auto.
Qed.

Lemma AddNode_step (w : World) (p : ptr) (n : Node.t) :
  heap w !! p = Some n ->
  Node.status n ≠ StatusForwardTo ->
  exists w' : World,
    AddNode p w = Ok p w' /\
    Node.status <$> heap w' !! p ≠ Some StatusForwardTo /\
    (forall q, q ≠ p -> heap w' !! q = heap w !! q) /\
    (forall q, Node.Address <$> heap w' !! q = Node.Address <$> heap w !! q) /\
    (forall a r, knownNodes w !! a = Some r -> knownNodes w' !! a = Some r) /\
    (forall a r, knownNodes w' !! a = Some r -> knownNodes w !! a = Some r \/ r = p) /\
    is_Some (knownNodes w' !! Node.Address n) /\
    thisHost w' = thisHost w /\
    (forall a r, updatedNodes w' !! a = Some r -> updatedNodes w !! a = Some r \/ r = p).
Proof.
  intros Hp Hfwd. destruct (knownNodes w !! Node.Address n) as [r0 |] eqn:Hk.
  - exists w. split; [apply (AddNode_known w p n Hp); eauto |]. rewrite Hp, Hk.
    repeat split; eauto. cbn. congruence.
  - destruct (AddNode_adds w p n Hp Hk Hfwd)
      as (w' & n' & Hrun & Hn' & Ha' & Hs' & _ & Hk' & _ & Hothers & _ & _ & Hth & _ & Hupd).
    exists w'. split; [exact Hrun |]. rewrite Hn', Hk'. repeat split.
    + cbn. rewrite Hs'. destruct (decide (Node.status n = StatusUnknown)); congruence.
    + exact Hothers.
    + intros q. destruct (decide (q = p)) as [-> | Hne];
        [rewrite Hn', Hp; cbn; congruence | rewrite Hothers by assumption; reflexivity].
    + intros a r Hr. rewrite lookup_insert_ne; [exact Hr | congruence].
    + intros a r Hr. apply lookup_insert_Some in Hr as [[_ <-] | [_ Hr]]; auto.
    + rewrite lookup_insert_eq. eauto.
    + exact Hth.
    + exact Hupd.
Qed.

Lemma mergeInvariant_lookup (w0 w : World) (Q : list ptr) (q : ptr) :
  mergeInvariant w0 Q w -> is_Some (heap w0 !! q) -> is_Some (heap w !! q).
Proof.
  intros (_ & Haddr & _) Hq. eapply is_Some_field; [apply Haddr | exact Hq].
Qed.

(** [updateNodeStatus(n, s, h); AddNode(n)] for a node of the message
    and a status that is not the marker. *)
Lemma update_then_add (w0 w : World) (Q : list ptr) (p : ptr) (s : NodeStatus) (h : Z) :
  mergeInvariant w0 Q w ->
  p ∈ Q ->
  s ≠ StatusForwardTo ->
  exists w' : World,
    (updateNodeStatus p s h ;; AddNode p ;; mret tt) w = Ok tt w' /\
    mergeInvariant w0 Q w' /\
    exists n', heap w' !! p = Some n' /\ is_Some (knownNodes w' !! Node.Address n').
Proof.
  intros HJ Hp Hs. pose proof HJ as (Hth & Haddr & Hmono & Hkv & Huv & HQ).
  destruct (mergeInvariant_lookup w0 w Q p HJ) as [n Hn]; [apply HQ, Hp |].
  destruct (updateNodeStatus_step w p n s h Hn)
    as (w1 & Hrun1 & Hst1 & Hoth1 & Haddr1 & Hk1 & Hth1 & Hu1).
  rewrite (bind_Ok _ _ _ _ _ Hrun1). cbv beta.
  destruct (heap w1 !! p) as [n1 |] eqn:Hn1; [| discriminate Hst1].
  injection Hst1 as Hst1.
  destruct (AddNode_step w1 p n1 Hn1)
    as (w2 & Hrun2 & Hst2 & Hoth2 & Haddr2 & Hmono2 & Hk2 & Hreg2 & Hth2 & Hu2);
    [congruence |].
  rewrite (bind_Ok _ _ _ _ _ Hrun2). cbv beta. exists w2. split; [reflexivity |].
  split.
  - split; [congruence |].
    split; [intros q; rewrite Haddr2, Haddr1; apply Haddr |].
    split; [intros a r Hr; apply Hmono2; rewrite Hk1; apply Hmono, Hr |].
    split.
    { intros a r Hr. destruct (Hk2 a r Hr) as [Hold | ->];
        [rewrite Hk1 in Hold; exact (Hkv a r Hold) | apply HQ, Hp]. }
    split.
    { intros a r Hr. destruct (Hu2 a r Hr) as [Hold | ->]; [| apply HQ, Hp].
      destruct (Hu1 a r Hold) as [Hold' | ->]; [exact (Huv a r Hold') | apply HQ, Hp]. }
    intros q Hq. split; [apply HQ, Hq |].
    destruct (decide (q = p)) as [-> | Hne]; [exact Hst2 |].
    rewrite Hoth2, Hoth1 by assumption. apply HQ, Hq.
  - pose proof (Haddr2 p) as Ha. rewrite Hn1 in Ha.
    destruct (heap w2 !! p) as [n2 |] eqn:Hn2; [| discriminate Ha].
    injection Ha as Ha. exists n2. split; [reflexivity |]. rewrite Ha. exact Hreg2.
Qed.

Lemma mergeInvariant_events (w0 w : World) (Q : list ptr) (f : list Event -> list Event) :
  mergeInvariant w0 Q w -> mergeInvariant w0 Q (set_events f w).
Proof. intros HJ. exact HJ. Qed.

Lemma updateStatusFromMember_returns (w0 w : World) (Q : list ptr) (m : messageMember.t) :
  is_Some (heap w0 !! thisHost w0) ->
  mergeInvariant w0 Q w ->
  messageMember.node m ∈ Q ->
  exists w' : World,
    updateStatusFromMember m w = Ok tt w' /\ mergeInvariant w0 Q w'.
Proof.
  intros Hself HJ Hm. pose proof HJ as (Hth & Haddr & Hmono & Hkv & Huv & HQ).
  destruct (mergeInvariant_lookup w0 w Q (messageMember.node m) HJ) as [n Hn];
    [apply HQ, Hm |].
  destruct (mergeInvariant_lookup w0 w Q _ HJ Hself) as [self Hselfn].
  rewrite <- Hth in Hselfn.
  unfold updateStatusFromMember. go_step.
  destruct (decide (messageMember.heartbeat m < Node.heartbeat n)).
  { go_run. eexists. split; [reflexivity |]. apply mergeInvariant_events, HJ. }
  destruct (messageMember.status m) eqn:Hs.
  - destruct (update_then_add w0 w Q _ StatusUnknown (messageMember.heartbeat m) HJ Hm)
      as (w' & Hrun & HJ' & _); [discriminate |].
    exists w'. split; [exact Hrun | exact HJ'].
  - destruct (update_then_add w0 w Q _ StatusAlive (messageMember.heartbeat m) HJ Hm)
      as (w' & Hrun & HJ' & _); [discriminate |].
    exists w'. split; [exact Hrun | exact HJ'].
  - go_run. destruct (decide (Node.Address n ≠ Node.Address self)).
    + destruct (update_then_add w0 w Q _ StatusDead (messageMember.heartbeat m) HJ Hm)
        as (w' & Hrun & HJ' & _); [discriminate |].
      exists w'. split; [exact Hrun | exact HJ'].
    + exists w. split; [reflexivity | exact HJ].
  - exists w. split; [reflexivity | exact HJ].
Qed.

Lemma updateStatusFromMembers_return (w0 w : World) (Q : list ptr)
    (ms : list messageMember.t) :
  is_Some (heap w0 !! thisHost w0) ->
  mergeInvariant w0 Q w ->
  (forall m, m ∈ ms -> messageMember.node m ∈ Q) ->
  exists w' : World,
    forEach ms updateStatusFromMember w = Ok tt w' /\ mergeInvariant w0 Q w'.
Proof.
  intros Hself. revert w. induction ms as [| m ms IH]; intros w HJ Hms; cbn [forEach].
  - exists w. split; [reflexivity | exact HJ].
  - destruct (updateStatusFromMember_returns w0 w Q m Hself HJ) as (w1 & Hrun & HJ1);
      [apply Hms; left |].
    rewrite (bind_Ok _ _ _ _ _ Hrun). cbv beta.
    apply IH; [exact HJ1 |]. intros m' Hm'. apply Hms. right. exact Hm'.
Qed.

(** The merge of a message whose nodes are nodes of the heap, none of
    them the wire marker. *)
Lemma updateStatusesFromMessage_returns (msg : message.t) (w : World) :
  wellFormed w ->
  (forall q, q ∈ message.sender msg :: (messageMember.node <$> message.members msg) ->
     exists n, heap w !! q = Some n /\ Node.status n ≠ StatusForwardTo) ->
  exists w' : World,
    updateStatusesFromMessage msg w = Ok tt w' /\
    wellFormed w' /\
    (exists s', heap w' !! message.sender msg = Some s' /\
                is_Some (knownNodes w' !! Node.Address s')) /\
    (forall a r, knownNodes w !! a = Some r -> knownNodes w' !! a = Some r) /\
    (forall q, Node.Address <$> heap w' !! q = Node.Address <$> heap w !! q) /\
    thisHost w' = thisHost w.
Proof.
  intros (Hself & Hknown & Hupdated) Hnodes.
  set (Q := message.sender msg :: (messageMember.node <$> message.members msg)) in *.
  assert (HJ : mergeInvariant w Q w).
  { split; [reflexivity |]. split; [reflexivity |]. split; [auto |].
    split; [exact Hknown |]. split; [exact Hupdated |].
    intros q Hq. destruct (Hnodes q Hq) as (n & Hn & Hs). rewrite Hn.
    split; [eauto | cbn; congruence]. }
  assert (Hdone : forall w1, mergeInvariant w Q w1 ->
            (exists s', heap w1 !! message.sender msg = Some s' /\
                        is_Some (knownNodes w1 !! Node.Address s')) ->
            wellFormed w1 /\
            (exists s', heap w1 !! message.sender msg = Some s' /\
                        is_Some (knownNodes w1 !! Node.Address s')) /\
            (forall a r, knownNodes w !! a = Some r -> knownNodes w1 !! a = Some r) /\
            (forall q, Node.Address <$> heap w1 !! q = Node.Address <$> heap w !! q) /\
            thisHost w1 = thisHost w).
  { intros w1 HJ1 Hreg. pose proof HJ1 as (Hth & Haddr & Hmono & Hkv & Huv & HQ).
    split; [| auto]. split; [| split].
    - rewrite Hth. exact (mergeInvariant_lookup _ _ _ _ HJ1 Hself).
    - intros a r Hr. exact (mergeInvariant_lookup _ _ _ _ HJ1 (Hkv a r Hr)).
    - intros a r Hr. exact (mergeInvariant_lookup _ _ _ _ HJ1 (Huv a r Hr)). }
  unfold updateStatusesFromMessage.
  destruct (updateStatusFromMembers_return w w Q (message.members msg) Hself HJ)
    as (w1 & Hloop & HJ1).
  { intros m Hm. right. apply list_elem_of_fmap. eauto. }
  rewrite (bind_Ok _ _ _ _ _ Hloop). cbv beta.
  assert (Hsender : message.sender msg ∈ Q) by left.
  destruct (mergeInvariant_lookup w w1 Q (message.sender msg) HJ1) as [s Hs];
    [apply HJ, Hsender |].
  go_step.
  (* the sender is reported alive *)
  assert (Halive : exists w2 s2,
    when (bool_decide (message.senderHeartbeat msg > Node.heartbeat s))
      (updateNodeStatus (message.sender msg) StatusAlive (message.senderHeartbeat msg)) w1
      = Ok tt w2 /\
    mergeInvariant w Q w2 /\ heap w2 !! message.sender msg = Some s2).
  { unfold when. destruct (bool_decide _).
    - destruct (updateNodeStatus_step w1 _ s StatusAlive (message.senderHeartbeat msg) Hs)
        as (w2 & Hrun & Hst & Hoth & Haddr2 & Hk2 & Hth2 & Hu2).
      destruct (heap w2 !! message.sender msg) as [s2 |] eqn:Hs2; [| discriminate Hst].
      exists w2, s2. split; [exact Hrun |]. split; [| exact Hs2].
      pose proof HJ1 as (Hth & Haddr & Hmono & Hkv & Huv & HQ).
      split; [congruence |].
      split; [intros q; rewrite Haddr2; apply Haddr |].
      split; [intros a r Hr; rewrite Hk2; apply Hmono, Hr |].
      split; [intros a r Hr; rewrite Hk2 in Hr; exact (Hkv a r Hr) |].
      split.
      { intros a r Hr. destruct (Hu2 a r Hr) as [Hold | ->];
          [exact (Huv a r Hold) | apply HQ, Hsender]. }
      intros q Hq. split; [apply HQ, Hq |].
      destruct (decide (q = message.sender msg)) as [-> | Hne].
      + rewrite Hs2. cbn in *. congruence.
      + rewrite Hoth by assumption. apply HQ, Hq.
    - exists w1, s. split; [reflexivity |]. split; [exact HJ1 | exact Hs]. }
  destruct Halive as (w2 & s2 & Hrun2 & HJ2 & Hs2).
  rewrite (bind_Ok _ _ _ _ _ Hrun2). cbv beta. go_step.
  destruct (bool_decide (is_Some (knownNodes w2 !! Node.Address s2))) eqn:Hk; cbn [negb when].
  - exists w2. split; [reflexivity |]. apply Hdone; [exact HJ2 |].
    exists s2. split; [exact Hs2 |]. apply bool_decide_eq_true in Hk. exact Hk.
  - pose proof HJ2 as (_ & _ & _ & _ & _ & HQ2).
    destruct (AddNode_step w2 _ s2 Hs2)
      as (w3 & Hrun3 & Hst3 & Hoth3 & Haddr3 & Hmono3 & Hk3 & Hreg3 & Hth3 & Hu3).
    { destruct (HQ2 _ Hsender) as (_ & Hne). rewrite Hs2 in Hne. cbn in Hne. congruence. }
    rewrite (bind_Ok _ _ _ _ _ Hrun3). cbv beta. exists w3. split; [reflexivity |].
    pose proof HJ2 as (Hth & Haddr & Hmono & Hkv & Huv & HQ).
    apply Hdone.
    + split; [congruence |].
      split; [intros q; rewrite Haddr3; apply Haddr |].
      split; [intros a r Hr; apply Hmono3, Hmono, Hr |].
      split.
      { intros a r Hr. destruct (Hk3 a r Hr) as [Hold | ->];
          [exact (Hkv a r Hold) | apply HQ, Hsender]. }
      split.
      { intros a r Hr. destruct (Hu3 a r Hr) as [Hold | ->];
          [exact (Huv a r Hold) | apply HQ, Hsender]. }
      intros q Hq. split; [apply HQ, Hq |].
      destruct (decide (q = message.sender msg)) as [-> | Hne]; [exact Hst3 |].
      rewrite Hoth3 by assumption. apply HQ, Hq.
    + pose proof (Haddr3 (message.sender msg)) as Ha. rewrite Hs2 in Ha.
      destruct (heap w3 !! message.sender msg) as [s3 |] eqn:Hs3; [| discriminate Ha].
      injection Ha as Ha. exists s3. split; [reflexivity |]. rewrite Ha. exact Hreg3.
Qed.

(** X17: the merge of a message returns and registers the sender.  In
    a well-formed state, for a message whose sender and member nodes are
    nodes of the heap of which none has the wire marker as its status,
    [updateStatusesFromMessage] returns (it does not panic); the state
    it leaves is well formed; the address of the sender is registered;
    every registration there was is still there, for the same node (the
    merge removes and overwrites none); and this host and the addresses
    of the nodes are as before. *)
Theorem merge_returns_and_registers_sender (msg : message.t) (w : World) :
  wellFormed w ->
  (forall q, q ∈ message.sender msg :: (messageMember.node <$> message.members msg) ->
     exists n, heap w !! q = Some n /\ Node.status n ≠ StatusForwardTo) ->
  exists w' : World,
    updateStatusesFromMessage msg w = Ok tt w' /\
    wellFormed w' /\
    (exists s', heap w' !! message.sender msg = Some s' /\
                is_Some (knownNodes w' !! Node.Address s')) /\
    (forall a r, knownNodes w !! a = Some r -> knownNodes w' !! a = Some r) /\
    (forall q, Node.Address <$> heap w' !! q = Node.Address <$> heap w !! q) /\
    thisHost w' = thisHost w.
Proof. apply updateStatusesFromMessage_returns. Qed.

(** ** The registries hold no dangling pointer *)

Lemma wellFormed_heap_write (w : World) (p : ptr) (n n' : Node.t) :
  heap w !! p = Some n -> wellFormed w -> wellFormed (set_heap <[p := n']> w).
Proof.
  intros Hp HI. eapply wellFormed_ext; [| | | | exact HI]; try reflexivity; [| auto].
  intros q Hq. cbn [heap set_heap]. destruct (decide (p = q)) as [-> | Hne].
  - rewrite lookup_insert_eq. eauto.
  - rewrite lookup_insert_ne by assumption. exact Hq.
Qed.

Lemma wellFormed_Touch (p : ptr) : preserves wellFormed (Touch p).
Proof.
  intros w a w' HI H. destruct (heap w !! p) as [n |] eqn:Hn.
  - rewrite (Touch_Ok w p n Hn) in H. injection H as H; subst w'.
    apply (wellFormed_heap_write _ p n); [exact Hn |].
    eapply wellFormed_ext; [| | | | exact HI]; auto.
  - unfold Touch in H. exfalso. exact (deref_None_bind _ _ _ _ _ Hn H).
Qed.
Hint Resolve wellFormed_Touch : wf.

Lemma wellFormed_nodeMap_contains (m : World -> gmap string ptr) (p : ptr) :
  preserves wellFormed (nodeMap_contains m p).
Proof. unfold nodeMap_contains. wf_tac. Qed.
Hint Resolve wellFormed_nodeMap_contains : wf.

Lemma wellFormed_updateNodeStatus (p : ptr) (s : NodeStatus) (h : Z) :
  preserves wellFormed (updateNodeStatus p s h).
Proof.
  intros w a w' HI H. destruct (heap w !! p) as [n |] eqn:Hn.
  - destruct (updateNodeStatus_step w p n s h Hn)
      as (w1 & Hrun & _ & _ & Haddr & Hk & Hth & Hu).
    rewrite Hrun in H. injection H as H. subst w'.
    assert (Hdom : forall q, is_Some (heap w !! q) -> is_Some (heap w1 !! q)).
    { intros q. apply is_Some_field with (phi := Node.Address), Haddr. }
    destruct HI as (H1 & H2 & H3). repeat split.
    + rewrite Hth. apply Hdom, H1.
    + intros a' r Hr. rewrite Hk in Hr. eapply Hdom, H2, Hr.
    + intros a' r Hr. destruct (Hu a' r Hr) as [Hold | ->];
        [eapply Hdom, H3, Hold | apply Hdom; eauto].
  - unfold updateNodeStatus in H. exfalso. exact (deref_None_bind _ _ _ _ _ Hn H).
Qed.
Hint Resolve wellFormed_updateNodeStatus : wf.

Lemma wellFormed_UpdateNodeStatus (p : ptr) (s : NodeStatus) :
  preserves wellFormed (UpdateNodeStatus p s).
Proof. unfold UpdateNodeStatus. wf_tac. Qed.
Hint Resolve wellFormed_UpdateNodeStatus : wf.

Lemma wellFormed_AddNode (p : ptr) : preserves wellFormed (AddNode p).
Proof.
  intros w q w' HI H. destruct (heap w !! p) as [n |] eqn:Hn;
    [| exfalso; exact (AddNode_dangling _ _ _ _ Hn H)].
  destruct (knownNodes w !! Node.Address n) as [r0 |] eqn:Hk.
  { rewrite (AddNode_known w p n Hn) in H by eauto. injection H as _ <-. exact HI. }
  destruct (decide (Node.status n = StatusForwardTo)) as [Hfwd | Hfwd].
  { rewrite (AddNode_marker_panics w p n Hn Hk Hfwd) in H. discriminate H. }
  destruct (AddNode_step w p n Hn Hfwd)
    as (w1 & Hrun & _ & _ & Haddr & _ & Hk1 & _ & Hth & Hu).
  rewrite Hrun in H. injection H as _ H. subst w'.
  assert (Hdom : forall q, is_Some (heap w !! q) -> is_Some (heap w1 !! q)).
  { intros q'. apply is_Some_field with (phi := Node.Address), Haddr. }
  destruct HI as (H1 & H2 & H3). repeat split.
  - rewrite Hth. apply Hdom, H1.
  - intros a' r Hr. destruct (Hk1 a' r Hr) as [Hold | ->];
      [eapply Hdom, H2, Hold | apply Hdom; eauto].
  - intros a' r Hr. destruct (Hu a' r Hr) as [Hold | ->];
      [eapply Hdom, H3, Hold | apply Hdom; eauto].
Qed.
Hint Resolve wellFormed_AddNode : wf.

Lemma wellFormed_RemoveNode (p : ptr) : preserves wellFormed (RemoveNode p).
Proof.
  intros w q w' HI H. destruct (heap w !! p) as [n |] eqn:Hn.
  - rewrite (RemoveNode_Ok w p n Hn) in H. injection H as _ <-.
    destruct (bool_decide _); [| exact HI].
    destruct HI as (H1 & H2 & H3).
    assert (Hdom : forall q, is_Some (heap w !! q) ->
              is_Some (<[p := Node.with_timestamp (wrap32 (millis (ticks w))) n]> (heap w) !! q)).
    { intros q' Hq. destruct (decide (p = q')) as [-> | Hne];
        [rewrite lookup_insert_eq; eauto | rewrite lookup_insert_ne by assumption; exact Hq]. }
    repeat split; world_proj.
    + apply Hdom, H1.
    + intros a r Hr. apply lookup_delete_Some in Hr as [_ Hr]. eapply Hdom, H2, Hr.
    + intros a r Hr. eapply Hdom, H3, Hr.
  - unfold RemoveNode, nodeMap_contains, Address in H. rewrite !bind_assoc in H.
    exfalso. exact (deref_None_bind _ _ _ _ _ Hn H).
Qed.
Hint Resolve wellFormed_RemoveNode : wf.

Lemma wellFormed_emitCount : preserves wellFormed emitCount.
Proof. unfold emitCount, knownNodes_length. wf_tac. Qed.
Hint Resolve wellFormed_emitCount : wf.

Lemma wellFormed_transmitVerbAckUDP (node : ptr) (code : Z) :
  preserves wellFormed (transmitVerbAckUDP node code).
Proof. unfold transmitVerbAckUDP. wf_tac. Qed.
Hint Resolve wellFormed_transmitVerbAckUDP : wf.

Lemma wellFormed_transmitVerbPingUDP (node : ptr) (code : Z) :
  preserves wellFormed (transmitVerbPingUDP node code).
Proof. unfold transmitVerbPingUDP. wf_tac. Qed.
Hint Resolve wellFormed_transmitVerbPingUDP : wf.

Lemma wellFormed_PingNode (node : ptr) : preserves wellFormed (PingNode node).
Proof. unfold PingNode. wf_tac. Qed.
Hint Resolve wellFormed_PingNode : wf.

Lemma wellFormed_elapsed (a : pendingAck.t) : preserves wellFormed (elapsed a).
Proof. unfold elapsed. wf_tac. Qed.
Hint Resolve wellFormed_elapsed : wf.

Lemma wellFormed_notePingResponseTime (pack : pendingAck.t) :
  preserves wellFormed (notePingResponseTime pack).
Proof. unfold notePingResponseTime. wf_tac. Qed.
Hint Resolve wellFormed_notePingResponseTime : wf.

Lemma wellFormed_receiveVerbAckUDP (msg : message.t) :
  preserves wellFormed (receiveVerbAckUDP msg).
Proof. unfold receiveVerbAckUDP. wf_tac. Qed.
Hint Resolve wellFormed_receiveVerbAckUDP : wf.

Lemma wellFormed_receiveVerbForwardUDP (msg : message.t) :
  preserves wellFormed (receiveVerbForwardUDP msg).
Proof. unfold receiveVerbForwardUDP. wf_tac. Qed.
Hint Resolve wellFormed_receiveVerbForwardUDP : wf.

Lemma wellFormed_updateStatusesFromMessage (msg : message.t) :
  preserves wellFormed (updateStatusesFromMessage msg).
Proof. unfold updateStatusesFromMessage, updateStatusFromMember. wf_tac. Qed.
Hint Resolve wellFormed_updateStatusesFromMessage : wf.

Lemma wellFormed_receiveMessageUDP (msg : message.t) :
  preserves wellFormed (receiveMessageUDP msg).
Proof.
  unfold receiveMessageUDP, synchronizeHeartbeats, receiveVerbPingUDP,
    receiveVerbNonForwardPingUDP.
  wf_tac.
Qed.
Hint Resolve wellFormed_receiveMessageUDP : wf.

Lemma wellFormed_takeLive (count : Z) (randomNodes filteredNodes : list ptr) :
  preserves wellFormed (takeLive count randomNodes filteredNodes).
Proof.
  revert filteredNodes. induction randomNodes; intros filteredNodes; cbn [takeLive]; wf_tac.
Qed.
Hint Resolve wellFormed_takeLive : wf.

Lemma wellFormed_doForwardOnTimeout (pack : pendingAck.t) :
  preserves wellFormed (doForwardOnTimeout pack).
Proof. unfold doForwardOnTimeout, getTargetNodes. wf_tac. Qed.
Hint Resolve wellFormed_doForwardOnTimeout : wf.

Lemma wellFormed_timeoutCheckEntry (k : string) (pack : pendingAck.t) :
  preserves wellFormed (timeoutCheckEntry k pack).
Proof. unfold timeoutCheckEntry, nonNil. wf_tac. Qed.
Hint Resolve wellFormed_timeoutCheckEntry : wf.

Lemma wellFormed_timeoutCheckSweep : preserves wellFormed timeoutCheckSweep.
Proof. unfold timeoutCheckSweep. wf_tac. Qed.
Hint Resolve wellFormed_timeoutCheckSweep : wf.

Lemma wellFormed_visitNode (node : ptr) : preserves wellFormed (visitNode node).
Proof. unfold visitNode, backoffDeadNode, sleepHeartbeat. wf_tac. Qed.
Hint Resolve wellFormed_visitNode : wf.

Lemma wellFormed_visitNodes (nodes : list ptr) (pingCounter : Z) :
  preserves wellFormed (visitNodes nodes pingCounter).
Proof.
  revert pingCounter. induction nodes; intros pingCounter; cbn [visitNodes]; wf_tac.
Qed.
Hint Resolve wellFormed_visitNodes : wf.

Lemma wellFormed_beginRound : preserves wellFormed beginRound.
Proof. unfold beginRound, sleepHeartbeat. wf_tac. Qed.

(** X18: the registries hold no dangling pointer.  The property that
    this host, every node of the registry and every node of the updated
    set is a node of the heap is kept by every entry point of the
    library and every loop body of its goroutines: whenever [AddNode],
    [RemoveNode], [UpdateNodeStatus], [PingNode], the datagram handler
    [receiveMessageUDP], a sweep of the timeout checker,
    [doForwardOnTimeout] or a round of the failure detector returns from
    a state that has the property, the state it leaves has it. *)
Theorem registries_hold_no_dangling_pointer :
  (forall p, preserves wellFormed (AddNode p)) /\
  (forall p, preserves wellFormed (RemoveNode p)) /\
  (forall p s, preserves wellFormed (UpdateNodeStatus p s)) /\
  (forall p, preserves wellFormed (PingNode p)) /\
  (forall msg, preserves wellFormed (receiveMessageUDP msg)) /\
  preserves wellFormed timeoutCheckSweep /\
  (forall pack, preserves wellFormed (doForwardOnTimeout pack)) /\
  preserves wellFormed beginRound.
Proof.
  split; [exact wellFormed_AddNode |]. split; [exact wellFormed_RemoveNode |].
  split; [exact wellFormed_UpdateNodeStatus |]. split; [exact wellFormed_PingNode |].
  split; [exact wellFormed_receiveMessageUDP |]. split; [exact wellFormed_timeoutCheckSweep |].
  split; [exact wellFormed_doForwardOnTimeout | exact wellFormed_beginRound].
Qed.

(** ** The datagram handler returns *)

Lemma receiveVerbAckUDP_absent (w : World) (msg : message.t) (n : Node.t) :
  heap w !! message.sender msg = Some n ->
  pendingAcks w !! pendingAckKey (Node.Address n) (message.senderHeartbeat msg) = None ->
  receiveVerbAckUDP msg w = Ok None w.
Proof.
  intros Hn Hkey. unfold receiveVerbAckUDP. go_run. rewrite Hkey.
  destruct (decide (is_Some None)) as [[? Habs] |]; [discriminate Habs |].
  go_run. reflexivity.
Qed.

Lemma size_pos_of_lookup {A : Type} (m : gmap string A) (a : string) :
  is_Some (m !! a) -> (0 < size m)%nat.
Proof.
  intros [x Hx]. destruct (decide (size m = 0%nat)) as [Hz | Hnz]; [| lia].
  apply map_size_empty_iff in Hz. rewrite Hz, lookup_empty in Hx. discriminate Hx.
Qed.

(** The handler, after the synchronisation of the heartbeats. *)
Lemma receive_after_synchronisation_returns (msg : message.t) (w : World) :
  shuffleWithin ->
  wellFormed w ->
  (forall q, q ∈ message.sender msg :: (messageMember.node <$> message.members msg) ->
     exists n, heap w !! q = Some n /\ Node.status n ≠ StatusForwardTo) ->
  (forall k : nat, (0 < k)%nat -> 0 <= lambdaLogCount k) ->
  (forall key pack, pendingAcks w !! key = Some pack ->
     is_Some (heap w !! pendingAck.node pack)) ->
  (message.verb msg = verbPingRequest -> message.members msg ≠ []) ->
  exists (e : option error) (w' : World),
    (updateStatusesFromMessage msg ;;
     modify (set_broadcasts (receiveBroadcast (message.broadcast msg))) ;;
     match message.verb msg with
     | verbPing => receiveVerbPingUDP msg
     | verbAck => receiveVerbAckUDP msg
     | verbPingRequest => receiveVerbForwardUDP msg
     | verbNonForwardingPing => receiveVerbNonForwardPingUDP msg
     end) w = Ok e w' /\
    (forall s, heap w !! message.sender msg = Some s ->
       is_Some (knownNodes w' !! Node.Address s)) /\
    (forall a r, knownNodes w !! a = Some r -> knownNodes w' !! a = Some r).
Proof.
  intros Hshuffle Hwf Hnodes Hcount Hacks Hnonempty.
  destruct (updateStatusesFromMessage_returns msg w Hwf Hnodes)
    as (w2 & Hmerge & Hwf2 & (s2 & Hs2 & Hreg2) & Hmono2 & Haddr2 & Hth2).
  rewrite (bind_Ok _ _ _ _ _ Hmerge). cbv beta. go_run.
  set (w3 := set_broadcasts (receiveBroadcast (message.broadcast msg)) w2).
  assert (Hwf3 : wellFormed w3) by (apply (wellFormed_ext w2); auto).
  assert (Hk3 : 0 <= lambdaLogCount (size (knownNodes w3))).
  { apply Hcount. exact (size_pos_of_lookup _ _ Hreg2). }
  assert (Hs3 : heap w3 !! message.sender msg = Some s2) by exact Hs2.
  assert (Hacks3 : pendingAcks w3 = pendingAcks w).
  { apply (keeps_updateStatusesFromMessage _ pendingAcks) in Hmerge;
      try (intros; reflexivity). exact Hmerge. }
  assert (Hdom : forall q, is_Some (heap w !! q) -> is_Some (heap w3 !! q)).
  { intros q Hq. eapply is_Some_field; [apply Haddr2 | exact Hq]. }
  assert (Hdone : forall w', knownNodes w' = knownNodes w3 ->
    (forall s, heap w !! message.sender msg = Some s ->
       is_Some (knownNodes w' !! Node.Address s)) /\
    (forall a r, knownNodes w !! a = Some r -> knownNodes w' !! a = Some r)).
  { intros w' Hk. rewrite Hk. split; [| exact Hmono2].
    intros s Hs. pose proof (Haddr2 (message.sender msg)) as Ha.
    rewrite Hs, Hs2 in Ha. injection Ha as Ha. rewrite <- Ha. exact Hreg2. }
  assert (Hack : exists (e : option error) (w' : World),
    transmitVerbAckUDP (message.sender msg) (message.senderHeartbeat msg) w3 = Ok e w' /\
    knownNodes w' = knownNodes w3).
  { destruct (transmitVerbGenericUDP_returns (message.sender msg) None verbAck
                (message.senderHeartbeat msg) w3 Hshuffle Hwf3 Hk3)
      as (e & w' & Hrun); [eauto | discriminate |].
    exists e, w'. split; [exact Hrun |].
    apply (transmitVerbGenericUDP_frame _ _ _ _ _ _ _ Hrun). }
  destruct (message.verb msg) eqn:Hverb.
  - destruct Hack as (e & w' & Hrun & Hk). exists e, w'. split; [exact Hrun |].
    apply Hdone, Hk.
  - destruct (pendingAcks w3 !! pendingAckKey (Node.Address s2) (message.senderHeartbeat msg))
      as [pack |] eqn:Hkey.
    + destruct (receiveVerbAckUDP_pending w3 msg s2 pack Hs3 Hkey) as (w' & Hrun & _).
      { intros _. apply Hdom. rewrite Hacks3 in Hkey. exact (Hacks _ _ Hkey). }
      exists None, w'. split; [exact Hrun |]. apply Hdone.
      apply (keeps_receiveVerbAckUDP _ knownNodes) in Hrun; try (intros; reflexivity).
      exact Hrun.
    + exists None, w3. split; [apply (receiveVerbAckUDP_absent w3 msg s2 Hs3 Hkey) |].
      apply Hdone. reflexivity.
  - destruct (message.members msg) as [| m rest] eqn:Hmembers;
      [exfalso; apply Hnonempty; reflexivity |].
    destruct (Hnodes (messageMember.node m)) as (nm & Hnm & _);
      [right; left |].
    destruct (Hdom (messageMember.node m)) as [nt Hnt]; [eauto |].
    destruct (decide (messageMember.status m = StatusForwardTo)) as [Hmarker | Hother].
    + destruct (receiveVerbForwardUDP_marker w3 msg m rest nt Hshuffle Hwf3 Hk3 Hmembers
                  Hmarker Hnt) as (e & w' & Hrun & _).
      exists e, w'. split; [exact Hrun |]. apply Hdone.
      apply (keeps_receiveVerbForwardUDP _ knownNodes) in Hrun; try (intros; reflexivity).
      exact Hrun.
    + exists None, w3. split; [| apply Hdone; reflexivity].
      unfold receiveVerbForwardUDP.
      destruct (decide (Z.of_nat (length (message.members msg)) >= 0)) as [_ | ?]; [| lia].
      rewrite Hmembers. cbn [lookup list_lookup].
      destruct (decide (messageMember.status m = StatusForwardTo));
        [contradiction | reflexivity].
  - destruct Hack as (e & w' & Hrun & Hk). exists e, w'. split; [exact Hrun |].
    apply Hdone, Hk.
Qed.

(** X19: the datagram handler returns.  In a well-formed state whose
    pending acknowledgements name nodes of the heap, for a decoded
    message whose sender and member nodes are nodes of the heap of which
    none has the wire marker as its status, and with [emitCount()]
    non-negative for a registry that is not empty: [receiveMessageUDP]
    returns for every verb (it does not panic), unless the message is a
    PingRequest without members.  After it the state is well formed,
    the address of the sender is registered, and every registration
    there was is still there. *)
Theorem receiveMessageUDP_returns (msg : message.t) (w : World) :
  shuffleWithin ->
  wellFormed w ->
  (forall q, q ∈ message.sender msg :: (messageMember.node <$> message.members msg) ->
     exists n, heap w !! q = Some n /\ Node.status n ≠ StatusForwardTo) ->
  (forall k : nat, (0 < k)%nat -> 0 <= lambdaLogCount k) ->
  (forall key pack, pendingAcks w !! key = Some pack ->
     is_Some (heap w !! pendingAck.node pack)) ->
  (message.verb msg = verbPingRequest -> message.members msg ≠ []) ->
  exists (e : option error) (w' : World),
    receiveMessageUDP msg w = Ok e w' /\
    wellFormed w' /\
    (forall s, heap w !! message.sender msg = Some s ->
       is_Some (knownNodes w' !! Node.Address s)) /\
    (forall a r, knownNodes w !! a = Some r -> knownNodes w' !! a = Some r).
Proof.
  intros Hshuffle Hwf Hnodes Hcount Hacks Hnonempty.
  destruct (Hnodes (message.sender msg)) as (s & Hs & _); [left |].
  assert (Hrest : forall w1 : World,
    heap w1 = heap w -> knownNodes w1 = knownNodes w -> updatedNodes w1 = updatedNodes w ->
    thisHost w1 = thisHost w -> pendingAcks w1 = pendingAcks w ->
    exists (e : option error) (w' : World),
      (updateStatusesFromMessage msg ;;
       modify (set_broadcasts (receiveBroadcast (message.broadcast msg))) ;;
       match message.verb msg with
       | verbPing => receiveVerbPingUDP msg
       | verbAck => receiveVerbAckUDP msg
       | verbPingRequest => receiveVerbForwardUDP msg
       | verbNonForwardingPing => receiveVerbNonForwardPingUDP msg
       end) w1 = Ok e w' /\
      wellFormed w' /\
      (forall s, heap w !! message.sender msg = Some s ->
         is_Some (knownNodes w' !! Node.Address s)) /\
      (forall a r, knownNodes w !! a = Some r -> knownNodes w' !! a = Some r)).
  { intros w1 Hh Hk Hu Hth Hp.
    assert (Hwf1 : wellFormed w1).
    { apply (wellFormed_ext w); try assumption.
      - intros q. rewrite Hh. auto.
      - intros a p. rewrite Hu. auto. }
    destruct (receive_after_synchronisation_returns msg w1 Hshuffle Hwf1)
      as (e & w' & Hrun & Hreg & Hmono); try assumption.
    - intros q Hq. rewrite Hh. exact (Hnodes q Hq).
    - intros key pack. rewrite Hp, Hh. apply Hacks.
    - exists e, w'. split; [exact Hrun |]. split.
      + refine (preserves_bind wellFormed _ _ (wellFormed_updateStatusesFromMessage msg) _
                  w1 e w' Hwf1 Hrun).
        intros _. apply preserves_bind; [apply preserves_modify; wf_write |].
        intros _. unfold receiveVerbPingUDP, receiveVerbNonForwardPingUDP.
        destruct (message.verb msg); wf_tac.
      + rewrite <- Hh, <- Hk. split; assumption. }
  unfold receiveMessageUDP. go_run. unfold synchronizeHeartbeats. go_run.
  destruct (decide (message.senderHeartbeat msg > 0 ∧ _)); go_run; apply Hrest; reflexivity.
Qed.

(** ** The registries stay keyed by address *)

Lemma keyed_ext (w w' : World) :
  heap w' = heap w ->
  knownNodes w' = knownNodes w ->
  (forall a p, updatedNodes w' !! a = Some p -> updatedNodes w !! a = Some p) ->
  registriesKeyed w -> registriesKeyed w'.
Proof.
  intros Hheap Hknown Hupd [H1 H2]. split.
  - rewrite Hknown, Hheap. exact H1.
  - intros a p Hp. rewrite Hheap. apply H2, Hupd, Hp.
Qed.

Lemma keyedByAddress_heap_write (m : gmap string ptr) (h : gmap ptr Node.t) (p : ptr)
    (n n' : Node.t) :
  h !! p = Some n -> Node.Address n' = Node.Address n ->
  keyedByAddress m h -> keyedByAddress m (<[p := n']> h).
Proof.
  intros Hp Ha Hm a q Hq. destruct (Hm a q Hq) as (nq & Hnq & Haq).
  destruct (decide (q = p)) as [Heq | Hne].
  - rewrite Heq in *. rewrite lookup_insert_eq. exists n'. split; [reflexivity |]. congruence.
  - rewrite lookup_insert_ne by congruence. eauto.
Qed.

Lemma keyed_heap_write (w : World) (p : ptr) (n n' : Node.t) :
  heap w !! p = Some n -> Node.Address n' = Node.Address n ->
  registriesKeyed w -> registriesKeyed (set_heap <[p := n']> w).
Proof.
  intros Hp Ha [H1 H2]. split; world_proj; apply (keyedByAddress_heap_write _ _ p n); assumption.
Qed.

Lemma keyed_update (p : ptr) (g : Node.t -> Node.t) :
  (forall n, Node.Address (g n) = Node.Address n) ->
  preserves registriesKeyed (update p g).
Proof.
  intros Hg w a w' HI H. destruct (heap w !! p) as [n |] eqn:Hn.
  - rewrite (update_Ok w p n g Hn) in H. injection H as H. subst w'.
    apply (keyed_heap_write w p n); [exact Hn | apply Hg | exact HI].
  - exfalso. unfold update in H. exact (deref_None_bind _ _ _ _ _ Hn H).
Qed.

Create HintDb keyed discriminated.

(** A write that is not through a node and does not add to a registry. *)
Ltac keyed_write :=
  intros ? ?; cbv beta;
  (eapply keyed_ext; [| | | eassumption]);
  [ reflexivity | reflexivity
  | first [ intros ? ? ?; assumption
          | cbn [updatedNodes set_updatedNodes];
            let H := fresh in intros ? ? H; apply lookup_delete_Some in H; apply H ] ].

Ltac keyed_step :=
  lazymatch goal with
  | |- preserves _ (mbind _ _) => apply preserves_bind; [| intros ?]
  | |- preserves _ (mret _) => apply preserves_ret
  | |- preserves _ (get _) => apply preserves_get
  | |- preserves _ (panic _) => apply preserves_panic
  | |- preserves _ (deref _) => apply preserves_deref
  | |- preserves _ (update _ _) => apply keyed_update; intros ?; reflexivity
  | |- preserves _ (when _ _) => apply preserves_when
  | |- preserves _ (forEach _ _) => apply preserves_forEach; intros ?
  | |- preserves _ (forEachAcc _ _ _) => apply preserves_forEachAcc; intros ? ?
  | |- preserves _ (modify _) => apply preserves_modify; keyed_write
  | |- preserves _ (emit _) => apply preserves_modify; keyed_write
  | |- preserves _ (log _ _) => apply preserves_modify; keyed_write
  | |- preserves _ (if ?b then _ else _) => destruct b
  | |- preserves _ (match ?x with _ => _ end) => destruct x
  | |- _ => solve [eauto with keyed]
  end.

Ltac keyed_tac := repeat keyed_step.

Lemma keyed_GetNowInMillis : preserves registriesKeyed GetNowInMillis.
Proof.
  intros w a w' HI H. injection H as _ H. subst w'.
  eapply keyed_ext; [| | | exact HI]; auto.
Qed.
Hint Resolve keyed_GetNowInMillis : keyed.

Lemma keyed_draw {A : Type} (l : list A) : preserves registriesKeyed (draw l).
Proof.
  intros w a w' HI H. injection H as _ H. subst w'.
  eapply keyed_ext; [| | | exact HI]; auto.
Qed.
Hint Resolve keyed_draw : keyed.

Lemma keyed_Touch (p : ptr) : preserves registriesKeyed (Touch p).
Proof.
  intros w a w' HI H. destruct (heap w !! p) as [n |] eqn:Hn.
  - rewrite (Touch_Ok w p n Hn) in H. injection H as H; subst w'.
    apply (keyed_heap_write _ p n); [exact Hn | reflexivity |].
    eapply keyed_ext; [| | | exact HI]; auto.
  - unfold Touch in H. exfalso. exact (deref_None_bind _ _ _ _ _ Hn H).
Qed.
Hint Resolve keyed_Touch : keyed.

Lemma keyedByAddress_insert (m : gmap string ptr) (h : gmap ptr Node.t) (p : ptr)
    (n : Node.t) :
  h !! p = Some n -> keyedByAddress m h -> keyedByAddress (<[Node.Address n := p]> m) h.
Proof.
  intros Hp Hm a q Hq. apply lookup_insert_Some in Hq as [[<- <-] | [_ Hq]]; eauto.
Qed.

Lemma keyed_updateNodeStatus (p : ptr) (s : NodeStatus) (h : Z) :
  preserves registriesKeyed (updateNodeStatus p s h).
Proof.
  intros w a w' [H1 H2] H. destruct (heap w !! p) as [n |] eqn:Hn.
  - destruct (decide (Node.status n = s)) as [Hs | Hs].
    + subst s. rewrite (updateNodeStatus_same w p n h Hn) in H. injection H as H. subst w'.
      split; assumption.
    + rewrite (updateNodeStatus_changed w p n s h Hn Hs) in H. injection H as H. subst w'.
      split; world_proj.
      * apply (keyedByAddress_heap_write _ _ p n); [exact Hn | reflexivity | exact H1].
      * destruct (bool_decide (is_Some (updatedNodes w !! Node.Address n))).
        -- apply (keyedByAddress_heap_write _ _ p n); [exact Hn | reflexivity | exact H2].
        -- apply (keyedByAddress_insert _ _ p
                    (Node.mk (Node.ip n) (Node.port n) s h (wrap32 (millis (ticks w)))
                       (Node.pingMillis n) (wrap8 (lambdaLogCount (size (knownNodes w)))))).
           ++ apply lookup_insert_eq.
           ++ apply (keyedByAddress_heap_write _ _ p n); [exact Hn | reflexivity | exact H2].
  - unfold updateNodeStatus in H. exfalso. exact (deref_None_bind _ _ _ _ _ Hn H).
Qed.
Hint Resolve keyed_updateNodeStatus : keyed.

Lemma keyed_RemoveNode (p : ptr) : preserves registriesKeyed (RemoveNode p).
Proof.
  intros w q w' HI H. destruct (heap w !! p) as [n |] eqn:Hn.
  - rewrite (RemoveNode_Ok w p n Hn) in H. injection H as _ <-.
    destruct (bool_decide _); [| exact HI].
    destruct HI as [H1 H2]. split; world_proj.
    + apply (keyedByAddress_heap_write _ _ p n); [exact Hn | reflexivity |].
      intros a r Hr. apply lookup_delete_Some in Hr as [_ Hr]. exact (H1 a r Hr).
    + apply (keyedByAddress_heap_write _ _ p n); [exact Hn | reflexivity | exact H2].
  - unfold RemoveNode, nodeMap_contains, Address in H. rewrite !bind_assoc in H.
    exfalso. exact (deref_None_bind _ _ _ _ _ Hn H).
Qed.
Hint Resolve keyed_RemoveNode : keyed.

Lemma keyed_Address (p : ptr) : preserves registriesKeyed (Address p).
Proof. unfold Address. keyed_tac. Qed.
Hint Resolve keyed_Address : keyed.

Lemma keyed_pingRequestCount : preserves registriesKeyed pingRequestCount.
Proof. unfold pingRequestCount, knownNodes_length. keyed_tac. Qed.
Hint Resolve keyed_pingRequestCount : keyed.

Lemma keyed_nodeMap_values (m : World -> gmap string ptr) :
  preserves registriesKeyed (nodeMap_values m).
Proof. unfold nodeMap_values. keyed_tac. Qed.
Hint Resolve keyed_nodeMap_values : keyed.

Lemma keyed_addresses (l : list ptr) : preserves registriesKeyed (addresses l).
Proof. induction l; cbn [addresses]; keyed_tac. Qed.
Hint Resolve keyed_addresses : keyed.

Lemma keyed_withoutExcluded (excluded : list string) (l : list ptr) :
  preserves registriesKeyed (withoutExcluded excluded l).
Proof. induction l; cbn [withoutExcluded]; keyed_tac. Qed.
Hint Resolve keyed_withoutExcluded : keyed.

Lemma keyed_withEmitCounter (l : list ptr) : preserves registriesKeyed (withEmitCounter l).
Proof. induction l; cbn [withEmitCounter]; keyed_tac. Qed.
Hint Resolve keyed_withEmitCounter : keyed.

Lemma keyed_nodeMap_getRandomNodes (m : World -> gmap string ptr) (size : Z)
    (exclude : list ptr) :
  preserves registriesKeyed (nodeMap_getRandomNodes m size exclude).
Proof. unfold nodeMap_getRandomNodes. keyed_tac. Qed.
Hint Resolve keyed_nodeMap_getRandomNodes : keyed.

Lemma keyed_getRandomUpdatedNodes (size : Z) (exclude : list ptr) :
  preserves registriesKeyed (getRandomUpdatedNodes size exclude).
Proof. unfold getRandomUpdatedNodes, pruneOrCopy, excludeFrom. keyed_tac. Qed.
Hint Resolve keyed_getRandomUpdatedNodes : keyed.

Lemma keyed_decrementEmitCounter (p : ptr) :
  preserves registriesKeyed (decrementEmitCounter p).
Proof. unfold decrementEmitCounter. keyed_tac. Qed.
Hint Resolve keyed_decrementEmitCounter : keyed.

Lemma keyed_attachMembers (nodes : list ptr) (msg : message.t) :
  preserves registriesKeyed (attachMembers nodes msg).
Proof. revert msg. induction nodes; intros msg; cbn [attachMembers]; keyed_tac. Qed.
Hint Resolve keyed_attachMembers : keyed.

Lemma keyed_transmitVerbGenericUDP (node : ptr) (forwardTo : option ptr)
    (verb : messageVerb) (code : Z) :
  preserves registriesKeyed (transmitVerbGenericUDP node forwardTo verb code).
Proof. unfold transmitVerbGenericUDP. keyed_tac. Qed.
Hint Resolve keyed_transmitVerbGenericUDP : keyed.

Lemma keyed_transmitVerbForwardUDP (node downstream : ptr) (code : Z) :
  preserves registriesKeyed (transmitVerbForwardUDP node downstream code).
Proof. unfold transmitVerbForwardUDP. keyed_tac. Qed.
Hint Resolve keyed_transmitVerbForwardUDP : keyed.

Lemma keyed_requestIndirectPing (pack : pendingAck.t) (n : ptr) :
  preserves registriesKeyed (requestIndirectPing pack n).
Proof. unfold requestIndirectPing. keyed_tac. Qed.
Hint Resolve keyed_requestIndirectPing : keyed.

Lemma keyed_nodeMap_contains (m : World -> gmap string ptr) (p : ptr) :
  preserves registriesKeyed (nodeMap_contains m p).
Proof. unfold nodeMap_contains. keyed_tac. Qed.
Hint Resolve keyed_nodeMap_contains : keyed.

Lemma keyed_UpdateNodeStatus (p : ptr) (s : NodeStatus) :
  preserves registriesKeyed (UpdateNodeStatus p s).
Proof. unfold UpdateNodeStatus. keyed_tac. Qed.
Hint Resolve keyed_UpdateNodeStatus : keyed.

Lemma keyed_AddNode (p : ptr) : preserves registriesKeyed (AddNode p).
Proof.
  unfold AddNode. apply preserves_bind; [keyed_tac |]. intros known.
  destruct known; cbn [negb]; [apply preserves_ret |].
  apply preserves_bind; [keyed_tac |]. intros n.
  apply preserves_bind; [keyed_tac |]. intros _.
  apply preserves_bind; [keyed_tac |]. intros _.
  intros w r w' [H1 H2] H. destruct (heap w !! p) as [n' |] eqn:Hn.
  - revert H. go_run. intros H. injection H as _ <-. split; world_proj.
    + apply keyedByAddress_insert; assumption.
    + exact H2.
  - unfold Address in H. rewrite bind_assoc in H.
    exfalso. exact (deref_None_bind _ _ _ _ _ Hn H).
Qed.
Hint Resolve keyed_AddNode : keyed.

Lemma keyed_emitCount : preserves registriesKeyed emitCount.
Proof. unfold emitCount, knownNodes_length. keyed_tac. Qed.
Hint Resolve keyed_emitCount : keyed.

Lemma keyed_transmitVerbAckUDP (node : ptr) (code : Z) :
  preserves registriesKeyed (transmitVerbAckUDP node code).
Proof. unfold transmitVerbAckUDP. keyed_tac. Qed.
Hint Resolve keyed_transmitVerbAckUDP : keyed.

Lemma keyed_transmitVerbPingUDP (node : ptr) (code : Z) :
  preserves registriesKeyed (transmitVerbPingUDP node code).
Proof. unfold transmitVerbPingUDP. keyed_tac. Qed.
Hint Resolve keyed_transmitVerbPingUDP : keyed.

Lemma keyed_PingNode (node : ptr) : preserves registriesKeyed (PingNode node).
Proof. unfold PingNode. keyed_tac. Qed.
Hint Resolve keyed_PingNode : keyed.

Lemma keyed_elapsed (a : pendingAck.t) : preserves registriesKeyed (elapsed a).
Proof. unfold elapsed. keyed_tac. Qed.
Hint Resolve keyed_elapsed : keyed.

Lemma keyed_notePingResponseTime (pack : pendingAck.t) :
  preserves registriesKeyed (notePingResponseTime pack).
Proof. unfold notePingResponseTime. keyed_tac. Qed.
Hint Resolve keyed_notePingResponseTime : keyed.

Lemma keyed_receiveVerbAckUDP (msg : message.t) :
  preserves registriesKeyed (receiveVerbAckUDP msg).
Proof. unfold receiveVerbAckUDP. keyed_tac. Qed.
Hint Resolve keyed_receiveVerbAckUDP : keyed.

Lemma keyed_receiveVerbForwardUDP (msg : message.t) :
  preserves registriesKeyed (receiveVerbForwardUDP msg).
Proof. unfold receiveVerbForwardUDP. keyed_tac. Qed.
Hint Resolve keyed_receiveVerbForwardUDP : keyed.

Lemma keyed_updateStatusesFromMessage (msg : message.t) :
  preserves registriesKeyed (updateStatusesFromMessage msg).
Proof. unfold updateStatusesFromMessage, updateStatusFromMember. keyed_tac. Qed.
Hint Resolve keyed_updateStatusesFromMessage : keyed.

Lemma keyed_receiveMessageUDP (msg : message.t) :
  preserves registriesKeyed (receiveMessageUDP msg).
Proof.
  unfold receiveMessageUDP, synchronizeHeartbeats, receiveVerbPingUDP,
    receiveVerbNonForwardPingUDP.
  keyed_tac.
Qed.
Hint Resolve keyed_receiveMessageUDP : keyed.

Lemma keyed_takeLive (count : Z) (randomNodes filteredNodes : list ptr) :
  preserves registriesKeyed (takeLive count randomNodes filteredNodes).
Proof.
  revert filteredNodes. induction randomNodes; intros filteredNodes; cbn [takeLive]; keyed_tac.
Qed.
Hint Resolve keyed_takeLive : keyed.

Lemma keyed_doForwardOnTimeout (pack : pendingAck.t) :
  preserves registriesKeyed (doForwardOnTimeout pack).
Proof. unfold doForwardOnTimeout, getTargetNodes. keyed_tac. Qed.
Hint Resolve keyed_doForwardOnTimeout : keyed.

Lemma keyed_timeoutCheckEntry (k : string) (pack : pendingAck.t) :
  preserves registriesKeyed (timeoutCheckEntry k pack).
Proof. unfold timeoutCheckEntry, nonNil. keyed_tac. Qed.
Hint Resolve keyed_timeoutCheckEntry : keyed.

Lemma keyed_timeoutCheckSweep : preserves registriesKeyed timeoutCheckSweep.
Proof. unfold timeoutCheckSweep. keyed_tac. Qed.
Hint Resolve keyed_timeoutCheckSweep : keyed.

Lemma keyed_visitNode (node : ptr) : preserves registriesKeyed (visitNode node).
Proof. unfold visitNode, backoffDeadNode, sleepHeartbeat. keyed_tac. Qed.
Hint Resolve keyed_visitNode : keyed.

Lemma keyed_visitNodes (nodes : list ptr) (pingCounter : Z) :
  preserves registriesKeyed (visitNodes nodes pingCounter).
Proof.
  revert pingCounter. induction nodes; intros pingCounter; cbn [visitNodes]; keyed_tac.
Qed.
Hint Resolve keyed_visitNodes : keyed.

Lemma keyed_beginRound : preserves registriesKeyed beginRound.
Proof. unfold beginRound, sleepHeartbeat. keyed_tac. Qed.
Hint Resolve keyed_beginRound : keyed.

(** X26: the registries stay keyed by address.  The property that
    every key of the registry and of the updated set is the address of
    the node it leads to is kept by every entry point of the library and
    every loop body of its goroutines: whenever [AddNode], [RemoveNode],
    [UpdateNodeStatus], [PingNode], [getRandomUpdatedNodes], the datagram
    handler [receiveMessageUDP], a sweep of the timeout checker,
    [doForwardOnTimeout] or a round of the failure detector returns from
    a state that has the property, the state it leaves has it.  So no
    node is ever registered under the address of another. *)
Theorem registries_stay_keyed_by_address :
  (forall p, preserves registriesKeyed (AddNode p)) /\
  (forall p, preserves registriesKeyed (RemoveNode p)) /\
  (forall p s, preserves registriesKeyed (UpdateNodeStatus p s)) /\
  (forall p, preserves registriesKeyed (PingNode p)) /\
  (forall size exclude, preserves registriesKeyed (getRandomUpdatedNodes size exclude)) /\
  (forall msg, preserves registriesKeyed (receiveMessageUDP msg)) /\
  preserves registriesKeyed timeoutCheckSweep /\
  (forall pack, preserves registriesKeyed (doForwardOnTimeout pack)) /\
  preserves registriesKeyed beginRound.
Proof.
  split; [exact keyed_AddNode |]. split; [exact keyed_RemoveNode |].
  split; [exact keyed_UpdateNodeStatus |]. split; [exact keyed_PingNode |].
  split; [exact keyed_getRandomUpdatedNodes |]. split; [exact keyed_receiveMessageUDP |].
  split; [exact keyed_timeoutCheckSweep |].
  split; [exact keyed_doForwardOnTimeout | exact keyed_beginRound].
Qed.

(** ** Start-up *)

Context `{TheHost : Host}.

Lemma strings_Split_without (s : string) :
  strings_Contains s colon = false -> strings_Split s colon = [s].
Proof.
  induction s as [| c s IH]; cbn [strings_Contains strings_Split]; [reflexivity |].
  intros Hc. apply orb_false_iff in Hc as [Hc Hs].
  rewrite Hc, (IH Hs). reflexivity.
Qed.

Lemma strings_Split_host_port (host p : string) :
  strings_Contains host colon = false ->
  strings_Contains p colon = false ->
  strings_Contains (host +:+ String colon p) colon = true /\
  strings_Split (host +:+ String colon p) colon = [host; p].
Proof.
  intros Hh Hp.
  induction host as [| c s IH];
    [change ("" +:+ String colon p) with (String colon p)
    | change (String c s +:+ String colon p) with (String c (s +:+ String colon p))];
    cbn [strings_Contains strings_Split].
  - rewrite Ascii.eqb_refl. rewrite (strings_Split_without p Hp). split; reflexivity.
  - cbn [strings_Contains] in Hh. apply orb_false_iff in Hh as [Hc Hs].
    destruct (IH Hs) as [IH1 IH2]. rewrite Hc, IH1, IH2. split; reflexivity.
Qed.

Lemma parseDigits_range (s : string) (n : Z) :
  0 <= n <= 65535 ->
  0 <= fst (strconv.parseDigits s n) <= 65535 /\
  (snd (strconv.parseDigits s n) <> None ->
   fst (strconv.parseDigits s n) = 0 \/ fst (strconv.parseDigits s n) = 65535).
Proof.
  revert n. induction s as [| c s IH]; intros n Hn; cbn [strconv.parseDigits].
  - cbn. split; [lia | congruence].
  - unfold strconv.digit. destruct (decide (48 <= _ <= 57)) as [Hd | Hd].
    + cbn zeta. destruct (decide (_ > 65535)) as [Hbig | Hsmall].
      * cbn. split; [lia | auto].
      * apply IH. lia.
    + cbn. split; [lia | auto].
Qed.

Lemma pretty_N_char_digit (d : N) :
  (d < 10)%N -> strconv.digit (pretty_N_char d) = Some (Z.of_N d).
Proof.
  intros Hd.
  assert (Hcases : d = 0%N \/ d = 1%N \/ d = 2%N \/ d = 3%N \/ d = 4%N \/ d = 5%N \/
                   d = 6%N \/ d = 7%N \/ d = 8%N \/ d = 9%N) by lia.
  repeat (destruct Hcases as [-> | Hcases]; [reflexivity |]). subst d. reflexivity.
Qed.

Lemma parseDigits_pretty (x : N) :
  forall s : string, (Z.of_N x <= 65535) ->
  strconv.parseDigits (pretty_N_go x s) 0 = strconv.parseDigits s (Z.of_N x).
Proof.
  induction (N.lt_wf_0 x) as [x _ IH]. intros s Hx.
  destruct (decide (x = 0%N)) as [-> | Hpos].
  - rewrite pretty_N_go_0. reflexivity.
  - rewrite pretty_N_go_step by lia.
    assert (Hdiv : (x `div` 10 < x)%N) by (apply N.div_lt; lia).
    assert (Hmod : (x `mod` 10 < 10)%N) by (apply N.mod_lt; lia).
    rewrite IH by lia. cbn [strconv.parseDigits].
    rewrite (pretty_N_char_digit _ Hmod). cbn zeta.
    assert (Heq : Z.of_N (x `div` 10) * 10 + Z.of_N (x `mod` 10) = Z.of_N x).
    { rewrite <- (N2Z.inj_mul _ 10), <- N2Z.inj_add. f_equal.
      rewrite N.mul_comm. symmetry. apply N.div_mod. lia. }
    rewrite Heq. destruct (decide (Z.of_N x > 65535)); [lia | reflexivity].
Qed.

Lemma ParseUint16_pretty (n : Z) :
  0 <= n <= 65535 -> strconv.ParseUint16 (pretty n) = (n, None).
Proof.
  intros Hn. destruct n as [| x | x]; [reflexivity | | lia].
  change (pretty (Z.pos x)) with (pretty_N_go (N.pos x) "").
  pose proof (parseDigits_pretty (N.pos x) "" ltac:(lia)) as Hparse.
  cbn [strconv.parseDigits] in Hparse. change (Z.of_N (N.pos x)) with (Z.pos x) in Hparse.
  unfold strconv.ParseUint16. destruct (pretty_N_go (N.pos x) "") eqn:Hs.
  - cbn in Hparse. congruence.
  - exact Hparse.
Qed.

Lemma pretty_N_go_without_colon (x : N) :
  forall s : string, strings_Contains s colon = false ->
  strings_Contains (pretty_N_go x s) colon = false.
Proof.
  induction (N.lt_wf_0 x) as [x _ IH]. intros s Hs.
  destruct (decide (x = 0%N)) as [-> | Hpos].
  - rewrite pretty_N_go_0. exact Hs.
  - rewrite pretty_N_go_step by lia. apply IH; [apply N.div_lt; lia |].
    cbn [strings_Contains]. rewrite Hs, orb_false_r.
    assert (Hmod : (x `mod` 10 < 10)%N) by (apply N.mod_lt; lia).
    revert Hmod. generalize (x `mod` 10)%N. intros d Hd.
    assert (Hcases : d = 0%N \/ d = 1%N \/ d = 2%N \/ d = 3%N \/ d = 4%N \/ d = 5%N \/
                     d = 6%N \/ d = 7%N \/ d = 8%N \/ d = 9%N) by lia.
    repeat (destruct Hcases as [-> | Hcases]; [reflexivity |]). rewrite Hcases. reflexivity.
Qed.

Lemma pretty_without_colon (n : Z) :
  0 <= n -> strings_Contains (pretty n) colon = false.
Proof.
  intros Hn. destruct n as [| x | x]; [reflexivity | | lia].
  change (pretty (Z.pos x)) with (pretty_N_go (N.pos x) "").
  apply pretty_N_go_without_colon. reflexivity.
Qed.

Lemma To4_length (v : net.IP) : net.To4 v = [] \/ length (net.To4 v) = 4%nat.
Proof.
  unfold net.To4. destruct (decide (length v = 4%nat)) as [Hv | _]; [right; exact Hv |].
  destruct (decide _) as [(Hlen & _) | _]; [| left; reflexivity].
  right. rewrite length_drop, Hlen. reflexivity.
Qed.

Lemma To4_four (ip : net.IP) : length ip = 4%nat -> net.To4 ip = ip.
Proof. intros Hip. unfold net.To4. destruct (decide (length ip = 4%nat)); congruence. Qed.

Lemma To4_nil : net.To4 [] = [].
Proof. reflexivity. Qed.

Lemma scanAddrs_result (addrs : list net.Addr) :
  forall (R : net.IP -> Prop) ip0 ip found,
  scanAddrs addrs ip0 = (ip, found) ->
  ip0 = [] \/ (length ip0 = 4%nat /\ net.IsLoopback ip0 = true /\ R ip0) ->
  (found = true ->
   length ip = 4%nat /\ net.IsLoopback ip = false /\ amongAddrs addrs ip) /\
  (found = false ->
   (ip = [] \/ (length ip = 4%nat /\ net.IsLoopback ip = true /\
                (R ip \/ amongAddrs addrs ip))) /\
   (forall ip', amongAddrs addrs ip' -> ip' = [] \/ net.IsLoopback ip' = true)).
Proof.
  induction addrs as [| addr rest IH]; intros R ip0 ip found Hscan Hip0; cbn [scanAddrs] in Hscan.
  - injection Hscan as <- <-. split; [discriminate |]. intros _. split.
    + destruct Hip0 as [-> | (Hlen & Hloop & HR)]; [left; reflexivity | right; auto].
    + intros ip' (v & [Hin | Hin] & _); inversion Hin.
  - set (ip1 := match addr with
                | net.IPNet v => v
                | net.IPAddr v => v
                | net.OtherAddr => ip0
                end) in Hscan.
    cbn zeta in Hscan.
    (* what the address at hand contributes *)
    assert (Hip1 : net.To4 ip1 = [] \/
                   (length (net.To4 ip1) = 4%nat /\
                    ((net.IsLoopback (net.To4 ip1) = true /\ R (net.To4 ip1)) \/
                     amongAddrs (addr :: rest) (net.To4 ip1)))).
    { destruct (To4_length ip1) as [Hnil | Hlen]; [left; exact Hnil | right].
      split; [exact Hlen |]. subst ip1. destruct addr as [v | v |].
      - right. exists v. split; [left; left | reflexivity].
      - right. exists v. split; [right; left | reflexivity].
      - destruct Hip0 as [-> | (Hlen0 & Hloop & HR)]; [discriminate Hlen |].
        rewrite (To4_four _ Hlen0). left. auto. }
    assert (Hhere : forall ip', amongAddrs (addr :: rest) ip' ->
                      ip' = net.To4 ip1 \/ amongAddrs rest ip').
    { intros ip' (v & Hin & ->). subst ip1.
      destruct Hin as [Hin | Hin]; apply elem_of_cons in Hin as [<- | Hin];
        try (left; reflexivity); right; exists v; auto. }
    assert (Hlater : forall ip', amongAddrs rest ip' -> amongAddrs (addr :: rest) ip').
    { intros ip' (v & Hin & ->). exists v. split; [| reflexivity].
      destruct Hin as [Hin | Hin]; [left | right]; right; exact Hin. }
    destruct (decide (net.To4 ip1 = [])) as [Hnil | Hsome].
    + destruct (IH R _ _ _ Hscan (or_introl Hnil)) as [IHt IHf]. split.
      * intros Hf. destruct (IHt Hf) as (? & ? & ?). auto.
      * intros Hf. destruct (IHf Hf) as [Hres Hall]. split.
        -- destruct Hres as [-> | (Hlen & Hl & [HR | Ham])]; [left; reflexivity | right ..].
           ++ auto.
           ++ auto.
        -- intros ip' Hip'. destruct (Hhere ip' Hip') as [-> | Hrest]; [left; exact Hnil |].
           apply Hall, Hrest.
    + destruct Hip1 as [Hnil | (Hlen & Hfrom)]; [contradiction |].
      rewrite bool_decide_eq_false_2 in Hscan by exact Hsome. cbn [orb] in Hscan.
      destruct (net.IsLoopback (net.To4 ip1)) eqn:Hloop.
      * assert (Hinv : net.To4 ip1 = [] \/
                       (length (net.To4 ip1) = 4%nat /\ net.IsLoopback (net.To4 ip1) = true /\
                        (R (net.To4 ip1) \/ amongAddrs (addr :: rest) (net.To4 ip1)))).
        { right. repeat split; try assumption.
          destruct Hfrom as [[_ HR] | Ham]; auto. }
        destruct (IH (fun ip => R ip \/ amongAddrs (addr :: rest) ip) _ _ _ Hscan Hinv)
          as [IHt IHf]. split.
        -- intros Hf. destruct (IHt Hf) as (? & ? & ?). auto.
        -- intros Hf. destruct (IHf Hf) as [Hres Hall]. split.
           ++ destruct Hres as [-> | (Hl4 & Hl & [[HR | Ham] | Ham])];
                [left; reflexivity | right; auto ..].
           ++ intros ip' Hip'. destruct (Hhere ip' Hip') as [-> | Hrest]; [right; exact Hloop |].
              apply Hall, Hrest.
      * injection Hscan as <- <-. split; [| discriminate]. intros _.
        repeat split; try assumption.
        destruct Hfrom as [[Habs _] | Ham]; [congruence | exact Ham].
Qed.

Lemma eligible_unless_skipped (iface : net.Interface) :
  Z.land (net.Flags iface) net.FlagUp ≠ 0 ->
  ¬ Z.land (net.Flags iface) net.FlagLoopback ≠ 0 ->
  strings_HasPrefix (net.Name iface) "docker" || strings_HasPrefix (net.Name iface) "w-" = false ->
  eligible iface.
Proof.
  intros Hup Hloop Hname. apply orb_false_iff in Hname as [Hd Hw].
  repeat split; try assumption.
  destruct (decide (Z.land (net.Flags iface) net.FlagLoopback = 0)); [assumption | contradiction].
Qed.

Lemma scanInterfaces_result (ifaces : list net.Interface) :
  forall (R : net.IP -> Prop) ip0 ip err,
  scanInterfaces ifaces ip0 = (ip, err) ->
  ip0 = [] \/ (length ip0 = 4%nat /\ net.IsLoopback ip0 = true /\ R ip0) ->
  (forall e, err = Some e -> exists what, e = netError what) /\
  (err = None ->
   (ip = [] \/
    (length ip = 4%nat /\
     (R ip \/ exists iface, iface ∈ ifaces /\ eligible iface /\ offers iface ip))) /\
   (ip = [] \/ net.IsLoopback ip = true ->
    forall iface ip', iface ∈ ifaces -> eligible iface -> offers iface ip' ->
      ip' = [] \/ net.IsLoopback ip' = true)).
Proof.
  induction ifaces as [| iface rest IH]; intros R ip0 ip err Hscan Hip0;
    cbn [scanInterfaces] in Hscan.
  - injection Hscan as <- <-. split; [discriminate |]. intros _. split.
    + destruct Hip0 as [-> | (Hlen & _ & HR)]; [left; reflexivity | right; auto].
    + intros _ iface ip' Hin. inversion Hin.
  - (* an interface that is passed over *)
    assert (Hskip : ¬ eligible iface -> scanInterfaces rest ip0 = (ip, err) ->
              (forall e, err = Some e -> exists what, e = netError what) /\
              (err = None ->
               (ip = [] \/
                (length ip = 4%nat /\
                 (R ip \/ exists iface', iface' ∈ iface :: rest /\ eligible iface' /\
                                         offers iface' ip))) /\
               (ip = [] \/ net.IsLoopback ip = true ->
                forall iface' ip', iface' ∈ iface :: rest -> eligible iface' ->
                  offers iface' ip' -> ip' = [] \/ net.IsLoopback ip' = true))).
    { intros Hnot Hrest. destruct (IH R _ _ _ Hrest Hip0) as [IHe IHn].
      split; [exact IHe |]. intros Herr. destruct (IHn Herr) as [Hres Hall]. split.
      - destruct Hres as [-> | (Hlen & [HR | (i & Hi & He & Ho)])];
          [left; reflexivity | right; auto |].
        right. split; [exact Hlen |]. right. exists i. split; [right; exact Hi | auto].
      - intros Hip iface' ip' Hin He Ho. apply elem_of_cons in Hin as [-> | Hin];
          [contradiction |]. exact (Hall Hip iface' ip' Hin He Ho). }
    destruct (decide (Z.land (net.Flags iface) net.FlagUp = 0)) as [Hdown | Hup].
    { apply Hskip; [| exact Hscan]. intros (Habs & _). contradiction. }
    destruct (decide (Z.land (net.Flags iface) net.FlagLoopback ≠ 0)) as [Hloop | Hloop].
    { apply Hskip; [| exact Hscan]. intros (_ & Habs & _). contradiction. }
    destruct (strings_HasPrefix (net.Name iface) "docker" ||
              strings_HasPrefix (net.Name iface) "w-") eqn:Hname.
    { apply Hskip; [| exact Hscan]. intros (_ & _ & Hd & Hw). rewrite Hd, Hw in Hname.
      discriminate Hname. }
    pose proof (eligible_unless_skipped iface Hup Hloop Hname) as Hel.
    destruct (net.Addrs iface) as [addrs | failure] eqn:Haddrs.
    + destruct (scanAddrs addrs ip0) as [ip1 found] eqn:Hinner.
      destruct (scanAddrs_result addrs R ip0 ip1 found Hinner Hip0) as [Hfound Hnone].
      destruct found.
      * injection Hscan as <- <-. destruct (Hfound eq_refl) as (Hlen & Hl & Ham).
        split; [discriminate |]. intros _. split.
        -- right. split; [exact Hlen |]. right. exists iface.
           split; [left |]. split; [exact Hel |]. exists addrs. auto.
        -- intros [-> | Habs]; [discriminate Hlen | congruence].
      * destruct (Hnone eq_refl) as [Hres Hall].
        assert (Hinv : ip1 = [] \/
                       (length ip1 = 4%nat /\ net.IsLoopback ip1 = true /\
                        (R ip1 \/ amongAddrs addrs ip1))) by exact Hres.
        destruct (IH (fun ip => R ip \/ amongAddrs addrs ip) _ _ _ Hscan Hinv) as [IHe IHn].
        split; [exact IHe |]. intros Herr. destruct (IHn Herr) as [Hresult Hothers]. split.
        -- destruct Hresult as [-> | (Hlen & [[HR | Ham] | (i & Hi & He & Ho)])];
             [left; reflexivity | right; auto | |].
           ++ right. split; [exact Hlen |]. right. exists iface.
              split; [left |]. split; [exact Hel |]. exists addrs. auto.
           ++ right. split; [exact Hlen |]. right. exists i. split; [right; exact Hi | auto].
        -- intros Hip iface' ip' Hin He Ho. apply elem_of_cons in Hin as [-> | Hin].
           ++ destruct Ho as (addrs' & Ha' & Ham). rewrite Haddrs in Ha'.
              injection Ha' as <-. exact (Hall ip' Ham).
           ++ exact (Hothers Hip iface' ip' Hin He Ho).
    + injection Hscan as <- <-. split; [| discriminate].
      intros e He. injection He as <-. eauto.
Qed.

Lemma GetLocalIP_error (e : startupError) :
  snd GetLocalIP = Some e -> exists what, e = netError what.
Proof.
  unfold GetLocalIP. destruct Interfaces as [ifaces | failure].
  - destruct (scanInterfaces ifaces []) as [ip err] eqn:Hscan. cbn [snd]. intros ->.
    destruct (scanInterfaces_result ifaces (fun _ => True) [] ip (Some e) Hscan (or_introl eq_refl))
      as [He _].
    exact (He e eq_refl).
  - cbn [snd]. intros He. injection He as <-. eauto.
Qed.

(** X20: when [GetLocalIP] returns without an error, the address is
    nil or the four-byte form of an address of an interface that is up,
    is not a loopback interface and is not a docker or warden bridge;
    and it is nil or a loopback address only when no such interface
    offers an IPv4 address that is not a loopback address. *)
Theorem GetLocalIP_examines_eligible_interfaces
    (ifaces : list net.Interface) (ip : net.IP) :
  Interfaces = inl ifaces ->
  GetLocalIP = (ip, None) ->
  (ip = [] \/
   (length ip = 4%nat /\
    exists iface, iface ∈ ifaces /\ eligible iface /\ offers iface ip)) /\
  (ip = [] \/ net.IsLoopback ip = true ->
   forall iface ip', iface ∈ ifaces -> eligible iface -> offers iface ip' ->
     ip' = [] \/ net.IsLoopback ip' = true).
Proof.
  intros Hifaces Hlocal. unfold GetLocalIP in Hlocal. rewrite Hifaces in Hlocal.
  destruct (scanInterfaces_result ifaces (fun _ => False) [] ip None Hlocal (or_introl eq_refl))
    as [_ Hnone].
  destruct (Hnone eq_refl) as [Hres Hall]. split; [| exact Hall].
  destruct Hres as [-> | (Hlen & [[] | Hex])]; [left; reflexivity | right; auto].
Qed.

(** X21: the error [parseNodeAddress] returns is never the one about
    the colons nor the one of [strconv.ParseUint]: the assignment of the
    result of [net.LookupIP] replaces them, so an error is always one of
    the network functions. *)
Theorem parseNodeAddress_reports_network_errors_only
    (hostAndMaybePort : string) (e : startupError) :
  parsedErr (parseNodeAddress hostAndMaybePort) = Some e ->
  exists what : string, e = netError what.
Proof.
  unfold parseNodeAddress.
  destruct (if strings_Contains hostAndMaybePort colon then _ else _) as [[host port] err0].
  destruct (LookupIP host) as [ips | failure]; cbn [parsedErr].
  - destruct (net.IsLoopback (lastIPv4 ips [])); cbn [parsedErr]; [| discriminate].
    destruct GetLocalIP as [ip err] eqn:Hlocal.
    pose proof (GetLocalIP_error e) as Hnet. rewrite Hlocal in Hnet. cbn [snd] in Hnet.
    destruct (decide (ip = [])); cbn [parsedErr]; exact Hnet.
  - intros He. injection He as <-. eauto.
Qed.

Ltac parse_port_tail :=
  cbv beta iota zeta;
  destruct (LookupIP _) as [? | ?]; cbn [parsedPort]; [| reflexivity];
  destruct (net.IsLoopback _); cbn [parsedPort]; [| reflexivity];
  destruct GetLocalIP as [? ?];
  match goal with |- context [decide (?a = [])] => destruct (decide (a = [])) end;
  reflexivity.

Lemma parseNodeAddress_without_colon (s : string) :
  strings_Contains s colon = false ->
  parsedPort (parseNodeAddress s) = wrap16 GetListenPort.
Proof. intros Hs. unfold parseNodeAddress. rewrite Hs. parse_port_tail. Qed.

Lemma parseNodeAddress_host_port (host p : string) :
  strings_Contains host colon = false ->
  strings_Contains p colon = false ->
  parsedPort (parseNodeAddress (host +:+ String colon p)) =
    wrap16 (fst (strconv.ParseUint16 p)).
Proof.
  intros Hh Hp. destruct (strings_Split_host_port host p Hh Hp) as [Hc Hs].
  unfold parseNodeAddress. rewrite Hc. cbn zeta. rewrite Hs.
  cbn [length lookup list_lookup default from_option id].
  destruct (decide (2%nat = 2%nat)) as [_ | ?]; [| congruence].
  destruct (strconv.ParseUint16 p) as [v e]. cbn [fst]. parse_port_tail.
Qed.

Lemma ParseUint16_range (p : string) :
  0 <= fst (strconv.ParseUint16 p) <= 65535 /\
  (snd (strconv.ParseUint16 p) <> None ->
   fst (strconv.ParseUint16 p) = 0 \/ fst (strconv.ParseUint16 p) = 65535).
Proof.
  unfold strconv.ParseUint16. destruct p as [| c p].
  - cbn. split; [lia | auto].
  - apply parseDigits_range. lia.
Qed.

(** X22: the port [parseNodeAddress] returns.  Without a colon it is
    the listen port, as a [uint16]; for a host and a port with one
    colon between them it is the value of [strconv.ParseUint], and
    when that reports an error the port is 0 or 65535. *)
Theorem parseNodeAddress_port (host p : string) :
  strings_Contains host colon = false ->
  strings_Contains p colon = false ->
  parsedPort (parseNodeAddress host) = wrap16 GetListenPort /\
  parsedPort (parseNodeAddress (host +:+ ":" +:+ p)) = fst (strconv.ParseUint16 p) /\
  0 <= parsedPort (parseNodeAddress (host +:+ ":" +:+ p)) <= 65535 /\
  (snd (strconv.ParseUint16 p) <> None ->
   parsedPort (parseNodeAddress (host +:+ ":" +:+ p)) = 0 \/
   parsedPort (parseNodeAddress (host +:+ ":" +:+ p)) = 65535).
Proof.
  intros Hh Hp. split.
  - apply parseNodeAddress_without_colon, Hh.
  - change (":" +:+ p) with (String colon p).
    rewrite (parseNodeAddress_host_port host p Hh Hp).
    destruct (ParseUint16_range p) as [Hrange Herr].
    unfold wrap16. rewrite Z.mod_small by lia. auto.
Qed.

Lemma strings_Contains_append (a b : string) (c : Ascii.ascii) :
  strings_Contains (a +:+ b) c = strings_Contains a c || strings_Contains b c.
Proof.
  induction a as [| x a IH]; [reflexivity |].
  change (String x a +:+ b) with (String x (a +:+ b)). cbn [strings_Contains].
  rewrite IH, orb_assoc. reflexivity.
Qed.

Lemma pretty_Z_without_colon (n : Z) : strings_Contains (pretty n) colon = false.
Proof.
  destruct n as [| x | x]; [reflexivity | |].
  - change (pretty (Z.pos x)) with (pretty_N_go (N.pos x) "").
    apply pretty_N_go_without_colon. reflexivity.
  - change (pretty (Z.neg x)) with ("-" +:+ pretty_N_go (N.pos x) "").
    rewrite strings_Contains_append, pretty_N_go_without_colon by reflexivity. reflexivity.
Qed.

Lemma concat_without_colon (l : list string) :
  Forall (fun s => strings_Contains s colon = false) l ->
  strings_Contains (String.concat "." l) colon = false.
Proof.
  induction 1 as [| s l Hs Hl IH]; [reflexivity |].
  cbn [String.concat]. destruct l as [| s' l']; [exact Hs |].
  rewrite !strings_Contains_append, Hs, IH. reflexivity.
Qed.

(** X23: parsing the address of a node gives back the port of the
    node: the decimal rendering of a port below 65536 is read back by
    [strconv.ParseUint]. *)
Theorem parseNodeAddress_Address_port (n : Node.t) :
  0 <= Node.port n <= 65535 ->
  parsedPort (parseNodeAddress (Node.Address n)) = Node.port n.
Proof.
  intros Hport. unfold Node.Address.
  change (":" +:+ pretty (Node.port n)) with (String colon (pretty (Node.port n))).
  rewrite parseNodeAddress_host_port.
  - rewrite (ParseUint16_pretty _ Hport). cbn [fst]. unfold wrap16. apply Z.mod_small. lia.
  - apply concat_without_colon, Forall_fmap, Forall_forall. intros b _.
    apply pretty_Z_without_colon.
  - apply pretty_Z_without_colon.
Qed.

Lemma fresh_heap (w : World) : heap w !! fresh (dom (heap w)) = None.
Proof. apply not_elem_of_dom, is_fresh. Qed.

Lemma CreateNodeByIP_Ok (ip : net.IP) (port : Z) (w : World) :
  CreateNodeByIP ip port w =
    Ok (fresh (dom (heap w)))
       (set_heap <[fresh (dom (heap w)) :=
                    Node.mk ip port StatusUnknown 0 (wrap32 (millis (ticks w))) PingNoData 0]>
          (set_ticks (S (ticks w)) w)).
Proof. reflexivity. Qed.

Lemma wellFormed_alloc (w : World) (n : Node.t) :
  wellFormed w ->
  wellFormed (set_heap <[fresh (dom (heap w)) := n]> (set_ticks (S (ticks w)) w)).
Proof.
  apply wellFormed_ext; try reflexivity; [| auto].
  intros q Hq. world_proj. rewrite lookup_insert_ne; [exact Hq |].
  intros Heq. rewrite <- Heq, fresh_heap in Hq. destruct Hq as [? Hq]. discriminate Hq.
Qed.

(** Adding a host by its address: [CreateNodeByAddress], then
    [AddNode] when there is no error. *)
Lemma addInitialHost_step (w : World) (lines : list StartupLine) (address : string) :
  match parsedErr (parseNodeAddress address) with
  | Some err =>
      addInitialHost lines address w =
        Ok (lines ++ parsedLog (parseNodeAddress address) ++ [CouldNotCreateNode address err]) w
  | None =>
      exists (p : ptr) (w' : World),
        addInitialHost lines address w =
          Ok (lines ++ parsedLog (parseNodeAddress address)) w' /\
        heap w !! p = None /\
        (forall q, q ≠ p -> heap w' !! q = heap w !! q) /\
        thisHost w' = thisHost w /\
        runningFlag w' = runningFlag w /\
        (wellFormed w -> wellFormed w') /\
        (forall a r, knownNodes w !! a = Some r -> knownNodes w' !! a = Some r) /\
        let key := Node.Address
                     (Node.mk (parsedIP (parseNodeAddress address))
                        (parsedPort (parseNodeAddress address)) StatusUnknown 0 0 0 0) in
        match knownNodes w !! key with
        | Some _ => knownNodes w' = knownNodes w
        | None =>
            knownNodes w' = <[key := p]> (knownNodes w) /\
            exists n : Node.t,
              heap w' !! p = Some n /\ Node.Address n = key /\
              Node.status n = StatusAlive /\ Node.heartbeat n = 0
        end
  end.
Proof.
  unfold addInitialHost, CreateNodeByAddress.
  destruct (parsedErr (parseNodeAddress address)) as [err |] eqn:Herr; [reflexivity |].
  set (parsed := parseNodeAddress address).
  pose (p := fresh (dom (heap w))).
  pose (node := Node.mk (parsedIP parsed) (parsedPort parsed) StatusUnknown 0
                 (wrap32 (millis (ticks w))) PingNoData 0).
  pose (w1 := set_heap <[p := node]> (set_ticks (S (ticks w)) w)).
  assert (Hcreate : CreateNodeByIP (parsedIP parsed) (parsedPort parsed) w = Ok p w1)
    by apply CreateNodeByIP_Ok.
  assert (Hp1 : heap w1 !! p = Some node) by (subst w1; world_proj; apply lookup_insert_eq).
  assert (Hk1 : knownNodes w1 = knownNodes w) by reflexivity.
  assert (Hothers1 : forall q, q ≠ p -> heap w1 !! q = heap w !! q).
  { intros q Hq. subst w1. world_proj. apply lookup_insert_ne. congruence. }
  assert (Hwf1 : wellFormed w -> wellFormed w1) by apply wellFormed_alloc.
  rewrite bind_assoc, (bind_Ok _ _ _ _ _ Hcreate). cbn zeta.
  change (Node.Address (Node.mk (parsedIP parsed) (parsedPort parsed) StatusUnknown 0 0 0 0))
    with (Node.Address node).
  destruct (knownNodes w !! Node.Address node) as [r0 |] eqn:Hk.
  - assert (Hadd : AddNode p w1 = Ok p w1).
    { apply (AddNode_known w1 p node Hp1). rewrite Hk1, Hk. eauto. }
    exists p, w1. split.
    { unfold mret, Go_ret, mbind, Go_bind. cbn beta iota. rewrite Hadd. reflexivity. }
    split; [apply fresh_heap |]. auto 10.
  - destruct (AddNode_adds w1 p node Hp1) as
      (w' & n' & Hadd & Hn' & Ha' & Hs' & Hh' & Hk' & _ & Hothers & _ & _ & Hth & Hrun & _);
      [rewrite Hk1; exact Hk | discriminate |].
    exists p, w'. split.
    { unfold mret, Go_ret, mbind, Go_bind. cbn beta iota. rewrite Hadd. reflexivity. }
    split; [apply fresh_heap |]. split.
    { intros q Hq. rewrite (Hothers q Hq). apply Hothers1, Hq. }
    split; [exact Hth |]. split; [exact Hrun |]. split.
    { intros Hwf. exact (wellFormed_AddNode p w1 p w' (Hwf1 Hwf) Hadd). }
    split.
    { intros a r Hr. rewrite Hk', Hk1. rewrite lookup_insert_ne; [exact Hr | congruence]. }
    rewrite Hk', Hk1. split; [reflexivity |]. exists n'. auto.
Qed.

(** X24: adding a host by its address.  When the address gives an
    error, nothing changes but the line that is logged.  Otherwise a
    node that was not in the heap is made; when its address is not
    registered it is registered Alive with heartbeat 0, and when the
    address is registered the registry stays as it is; the nodes there
    were are left alone. *)
Theorem addInitialHost_registers_by_address
    (w : World) (lines : list StartupLine) (address : string) :
  match parsedErr (parseNodeAddress address) with
  | Some err =>
      addInitialHost lines address w =
        Ok (lines ++ parsedLog (parseNodeAddress address) ++ [CouldNotCreateNode address err]) w
  | None =>
      exists (p : ptr) (w' : World),
        addInitialHost lines address w =
          Ok (lines ++ parsedLog (parseNodeAddress address)) w' /\
        heap w !! p = None /\
        (forall q, q ≠ p -> heap w' !! q = heap w !! q) /\
        let key := Node.Address
                     (Node.mk (parsedIP (parseNodeAddress address))
                        (parsedPort (parseNodeAddress address)) StatusUnknown 0 0 0 0) in
        match knownNodes w !! key with
        | Some _ => knownNodes w' = knownNodes w
        | None =>
            knownNodes w' = <[key := p]> (knownNodes w) /\
            exists n : Node.t,
              heap w' !! p = Some n /\ Node.Address n = key /\
              Node.status n = StatusAlive /\ Node.heartbeat n = 0
        end
  end.
Proof.
  pose proof (addInitialHost_step w lines address) as Hstep.
  destruct (parsedErr (parseNodeAddress address)); [exact Hstep |].
  destruct Hstep as (p & w' & Hrun & Hnew & Hothers & _ & _ & _ & _ & Hreg).
  exists p, w'. auto.
Qed.

Lemma initialHosts_loop (hosts : list string) :
  forall (lines : list StartupLine) (w : World),
  wellFormed w ->
  exists (lines' : list StartupLine) (w' : World),
    forEachAcc hosts lines addInitialHost w = Ok lines' w' /\
    (exists more : list StartupLine, lines' = lines ++ more) /\
    wellFormed w' /\
    thisHost w' = thisHost w /\
    runningFlag w' = runningFlag w /\
    (forall q, is_Some (heap w !! q) -> heap w' !! q = heap w !! q) /\
    (forall a r, knownNodes w !! a = Some r -> knownNodes w' !! a = Some r).
Proof.
  induction hosts as [| address rest IH]; intros lines w Hwf; cbn [forEachAcc].
  - exists lines, w. split; [reflexivity |]. split; [exists []; symmetry; apply app_nil_r |].
    auto 10.
  - pose proof (addInitialHost_step w lines address) as Hstep.
    destruct (parsedErr (parseNodeAddress address)) as [err |].
    + rewrite (bind_Ok _ _ _ _ _ Hstep).
      destruct (IH (lines ++ parsedLog (parseNodeAddress address) ++
                    [CouldNotCreateNode address err]) w Hwf)
        as (lines' & w' & Hloop & (more & Hmore) & Hrest).
      exists lines', w'. split; [exact Hloop |]. split; [| exact Hrest].
      eexists. rewrite Hmore, <- app_assoc. reflexivity.
    + destruct Hstep as (p & w1 & Hrun & Hnew & Hothers & Hth & Hflag & Hwf1 & Hmono & _).
      rewrite (bind_Ok _ _ _ _ _ Hrun).
      destruct (IH (lines ++ parsedLog (parseNodeAddress address)) w1 (Hwf1 Hwf))
        as (lines' & w' & Hloop & (more & Hmore) & Hwf' & Hth' & Hflag' & Hheap' & Hmono').
      exists lines', w'. split; [exact Hloop |].
      split; [eexists; rewrite Hmore, <- app_assoc; reflexivity |]. split; [exact Hwf' |].
      split; [congruence |]. split; [congruence |]. split.
      * intros q Hq. assert (Hne : q ≠ p).
        { intros ->. rewrite Hnew in Hq. destruct Hq as [? Hq]. discriminate Hq. }
        rewrite Hheap' by (rewrite (Hothers q Hne); exact Hq). exact (Hothers q Hne).
      * auto.
Qed.

(** X25: the start of [Begin].  When [GetLocalIP] gives an error,
    [Begin] logs it and returns with nothing changed.  Otherwise it
    goes on to its loop with the running flag set and with this host a
    new node of the heap that is Alive with heartbeat 0 and whose
    address, the local address or 127.0.0.1 with the listen port, is
    registered; the registries name no node that is not in the heap,
    and what was registered still is. *)
Theorem beginPrologue_registers_this_host (w : World) :
  (forall a p, knownNodes w !! a = Some p -> is_Some (heap w !! p)) ->
  (forall a p, updatedNodes w !! a = Some p -> is_Some (heap w !! p)) ->
  match snd GetLocalIP with
  | Some e => beginPrologue w = Ok ([CouldNotGetLocalIP e], false) w
  | None =>
      exists (lines : list StartupLine) (w' : World) (me : Node.t),
        beginPrologue w = Ok (lines, true) w' /\
        runningFlag w' = true /\
        heap w !! thisHost w' = None /\
        heap w' !! thisHost w' = Some me /\
        Node.status me = StatusAlive /\
        Node.heartbeat me = 0 /\
        Node.Address me =
          Node.Address
            (Node.mk (if decide (fst GetLocalIP = []) then [127; 0; 0; 1] else fst GetLocalIP)
               (wrap16 GetListenPort) StatusUnknown 0 0 0 0) /\
        is_Some (knownNodes w' !! Node.Address me) /\
        MyHostAddress (Node.Address me) ∈ lines /\
        wellFormed w' /\
        (forall a p, knownNodes w !! a = Some p -> knownNodes w' !! a = Some p)
  end.
Proof.
  intros Hknown Hupdated. unfold beginPrologue.
  destruct GetLocalIP as [ip err]. cbn [fst snd]. destruct err as [e |]; [reflexivity |].
  assert (Hmain : forall (ip0 : net.IP) (lines0 : list StartupLine),
    exists (lines : list StartupLine) (w' : World) (me : Node.t),
      (now ← GetNowInMillis;
       me ← alloc (Node.mk ip0 (wrap16 GetListenPort) StatusUnknown 0 now PingNoData 0);
       thisHostAddress ← Address me;
       modify (set_thisHost me) ;;
       updateNodeStatus me StatusAlive 0 ;;
       AddNode me ;;
       modify (set_runningFlag true) ;;
       lines ← forEachAcc GetInitialHosts
                 (lines0 ++ [MyHostAddress thisHostAddress; GoListenUDP GetListenPort])
                 addInitialHost;
       mret (lines ++ [GoStartTimeoutCheckLoop], true)) w = Ok (lines, true) w' /\
      runningFlag w' = true /\
      heap w !! thisHost w' = None /\
      heap w' !! thisHost w' = Some me /\
      Node.status me = StatusAlive /\
      Node.heartbeat me = 0 /\
      Node.Address me =
        Node.Address (Node.mk ip0 (wrap16 GetListenPort) StatusUnknown 0 0 0 0) /\
      is_Some (knownNodes w' !! Node.Address me) /\
      MyHostAddress (Node.Address me) ∈ lines /\
      wellFormed w' /\
      (forall a p, knownNodes w !! a = Some p -> knownNodes w' !! a = Some p)).
  { intros ip0 lines0.
    pose (p := fresh (dom (heap w))).
    pose (node := Node.mk ip0 (wrap16 GetListenPort) StatusUnknown 0
                    (wrap32 (millis (ticks w))) PingNoData 0).
    pose (w3 := set_thisHost p (set_heap <[p := node]> (set_ticks (S (ticks w)) w))).
    assert (Hfresh : heap w !! p = None) by apply fresh_heap.
    assert (Hp3 : heap w3 !! p = Some node).
    { subst w3. unfold set_thisHost. world_proj. apply lookup_insert_eq. }
    assert (Hheap3 : forall q, is_Some (heap w !! q) -> is_Some (heap w3 !! q)).
    { intros q Hq. subst w3. unfold set_thisHost. world_proj.
      rewrite lookup_insert_ne; [exact Hq |].
      intros Heq. rewrite <- Heq, Hfresh in Hq. destruct Hq as [? Hq]. discriminate Hq. }
    assert (Hwf3 : wellFormed w3).
    { split; [| split].
      - change (thisHost w3) with p. rewrite Hp3. eauto.
      - intros a q Hq. apply Hheap3. exact (Hknown a q Hq).
      - intros a q Hq. apply Hheap3. exact (Hupdated a q Hq). }
    (* this node's status *)
    pose proof (updateNodeStatus_changed w3 p node StatusAlive 0 Hp3 ltac:(discriminate)) as Hupd.
    match type of Hupd with _ = Ok tt ?x => set (w4 := x) in Hupd end.
    pose (node4 := Node.mk ip0 (wrap16 GetListenPort) StatusAlive 0
                     (wrap32 (millis (ticks w3))) PingNoData
                     (wrap8 (lambdaLogCount (size (knownNodes w3))))).
    assert (Hp4 : heap w4 !! p = Some node4).
    { subst w4. world_proj. apply lookup_insert_eq. }
    assert (Hwf4 : wellFormed w4) by exact (wellFormed_updateNodeStatus _ _ _ w3 tt w4 Hwf3 Hupd).
    assert (Hth4 : thisHost w4 = p) by reflexivity.
    assert (Hk4 : knownNodes w4 = knownNodes w) by reflexivity.
    (* the registration *)
    assert (Hadd : exists (w5 : World) (n5 : Node.t),
              AddNode p w4 = Ok p w5 /\ heap w5 !! p = Some n5 /\
              Node.status n5 = StatusAlive /\ Node.heartbeat n5 = 0 /\
              Node.Address n5 = Node.Address node4 /\ thisHost w5 = p /\
              is_Some (knownNodes w5 !! Node.Address node4) /\
              (forall a r, knownNodes w !! a = Some r -> knownNodes w5 !! a = Some r)).
    { destruct (knownNodes w4 !! Node.Address node4) as [r0 |] eqn:Hk.
      - exists w4, node4. split; [apply (AddNode_known w4 p node4 Hp4); eauto |].
        rewrite Hk, Hk4. repeat split; eauto.
      - destruct (AddNode_adds w4 p node4 Hp4 Hk ltac:(discriminate))
          as (w5 & n5 & Hrun & Hn5 & Ha5 & Hs5 & Hh5 & Hk5 & _ & _ & _ & _ & Hth5 & _).
        exists w5, n5. split; [exact Hrun |]. rewrite Hk5, lookup_insert_eq.
        repeat split; eauto; try congruence.
        intros a r Hr. rewrite lookup_insert_ne; [rewrite Hk4; exact Hr |].
        intros Heq. rewrite Heq, Hk4, Hr in Hk. discriminate Hk. }
    destruct Hadd as (w5 & n5 & Hrun5 & Hn5 & Hs5 & Hh5 & Ha5 & Hth5 & Hreg5 & Hmono5).
    assert (Hwf5 : wellFormed w5) by exact (wellFormed_AddNode p w4 p w5 Hwf4 Hrun5).
    pose (w6 := set_runningFlag true w5).
    assert (Hwf6 : wellFormed w6) by exact Hwf5.
    destruct (initialHosts_loop GetInitialHosts
                (lines0 ++ [MyHostAddress (Node.Address node); GoListenUDP GetListenPort])
                w6 Hwf6)
      as (lines & w7 & Hloop & (more & Hmore) & Hwf7 & Hth7 & Hflag7 & Hheap7 & Hmono7).
    exists (lines ++ [GoStartTimeoutCheckLoop]), w7, n5.
    split.
    { go_step. rewrite (bind_Ok (alloc _) _ _ _ _ eq_refl).
      erewrite (bind_Ok (Address _)) by (apply Address_Ok; exact Hp3). cbv beta.
      go_step. fold p node w3.
      rewrite (bind_Ok _ _ _ _ _ Hupd), (bind_Ok _ _ _ _ _ Hrun5). go_step. fold w6.
      rewrite (bind_Ok _ _ _ _ _ Hloop). reflexivity. }
    assert (Hth6 : thisHost w7 = p) by (rewrite Hth7; exact Hth5).
    assert (Ha : Node.Address n5 = Node.Address node) by (rewrite Ha5; reflexivity).
    split; [rewrite Hflag7; reflexivity |].
    rewrite Hth6. split; [exact Hfresh |].
    split; [rewrite Hheap7; [exact Hn5 | change (heap w6) with (heap w5); eauto] |].
    split; [exact Hs5 |]. split; [exact Hh5 |]. split; [exact Ha |].
    split.
    { destruct Hreg5 as [r Hr]. exists r. apply Hmono7. rewrite Ha5. exact Hr. }
    split.
    { rewrite Hmore, Ha. apply elem_of_app. left. apply elem_of_app. left.
      apply elem_of_app. right. left. }
    split; [exact Hwf7 |].
    intros a r Hr. apply Hmono7. exact (Hmono5 a r Hr). }
  destruct (decide (ip = [])); apply Hmain.
Qed.
End Properties.

(** * The code run on the concrete cluster *)

#[local] Existing Instance Demo.collaborators.

(** A datagram from a peer a million beats ahead, received by the
    cluster whose heartbeat is 50: the handler returns and the heartbeat
    is 999999. *)
Example heartbeat_sync_scenario :
  exists w' : World,
    receiveMessageUDP (message.mk verbPing 2%positive 1000000 [] None) Demo.cluster
      = Ok None w' /\
    currentHeartbeat w' = 999999.
Proof. eexists. split; [vm_compute; reflexivity | reflexivity]. Qed.

(** C2: where the code departs from "exactly once".  The Ack sent to
    the first peer carries the second peer as its only member; that
    node's emit counter was 3 and is 1 after the transmission: it is
    decremented in the loop that attaches the members and again in the
    loop over [msg.members] after the write. *)
Theorem transmit_decrements_attached_member_twice :
  Demo.nodeAfter (Ok tt Demo.cluster) 3%positive Node.emitCounter = Some 3 /\
  Demo.datagramsOf (transmitVerbAckUDP 2%positive 5 Demo.cluster)
    = [("10.0.0.2:9999", [3%positive])] /\
  Demo.nodeAfter (transmitVerbAckUDP 2%positive 5 Demo.cluster) 3%positive Node.emitCounter
    = Some 1.
Proof. vm_compute. repeat split. Qed.

Lemma updateNodeStatus_same_status_noop_witness :
  heap Demo.cluster !! 2%positive = Some (Demo.nodeAt 2 StatusAlive 100 0) /\
  Node.status (Demo.nodeAt 2 StatusAlive 100 0) = StatusAlive /\
  updateNodeStatus 2%positive StatusAlive 7 Demo.cluster = Ok tt Demo.cluster.
Proof.
  split; [reflexivity |]. split; [reflexivity |].
  apply (updateNodeStatus_same_status_noop Demo.cluster 2%positive
           (Demo.nodeAt 2 StatusAlive 100 0) StatusAlive 7); reflexivity.
Defined.

(** The claim C1 fails where the status changes: the first peer is known
    with heartbeat 100; marking it Dead with heartbeat 50 returns, and
    its heartbeat is then 50. *)
Lemma heartbeat_lowered_by_updateNodeStatus :
  Node.heartbeat <$> heap Demo.cluster !! 2%positive = Some 100 /\
  50 < 100 /\
  exists w' : World,
    updateNodeStatus 2%positive StatusDead 50 Demo.cluster = Ok tt w' /\
    Node.heartbeat <$> heap w' !! 2%positive = Some 50 /\
    Node.heartbeat <$> heap w' !! 2%positive ≠ Node.heartbeat <$> heap Demo.cluster !! 2%positive.
Proof.
  split; [reflexivity |]. split; [lia |].
  eexists. split; [vm_compute; reflexivity |].
  split; [vm_compute; reflexivity |]. vm_compute. discriminate.
Qed.

Lemma heartbeat_decrease_dropped_by_merge_only_witness :
  heap Demo.cluster !! 2%positive = Some (Demo.nodeAt 2 StatusAlive 100 0) /\
  50 < Node.heartbeat (Demo.nodeAt 2 StatusAlive 100 0) /\
  updateNodeStatus 2%positive StatusAlive 50 Demo.cluster = Ok tt Demo.cluster.
Proof.
  split; [reflexivity |]. split; [cbn; lia |].
  apply (heartbeat_decrease_dropped_by_merge_only Demo.cluster 2%positive
           (Demo.nodeAt 2 StatusAlive 100 0) 50); [reflexivity | cbn; lia].
Defined.

Lemma dead_record_about_self_ignored_witness :
  heap Demo.cluster !! messageMember.node Demo.deadSelfRecord
    = Some (Demo.nodeAt 1 StatusAlive 0 0) /\
  heap Demo.cluster !! thisHost Demo.cluster = Some (Demo.nodeAt 1 StatusAlive 0 0) /\
  messageMember.status Demo.deadSelfRecord = StatusDead /\
  exists w' : World,
    updateStatusFromMember Demo.deadSelfRecord Demo.cluster = Ok tt w' /\
    heap w' = heap Demo.cluster.
Proof.
  split; [reflexivity |]. split; [reflexivity |]. split; [reflexivity |].
  destruct (dead_record_about_self_ignored Demo.cluster Demo.deadSelfRecord
              (Demo.nodeAt 1 StatusAlive 0 0) (Demo.nodeAt 1 StatusAlive 0 0)
              eq_refl eq_refl eq_refl eq_refl) as ((w' & Hrun & Hheap & _) & _).
  exists w'. split; assumption.
Defined.

Lemma receiveVerbAckUDP_without_entry_ignored_witness :
  heap Demo.cluster !! message.sender Demo.ackFromPeer
    = Some (Demo.nodeAt 2 StatusAlive 100 0) /\
  pendingAcks Demo.cluster
    !! pendingAckKey (Node.Address (Demo.nodeAt 2 StatusAlive 100 0))
         (message.senderHeartbeat Demo.ackFromPeer) = None /\
  receiveVerbAckUDP Demo.ackFromPeer Demo.cluster = Ok None Demo.cluster.
Proof.
  split; [reflexivity |]. split; [reflexivity |].
  apply (receiveVerbAckUDP_without_entry_ignored Demo.cluster Demo.ackFromPeer
           (Demo.nodeAt 2 StatusAlive 100 0)); reflexivity.
Defined.

Lemma receiveVerbForwardUDP_empty_members_panics_witness :
  message.members Demo.emptyPingRequest = [] /\
  receiveVerbForwardUDP Demo.emptyPingRequest Demo.cluster
    = Panic "index out of range [0] with length 0".
Proof.
  split; [reflexivity |].
  apply (receiveVerbForwardUDP_empty_members_panics Demo.cluster Demo.emptyPingRequest).
  reflexivity.
Defined.

(** The claim C7 fails where [nSigma] has a fraction: for
    [nSigma(3.0) = 50.5] the deadline of a Ping entry is 50, and the
    ceiling is 51. *)
Lemma timeoutMillis_is_not_the_ceiling :
  (pingData_nSigma (pingdata Demo.cluster) timeoutToleranceSigmas == 101 # 2)%Q /\
  timeoutMillisOf (pingdata Demo.cluster) packPing = 50 /\
  Qceiling (pingData_nSigma (pingdata Demo.cluster) timeoutToleranceSigmas) = 51 /\
  timeoutMillisOf (pingdata Demo.cluster) packPing
    ≠ Qceiling (pingData_nSigma (pingdata Demo.cluster) timeoutToleranceSigmas).
Proof. repeat split; vm_compute; discriminate. Qed.

Lemma timeoutMillisOf_floor_and_double_witness :
  (0 <= pingData_nSigma (pingdata Demo.cluster) timeoutToleranceSigmas)%Q /\
  (pingData_nSigma (pingdata Demo.cluster) timeoutToleranceSigmas < inject_Z (2 ^ 32))%Q /\
  timeoutMillisOf (pingdata Demo.cluster) packPing
    = Qfloor (pingData_nSigma (pingdata Demo.cluster) timeoutToleranceSigmas).
Proof.
  assert (Hlo : (0 <= pingData_nSigma (pingdata Demo.cluster) timeoutToleranceSigmas)%Q)
    by (vm_compute; discriminate).
  assert (Hhi : (pingData_nSigma (pingdata Demo.cluster) timeoutToleranceSigmas
                 < inject_Z (2 ^ 32))%Q) by (vm_compute; reflexivity).
  split; [exact Hlo |]. split; [exact Hhi |].
  apply (timeoutMillisOf_floor_and_double (pingdata Demo.cluster) Hlo Hhi).
Defined.


(** With a third node in the registry the expired Ping entry is relayed:
    a PingRequest is sent to the second peer, carrying the target as its
    first member (and once more as a node to gossip about), and the
    indirect ping is pending. *)
Example fan_out_scenario :
  exists w' : World,
    doForwardOnTimeout Demo.pingEntry Demo.cluster = Ok tt w' /\
    Demo.datagramsOf (Ok tt w') = [("10.0.0.3:9999", [2%positive; 2%positive])] /\
    pendingAck.packType <$> pendingAcks w' !! "10.0.0.3:9999:50" = Some packPingReq /\
    pendingAck.callback <$> pendingAcks w' !! "10.0.0.3:9999:50" = Some (Some 2%positive) /\
    Node.status <$> heap w' !! 2%positive = Some StatusAlive.
Proof.
  eexists. split; [vm_compute; reflexivity |]. repeat split.
Qed.

(** The random order of the demonstration is the order given. *)
Lemma Demo_shuffleWithin : shuffleWithin.
Proof. intros k A l x Hx. exact Hx. Defined.

Lemma Demo_shufflePermutes : shufflePermutes.
Proof. intros k A l. reflexivity. Defined.

(** Validity of the pointers of a registry, by evaluation. *)
Lemma valid_by_evaluation (m : gmap string ptr) (h : gmap ptr Node.t) :
  bool_decide (map_Forall (fun _ p => is_Some (h !! p)) m) = true ->
  forall a p, m !! a = Some p -> is_Some (h !! p).
Proof. intros H a p. apply bool_decide_eq_true_1 in H. exact (H a p). Defined.

Lemma keyed_by_evaluation (m : gmap string ptr) (h : gmap ptr Node.t) :
  bool_decide (map_Forall (fun a p => Node.Address <$> h !! p = Some a) m) = true ->
  keyedByAddress m h.
Proof.
  intros H a p Hp. apply bool_decide_eq_true_1 in H. specialize (H a p Hp).
  cbv beta in H. revert H. destruct (h !! p) as [n |]; simpl; intros H; [| discriminate H].
  exists n. split; [reflexivity |].
  injection H as H. exact H.
Defined.

Lemma wellFormed_by_evaluation (w : World) :
  bool_decide (is_Some (heap w !! thisHost w)) = true ->
  bool_decide (map_Forall (fun _ p => is_Some (heap w !! p)) (knownNodes w)) = true ->
  bool_decide (map_Forall (fun _ p => is_Some (heap w !! p)) (updatedNodes w)) = true ->
  wellFormed w.
Proof.
  intros H1 H2 H3. split; [exact (bool_decide_eq_true_1 _ H1) |].
  split; apply valid_by_evaluation; assumption.
Defined.

Lemma Demo_lambdaLogCount (k : nat) : 0 <= lambdaLogCount k.
Proof. do 5 (destruct k as [| k]; [cbn; lia |]). cbn. lia. Defined.

Lemma Demo_cluster_wellFormed : wellFormed Demo.cluster.
Proof. apply wellFormed_by_evaluation; vm_compute; reflexivity. Defined.


Lemma dead_node_backoff_witness :
  heap Demo.clusterWithDead !! 3%positive = Some (Demo.nodeAt 3 StatusDead 100 0) /\
  Node.status (Demo.nodeAt 3 StatusDead 100 0) = StatusDead /\
  runningFlag Demo.clusterWithDead = true /\
  deadNodeRetries Demo.clusterWithDead !! "10.0.0.3:9999" = Some (deadNodeCounter.mk 10 1) /\
  exists w' : World,
    visitNode 3%positive Demo.clusterWithDead = Ok (Continue, false) w' /\
    deadNodeRetries w' !! "10.0.0.3:9999" = None /\
    knownNodes w' !! "10.0.0.3:9999" = None.
Proof.
  split; [reflexivity |]. split; [reflexivity |]. split; [reflexivity |].
  split; [reflexivity |].
  destruct (dead_node_backoff Demo.clusterWithDead 3%positive
              (Demo.nodeAt 3 StatusDead 100 0) (deadNodeCounter.mk 10 1)
              eq_refl eq_refl eq_refl eq_refl)
    as (f & w' & Hb & Hvisit & _ & _ & Hforget).
  - cbn. lia.
  - cbn. lia.
  - destruct Hforget as (Hf & Hd & Hk); [cbn; lia | unfold maxDeadNodeRetries; cbn; lia |].
    exists w'. split; [apply Hvisit, Hf |]. split; assumption.
Defined.

(** ** The properties at concrete states *)

#[local] Existing Instance Demo.host.

Lemma AddNode_idempotent_witness :
  exists w1 : World,
    AddNode 4%positive Demo.clusterWithStranger = Ok 4%positive w1 /\
    AddNode 4%positive w1 = Ok 4%positive w1.
Proof.
  eexists. split; [vm_compute; reflexivity |].
  apply (AddNode_idempotent Demo.clusterWithStranger _ 4%positive 4%positive).
  vm_compute. reflexivity.
Defined.

Lemma AddNode_registers_no_marker_witness :
  heap Demo.clusterWithStranger !! 4%positive = Some (Demo.nodeAt 4 StatusAlive 10 0) /\
  knownNodes Demo.clusterWithStranger !! Node.Address (Demo.nodeAt 4 StatusAlive 10 0) = None /\
  exists w' : World,
    AddNode 4%positive Demo.clusterWithStranger = Ok 4%positive w' /\
    knownNodes w' = <["10.0.0.4:9999" := 4%positive]> (knownNodes Demo.clusterWithStranger) /\
    Node.status <$> heap w' !! 4%positive = Some StatusAlive.
Proof.
  assert (H1 : heap Demo.clusterWithStranger !! 4%positive
               = Some (Demo.nodeAt 4 StatusAlive 10 0)) by reflexivity.
  assert (H2 : knownNodes Demo.clusterWithStranger
                 !! Node.Address (Demo.nodeAt 4 StatusAlive 10 0) = None) by reflexivity.
  split; [exact H1 |]. split; [exact H2 |].
  destruct (AddNode_registers_no_marker Demo.clusterWithStranger 4%positive
              (Demo.nodeAt 4 StatusAlive 10 0) H1 H2) as [_ Hadds].
  destruct Hadds as (w' & n' & Hrun & Hk & _ & Hn' & _ & Hs & _); [discriminate |].
  exists w'. split; [exact Hrun |]. split; [exact Hk |].
  pose proof (f_equal (fmap Node.status) Hn') as Hstatus. cbn in Hstatus.
  rewrite Hs in Hstatus. exact Hstatus.
Defined.

Lemma RemoveNode_unregisters_only_witness :
  heap Demo.cluster !! 3%positive = Some (Demo.nodeAt 3 StatusAlive 100 3) /\
  exists w' : World,
    RemoveNode 3%positive Demo.cluster = Ok 3%positive w' /\
    knownNodes w' = delete "10.0.0.3:9999" (knownNodes Demo.cluster) /\
    updatedNodes w' = updatedNodes Demo.cluster /\
    knownNodesModifiedFlag w' = true.
Proof.
  assert (H1 : heap Demo.cluster !! 3%positive = Some (Demo.nodeAt 3 StatusAlive 100 3))
    by reflexivity.
  split; [exact H1 |].
  destruct (RemoveNode_unregisters_only Demo.cluster 3%positive
              (Demo.nodeAt 3 StatusAlive 100 3) H1)
    as (w' & Hrun & Hk & Hu & _ & _ & _ & _ & Hflag).
  exists w'. split; [exact Hrun |]. split; [exact Hk |]. split; [exact Hu |].
  apply Hflag. eexists. reflexivity.
Defined.

Lemma AddNode_then_RemoveNode_witness :
  heap Demo.clusterWithStranger !! 4%positive = Some (Demo.nodeAt 4 StatusAlive 10 0) /\
  knownNodes Demo.clusterWithStranger !! Node.Address (Demo.nodeAt 4 StatusAlive 10 0) = None /\
  Node.status (Demo.nodeAt 4 StatusAlive 10 0) ≠ StatusForwardTo /\
  exists w1 w2 : World,
    AddNode 4%positive Demo.clusterWithStranger = Ok 4%positive w1 /\
    is_Some (knownNodes w1 !! "10.0.0.4:9999") /\
    RemoveNode 4%positive w1 = Ok 4%positive w2 /\
    knownNodes w2 = knownNodes Demo.clusterWithStranger /\
    knownNodesModifiedFlag w2 = true.
Proof.
  assert (H1 : heap Demo.clusterWithStranger !! 4%positive
               = Some (Demo.nodeAt 4 StatusAlive 10 0)) by reflexivity.
  assert (H2 : knownNodes Demo.clusterWithStranger
                 !! Node.Address (Demo.nodeAt 4 StatusAlive 10 0) = None) by reflexivity.
  assert (H3 : Node.status (Demo.nodeAt 4 StatusAlive 10 0) ≠ StatusForwardTo)
    by discriminate.
  split; [exact H1 |]. split; [exact H2 |]. split; [exact H3 |].
  exact (AddNode_then_RemoveNode Demo.clusterWithStranger 4%positive
           (Demo.nodeAt 4 StatusAlive 10 0) H1 H2 H3).
Defined.

Lemma updateNodeStatus_transition_rearms_witness :
  heap Demo.cluster !! 2%positive = Some (Demo.nodeAt 2 StatusAlive 100 0) /\
  Node.status (Demo.nodeAt 2 StatusAlive 100 0) ≠ StatusDead /\
  exists (w' : World) (n' : Node.t),
    updateNodeStatus 2%positive StatusDead 100 Demo.cluster = Ok tt w' /\
    heap w' !! 2%positive = Some n' /\
    Node.status n' = StatusDead /\
    Node.emitCounter n' = 3 /\
    is_Some (updatedNodes w' !! "10.0.0.2:9999").
Proof.
  assert (H1 : heap Demo.cluster !! 2%positive = Some (Demo.nodeAt 2 StatusAlive 100 0))
    by reflexivity.
  assert (H2 : Node.status (Demo.nodeAt 2 StatusAlive 100 0) ≠ StatusDead) by discriminate.
  split; [exact H1 |]. split; [exact H2 |].
  destruct (updateNodeStatus_transition_rearms Demo.cluster 2%positive
              (Demo.nodeAt 2 StatusAlive 100 0) StatusDead 100 H1 H2)
    as (w' & n' & Hrun & Hn' & Hs & _ & _ & _ & Hec & _ & _ & Hupd & _).
  exists w', n'. split; [exact Hrun |]. split; [exact Hn' |]. split; [exact Hs |].
  split; [| exact Hupd]. apply Hec. vm_compute. split; discriminate.
Defined.

Lemma getRandomUpdatedNodes_newest_first_witness :
  shuffleWithin /\
  (forall a p, updatedNodes Demo.clusterWithNews !! a = Some p ->
     is_Some (heap Demo.clusterWithNews !! p)) /\
  (forall x, x ∈ [1%positive] -> is_Some (heap Demo.clusterWithNews !! x)) /\
  exists (l : list ptr) (w' : World) (counters : list Z),
    getRandomUpdatedNodes 5 [1%positive] Demo.clusterWithNews = Ok l w' /\
    Z.of_nat (length l) <= 5 /\
    Forall2 (fun p c => Node.emitCounter <$> heap Demo.clusterWithNews !! p = Some c)
      l counters /\
    descending counters.
Proof.
  assert (H2 : forall a p, updatedNodes Demo.clusterWithNews !! a = Some p ->
                 is_Some (heap Demo.clusterWithNews !! p))
    by (apply valid_by_evaluation; vm_compute; reflexivity).
  assert (H3 : forall x, x ∈ [1%positive] -> is_Some (heap Demo.clusterWithNews !! x)).
  { intros x Hx. apply list_elem_of_singleton in Hx. subst x. eexists. reflexivity. }
  split; [exact Demo_shuffleWithin |]. split; [exact H2 |]. split; [exact H3 |].
  destruct (getRandomUpdatedNodes_newest_first 5 [1%positive] Demo.clusterWithNews
              Demo_shuffleWithin H2 H3) as [Hselect _].
  destruct Hselect as (l & w' & counters & Hrun & _ & _ & Hlen & _ & Hcounters & Hdesc);
    [lia |].
  exists l, w', counters. auto.
Defined.

Lemma getRandomUpdatedNodes_prunes_spent_witness :
  shufflePermutes /\
  keyedByAddress (updatedNodes Demo.clusterWithNews) (heap Demo.clusterWithNews) /\
  (forall x, x ∈ [3%positive] -> is_Some (heap Demo.clusterWithNews !! x)) /\
  0 <= 5 /\
  exists (l : list ptr) (w' : World),
    getRandomUpdatedNodes 5 [3%positive] Demo.clusterWithNews = Ok l w' /\
    forall (a : string) (p : ptr),
      updatedNodes w' !! a = Some p <->
      updatedNodes Demo.clusterWithNews !! a = Some p /\
      exists n, heap Demo.clusterWithNews !! p = Some n /\ 0 < Node.emitCounter n.
Proof.
  assert (H2 : keyedByAddress (updatedNodes Demo.clusterWithNews) (heap Demo.clusterWithNews))
    by (apply keyed_by_evaluation; vm_compute; reflexivity).
  assert (H3 : forall x, x ∈ [3%positive] -> is_Some (heap Demo.clusterWithNews !! x)).
  { intros x Hx. apply list_elem_of_singleton in Hx. subst x. eexists. reflexivity. }
  assert (H4 : 0 <= 5) by lia.
  split; [exact Demo_shufflePermutes |]. split; [exact H2 |]. split; [exact H3 |].
  split; [exact H4 |].
  exact (getRandomUpdatedNodes_prunes_spent 5 [3%positive] Demo.clusterWithNews
           Demo_shufflePermutes H2 H3 H4).
Defined.

Lemma HealthyNodes_lists_the_alive_witness :
  shufflePermutes /\
  (forall a p, knownNodes Demo.clusterWithDead !! a = Some p ->
     is_Some (heap Demo.clusterWithDead !! p)) /\
  exists allNodes healthy : list ptr,
    AllNodes Demo.clusterWithDead
      = Ok allNodes (set_draws (S (draws Demo.clusterWithDead)) Demo.clusterWithDead) /\
    HealthyNodes Demo.clusterWithDead
      = Ok healthy (set_draws (S (draws Demo.clusterWithDead)) Demo.clusterWithDead) /\
    healthy = filter (fun p => Node.status <$> heap Demo.clusterWithDead !! p
                               = Some StatusAlive) allNodes.
Proof.
  assert (H2 : forall a p, knownNodes Demo.clusterWithDead !! a = Some p ->
                 is_Some (heap Demo.clusterWithDead !! p))
    by (apply valid_by_evaluation; vm_compute; reflexivity).
  split; [exact Demo_shufflePermutes |]. split; [exact H2 |].
  destruct (HealthyNodes_lists_the_alive Demo.clusterWithDead Demo_shufflePermutes H2)
    as (allNodes & healthy & Hall & Hhealthy & Hfilter & _).
  exists allNodes, healthy. auto.
Defined.

Lemma transmitted_datagram_shape_witness :
  shuffleWithin /\
  wellFormed Demo.cluster /\
  0 <= lambdaLogCount (size (knownNodes Demo.cluster)) /\
  heap Demo.cluster !! 2%positive = Some (Demo.nodeAt 2 StatusAlive 100 0) /\
  (forall t, Some 3%positive = Some t -> is_Some (heap Demo.cluster !! t)) /\
  exists (e : option error) (w' : World),
    transmitVerbGenericUDP 2%positive (Some 3%positive) verbPingRequest 50 Demo.cluster
      = Ok e w' /\
    (e = None ->
     exists (msg : message.t) (gossip : list messageMember.t),
       sentDatagrams (events w')
         = ("10.0.0.2:9999", msg) :: sentDatagrams (events Demo.cluster) /\
       message.verb msg = verbPingRequest /\
       message.members msg = [messageMember.mk 50 3%positive StatusForwardTo] ++ gossip).
Proof.
  assert (H3 : 0 <= lambdaLogCount (size (knownNodes Demo.cluster)))
    by apply Demo_lambdaLogCount.
  assert (H4 : heap Demo.cluster !! 2%positive = Some (Demo.nodeAt 2 StatusAlive 100 0))
    by reflexivity.
  assert (H5 : forall t, Some 3%positive = Some t -> is_Some (heap Demo.cluster !! t)).
  { intros t Ht. injection Ht as <-. eexists. reflexivity. }
  split; [exact Demo_shuffleWithin |]. split; [exact Demo_cluster_wellFormed |].
  split; [exact H3 |]. split; [exact H4 |]. split; [exact H5 |].
  destruct (transmitted_datagram_shape 2%positive (Some 3%positive) verbPingRequest 50
              Demo.cluster (Demo.nodeAt 2 StatusAlive 100 0)
              Demo_shuffleWithin Demo_cluster_wellFormed H3 H4 H5)
    as (e & w' & Hrun & _ & _ & Hsent).
  exists e, w'. split; [exact Hrun |]. intros He.
  destruct (Hsent He) as (msg & gossip & Hd & Hverb & _ & _ & Hmembers & _).
  exists msg, gossip. auto.
Defined.

Lemma PingNode_registers_then_sends_witness :
  shuffleWithin /\
  wellFormed Demo.cluster /\
  0 <= lambdaLogCount (size (knownNodes Demo.cluster)) /\
  heap Demo.cluster !! 2%positive = Some (Demo.nodeAt 2 StatusAlive 100 0) /\
  exists (e : option error) (w' : World),
    PingNode 2%positive Demo.cluster = Ok e w' /\
    pendingAcks w' =
      <["10.0.0.2:9999:50" := pendingAck.mk 10000 2%positive None 0 packPing]>
        (pendingAcks Demo.cluster).
Proof.
  assert (H3 : 0 <= lambdaLogCount (size (knownNodes Demo.cluster)))
    by apply Demo_lambdaLogCount.
  assert (H4 : heap Demo.cluster !! 2%positive = Some (Demo.nodeAt 2 StatusAlive 100 0))
    by reflexivity.
  split; [exact Demo_shuffleWithin |]. split; [exact Demo_cluster_wellFormed |].
  split; [exact H3 |]. split; [exact H4 |].
  destruct (PingNode_registers_then_sends 2%positive Demo.cluster
              (Demo.nodeAt 2 StatusAlive 100 0)
              Demo_shuffleWithin Demo_cluster_wellFormed H3 H4)
    as (e & w' & Hrun & Hacks & _).
  exists e, w'. split; [exact Hrun | exact Hacks].
Defined.

Lemma receiveVerbAckUDP_resolves_entry_witness :
  heap Demo.pair !! message.sender Demo.ackOfPing = Some (Demo.nodeAt 2 StatusAlive 40 0) /\
  pendingAcks Demo.pair
    !! pendingAckKey (Node.Address (Demo.nodeAt 2 StatusAlive 40 0))
         (message.senderHeartbeat Demo.ackOfPing) = Some Demo.pingEntry /\
  (pendingAck.callback Demo.pingEntry = None ->
   is_Some (heap Demo.pair !! pendingAck.node Demo.pingEntry)) /\
  exists w' : World,
    receiveVerbAckUDP Demo.ackOfPing Demo.pair = Ok None w' /\
    pendingAcks w' = delete "10.0.0.2:9999:50" (pendingAcks Demo.pair) /\
    Node.pingMillis <$> heap w' !! 2%positive = Some 10000 /\
    pingdata w' = pingData_add 10000 (pingdata Demo.pair).
Proof.
  assert (H1 : heap Demo.pair !! message.sender Demo.ackOfPing
               = Some (Demo.nodeAt 2 StatusAlive 40 0)) by reflexivity.
  assert (H2 : pendingAcks Demo.pair
                 !! pendingAckKey (Node.Address (Demo.nodeAt 2 StatusAlive 40 0))
                      (message.senderHeartbeat Demo.ackOfPing) = Some Demo.pingEntry)
    by reflexivity.
  assert (H3 : pendingAck.callback Demo.pingEntry = None ->
               is_Some (heap Demo.pair !! pendingAck.node Demo.pingEntry)).
  { intros _. eexists. reflexivity. }
  split; [exact H1 |]. split; [exact H2 |]. split; [exact H3 |].
  destruct (receiveVerbAckUDP_resolves_entry Demo.pair Demo.ackOfPing
              (Demo.nodeAt 2 StatusAlive 40 0) Demo.pingEntry H1 H2 H3)
    as (w' & Hrun & Hacks & _ & _ & _ & Hping & Hdata & _).
  exists w'. split; [exact Hrun |]. split; [exact Hacks |]. split; [exact Hping | exact Hdata].
Defined.

Lemma ping_then_ack_round_trip_witness :
  exists (e : option error) (w1 : World),
    heap Demo.cluster !! 2%positive = Some (Demo.nodeAt 2 StatusAlive 100 0) /\
    PingNode 2%positive Demo.cluster = Ok e w1 /\
    message.sender Demo.ackOfPing = 2%positive /\
    message.senderHeartbeat Demo.ackOfPing = currentHeartbeat Demo.cluster /\
    exists w2 : World,
      receiveVerbAckUDP Demo.ackOfPing w1 = Ok None w2 /\
      pendingAcks w2 = delete "10.0.0.2:9999:50" (pendingAcks Demo.cluster).
Proof.
  eexists _, _.
  split; [reflexivity |]. split; [vm_compute; reflexivity |].
  split; [reflexivity |]. split; [reflexivity |].
  destruct (ping_then_ack_round_trip 2%positive Demo.cluster _ _
              (Demo.nodeAt 2 StatusAlive 100 0) Demo.ackOfPing
              eq_refl ltac:(vm_compute; reflexivity) eq_refl eq_refl)
    as (w2 & Hrun & Hacks & _).
  exists w2. split; [exact Hrun | exact Hacks].
Defined.

Lemma PingRequest_relayed_witness :
  shuffleWithin /\
  wellFormed Demo.cluster /\
  0 <= lambdaLogCount (size (knownNodes Demo.cluster)) /\
  message.members Demo.pingRequest = Demo.forwardMarker :: [] /\
  heap Demo.cluster !! messageMember.node Demo.forwardMarker
    = Some (Demo.nodeAt 3 StatusAlive 100 3) /\
  exists (e : option error) (w' : World),
    receiveVerbForwardUDP Demo.pingRequest Demo.cluster = Ok e w' /\
    pendingAcks w' =
      <["10.0.0.3:9999:77" :=
          pendingAck.mk 10000 3%positive (Some 2%positive) 77 packNFP]>
        (pendingAcks Demo.cluster).
Proof.
  assert (H3 : 0 <= lambdaLogCount (size (knownNodes Demo.cluster)))
    by apply Demo_lambdaLogCount.
  assert (H4 : message.members Demo.pingRequest = Demo.forwardMarker :: []) by reflexivity.
  assert (H5 : heap Demo.cluster !! messageMember.node Demo.forwardMarker
               = Some (Demo.nodeAt 3 StatusAlive 100 3)) by reflexivity.
  split; [exact Demo_shuffleWithin |]. split; [exact Demo_cluster_wellFormed |].
  split; [exact H3 |]. split; [exact H4 |]. split; [exact H5 |].
  destruct (PingRequest_relayed Demo.cluster Demo.pingRequest Demo.forwardMarker []
              (Demo.nodeAt 3 StatusAlive 100 3)
              Demo_shuffleWithin Demo_cluster_wellFormed H3 H4 H5) as [_ Hrelay].
  destruct (Hrelay eq_refl) as (e & w' & Hrun & Hacks & _).
  exists e, w'. split; [exact Hrun | exact Hacks].
Defined.

Lemma visitNode_probes_live_node_witness :
  shuffleWithin /\
  wellFormed Demo.cluster /\
  0 <= lambdaLogCount (size (knownNodes Demo.cluster)) /\
  heap Demo.cluster !! 2%positive = Some (Demo.nodeAt 2 StatusAlive 100 0) /\
  runningFlag Demo.cluster = true /\
  Node.status (Demo.nodeAt 2 StatusAlive 100 0) ≠ StatusDead /\
  exists w' : World,
    visitNode 2%positive Demo.cluster = Ok (Fallthrough, true) w' /\
    currentHeartbeat w' = 51 /\
    head (events w') = Some (Sleep heartbeatMillis).
Proof.
  assert (H3 : 0 <= lambdaLogCount (size (knownNodes Demo.cluster)))
    by apply Demo_lambdaLogCount.
  assert (H4 : heap Demo.cluster !! 2%positive = Some (Demo.nodeAt 2 StatusAlive 100 0))
    by reflexivity.
  assert (H5 : runningFlag Demo.cluster = true) by reflexivity.
  assert (H6 : Node.status (Demo.nodeAt 2 StatusAlive 100 0) ≠ StatusDead) by discriminate.
  split; [exact Demo_shuffleWithin |]. split; [exact Demo_cluster_wellFormed |].
  split; [exact H3 |]. split; [exact H4 |]. split; [exact H5 |]. split; [exact H6 |].
  destruct (visitNode_probes_live_node 2%positive Demo.cluster
              (Demo.nodeAt 2 StatusAlive 100 0)
              Demo_shuffleWithin Demo_cluster_wellFormed H3 H4 H5 H6)
    as (f & w' & Hrun & Hhb & _ & Hsleep & _ & _ & Hf).
  exists w'. subst f. split; [exact Hrun |]. split; [exact Hhb | exact Hsleep].
Defined.

Lemma beginRound_without_probe_witness :
  shuffleWithin /\
  wellFormed (set_runningFlag false Demo.cluster) /\
  beginRound (set_runningFlag false Demo.cluster)
    = Ok false (set_draws 1 (set_runningFlag false Demo.cluster)).
Proof.
  assert (H2 : wellFormed (set_runningFlag false Demo.cluster))
    by (apply wellFormed_by_evaluation; vm_compute; reflexivity).
  split; [exact Demo_shuffleWithin |]. split; [exact H2 |].
  destruct (beginRound_without_probe (set_runningFlag false Demo.cluster)
              Demo_shuffleWithin H2) as [Hstopped _].
  exact (Hstopped eq_refl).
Defined.

Lemma timeoutCheckSweep_spares_fresh_entries_witness :
  (forall (i : nat) (k : string) (pack : pendingAck.t),
     @shuffle Ticking.collaborators (draws Ticking.justPinged) _
       (map_to_list (pendingAcks Ticking.justPinged)) !! i = Some (k, pack) ->
     ¬ wrap32 (wrap32 (@millis Ticking.collaborators (ticks Ticking.justPinged + i))
               - pendingAck.startTime pack)
         > timeoutMillisOf (pingdata Ticking.justPinged) (pendingAck.packType pack)) /\
  exists w' : @World Ticking.collaborators,
    timeoutCheckSweep Ticking.justPinged = Ok tt w' /\
    pendingAcks w' = pendingAcks Ticking.justPinged /\
    heap w' = heap Ticking.justPinged /\
    ticks w' = 5%nat /\
    events w' = Sleep 100 :: events Ticking.justPinged.
Proof.
  assert (H1 : forall (i : nat) (k : string) (pack : pendingAck.t),
             @shuffle Ticking.collaborators (draws Ticking.justPinged) _
               (map_to_list (pendingAcks Ticking.justPinged)) !! i = Some (k, pack) ->
             ¬ wrap32 (wrap32 (@millis Ticking.collaborators (ticks Ticking.justPinged + i))
                       - pendingAck.startTime pack)
                 > timeoutMillisOf (pingdata Ticking.justPinged) (pendingAck.packType pack)).
  { intros i k pack Hi.
    destruct i as [| [| i]]; vm_compute in Hi; [| | discriminate Hi];
      injection Hi as <- <-; vm_compute; discriminate. }
  split; [exact H1 |].
  destruct (timeoutCheckSweep_spares_fresh_entries Ticking.justPinged H1)
    as (w' & Hrun & Hacks & Hheap & _ & _ & Hticks & Hev).
  exists w'. auto.
Defined.

Lemma Demo_gossip_nodes :
  forall q,
    q ∈ message.sender Demo.pingWithGossip
        :: (messageMember.node <$> message.members Demo.pingWithGossip) ->
    exists n, heap Demo.cluster !! q = Some n /\ Node.status n ≠ StatusForwardTo.
Proof.
  intros q Hq. apply elem_of_cons in Hq as [-> | Hq].
  - eexists. split; [reflexivity | discriminate].
  - apply list_elem_of_singleton in Hq. subst q. eexists. split; [reflexivity | discriminate].
Defined.

Lemma merge_returns_and_registers_sender_witness :
  wellFormed Demo.cluster /\
  (forall q,
     q ∈ message.sender Demo.pingWithGossip
         :: (messageMember.node <$> message.members Demo.pingWithGossip) ->
     exists n, heap Demo.cluster !! q = Some n /\ Node.status n ≠ StatusForwardTo) /\
  exists w' : World,
    updateStatusesFromMessage Demo.pingWithGossip Demo.cluster = Ok tt w' /\
    wellFormed w' /\
    (forall a r, knownNodes Demo.cluster !! a = Some r -> knownNodes w' !! a = Some r).
Proof.
  split; [exact Demo_cluster_wellFormed |]. split; [exact Demo_gossip_nodes |].
  destruct (merge_returns_and_registers_sender Demo.pingWithGossip Demo.cluster
              Demo_cluster_wellFormed Demo_gossip_nodes)
    as (w' & Hrun & Hwf & _ & Hmono & _).
  exists w'. auto.
Defined.

Lemma receiveMessageUDP_returns_witness :
  shuffleWithin /\
  wellFormed Demo.cluster /\
  (forall q,
     q ∈ message.sender Demo.pingWithGossip
         :: (messageMember.node <$> message.members Demo.pingWithGossip) ->
     exists n, heap Demo.cluster !! q = Some n /\ Node.status n ≠ StatusForwardTo) /\
  (forall k : nat, (0 < k)%nat -> 0 <= lambdaLogCount k) /\
  (forall key pack, pendingAcks Demo.cluster !! key = Some pack ->
     is_Some (heap Demo.cluster !! pendingAck.node pack)) /\
  (message.verb Demo.pingWithGossip = verbPingRequest ->
   message.members Demo.pingWithGossip ≠ []) /\
  exists (e : option error) (w' : World),
    receiveMessageUDP Demo.pingWithGossip Demo.cluster = Ok e w' /\
    wellFormed w' /\
    is_Some (knownNodes w' !! "10.0.0.2:9999").
Proof.
  assert (H4 : forall k : nat, (0 < k)%nat -> 0 <= lambdaLogCount k)
    by (intros k _; apply Demo_lambdaLogCount).
  assert (H5 : forall key pack, pendingAcks Demo.cluster !! key = Some pack ->
                 is_Some (heap Demo.cluster !! pendingAck.node pack)).
  { intros key pack Hk.
    change (pendingAcks Demo.cluster) with (∅ : gmap string pendingAck.t) in Hk.
    rewrite lookup_empty in Hk. discriminate Hk. }
  assert (H6 : message.verb Demo.pingWithGossip = verbPingRequest ->
               message.members Demo.pingWithGossip ≠ []) by discriminate.
  split; [exact Demo_shuffleWithin |]. split; [exact Demo_cluster_wellFormed |].
  split; [exact Demo_gossip_nodes |]. split; [exact H4 |]. split; [exact H5 |].
  split; [exact H6 |].
  destruct (receiveMessageUDP_returns Demo.pingWithGossip Demo.cluster
              Demo_shuffleWithin Demo_cluster_wellFormed Demo_gossip_nodes H4 H5 H6)
    as (e & w' & Hrun & Hwf & Hsender & _).
  exists e, w'. split; [exact Hrun |]. split; [exact Hwf |].
  exact (Hsender (Demo.nodeAt 2 StatusAlive 100 0) eq_refl).
Defined.

Lemma GetLocalIP_examines_eligible_interfaces_witness :
  Interfaces = inl Demo.interfaces /\
  GetLocalIP = ([10; 0; 0; 1], None) /\
  exists iface : net.Interface,
    iface ∈ Demo.interfaces /\ eligible iface /\ offers iface [10; 0; 0; 1].
Proof.
  assert (H1 : Interfaces = inl Demo.interfaces) by reflexivity.
  assert (H2 : GetLocalIP = ([10; 0; 0; 1], None)) by (vm_compute; reflexivity).
  split; [exact H1 |]. split; [exact H2 |].
  destruct (GetLocalIP_examines_eligible_interfaces Demo.interfaces [10; 0; 0; 1] H1 H2)
    as [[Hnil | [_ Hfrom]] _]; [discriminate Hnil | exact Hfrom].
Defined.

Lemma parseNodeAddress_reports_network_errors_only_witness :
  parsedErr (parseNodeAddress "a:b:c") = Some (netError "no such host") /\
  exists what : string, netError "no such host" = netError what.
Proof.
  assert (H1 : parsedErr (parseNodeAddress "a:b:c") = Some (netError "no such host"))
    by (vm_compute; reflexivity).
  split; [exact H1 |].
  exact (parseNodeAddress_reports_network_errors_only "a:b:c" (netError "no such host") H1).
Defined.

Lemma parseNodeAddress_port_witness :
  strings_Contains "peer" colon = false /\
  strings_Contains "99999" colon = false /\
  parsedPort (parseNodeAddress "peer") = 9999 /\
  parsedPort (parseNodeAddress "peer:99999") = 65535 /\
  parsedErr (parseNodeAddress "peer:99999") = None.
Proof.
  assert (H1 : strings_Contains "peer" colon = false) by reflexivity.
  assert (H2 : strings_Contains "99999" colon = false) by reflexivity.
  split; [exact H1 |]. split; [exact H2 |].
  destruct (parseNodeAddress_port "peer" "99999" H1 H2) as (Hdefault & Hport & _).
  split; [exact Hdefault |]. split; [exact Hport |]. vm_compute. reflexivity.
Defined.

Lemma parseNodeAddress_Address_port_witness :
  0 <= Node.port (Demo.nodeAt 2 StatusAlive 100 0) <= 65535 /\
  parsedPort (parseNodeAddress "10.0.0.2:9999") = 9999.
Proof.
  assert (H1 : 0 <= Node.port (Demo.nodeAt 2 StatusAlive 100 0) <= 65535) by (cbn; lia).
  split; [exact H1 |].
  exact (parseNodeAddress_Address_port (Demo.nodeAt 2 StatusAlive 100 0) H1).
Defined.

Lemma beginPrologue_registers_this_host_witness :
  (forall a p, knownNodes Demo.unstarted !! a = Some p ->
     is_Some (heap Demo.unstarted !! p)) /\
  (forall a p, updatedNodes Demo.unstarted !! a = Some p ->
     is_Some (heap Demo.unstarted !! p)) /\
  exists (lines : list StartupLine) (w' : World) (me : Node.t),
    beginPrologue Demo.unstarted = Ok (lines, true) w' /\
    runningFlag w' = true /\
    heap w' !! thisHost w' = Some me /\
    Node.status me = StatusAlive /\
    Node.Address me = "10.0.0.1:9999" /\
    is_Some (knownNodes w' !! Node.Address me) /\
    wellFormed w'.
Proof.
  assert (H1 : forall a p, knownNodes Demo.unstarted !! a = Some p ->
                 is_Some (heap Demo.unstarted !! p))
    by (apply valid_by_evaluation; vm_compute; reflexivity).
  assert (H2 : forall a p, updatedNodes Demo.unstarted !! a = Some p ->
                 is_Some (heap Demo.unstarted !! p))
    by (apply valid_by_evaluation; vm_compute; reflexivity).
  split; [exact H1 |]. split; [exact H2 |].
  destruct (beginPrologue_registers_this_host Demo.unstarted H1 H2)
    as (lines & w' & me & Hrun & Hflag & _ & Hme & Hs & _ & Ha & Hreg & _ & Hwf & _).
  exists lines, w', me. auto 10.
Defined.

(** C6: where the code departs from "never Dead".  The merge has the
    guard ("Don't tell ME I'm dead"); the timeout checker has none.
    This host (location 1, Alive, registered) receives a PingRequest of
    the first peer whose forward marker names this host itself: the
    handler registers an NFP entry whose node is this host.  No Ack
    arrives; at the sixth sweep of the timeout checker, 60 ms later, the
    entry has exceeded its deadline of 50 ms and the checker marks its
    node Dead: this host is then Dead in its own registry. *)
Theorem self_marked_dead_by_relayed_ping_timeout :
  thisHost Ticking.cluster = 1%positive /\
  knownNodes Ticking.cluster !! "10.0.0.1:9999" = Some 1%positive /\
  Node.status <$> heap Ticking.cluster !! 1%positive = Some StatusAlive /\
  exists (e : option error) (w1 w2 : @World Ticking.collaborators),
    receiveMessageUDP Ticking.pingRequestForSelf Ticking.cluster = Ok e w1 /\
    pendingAck.packType <$> pendingAcks w1 !! "10.0.0.1:9999:77" = Some packNFP /\
    pendingAck.node <$> pendingAcks w1 !! "10.0.0.1:9999:77" = Some 1%positive /\
    Node.status <$> heap w1 !! 1%positive = Some StatusAlive /\
    Ticking.sweeps 6 w1 = Ok tt w2 /\
    thisHost w2 = 1%positive /\
    knownNodes w2 !! "10.0.0.1:9999" = Some 1%positive /\
    Node.status <$> heap w2 !! thisHost w2 = Some StatusDead.
Proof.
  split; [reflexivity |]. split; [reflexivity |]. split; [reflexivity |].
  eexists _, _, _. split; [vm_compute; reflexivity |].
  split; [vm_compute; reflexivity |]. split; [vm_compute; reflexivity |].
  split; [vm_compute; reflexivity |]. split; [vm_compute; reflexivity |].
  split; [reflexivity |]. split; [vm_compute; reflexivity |]. vm_compute. reflexivity.
Qed.
